(* ===== verification/_CoqProject ===== *)
-Q . S2P
Prelude.v
GoStrings.v
Strconv.v
Md5.v
Schema.v
KeyCache.v
KeyCacheConc.v
Util.v
Logging.v
Kafka.v
Partition.v
KafkaSpec.v
PartitionSpec.v
PublishConc.v
PublishConcSpec.v
PublishClears.v
Publish.v
Http.v
Ingest.v
IngestSpec.v
Gcom.v
GcomSpec.v
Singleflight.v
GcomConc.v
AuthPlugins.v
Api.v
ApiSpec.v
Middleware.v
Carbon.v
CarbonSpec.v
CarbonConc.v
CarbonListener.v
CarbonStop.v
Write.v
WriteSpec.v
Query.v
QuerySpec.v
Datadog.v
DatadogSpec.v
PoolConc.v
PoolOwner.v
PoolConcSpec.v
Persister.v
PersisterSpec.v
PersisterSvc.v
Router.v
RouterSpec.v
Cmd.v
Gateway.v
GatewaySpec.v
GatewayUrls.v
Shutdown.v
Process.v
ProcessSpec.v
Startup.v
Flags.v
FlagsSpec.v
