(* ===== verification/Prelude.v ===== *)
(** * tsdb-gw: verification development

    tsdb-gw is a multi-tenant gateway in front of a metrics store. It takes
    metrics over HTTP (its own formats, Prometheus, OpenTSDB, Datadog) and over a
    plain-text TCP/UDP port (carbon), gives every metric of a tenant the org of
    the user who sent it, and publishes to Kafka; it proxies queries to graphite
    and metrictank with the user's org in a header; a second process, the
    persister, keeps the metrics of Datadog agents alive. This development is a
    shallow embedding of the Go code in Rocq, one file per component and one for
    its theorems where they are many, in the order of _CoqProject. Paths are
    relative to src/.

    ** Conventions

    A Go [string] is Stdlib's [string] (bytes); an [int] or a sized integer is a
    [Z], with [is_u]/[is_s] for its range and [wrap_u]/[wrap_s] where the code
    wraps; a [float64] is its bit pattern; a map is a [gmap], and where the order
    in which Go ranges over it matters, the order is an argument. A call that may
    fail or panic is an [outcome]; stateful code is in the monad [ST] below or
    passes its state; goroutines are step functions or relations over a
    configuration, one step per lock region, channel operation or [select] case.
    Users, metrics and tag arrays that the code shares through pointers live in
    stores. An operation that waits for ever is [None].

    What is not this repository's code or the standard library's is an argument
    of the definitions that use it (JSON, msgp, protobuf, snappy, gzip and zlib
    decoding, the Kafka producer, Bigtable, grafana.com's answers, the clock, the
    rate limiter, [strconv.ParseFloat], the carbon20 packet check, the parsers of
    dates, durations and ini files). Where a theorem relies on such code the law is a
    hypothesis or a class with an instance: [PublisherLaws] (Publish.v, instances
    [nullPublisher] and Kafka), [AuthPluginLaws] (AuthPlugins.v, the three
    plugins), [BigtableAdminLaws] (PersisterSvc.v).

    ** The parts

    - GoStrings.v, Strconv.v, Md5.v: what the code uses of strings, strconv,
      encoding/* and crypto/md5.
    - Schema.v: the vendored metrictank/schema: MetricData, its validation and
      id, MKey, the MetricPoint wire formats and their round trip.
    - KeyCache.v, KeyCacheConc.v: publish/kafka/keycache: against one set of
      keys, and with [Touch] and [clear] interleaved lock by lock.
    - Util.v, Logging.v: util/: URLs, the list flag, the buffer pools, the debug
      endpoint and its profiling handlers; log.go and tracer.go.
    - Kafka.v, KafkaSpec.v: publish/kafka/publish.go and schemas.go: settings,
      start-up checks, [Publish] with its early returns. PublishConc.v,
      PublishConcSpec.v, PublishClears.v: calls of [Publish] at the same time,
      and the key cache cleared meanwhile, one lock at a time, with calls that
      still hold the cache of an org that was dropped. Publish.v:
      publish/publish.go in front of any publisher.
    - Partition.v, PartitionSpec.v: the partition of a metric, with the vendored
      hashes behind it (FNV-1a, XXH64, jump hashing with its float64 numbers):
      what Kafka.v has as a parameter, and the publisher with it.
    - Http.v: users, roles, replies. Ingest.v, IngestSpec.v: POST /metrics
      (ingest/metrics.go, metrics_response.go, rate_limit.go).
    - Gcom.v, GcomSpec.v, GcomConc.v, Singleflight.v: auth/gcom: caches and
      validation; the token cache lock by lock; the validations shared by
      concurrent callers. AuthPlugins.v: auth/.
    - Api.v, ApiSpec.v, Middleware.v: api/middleware.go: credentials, roles,
      chains, statistics; the response writers, the tracer, the recovery.
    - Carbon.v, CarbonSpec.v, CarbonConc.v, CarbonListener.v, CarbonStop.v:
      ingest/carbon: the parser and one flusher's loop; several flushers; streams,
      connections and the life of the listener, with the vendored input package:
      the sockets that fail and are opened again, the shutdown, and when the
      shutdown gets to its end.
    - Write.v, WriteSpec.v: ingest/prometheus.go and opentsdb.go on the metric
      pool, as a store of objects and tag arrays with Go's [append].
    - PoolConc.v, PoolOwner.v, PoolConcSpec.v: the pooled handlers (Prometheus,
      OpenTSDB, Datadog) as programs of single accesses to the pool, its metrics
      and the broker, interleaved; who owns which metric and tag array; what each
      request publishes whatever runs beside it.
    - Datadog.v, DatadogSpec.v: ingest/datadog. Query.v, QuerySpec.v: query/ and
      the bulk importer, with [httputil.ReverseProxy]'s treatment of headers.
    - Persister.v, PersisterSpec.v, PersisterSvc.v: persister/, metrics_client/,
      cmd/persister-gw.
    - Router.v, RouterSpec.v: the router of the vendored macaron: the tree of
      patterns, the match of a URL, and that it is the look-up of a table.
    - Cmd.v, Gateway.v, GatewaySpec.v, GatewayUrls.v: the routes of cmd/tsdb-gw
      with their middleware; the endpoints of all components over one shared
      state; what each URL is served by.
    - Startup.v, Shutdown.v: [main] and [handleShutdown] of cmd/tsdb-gw, with
      [Start] and [Stop] of the inputs. Process.v, ProcessSpec.v: the shutdown
      over the carbon input of CarbonListener.v and the API's connections.
    - Flags.v, FlagsSpec.v: the flag package and the vendored globalconf, the
      flags of both commands, and the settings of Startup.v and Gcom.v from them.

    How they meet: the router (Router.v) finds the route of a request by its
    method and URL, and the request runs the route's chain (Cmd.v, Api.v); the
    authentication (AuthPlugins.v, Gcom.v) sets its user; the endpoint (Ingest.v,
    Write.v, Datadog.v, Query.v) makes metrics of that user's org and hands them
    to Publish.v, which counts them and calls Kafka.v, which consults KeyCache.v.
    Carbon lines go the way CarbonListener.v, CarbonConc.v, Publish.v.

    ** What the theorems show

    - Isolation: C1 for all URLs together; C2, C3, C24 for the ways in and out;
      C9, C19, C21, C23 for who gets in; C7 and C8 for write requests, C20 and C22
      for authentications at the same time.
    - Routing: C10, and in GatewayUrls.v the URLs of the gateway ([resolve_eq]).
    - What is published: C4 to C6, C12 (Kafka, calls at the same time, clears of
      the key cache between their steps), C17 and C18 (POST /metrics), C25 to C28
      (the other protocols, and that the interleaved handlers are the sequential
      ones), C31 and C32 (carbon).
    - Data structures: the key cache refines a set (C11) and its calls linearise
      (C13); the steps of a concurrent call of Publish are Publish (C29). The pool
      of metrics stays well-formed under all requests
      ([GatewaySpec.pool_stays_well_formed]).
    - Partitions: which one each method assigns, and what happens when a topic
      grows (C33).
    - The process: the refinement of the shutdown (C15), what an orderly return
      means for every carbon line (C14), from where it can be reached and from
      where only the two-minute timer leads to it (C16), the bound of the steps
      and which goroutine can wait for ever (C37), no send on the closed channel
      (C30).
    - Configuration: where a value comes from (C34), and that a gateway that
      starts is the one its flags describe (C35); FlagsSpec.v has what the
      defaults amount to.
    - The persister: liveness of accepted payloads (C36).
    - Behaviour that is not what the code means: C38 to C40, and parts of C14 (the
      lines in a flusher's slice at shutdown), C16 and C37 (requests are cut off;
      a socket that was opened again is not closed), C24 (the Connection header),
      C27 (nothing is given back to the pool) and C32 (lines that are cut off).
    The files hold more theorems of the same kinds that are no numbered claims.

    ** Bounds and fuel

    The recursions are structural, except: the digits of a number, with one more
    than its bits as fuel (Strconv.v, [fuel_enough]); the trimming of a string,
    with its length, for every byte sequence removed is non-empty; the attempts
    of the graphite transport, with four (QuerySpec.v, [RoundTrip_retries]: it
    always returns, after at most four); the runes of a string, with its bytes, for
    each takes one at least; jump hashing, with the number of buckets, for every
    round goes to a later one ([jump_loop_spec]); the segments of a pattern, with
    its length plus one, for each round takes a slash ([Add_spec]: a pattern is
    always added). Runs are over finite lists of
    events of any length. The shutdown takes at most 17 + n steps for n receives
    left (C37).

    ** Not modelled

    Sockets, TLS and the parsing of HTTP requests (pure I/O and library
    code); the statistics reporter; log lines. The msgp encoding is an argument,
    so that no theorem speaks of the bytes of a full message beyond the metric it
    was made from. Requests run one after the other over the shared state in
    Gateway.v; what they do at the same time is modelled where they share state:
    the metric pool, the key cache, the token cache, the singleflight group, the
    carbon channel. A step there is one access; data races on parts of a word,
    which the Go memory model leaves open, are not modelled. The token cache
    under concurrent requests (GcomConc.v) takes the answer of a validation as the
    one for its key; that the group which shares validations can hand it another's
    is in Singleflight.v. The stores to
    [metric.OrgId] that Kafka's [Publish] makes and undoes are its own.

    Of the router, patterns with regular expressions, holders and optional
    segments, which no route of the gateway has, and the redirect of an unclean
    path at the debug endpoint. The rate limiter of golang.org/x/time is an
    argument: its tokens are float64 quotients of wall-clock durations, and the
    handlers only ask it whether it admits. *)

From stdpp Require Export base gmap strings list sorting.
From Stdlib Require Export ZArith Lia.

#[global] Set Default Goal Selector "!".

(** ** Outcomes of a Go call

    A Go function returns normally, returns a non-nil [error], or panics (an
    out-of-range index, a nil dereference, [log.Fatal] is modelled apart). *)
Inductive outcome (E A : Type) : Type :=
| Ok (a : A)
| Err (e : E)
| Panic.
Arguments Ok {E A} a.
Arguments Err {E A} e.
Arguments Panic {E A}.

#[export] Instance outcome_ret {E} : MRet (outcome E) := λ A a, Ok a.
#[export] Instance outcome_bind {E} : MBind (outcome E) := λ A B f m,
  match m with Ok a => f a | Err e => Err e | Panic => Panic end.

(** [l[i]] *)
Definition index {E A} (l : list A) (i : nat) : outcome E A :=
  match l !! i with Some x => Ok x | None => Panic end.

(** [x, err := f(); if err != nil { return e }] *)
Definition or_err {E A} (o : option A) (e : E) : outcome E A :=
  match o with Some x => Ok x | None => Err e end.

(** ** State and outcome: the monad the stateful code is written in

    The state survives an error: a Go function that returns an error keeps
    every assignment it made before. *)
Definition ST (S E A : Type) : Type := S → S * outcome E A.

#[export] Instance ST_ret {S E} : MRet (ST S E) := λ A a s, (s, Ok a).
#[export] Instance ST_bind {S E} : MBind (ST S E) := λ A B f m s,
  match m s with
  | (s', Ok a) => f a s'
  | (s', Err e) => (s', Err e)
  | (s', Panic) => (s', Panic)
  end.

Section st_ops.
Context {S E : Type}.

Definition get_st : ST S E S := λ s, (s, Ok s).
Definition gets {A} (f : S → A) : ST S E A := λ s, (s, Ok (f s)).
Definition modify (f : S → S) : ST S E unit := λ s, (f s, Ok tt).
Definition fail {A} (e : E) : ST S E A := λ s, (s, Err e).
Definition panic {A} : ST S E A := λ s, (s, Panic).
Definition lift_outcome {A} (o : outcome E A) : ST S E A := λ s, (s, o).

(** [for x in l { f x }], left at the first error. *)
Fixpoint for_each {A} (f : A → ST S E unit) (l : list A) : ST S E unit :=
  match l with
  | [] => mret tt
  | x :: l' => f x ;; for_each f l'
  end.
End st_ops.

(** ** Machine integers

    [int] and [int64] are 64 bits wide on the supported platforms. *)
Definition wrap_u (w z : Z) : Z := z mod 2 ^ w.
Definition wrap_s (w z : Z) : Z := (z + 2 ^ (w - 1)) mod 2 ^ w - 2 ^ (w - 1).
Definition is_u (w z : Z) : Prop := (0 ≤ z < 2 ^ w)%Z.
Definition is_s (w z : Z) : Prop := (- 2 ^ (w - 1) ≤ z < 2 ^ (w - 1))%Z.

#[export] Instance is_u_dec w z : Decision (is_u w z).
Proof. unfold is_u. apply _. Defined.
#[export] Instance is_s_dec w z : Decision (is_s w z).
Proof. unfold is_s. apply _. Defined.

(** ** Automation *)

Create HintDb gw.
Create Rewrite HintDb gw_rew.

(** Case split on the innermost scrutinee of the goal, keeping its equation. *)
Ltac case_goal :=
  match goal with
  | |- context [match ?x with _ => _ end] =>
      lazymatch x with
      | context [match _ with _ => _ end] => fail
      | _ => destruct x eqn:?
      end
  end.

Ltac case_hyp H :=
  match type of H with
  | context [match ?x with _ => _ end] =>
      lazymatch x with
      | context [match _ with _ => _ end] => fail
      | _ => destruct x eqn:?
      end
  end.

(** [lia] with the quotients and remainders in the goal and the context. *)
Ltac dlia := Z.div_mod_to_equations; lia.

(** Split a hypothesis or the goal completely and clear the impossible cases. *)
Ltac solve_cases := repeat (case_goal; simplify_eq/=); try done.
Ltac split_hyp H := repeat (case_hyp H; simplify_eq/=).

(** ** Lemmas on the monad *)

Section st_lemmas.
Context {S E : Type}.

Lemma bind_eval {A B} (m : ST S E A) (f : A → ST S E B) s :
  (m ≫= f) s =
  match m s with (s', Ok a) => f a s' | (s', Err e) => (s', Err e) | (s', Panic) => (s', Panic) end.
Proof. done. Qed.

Lemma bind_Ok_inv {A B} (m : ST S E A) (f : A → ST S E B) s s' b :
  (m ≫= f) s = (s', Ok b) → ∃ s1 a, m s = (s1, Ok a) ∧ f a s1 = (s', Ok b).
Proof. rewrite bind_eval. destruct (m s) as [s1 [a| |]]; [by eauto|done|done]. Qed.

Lemma lift_Ok_inv {A} (o : outcome E A) (s s' : S) b :
  lift_outcome o s = (s', Ok b) → s' = s ∧ o = Ok b.
Proof. by intros [= <- ->]. Qed.

Lemma or_err_Ok {A} (o : option A) (e : E) x : or_err o e = Ok x ↔ o = Some x.
Proof. destruct o; simpl; naive_solver. Qed.

Lemma for_each_app {A} (f : A → ST S E unit) l1 l2 s :
  for_each f (l1 ++ l2) s =
  match for_each f l1 s with
  | (s', Ok _) => for_each f l2 s'
  | r => r
  end.
Proof.
  revert s. induction l1 as [|x l1 IH]; intros s; [done|]. simpl.
  unfold mbind, ST_bind. destruct (f x s) as [s' [[]| |]]; [apply IH|done|done].
Qed.

(** Loop invariant: kept by every iteration, whatever its outcome. *)
Lemma for_each_inv {A} (I : S → Prop) (f : A → ST S E unit) l s :
  (∀ x s, x ∈ l → I s → I (f x s).1) → I s → I (for_each f l s).1.
Proof.
  revert s. induction l as [|x l IH]; intros s Hf Hs; [done|]. simpl.
  unfold mbind, ST_bind.
  pose proof (Hf x s ltac:(set_solver) Hs) as Hx.
  destruct (f x s) as [s' [[]| |]]; simpl in *; [|done|done].
  apply IH; [|done]. intros y s'' Hy. apply Hf. set_solver.
Qed.

(** Loop invariant indexed by the elements done, for a loop that ends normally. *)
Lemma for_each_ok_ind {A} (P : list A → S → Prop) (f : A → ST S E unit) l s s' :
  for_each f l s = (s', Ok tt) →
  P [] s →
  (∀ done_ x s1 s2, P done_ s1 → x ∈ l → f x s1 = (s2, Ok tt) → P (done_ ++ [x]) s2) →
  P l s'.
Proof.
  intros Hrun H0 Hstep.
  cut (∀ done_ rest s1, l = done_ ++ rest → P done_ s1 →
        for_each f rest s1 = (s', Ok tt) → P l s').
  { intros H. eapply (H []); [done|exact H0|exact Hrun]. }
  clear s Hrun H0. intros done_ rest. revert done_.
  induction rest as [|x rest IH]; intros done_ s1 Hl HP Hrun; simpl in Hrun.
  - injection Hrun as <-. by rewrite Hl, app_nil_r.
  - unfold mbind, ST_bind in Hrun.
    destruct (f x s1) as [s2 [[]| |]] eqn:Hf; [|done|done].
    apply (IH (done_ ++ [x]) s2); [by rewrite <- app_assoc| |done].
    eapply Hstep; [exact HP|set_solver|exact Hf].
Qed.

(** The same, with the result stated for a loop whose body never fails. *)
Lemma for_each_total {A} (g : A → S → S) (f : A → ST S E unit) l s :
  (∀ x s, x ∈ l → f x s = (g x s, Ok tt)) →
  for_each f l s = (foldl (λ s x, g x s) s l, Ok tt).
Proof.
  revert s. induction l as [|x l IH]; intros s Hf; [done|]. simpl.
  unfold mbind, ST_bind. rewrite Hf by set_solver. apply IH. set_solver.
Qed.
End st_lemmas.

(** ** Computations that never panic *)

Section no_panic.
Context {S E : Type}.

Definition no_panic {A} (m : ST S E A) : Prop := ∀ s, (m s).2 ≠ Panic.

Lemma no_panic_ret {A} (a : A) : no_panic (mret a).
Proof. by intros s. Qed.
Lemma no_panic_gets {A} (f : S → A) : no_panic (gets f : ST S E A).
Proof. by intros s. Qed.
Lemma no_panic_modify (f : S → S) : no_panic (modify f : ST S E unit).
Proof. by intros s. Qed.
Lemma no_panic_fail {A} (e : E) : no_panic (fail e : ST S E A).
Proof. by intros s. Qed.
Lemma no_panic_or_err {A} (o : option A) (e : E) : no_panic (lift_outcome (or_err o e) : ST S E A).
Proof. intros s. by destruct o. Qed.
Lemma no_panic_bind {A B} (m : ST S E A) (f : A → ST S E B) :
  no_panic m → (∀ a, no_panic (f a)) → no_panic (m ≫= f).
Proof.
  intros Hm Hf s. rewrite bind_eval. specialize (Hm s).
  destruct (m s) as [s' [a|e|]]; [apply Hf|done|done].
Qed.
Lemma no_panic_for_each {A} (f : A → ST S E unit) l :
  (∀ x, no_panic (f x)) → no_panic (for_each f l).
Proof.
  intros Hf. induction l as [|x l IH]; [apply no_panic_ret|]. simpl. by apply no_panic_bind.
Qed.
End no_panic.

#[export] Hint Resolve no_panic_ret no_panic_gets no_panic_modify no_panic_fail
  no_panic_or_err no_panic_bind no_panic_for_each : gw.

(** Take a computation that ended normally apart into its steps. *)
Ltac st_inv :=
  repeat match goal with
  | H : mbind _ _ _ = (_, Ok _) |- _ => apply bind_Ok_inv in H as (? & ? & ? & ?)
  | H : lift_outcome _ _ = (_, Ok _) |- _ => apply lift_Ok_inv in H as [? H]
  | H : or_err _ _ = Ok _ |- _ => apply or_err_Ok in H
  | H : gets _ _ = (_, Ok _) |- _ =>
      let E := fresh in let E' := fresh in first [injection H as E E'|injection H as E]; symmetry in E
  | H : modify _ _ = (_, Ok _) |- _ =>
      let E := fresh in let E' := fresh in first [injection H as E E'|injection H as E]; symmetry in E
  | H : mret _ _ = (_, Ok _) |- _ =>
      let E := fresh in let E' := fresh in first [injection H as E E'|injection H as E]; symmetry in E
  | H : fail _ _ = (_, Ok _) |- _ => discriminate H
  | u : unit |- _ => destruct u
  end; subst.

(** ** Lemmas on machine integers *)

Section ints.
#[local] Open Scope Z_scope.

Lemma wrap_u_range w z : 0 ≤ w → is_u w (wrap_u w z).
Proof. intros. apply Z.mod_pos_bound. lia. Qed.

Lemma wrap_u_id w z : is_u w z → wrap_u w z = z.
Proof. apply Z.mod_small. Qed.

Lemma wrap_s_id w z : 0 < w → is_s w z → wrap_s w z = z.
Proof.
  unfold wrap_s, is_s. intros Hw Hz.
  assert (2 ^ w = 2 * 2 ^ (w - 1)) as E.
  { rewrite <- (Z.pow_succ_r 2 (w - 1)) by lia. f_equal. lia. }
  rewrite Z.mod_small by lia. lia.
Qed.

Lemma wrap_s_range w z : 0 < w → is_s w (wrap_s w z).
Proof.
  unfold wrap_s, is_s. intros Hw.
  assert (2 ^ w = 2 * 2 ^ (w - 1)) as E.
  { rewrite <- (Z.pow_succ_r 2 (w - 1)) by lia. f_equal. lia. }
  pose proof (Z.mod_pos_bound (z + 2 ^ (w - 1)) (2 ^ w) ltac:(lia)). lia.
Qed.
End ints.

(** ** Lemmas on lists *)

Lemma foldl_snoc {A B} (f : A → B → A) a l x : foldl f a (l ++ [x]) = f (foldl f a l) x.
Proof. by rewrite foldl_app. Qed.

Lemma Forall_snoc {A} (P : A → Prop) l x : Forall P (l ++ [x]) ↔ Forall P l ∧ P x.
Proof. rewrite Forall_app, Forall_singleton. done. Qed.

Lemma filter_snoc {A} (Q : A → Prop) `{!∀ a, Decision (Q a)} (k : list A) (a : A) :
  filter Q (k ++ [a]) = filter Q k ++ (if decide (Q a) then [a] else []).
Proof. by rewrite filter_app. Qed.

#[export] Hint Rewrite @foldl_snoc @Forall_snoc @filter_snoc : gw_rew.

(** A sum over a list in which one element is replaced. *)
Lemma sum_list_insert {A} (f : A → nat) (l : list A) i x y :
  l !! i = Some x → sum_list (f <$> <[i := y]> l) + f x = sum_list (f <$> l) + f y.
Proof.
  revert i. induction l as [|z l IH]; intros [|i] H; simplify_eq/=; [lia|].
  specialize (IH i H). unfold fmap in *. lia.
Qed.

(** The elements are known to be of the list. *)
Lemma Forall2_impl_in {A B} (P Q : A → B → Prop) l k :
  Forall2 P l k → (∀ x y, x ∈ l → P x y → Q x y) → Forall2 Q l k.
Proof.
  intros H. induction H as [|x y l k Hxy _ IH]; intros HPQ; constructor.
  - apply HPQ; [left|done].
  - apply IH. intros x' y' Hx. apply HPQ. by right.
Qed.
