(* ===== verification/GoStrings.v ===== *)
(** * Go strings

    A Go [string] or [[]byte] is a sequence of bytes, modelled by Stdlib's
    [string] (a sequence of 8-bit [ascii]). This file gives the functions of
    Go's [strings], [bytes], [sort] and [unicode] packages that the gateway
    uses, in the form it uses them (separators of one byte), and the lemmas the
    parsers' proofs share. *)

From S2P Require Import Prelude.
From Stdlib Require Import Ascii.

(** ** Bytes *)

Definition byte_val (c : ascii) : Z := Z.of_N (N_of_ascii c).
(** The conversion [byte(z)], which keeps the low 8 bits. *)
Definition byte_of (z : Z) : ascii := ascii_of_N (Z.to_N (z mod 256)).

Abbreviation strlen := String.length.

Fixpoint drop_str (n : nat) (s : string) : string :=
  match n, s with
  | S n', String _ s' => drop_str n' s'
  | _, _ => s
  end.

Fixpoint take_str (n : nat) (s : string) : string :=
  match n, s with
  | S n', String c s' => String c (take_str n' s')
  | _, _ => ""
  end.

Fixpoint has_byte (c : ascii) (s : string) : bool :=
  match s with
  | "" => false
  | String d s' => bool_decide (d = c) || has_byte c s'
  end.

(** ** strings.HasPrefix, HasSuffix, TrimPrefix *)

Fixpoint HasPrefix (s p : string) : bool :=
  match p, s with
  | "", _ => true
  | String _ _, "" => false
  | String c p', String d s' => bool_decide (c = d) && HasPrefix s' p'
  end.

Definition HasSuffix (s p : string) : bool :=
  bool_decide (strlen p ≤ strlen s) &&
  bool_decide (drop_str (strlen s - strlen p) s = p).

Definition TrimPrefix (s p : string) : string :=
  if HasPrefix s p then drop_str (strlen p) s else s.

Definition TrimSuffix (s p : string) : string :=
  if HasSuffix s p then take_str (strlen s - strlen p) s else s.

(** ** strings.Split and SplitN(.., 2), with a separator of one byte *)

Definition cons_head (c : ascii) (l : list string) : list string :=
  match l with
  | x :: xs => String c x :: xs
  | [] => [String c ""]
  end.

Fixpoint Split (c : ascii) (s : string) : list string :=
  match s with
  | "" => [""]
  | String d s' =>
      if bool_decide (d = c) then "" :: Split c s' else cons_head d (Split c s')
  end.

Fixpoint SplitN2 (c : ascii) (s : string) : list string :=
  match s with
  | "" => [""]
  | String d s' =>
      if bool_decide (d = c) then [""; s'] else cons_head d (SplitN2 c s')
  end.

Fixpoint Join (sep : string) (l : list string) : string :=
  match l with
  | [] => ""
  | [x] => x
  | x :: l' => x +:+ sep +:+ Join sep l'
  end.

(** [strings.FieldsFunc] with the test "is this byte". *)
Definition FieldsByte (c : ascii) (s : string) : list string :=
  filter (λ x, x ≠ "") (Split c s).

(** ** White space

    [strings.TrimSpace] and [strings.Fields] cut at the runes for which
    [unicode.IsSpace] holds; these are their UTF-8 encodings. No encoding is a
    proper prefix or suffix of another, so a string starts (ends) with a space
    rune exactly when it starts (ends) with one of these byte sequences. *)

Definition bytes_of (l : list Z) : string :=
  foldr (λ z s, String (byte_of z) s) "" l.

Definition space_encodings : list string :=
  bytes_of <$>
  [[9]; [10]; [11]; [12]; [13]; [32];
   [0xC2; 0x85]; [0xC2; 0xA0]; [0xE1; 0x9A; 0x80];
   [0xE2; 0x80; 0x80]; [0xE2; 0x80; 0x81]; [0xE2; 0x80; 0x82];
   [0xE2; 0x80; 0x83]; [0xE2; 0x80; 0x84]; [0xE2; 0x80; 0x85];
   [0xE2; 0x80; 0x86]; [0xE2; 0x80; 0x87]; [0xE2; 0x80; 0x88];
   [0xE2; 0x80; 0x89]; [0xE2; 0x80; 0x8A]; [0xE2; 0x80; 0xA8];
   [0xE2; 0x80; 0xA9]; [0xE2; 0x80; 0xAF]; [0xE2; 0x81; 0x9F];
   [0xE3; 0x80; 0x80]]%Z.

(** The length of the first member of [encs] the string starts with, 0 if none. *)
Fixpoint starts_with_any (encs : list string) (s : string) : nat :=
  match encs with
  | [] => 0
  | e :: encs' => if HasPrefix s e then strlen e else starts_with_any encs' s
  end.

(** Every encoding is non-empty, so the string's length is enough fuel. *)
Fixpoint trim_any (fuel : nat) (encs : list string) (s : string) : string :=
  match fuel with
  | 0 => s
  | S fuel' =>
      match starts_with_any encs s with
      | 0 => s
      | n => trim_any fuel' encs (drop_str n s)
      end
  end.

Definition TrimSpace (s : string) : string :=
  let l := trim_any (strlen s) space_encodings s in
  String.rev (trim_any (strlen l) (String.rev <$> space_encodings) (String.rev l)).

(** [skip] counts the bytes left of the separator being read. The result is the
    word the string starts with, which its caller may extend, and the others. *)
Fixpoint fields_go (skip : nat) (s : string) : string * list string :=
  match s with
  | "" => ("", [])
  | String c s' =>
      match skip with
      | S k => fields_go k s'
      | 0 =>
          match starts_with_any space_encodings s with
          | S k =>
              let '(w, ws) := fields_go k s' in
              ("", if bool_decide (w = "") then ws else w :: ws)
          | 0 => let '(w, ws) := fields_go 0 s' in (String c w, ws)
          end
      end
  end.

Definition Fields (s : string) : list string :=
  let '(w, ws) := fields_go 0 s in
  if bool_decide (w = "") then ws else w :: ws.

(** ** strings.Replace(.., -1), strings.Trim *)

Fixpoint replace_go (skip : nat) (old new s : string) : string :=
  match s with
  | "" => ""
  | String c s' =>
      match skip with
      | S k => replace_go k old new s'
      | 0 => if HasPrefix s old then new +:+ replace_go (strlen old - 1) old new s'
             else String c (replace_go 0 old new s')
      end
  end.

(** For a non-empty [old]. *)
Definition Replace (s old new : string) : string := replace_go 0 old new s.

Fixpoint trim_left_set (cutset s : string) : string :=
  match s with
  | "" => ""
  | String c s' => if has_byte c cutset then trim_left_set cutset s' else s
  end.

Definition Trim (s cutset : string) : string :=
  String.rev (trim_left_set cutset (String.rev (trim_left_set cutset s))).

(** ** Case, of ASCII letters *)

Definition lower (c : ascii) : ascii :=
  let v := byte_val c in if decide (65 ≤ v ≤ 90)%Z then byte_of (v + 32) else c.

Fixpoint lower_str (s : string) : string :=
  match s with "" => "" | String c s' => String (lower c) (lower_str s') end.

Definition upper (c : ascii) : ascii :=
  let v := byte_val c in if decide (97 ≤ v ≤ 122)%Z then byte_of (v - 32) else c.

(** [strings.Index] of a byte. *)
Fixpoint IndexByte (c : ascii) (s : string) : option nat :=
  match s with
  | "" => None
  | String d s' => if bool_decide (d = c) then Some 0 else S <$> IndexByte c s'
  end.

(** ** sort.Strings: the order is bytewise lexicographic *)

Definition SortStrings (l : list string) : list string := merge_sort String.le l.

(** ** Lemmas on concatenation and length *)

Lemma str_app_nil_r s : s +:+ "" = s.
Proof. induction s as [|c s IH]; [done|]. change (String c (s +:+ "") = String c s). by rewrite IH. Qed.

Lemma str_app_assoc a b c : (a +:+ b) +:+ c = a +:+ (b +:+ c).
Proof. induction a as [|x a IH]; [done|]. change (String x ((a +:+ b) +:+ c) = String x (a +:+ (b +:+ c))). by rewrite IH. Qed.

Lemma str_app_cons c a b : String c a +:+ b = String c (a +:+ b).
Proof. done. Qed.

Lemma strlen_app a b : strlen (a +:+ b) = strlen a + strlen b.
Proof. induction a as [|c a IH]; [done|]. rewrite str_app_cons. simpl. by rewrite IH. Qed.

Lemma strlen_0 s : strlen s = 0 ↔ s = "".
Proof. split; [by destruct s|by intros ->]. Qed.

Lemma str_app_inj_l a b c : a +:+ b = a +:+ c → b = c.
Proof. induction a as [|x a IH]; [done|]. rewrite !str_app_cons. intros [= H]. auto. Qed.

Lemma str_app_inj_len a b c d :
  strlen a = strlen c → a +:+ b = c +:+ d → a = c ∧ b = d.
Proof.
  revert c. induction a as [|x a IH]; intros [|y c]; try done.
  rewrite !str_app_cons. intros [= Hl] [= -> H]. by destruct (IH c Hl H) as [-> ->].
Qed.

Lemma str_app_inj_r a b c : a +:+ c = b +:+ c → a = b.
Proof.
  intros H. assert (Hl : strlen (a +:+ c) = strlen (b +:+ c)) by by rewrite H. rewrite !strlen_app in Hl.
  apply (str_app_inj_len a c b c); [lia|done].
Qed.

Lemma drop_str_app a b : drop_str (strlen a) (a +:+ b) = b.
Proof. by induction a. Qed.

Lemma take_str_app a b : take_str (strlen a) (a +:+ b) = a.
Proof. induction a as [|c a IH]; [by destruct b|]. rewrite str_app_cons. simpl. by rewrite IH. Qed.

Lemma take_drop_str n s : take_str n s +:+ drop_str n s = s.
Proof.
  revert s. induction n as [|n IH]; [done|]. intros [|c s]; [done|].
  simpl. rewrite str_app_cons. by rewrite IH.
Qed.

Lemma strlen_drop n s : strlen (drop_str n s) = strlen s - n.
Proof. revert s. induction n as [|n IH]; intros [|c s]; simpl; auto. Qed.

Lemma strlen_take n s : strlen (take_str n s) = n `min` strlen s.
Proof. revert s. induction n as [|n IH]; intros [|c s]; simpl; auto. Qed.

Lemma take_str_all n s : strlen s ≤ n → take_str n s = s.
Proof.
  revert s. induction n as [|n IH]; intros [|c s]; simpl; intros; try done; [lia|].
  by rewrite IH by lia.
Qed.

Lemma drop_str_all n s : strlen s ≤ n → drop_str n s = "".
Proof. revert s. induction n as [|n IH]; intros [|c s]; simpl; intros; try done; [lia|]. apply IH. lia. Qed.

Lemma drop_str_0 s : drop_str 0 s = s.
Proof. by destruct s. Qed.

Lemma byte_of_val c : byte_of (byte_val c) = c.
Proof. by destruct c as [[] [] [] [] [] [] [] []]. Qed.

Lemma byte_val_range c : is_u 8 (byte_val c).
Proof. unfold is_u, byte_val. destruct c as [[] [] [] [] [] [] [] []]; vm_compute; split; congruence. Qed.

Lemma byte_val_of z : byte_val (byte_of z) = (z mod 256)%Z.
Proof.
  unfold byte_val, byte_of.
  assert (H : (0 <= z mod 256 < 256)%Z) by (apply Z.mod_pos_bound; lia).
  rewrite N_ascii_embedding by lia. lia.
Qed.

Lemma byte_val_inj c d : byte_val c = byte_val d → c = d.
Proof. intros H. by rewrite <- (byte_of_val c), H, byte_of_val. Qed.

(** ** Lemmas on HasPrefix and HasSuffix *)

Lemma HasPrefix_spec s p : HasPrefix s p = true ↔ ∃ t, s = p +:+ t.
Proof.
  revert s. induction p as [|c p IH]; intros s.
  - split; [by exists s|]. by destruct s.
  - destruct s as [|d s]; simpl.
    + split; [done|]. by intros [t [=]].
    + rewrite andb_true_iff, bool_decide_eq_true, IH. split.
      * intros [-> [t ->]]. by exists t.
      * intros [t [= -> ->]]. split; [done|by exists t].
Qed.

Lemma HasPrefix_app p t : HasPrefix (p +:+ t) p = true.
Proof. apply HasPrefix_spec. by exists t. Qed.

Lemma HasSuffix_spec s p : HasSuffix s p = true ↔ ∃ t, s = t +:+ p.
Proof.
  unfold HasSuffix. rewrite andb_true_iff, !bool_decide_eq_true. split.
  - intros [Hl Hd]. exists (take_str (strlen s - strlen p) s).
    rewrite <- Hd at 2. by rewrite take_drop_str.
  - intros [t ->]. rewrite strlen_app. split; [lia|].
    replace (strlen t + strlen p - strlen p) with (strlen t) by lia. apply drop_str_app.
Qed.

Lemma HasPrefix_dec s p : {∃ t, s = p +:+ t} + {∀ t, s ≠ p +:+ t}.
Proof.
  destruct (HasPrefix s p) eqn:H; [left; by apply HasPrefix_spec|right].
  intros t ->. by rewrite HasPrefix_app in H.
Qed.

Lemma has_byte_app c a b : has_byte c (a +:+ b) = has_byte c a || has_byte c b.
Proof. induction a as [|d a IH]; [done|]. rewrite str_app_cons. simpl. by rewrite IH, orb_assoc. Qed.

Lemma has_byte_split c s :
  has_byte c s = true → ∃ a b, s = a +:+ String c b ∧ has_byte c a = false.
Proof.
  induction s as [|d s IH]; [done|]. simpl.
  destruct (decide (d = c)) as [->|Hd].
  - intros _. by exists "", s.
  - rewrite bool_decide_eq_false_2 by done. intros (a & b & -> & Ha)%IH.
    exists (String d a), b. split; [done|]. simpl. by rewrite bool_decide_eq_false_2.
Qed.

(** ** Lemmas on Split, SplitN2 and Join *)

Lemma Split_cons c s : ∃ x xs, Split c s = x :: xs.
Proof.
  induction s as [|d s (x & xs & IH)]; simpl; [by eauto|].
  case_bool_decide; [by eauto|]. rewrite IH. simpl. eauto.
Qed.

Lemma Split_nonempty c s : 1 ≤ length (Split c s).
Proof. destruct (Split_cons c s) as (x & xs & ->). simpl. lia. Qed.

Lemma Split_no_sep c s : Forall (λ x, has_byte c x = false) (Split c s).
Proof.
  induction s as [|d s IH]; simpl; [by repeat constructor|].
  case_bool_decide; [by constructor|].
  destruct (Split_cons c s) as (x & xs & E). rewrite E in *.
  inversion IH; subst. simpl. constructor; [|done].
  simpl. by rewrite bool_decide_eq_false_2.
Qed.

Lemma Split_none c s : has_byte c s = false → Split c s = [s].
Proof.
  induction s as [|d s IH]; simpl; [done|].
  intros [H1 H2]%orb_false_iff. rewrite H1, IH by done. done.
Qed.

Lemma Split_app c a b :
  has_byte c a = false → Split c (a +:+ String c b) = a :: Split c b.
Proof.
  induction a as [|d a IH]; cbn [has_byte].
  - intros _. change ("" +:+ String c b) with (String c b). cbn. by rewrite bool_decide_eq_true_2.
  - intros [H1 H2]%orb_false_iff. rewrite str_app_cons. cbn. by rewrite H1, IH.
Qed.

(** [strings.Split] undoes [strings.Join] on a non-empty list of strings free of
    the separator. *)
Lemma Split_Join c l :
  l ≠ [] → Forall (λ x, has_byte c x = false) l → Split c (Join (String c "") l) = l.
Proof.
  induction l as [|x l IH]; [done|]. intros _ [Hx Hl]%Forall_cons.
  destruct l as [|y l]; [by apply Split_none|].
  change (Join (String c "") (x :: y :: l)) with (x +:+ String c (Join (String c "") (y :: l))).
  by rewrite Split_app, IH.
Qed.

Lemma IndexByte_none c s : has_byte c s = false → IndexByte c s = None.
Proof.
  induction s as [|d s IH]; cbn; [done|]. intros [H1 H2]%orb_false_iff. by rewrite H1, IH.
Qed.

Lemma IndexByte_app c a b : has_byte c a = false → IndexByte c (a +:+ String c b) = Some (strlen a).
Proof.
  induction a as [|d a IH]; cbn [has_byte].
  - intros _. change ("" +:+ String c b) with (String c b). cbn. by rewrite bool_decide_eq_true_2.
  - intros [H1 H2]%orb_false_iff. rewrite str_app_cons. cbn. by rewrite H1, IH.
Qed.

Lemma drop_str_S_app a c b : drop_str (S (strlen a)) (a +:+ String c b) = b.
Proof. induction a as [|d a IH]; [by destruct b|]. rewrite str_app_cons. exact IH. Qed.

Lemma Join_cons sep x l : l ≠ [] → Join sep (x :: l) = x +:+ sep +:+ Join sep l.
Proof. by destruct l. Qed.

Lemma Join_Split c s : Join (String c "") (Split c s) = s.
Proof.
  induction s as [|d s IH]; [done|]. cbn [Split]. destruct (Split_cons c s) as (x & xs & E).
  rewrite E in *. case_bool_decide as Hd.
  - subst d. by rewrite Join_cons, IH.
  - cbn [cons_head]. destruct xs as [|y xs]; [cbn in *; by rewrite IH|].
    rewrite Join_cons in * by done. by rewrite str_app_cons, IH.
Qed.

Lemma length_Split c s : length (Split c s) ≤ S (strlen s).
Proof.
  induction s as [|d s IH]; cbn [Split strlen]; [done|].
  case_bool_decide; [cbn; lia|]. destruct (Split_cons c s) as (x & xs & E). rewrite E in *. cbn in *. lia.
Qed.

Lemma SplitN2_none c s : has_byte c s = false → SplitN2 c s = [s].
Proof.
  induction s as [|d s IH]; simpl; [done|].
  intros [H1 H2]%orb_false_iff. rewrite H1, IH by done. done.
Qed.

Lemma SplitN2_app c a b :
  has_byte c a = false → SplitN2 c (a +:+ String c b) = [a; b].
Proof.
  induction a as [|d a IH]; cbn [has_byte].
  - intros _. change ("" +:+ String c b) with (String c b). cbn. by rewrite bool_decide_eq_true_2.
  - intros [H1 H2]%orb_false_iff. rewrite str_app_cons. cbn. by rewrite H1, IH.
Qed.

(** [SplitN(s, c, 2)] has one part, [s] without the separator, or two. *)
Lemma SplitN2_cases c s :
  (has_byte c s = false ∧ SplitN2 c s = [s]) ∨
  (∃ a b, has_byte c a = false ∧ s = a +:+ String c b ∧ SplitN2 c s = [a; b]).
Proof.
  destruct (has_byte c s) eqn:H; [right|left; auto using SplitN2_none].
  destruct (has_byte_split c s H) as (a & b & -> & Ha).
  exists a, b. auto using SplitN2_app.
Qed.

(** ** Lemmas on sorting *)

Lemma SortStrings_perm l : SortStrings l ≡ₚ l.
Proof. apply merge_sort_Permutation. Qed.

Lemma SortStrings_sorted l : StronglySorted String.le (SortStrings l).
Proof. apply StronglySorted_merge_sort; apply _. Qed.

Lemma SortStrings_eq l1 l2 : l1 ≡ₚ l2 → SortStrings l1 = SortStrings l2.
Proof.
  intros Hp. apply (StronglySorted_unique String.le); [apply SortStrings_sorted..|].
  by rewrite !SortStrings_perm.
Qed.

Lemma SortStrings_idemp l : SortStrings (SortStrings l) = SortStrings l.
Proof. apply SortStrings_eq, SortStrings_perm. Qed.

Lemma SortStrings_id l : StronglySorted String.le l → SortStrings l = l.
Proof.
  intros Hs. apply (StronglySorted_unique String.le); [apply SortStrings_sorted|done|].
  apply SortStrings_perm.
Qed.

#[export] Hint Resolve SortStrings_sorted Split_no_sep : gw.
#[export] Hint Rewrite SortStrings_idemp SplitN2_app Split_app drop_str_app take_str_app
  strlen_app str_app_nil_r : gw_rew.
