(* ===== verification/Strconv.v ===== *)
(** * Go's strconv, encoding/hex, encoding/binary and encoding/base64

    The conversions between numbers and bytes that the gateway's parsers and
    encoders use, as executable functions, with their round trips. A failed
    conversion is [None]: no caller distinguishes the kinds of [*NumError]. *)

From S2P Require Import Prelude GoStrings.
From Stdlib Require Import Ascii.

#[local] Open Scope Z_scope.

(** ** Decimal numbers *)

Definition digit_val (c : ascii) : option Z :=
  let v := byte_val c in
  if decide (48 ≤ v ≤ 57) then Some (v - 48) else None.

Fixpoint parse_digits (acc : Z) (s : string) : option Z :=
  match s with
  | "" => Some acc
  | String c s' => d ← digit_val c; parse_digits (acc * 10 + d) s'
  end.

Definition digits (s : string) : option Z :=
  match s with "" => None | _ => parse_digits 0 s end.

(** [strconv.ParseUint(s, 10, w)] *)
Definition ParseUint (s : string) (w : Z) : option Z :=
  n ← digits s; if decide (n < 2 ^ w) then Some n else None.

(** [strconv.ParseInt(s, 10, w)] *)
Definition ParseInt (s : string) (w : Z) : option Z :=
  match s with
  | String "-" s' => n ← digits s'; if decide (n ≤ 2 ^ (w - 1)) then Some (- n) else None
  | String "+" s' => n ← digits s'; if decide (n < 2 ^ (w - 1)) then Some n else None
  | _ => n ← digits s; if decide (n < 2 ^ (w - 1)) then Some n else None
  end.

(** [strconv.Atoi(s)]: an [int] is 64 bits wide. *)
Definition Atoi (s : string) : option Z := ParseInt s 64.

Definition digit_char (d : Z) : ascii := byte_of (48 + d).

(** [n / 10 <= n / 2], so one more than the number of bits is enough fuel. *)
Fixpoint digits_go (fuel : nat) (n : Z) (acc : string) : string :=
  match fuel with
  | O => acc
  | S fuel' =>
      let acc' := String (digit_char (n mod 10)) acc in
      if decide (n < 10) then acc' else digits_go fuel' (n / 10) acc'
  end.

Definition FormatUint (n : Z) : string := digits_go (S (Z.to_nat (Z.log2 n))) n "".

(** [strconv.FormatInt(z, 10)], [strconv.Itoa(z)] and the verb [%d]. *)
Definition Itoa (z : Z) : string :=
  if decide (z < 0) then String "-" (FormatUint (- z)) else FormatUint z.

(** ** encoding/hex *)

Definition hex_char (d : Z) : ascii :=
  if decide (d < 10) then byte_of (48 + d) else byte_of (87 + d).

Definition hex_val (c : ascii) : option Z :=
  let v := byte_val c in
  if decide (48 ≤ v ≤ 57) then Some (v - 48)
  else if decide (97 ≤ v ≤ 102) then Some (v - 87)
  else if decide (65 ≤ v ≤ 70) then Some (v - 55)
  else None.

(** The verb [%x] applied to bytes. *)
Fixpoint hex_encode (s : string) : string :=
  match s with
  | "" => ""
  | String c s' =>
      String (hex_char (byte_val c / 16)) (String (hex_char (byte_val c mod 16)) (hex_encode s'))
  end.

(** [hex.DecodeString] *)
Fixpoint hex_decode (s : string) : option string :=
  match s with
  | "" => Some ""
  | String a (String b s') =>
      x ← hex_val a; y ← hex_val b; t ← hex_decode s';
      Some (String (byte_of (16 * x + y)) t)
  | _ => None
  end.

(** ** encoding/binary: little-endian integers of [n] bytes *)

Fixpoint le_put (n : nat) (z : Z) : string :=
  match n with
  | O => ""
  | S n' => String (byte_of z) (le_put n' (z / 256))
  end.

Fixpoint le_get (s : string) : Z :=
  match s with
  | "" => 0
  | String c s' => byte_val c + 256 * le_get s'
  end.

(** ** encoding/base64: StdEncoding *)

Definition b64_alphabet : string :=
  "ABCDEFGHIJKLMNOPQRSTUVWXYZabcdefghijklmnopqrstuvwxyz0123456789+/".

Definition b64_char (q : Z) : ascii :=
  default "A"%char (String.get (Z.to_nat q) b64_alphabet).

Definition b64_val (c : ascii) : option Z := Z.of_nat <$> IndexByte c b64_alphabet.

Fixpoint b64_encode (s : string) : string :=
  match s with
  | "" => ""
  | String a "" =>
      let x := byte_val a in
      String (b64_char (x / 4)) (String (b64_char (x mod 4 * 16)) "==")
  | String a (String b "") =>
      let x := byte_val a in let y := byte_val b in
      String (b64_char (x / 4)) (String (b64_char (x mod 4 * 16 + y / 16))
        (String (b64_char (y mod 16 * 4)) "="))
  | String a (String b (String c s')) =>
      let x := byte_val a in let y := byte_val b in let z := byte_val c in
      String (b64_char (x / 4)) (String (b64_char (x mod 4 * 16 + y / 16))
        (String (b64_char (y mod 16 * 4 + z / 64)) (String (b64_char (z mod 64))
          (b64_encode s'))))
  end.

Fixpoint strip_newlines (s : string) : string :=
  match s with
  | "" => ""
  | String c s' =>
      if bool_decide (c = "010"%char) || bool_decide (c = "013"%char)
      then strip_newlines s' else String c (strip_newlines s')
  end.

Fixpoint b64_quads (s : string) : option string :=
  match s with
  | "" => Some ""
  | String a (String b (String c (String d s'))) =>
      p ← b64_val a; q ← b64_val b;
      let x := byte_of (p * 4 + q / 16) in
      if decide (c = "="%char) then
        if decide (d = "="%char ∧ s' = "") then Some (String x "") else None
      else
        r ← b64_val c;
        let y := byte_of (q mod 16 * 16 + r / 4) in
        if decide (d = "="%char) then
          if decide (s' = "") then Some (String x (String y "")) else None
        else
          t ← b64_val d; rest ← b64_quads s';
          Some (String x (String y (String (byte_of (r mod 4 * 64 + t)) rest)))
  | _ => None
  end.

(** [base64.StdEncoding.DecodeString], which skips line breaks. *)
Definition b64_decode (s : string) : option string := b64_quads (strip_newlines s).

(** ** Decimal round trip *)

Lemma digit_val_char d : 0 ≤ d < 10 → digit_val (digit_char d) = Some d.
Proof.
  intros. unfold digit_val, digit_char. rewrite byte_val_of, Z.mod_small by lia.
  rewrite decide_True by lia. f_equal. lia.
Qed.

Lemma parse_digits_go fuel n acc :
  0 ≤ n < 2 ^ Z.of_nat fuel → (0 < fuel)%nat →
  parse_digits 0 (digits_go fuel n acc) = parse_digits n acc.
Proof.
  revert n acc. induction fuel as [|fuel IH]; intros n acc Hn Hf; [lia|].
  cbn [digits_go]. pose proof (Z.mod_pos_bound n 10 ltac:(lia)) as Hm.
  pose proof (Z.div_mod n 10 ltac:(lia)) as Hd.
  destruct (decide (n < 10)) as [Hlt|Hge].
  - cbn [parse_digits]. rewrite digit_val_char by done. cbn. f_equal.
    rewrite Z.mod_small by lia. lia.
  - assert (0 < fuel)%nat by (destruct fuel; [change (2 ^ Z.of_nat 1) with 2 in Hn; lia|lia]).
    rewrite Nat2Z.inj_succ, Z.pow_succ_r in Hn by lia.
    rewrite IH by lia. cbn [parse_digits]. rewrite digit_val_char by done. cbn. f_equal. lia.
Qed.

Lemma digits_go_nonempty fuel n acc :
  (0 < fuel)%nat → ∃ c s, digits_go fuel n acc = String c s.
Proof.
  revert n acc. induction fuel as [|fuel IH]; intros n acc ?; [lia|]. simpl.
  case_decide; [by eauto|]. destruct fuel as [|fuel]; [simpl; by eauto|]. apply IH. lia.
Qed.

Lemma fuel_enough n : 0 ≤ n → 0 ≤ n < 2 ^ Z.of_nat (S (Z.to_nat (Z.log2 n))).
Proof.
  intros Hn. split; [done|]. pose proof (Z.log2_nonneg n).
  rewrite Nat2Z.inj_succ, Z2Nat.id by lia.
  destruct (decide (n = 0)) as [->|]; [done|]. apply Z.log2_spec. lia.
Qed.

Lemma digits_FormatUint n : 0 ≤ n → digits (FormatUint n) = Some n.
Proof.
  intros Hn. unfold digits, FormatUint.
  destruct (digits_go_nonempty (S (Z.to_nat (Z.log2 n))) n "" ltac:(lia)) as (c & s & E).
  rewrite E, <- E. apply parse_digits_go; [by apply fuel_enough|lia].
Qed.

(** The bytes of a formatted number are decimal digits. *)
Definition is_digit (c : ascii) : Prop := 48 ≤ byte_val c ≤ 57.

Fixpoint all_bytes (P : ascii → Prop) (s : string) : Prop :=
  match s with "" => True | String c s' => P c ∧ all_bytes P s' end.

Lemma digits_go_bytes fuel n acc :
  all_bytes is_digit acc → all_bytes is_digit (digits_go fuel n acc).
Proof.
  revert n acc. induction fuel as [|fuel IH]; intros n acc H; [done|]. simpl.
  assert (is_digit (digit_char (n mod 10))).
  { pose proof (Z.mod_pos_bound n 10 ltac:(lia)).
    unfold is_digit, digit_char. rewrite byte_val_of, Z.mod_small by lia. lia. }
  case_decide; [done|]. by apply IH.
Qed.

Lemma FormatUint_bytes n : all_bytes is_digit (FormatUint n).
Proof. by apply digits_go_bytes. Qed.

Lemma ParseUint_FormatUint n w : is_u w n → ParseUint (FormatUint n) w = Some n.
Proof.
  intros [H1 H2]. unfold ParseUint. rewrite digits_FormatUint by done. simpl.
  by rewrite decide_True.
Qed.

Lemma ParseUint_range s w n : ParseUint s w = Some n → n < 2 ^ w.
Proof. unfold ParseUint. destruct (digits s); simpl; [|done]. by case_decide; intros; simplify_eq. Qed.

Lemma digit_not_sign s :
  all_bytes is_digit s → ∀ w, ParseInt s w = n ← digits s; if decide (n < 2 ^ (w - 1)) then Some n else None.
Proof.
  destruct s as [|c s]; [done|]. intros [Hc _] w. unfold is_digit in Hc.
  destruct c as [[] [] [] [] [] [] [] []]; try reflexivity;
    exfalso; revert Hc; vm_compute; intros []; congruence.
Qed.

Lemma ParseInt_Itoa z w : is_s w z → ParseInt (Itoa z) w = Some z.
Proof.
  intros [H1 H2]. unfold Itoa. case_decide.
  - cbn [ParseInt]. rewrite digits_FormatUint by lia. simpl. rewrite decide_True by lia. f_equal. lia.
  - rewrite digit_not_sign by apply FormatUint_bytes. rewrite digits_FormatUint by lia. simpl.
    by rewrite decide_True.
Qed.

Lemma Atoi_Itoa z : is_s 64 z → Atoi (Itoa z) = Some z.
Proof. apply ParseInt_Itoa. Qed.

Lemma digit_val_range c d : digit_val c = Some d → 0 ≤ d < 10.
Proof. unfold digit_val. case_decide; intros; simplify_eq. lia. Qed.

Lemma parse_digits_nonneg s acc n : 0 ≤ acc → parse_digits acc s = Some n → 0 ≤ n.
Proof.
  revert acc. induction s as [|c s IH]; intros acc Ha H; simpl in H; simplify_eq; [done|].
  destruct (digit_val c) as [d|] eqn:Hd; simpl in H; [|done].
  apply digit_val_range in Hd. eapply (IH (acc * 10 + d)); [lia|done].
Qed.

Lemma digits_nonneg s n : digits s = Some n → 0 ≤ n.
Proof. destruct s; [done|]. by apply parse_digits_nonneg. Qed.

Lemma ParseUint_is_u s w n : ParseUint s w = Some n → is_u w n.
Proof.
  unfold ParseUint. destruct (digits s) as [m|] eqn:E; simpl; [|done].
  apply digits_nonneg in E. case_decide; intros; simplify_eq. by split.
Qed.

Lemma ParseInt_is_s s w n : 0 < w → ParseInt s w = Some n → is_s w n.
Proof.
  intros Hw H. assert (0 < 2 ^ (w - 1)) by (apply Z.pow_pos_nonneg; lia).
  assert (G : ∀ t, (m ← digits t; if decide (m < 2 ^ (w - 1)) then Some m else None) = Some n →
    is_s w n).
  { intros t. destruct (digits t) as [m|] eqn:E; simpl; [|done].
    apply digits_nonneg in E. case_decide; intros; simplify_eq. split; lia. }
  assert (Gm : ∀ t, (m ← digits t; if decide (m ≤ 2 ^ (w - 1)) then Some (- m) else None) = Some n →
    is_s w n).
  { intros t. destruct (digits t) as [m|] eqn:E; simpl; [|done].
    apply digits_nonneg in E. case_decide; intros; simplify_eq. split; lia. }
  unfold ParseInt in H. repeat case_match; eauto.
Qed.

(** ** Hexadecimal round trip *)

Lemma hex_val_char d : 0 ≤ d < 16 → hex_val (hex_char d) = Some d.
Proof.
  intros. unfold hex_val, hex_char.
  destruct (decide (d < 10)); rewrite byte_val_of, Z.mod_small by lia.
  - rewrite decide_True by lia. f_equal. lia.
  - rewrite decide_False, decide_True by lia. f_equal. lia.
Qed.

Lemma hex_decode_encode s : hex_decode (hex_encode s) = Some s.
Proof.
  induction s as [|c s IH]; [done|]. cbn [hex_encode hex_decode].
  pose proof (byte_val_range c) as [H1 H2]. change (2 ^ 8) with 256 in H2.
  rewrite !hex_val_char by dlia. cbn [mbind option_bind]. rewrite IH. cbn [mbind option_bind].
  rewrite <- (Z.div_mod (byte_val c) 16), byte_of_val by lia. done.
Qed.

Lemma strlen_hex_encode s : strlen (hex_encode s) = (2 * strlen s)%nat.
Proof. induction s as [|c s IH]; simpl; lia. Qed.

(** ** Little-endian round trip *)

Lemma strlen_le_put n z : strlen (le_put n z) = n.
Proof. revert z. induction n; intros; simpl; auto. Qed.

Lemma le_get_put n z : le_get (le_put n z) = z mod 2 ^ (8 * Z.of_nat n).
Proof.
  revert z. induction n as [|n IH]; intros z; [by rewrite Z.mod_1_r|].
  cbn [le_put le_get]. rewrite byte_val_of, IH.
  rewrite Nat2Z.inj_succ, Z.mul_succ_r, Z.pow_add_r by lia.
  change (2 ^ 8) with 256. rewrite (Z.mul_comm (2 ^ _) 256).
  rewrite Z.rem_mul_r; lia.
Qed.

Lemma le_get_range s : is_u (8 * Z.of_nat (strlen s)) (le_get s).
Proof.
  induction s as [|c s [IH1 IH2]]; [done|]. unfold is_u. cbn [le_get String.length].
  pose proof (byte_val_range c) as [H1 H2]. change (2 ^ 8) with 256 in H2.
  rewrite Nat2Z.inj_succ, Z.mul_succ_r, Z.pow_add_r by lia.
  change (2 ^ 8) with 256. nia.
Qed.

Lemma le_get_put_id n z : is_u (8 * Z.of_nat n) z → le_get (le_put n z) = z.
Proof. intros. rewrite le_get_put. by apply Z.mod_small. Qed.

(** ** Base64 round trip *)

Lemma b64_alphabet_inverse :
  forallb (λ q, bool_decide (b64_val (b64_char (Z.of_nat q)) = Some (Z.of_nat q))
             && negb (bool_decide (b64_char (Z.of_nat q) = "="%char))
             && negb (bool_decide (b64_char (Z.of_nat q) = "010"%char))
             && negb (bool_decide (b64_char (Z.of_nat q) = "013"%char))) (seq 0 64) = true.
Proof. reflexivity. Qed.

Lemma b64_char_facts q :
  0 ≤ q < 64 →
  b64_val (b64_char q) = Some q ∧ b64_char q ≠ "="%char ∧
  b64_char q ≠ "010"%char ∧ b64_char q ≠ "013"%char.
Proof.
  intros Hq. pose proof b64_alphabet_inverse as H. rewrite forallb_forall in H.
  specialize (H (Z.to_nat q)). rewrite in_seq, Z2Nat.id in H by lia.
  specialize (H ltac:(lia)).
  rewrite !andb_true_iff, !negb_true_iff, !bool_decide_eq_false, bool_decide_eq_true in H.
  naive_solver.
Qed.

(** Induction three bytes at a time. *)
Lemma string_ind3 (P : string → Prop) :
  P "" → (∀ a, P (String a "")) → (∀ a b, P (String a (String b ""))) →
  (∀ a b c s, P s → P (String a (String b (String c s)))) → ∀ s, P s.
Proof.
  intros H0 H1 H2 H3. fix IH 1.
  intros [|a [|b [|c s]]]; [done|apply H1|apply H2|apply H3, IH].
Qed.

Lemma strip_newlines_encode s : strip_newlines (b64_encode s) = b64_encode s.
Proof.
  assert (K : ∀ q t, 0 ≤ q < 64 →
    strip_newlines (String (b64_char q) t) = String (b64_char q) (strip_newlines t)).
  { intros q t Hq. cbn [strip_newlines].
    destruct (b64_char_facts q Hq) as (_ & _ & ? & ?).
    by rewrite !bool_decide_eq_false_2. }
  induction s as [|a|a b|a b c s IH] using string_ind3; [done|..]; cbn [b64_encode];
    try (pose proof (byte_val_range a) as [? Ha]; change (2 ^ 8) with 256 in Ha);
    try (pose proof (byte_val_range b) as [? Hb]; change (2 ^ 8) with 256 in Hb);
    try (pose proof (byte_val_range c) as [? Hc]; change (2 ^ 8) with 256 in Hc);
    rewrite !K by dlia; [done..|]. by rewrite IH.
Qed.

Lemma b64_quads_encode s : b64_quads (b64_encode s) = Some s.
Proof.
  assert (K : ∀ x a, byte_val a = x → byte_of x = a) by (intros ? a <-; apply byte_of_val).
  induction s as [|a|a b|a b c s IH] using string_ind3; [done|..]; cbn [b64_encode b64_quads];
    try (pose proof (byte_val_range a) as [? Ha]; change (2 ^ 8) with 256 in Ha);
    try (pose proof (byte_val_range b) as [? Hb]; change (2 ^ 8) with 256 in Hb);
    try (pose proof (byte_val_range c) as [? Hc]; change (2 ^ 8) with 256 in Hc);
    repeat match goal with
    | |- context [b64_val (b64_char ?q)] =>
        rewrite (proj1 (b64_char_facts q ltac:(dlia))); cbn [mbind option_bind]
    | |- context [decide (b64_char ?q = "="%char)] =>
        rewrite (decide_False (P := b64_char q = "="%char))
          by (apply (b64_char_facts q ltac:(dlia)))
    end; cbn -[byte_of Z.mul Z.div Z.modulo Z.add b64_encode b64_quads].
  - do 2 f_equal. apply K. dlia.
  - do 2 f_equal; [apply K; dlia|]. f_equal. apply K. dlia.
  - rewrite IH. cbn -[byte_of Z.mul Z.div Z.modulo Z.add].
    do 2 f_equal; [apply K; dlia|]. f_equal; [apply K; dlia|]. f_equal. apply K. dlia.
Qed.

Lemma b64_decode_encode s : b64_decode (b64_encode s) = Some s.
Proof. unfold b64_decode. rewrite strip_newlines_encode. apply b64_quads_encode. Qed.

(** ** Strings of graphic bytes

    ASCII without the white space and the control characters. *)

Definition graphic (c : ascii) : Prop := 33 ≤ byte_val c ≤ 126.

#[export] Instance graphic_dec c : Decision (graphic c).
Proof. unfold graphic. apply _. Defined.

#[export] Instance all_bytes_dec (P : ascii → Prop) `{!∀ c, Decision (P c)} s : Decision (all_bytes P s).
Proof. induction s; simpl; apply _. Defined.

Lemma all_bytes_mono (P Q : ascii → Prop) s :
  (∀ c, P c → Q c) → all_bytes P s → all_bytes Q s.
Proof. intros H. induction s; simpl; [done|]. intros []. auto. Qed.

Lemma all_bytes_app P a b : all_bytes P (a +:+ b) ↔ all_bytes P a ∧ all_bytes P b.
Proof.
  induction a as [|c a IH]; [by split; [|intros []]|]. rewrite str_app_cons. cbn. rewrite IH. tauto.
Qed.

Lemma rev_app_spec a b : String.rev_app a b = String.rev a +:+ b.
Proof.
  unfold String.rev. revert b. induction a as [|c a IH]; intros b; [done|]. cbn.
  rewrite IH, (IH (String c "")). by rewrite str_app_assoc.
Qed.

Lemma rev_cons c s : String.rev (String c s) = String.rev s +:+ String c "".
Proof. change (String.rev (String c s)) with (String.rev_app s (String c "")). apply rev_app_spec. Qed.

Lemma rev_str_app a b : String.rev (a +:+ b) = String.rev b +:+ String.rev a.
Proof.
  induction a as [|c a IH]; [by rewrite str_app_nil_r|].
  by rewrite str_app_cons, !rev_cons, IH, str_app_assoc.
Qed.

Lemma rev_str_invol s : String.rev (String.rev s) = s.
Proof. induction s as [|c s IH]; [done|]. by rewrite rev_cons, rev_str_app, IH. Qed.

Lemma all_bytes_rev P s : all_bytes P (String.rev s) ↔ all_bytes P s.
Proof.
  induction s as [|c s IH]; [done|]. rewrite rev_cons, all_bytes_app, IH. cbn. tauto.
Qed.

Definition not_graphic_head (e : string) : Prop :=
  match e with "" => False | String c _ => ¬ graphic c end.

#[export] Instance not_graphic_head_dec e : Decision (not_graphic_head e).
Proof. destruct e; simpl; apply _. Defined.

Lemma starts_with_any_graphic encs c s :
  Forall not_graphic_head encs → graphic c → starts_with_any encs (String c s) = 0%nat.
Proof.
  intros H Hc. induction H as [|e encs He _ IH]; [done|]. cbn [starts_with_any].
  destruct (HasPrefix (String c s) e) eqn:E; [exfalso|done].
  apply HasPrefix_spec in E as [t Ht]. destruct e as [|d e]; [done|].
  rewrite str_app_cons in Ht. injection Ht as <- _. done.
Qed.

Lemma space_heads : Forall not_graphic_head space_encodings.
Proof. apply (bool_decide_unpack _). by vm_compute. Qed.
Lemma space_tails : Forall not_graphic_head (String.rev <$> space_encodings).
Proof. apply (bool_decide_unpack _). by vm_compute. Qed.

Lemma trim_any_graphic fuel encs s :
  Forall not_graphic_head encs → all_bytes graphic s → trim_any fuel encs s = s.
Proof.
  intros He Hs. destruct fuel as [|fuel]; [done|]. cbn [trim_any]. destruct s as [|c s].
  - replace (starts_with_any encs "") with 0%nat; [done|].
    induction He as [|e encs H _ IH]; [done|]. by destruct e.
  - rewrite starts_with_any_graphic; [done|done|by destruct Hs].
Qed.

Lemma TrimSpace_graphic s : all_bytes graphic s → TrimSpace s = s.
Proof.
  intros Hs. unfold TrimSpace. cbv zeta. rewrite (trim_any_graphic _ space_encodings s) by (done || apply space_heads).
  rewrite trim_any_graphic; [apply rev_str_invol|apply space_tails|by apply all_bytes_rev].
Qed.

Lemma TrimSpace_space_graphic s : all_bytes graphic s → TrimSpace (" " +:+ s) = s.
Proof.
  intros Hs. unfold TrimSpace. cbv zeta. change (" " +:+ s) with (String " " s).
  change (strlen (String " " s)) with (S (strlen s)). cbn [trim_any].
  assert (starts_with_any space_encodings (String " " s) = 1%nat) as -> by by destruct s.
  cbn [drop_str]. rewrite (trim_any_graphic _ space_encodings s) by (done || apply space_heads).
  rewrite trim_any_graphic; [apply rev_str_invol|apply space_tails|by apply all_bytes_rev].
Qed.

Lemma digit_graphic c : is_digit c → graphic c.
Proof. unfold is_digit, graphic. lia. Qed.

(** The bytes of a formatted integer. *)
Definition num_byte (c : ascii) : Prop := is_digit c ∨ c = "-"%char.

Lemma Itoa_num z : all_bytes num_byte (Itoa z).
Proof.
  assert (∀ n, all_bytes num_byte (FormatUint n)) as H.
  { intros n. eapply all_bytes_mono; [|apply FormatUint_bytes]. by left. }
  unfold Itoa. case_decide; [split; [by right|]|]; apply H.
Qed.

Lemma Itoa_graphic z : all_bytes graphic (Itoa z).
Proof.
  eapply all_bytes_mono; [|apply Itoa_num]. intros c [?| ->]; [by apply digit_graphic|].
  apply (bool_decide_unpack _). by vm_compute.
Qed.

Lemma FormatUint_nonempty n : FormatUint n ≠ "".
Proof.
  destruct (digits_go_nonempty (S (Z.to_nat (Z.log2 n))) n "" ltac:(lia)) as (c & s & E).
  unfold FormatUint. by rewrite E.
Qed.

Lemma Itoa_nonempty z : Itoa z ≠ "".
Proof. unfold Itoa. case_decide; [done|apply FormatUint_nonempty]. Qed.

Lemma has_byte_all c s : all_bytes (λ d, d ≠ c) s → has_byte c s = false.
Proof.
  induction s as [|d s IH]; cbn; [done|]. intros [Hd Hs].
  rewrite IH by done. by rewrite bool_decide_eq_false_2.
Qed.

(** ** Words of graphic bytes *)

Lemma TrimSpace_ends s c d a b :
  s = String c a → String.rev s = String d b → graphic c → graphic d → TrimSpace s = s.
Proof.
  intros E1 E2 Hc Hd. unfold TrimSpace. cbv zeta.
  assert (H : ∀ fuel encs x y, Forall not_graphic_head encs → graphic x →
    trim_any fuel encs (String x y) = String x y).
  { intros [|fuel] encs x y He Hx; [done|]. cbn [trim_any]. by rewrite starts_with_any_graphic. }
  rewrite E1, H by (done || apply space_heads). rewrite <- E1, E2.
  rewrite H by (done || apply space_tails). by rewrite <- E2, rev_str_invol.
Qed.

Lemma starts_with_space s : starts_with_any space_encodings (String " " s) = 1%nat.
Proof. by destruct s. Qed.

Lemma fields_go_word w s :
  all_bytes graphic w →
  fields_go 0 (w +:+ s) = (w +:+ (fields_go 0 s).1, (fields_go 0 s).2).
Proof.
  induction w as [|c w IH]; intros Hw.
  { change ("" +:+ s) with s. by destruct (fields_go 0 s). }
  destruct Hw as [Hc Hw]. rewrite !str_app_cons. cbn [fields_go].
  rewrite starts_with_any_graphic by (done || apply space_heads). by rewrite IH.
Qed.

Lemma fields_go_space s :
  fields_go 0 (" " +:+ s) = ("", Fields s).
Proof.
  change (" " +:+ s) with (String " " s). unfold Fields. cbn [fields_go].
  rewrite starts_with_space. by destruct (fields_go 0 s).
Qed.

Lemma Fields_word w s : w ≠ "" → all_bytes graphic w → Fields (w +:+ " " +:+ s) = w :: Fields s.
Proof.
  intros Hne Hw. unfold Fields at 1. rewrite fields_go_word, fields_go_space by done. cbn [fst snd].
  by rewrite str_app_nil_r, bool_decide_eq_false_2.
Qed.

Lemma Fields_last w : w ≠ "" → all_bytes graphic w → Fields w = [w].
Proof.
  intros Hne Hw. rewrite <- (str_app_nil_r w) at 1. unfold Fields.
  rewrite fields_go_word by done. cbn. by rewrite str_app_nil_r, bool_decide_eq_false_2.
Qed.

(** A line of two and more words is its own trimming. *)
Lemma TrimSpace_words w1 m w2 :
  w1 ≠ "" → w2 ≠ "" → all_bytes graphic w1 → all_bytes graphic w2 →
  TrimSpace (w1 +:+ m +:+ w2) = w1 +:+ m +:+ w2.
Proof.
  intros H1 H2 G1 G2. destruct w1 as [|c w1]; [done|]. destruct G1 as [G1 _].
  apply all_bytes_rev in G2. destruct (String.rev w2) as [|d r] eqn:E.
  { rewrite <- (rev_str_invol w2), E in H2. done. }
  destruct G2 as [G2 _]. eapply TrimSpace_ends; [by rewrite str_app_cons| |exact G1|exact G2].
  by rewrite !rev_str_app, E, !str_app_cons.
Qed.
