(* ===== verification/Md5.v ===== *)
(** * crypto/md5

    The hash behind a metric's id (RFC 1321), executable: words are [Z] below
    [2^32]. The other files only use that a digest has 16 bytes. *)

From S2P Require Import Prelude GoStrings Strconv.

#[local] Open Scope Z_scope.

Definition add32 (a b : Z) : Z := (a + b) mod 2 ^ 32.
Definition not32 (a : Z) : Z := Z.lxor a (2 ^ 32 - 1).
Definition rotl32 (a n : Z) : Z :=
  Z.lor (Z.shiftl a n mod 2 ^ 32) (Z.shiftr a (32 - n)).

(** [floor (2^32 * |sin (i + 1)|)] *)
Definition md5_K : list Z :=
  [0xd76aa478; 0xe8c7b756; 0x242070db; 0xc1bdceee; 0xf57c0faf; 0x4787c62a;
   0xa8304613; 0xfd469501; 0x698098d8; 0x8b44f7af; 0xffff5bb1; 0x895cd7be;
   0x6b901122; 0xfd987193; 0xa679438e; 0x49b40821; 0xf61e2562; 0xc040b340;
   0x265e5a51; 0xe9b6c7aa; 0xd62f105d; 0x02441453; 0xd8a1e681; 0xe7d3fbc8;
   0x21e1cde6; 0xc33707d6; 0xf4d50d87; 0x455a14ed; 0xa9e3e905; 0xfcefa3f8;
   0x676f02d9; 0x8d2a4c8a; 0xfffa3942; 0x8771f681; 0x6d9d6122; 0xfde5380c;
   0xa4beea44; 0x4bdecfa9; 0xf6bb4b60; 0xbebfbc70; 0x289b7ec6; 0xeaa127fa;
   0xd4ef3085; 0x04881d05; 0xd9d4d039; 0xe6db99e5; 0x1fa27cf8; 0xc4ac5665;
   0xf4292244; 0x432aff97; 0xab9423a7; 0xfc93a039; 0x655b59c3; 0x8f0ccc92;
   0xffeff47d; 0x85845dd1; 0x6fa87e4f; 0xfe2ce6e0; 0xa3014314; 0x4e0811a1;
   0xf7537e82; 0xbd3af235; 0x2ad7d2bb; 0xeb86d391].

Definition md5_shifts : list Z :=
  [7; 12; 17; 22; 5; 9; 14; 20; 4; 11; 16; 23; 6; 10; 15; 21].

Record md5_regs := Regs { rA : Z; rB : Z; rC : Z; rD : Z }.

Definition md5_init : md5_regs := Regs 0x67452301 0xefcdab89 0x98badcfe 0x10325476.

(** The round function and the index of the word it uses. *)
Definition md5_round (i : Z) (r : md5_regs) : Z * Z :=
  let 'Regs _ b c d := r in
  if decide (i < 16) then (Z.lor (Z.land b c) (Z.land (not32 b) d), i)
  else if decide (i < 32) then (Z.lor (Z.land d b) (Z.land (not32 d) c), (5 * i + 1) mod 16)
  else if decide (i < 48) then (Z.lxor (Z.lxor b c) d, (3 * i + 5) mod 16)
  else (Z.lxor c (Z.lor b (not32 d)), 7 * i mod 16).

Definition md5_step (block : list Z) (r : md5_regs) (i : nat) : md5_regs :=
  let '(f, g) := md5_round (Z.of_nat i) r in
  let k := default 0 (md5_K !! i) in
  let m := default 0 (block !! Z.to_nat g) in
  let sh := default 0 (md5_shifts !! (i / 16 * 4 + i mod 4)%nat) in
  let sum := add32 (add32 f (rA r)) (add32 k m) in
  Regs (rD r) (add32 (rB r) (rotl32 sum sh)) (rB r) (rC r).

Definition md5_block (r : md5_regs) (block : list Z) : md5_regs :=
  let r' := foldl (md5_step block) r (seq 0 64) in
  Regs (add32 (rA r) (rA r')) (add32 (rB r) (rB r'))
       (add32 (rC r) (rC r')) (add32 (rD r) (rD r')).

Fixpoint zeros (n : nat) : string :=
  match n with O => "" | S n' => String (byte_of 0) (zeros n') end.

Definition md5_pad (s : string) : string :=
  let n := Z.of_nat (strlen s) in
  s +:+ String (byte_of 128) (zeros (Z.to_nat ((55 - n) mod 64))) +:+ le_put 8 (8 * n).

(** The 32-bit words of a string, at most [n] of them. *)
Fixpoint words (n : nat) (s : string) : list Z :=
  match n with
  | O => []
  | S n' => le_get (take_str 4 s) :: words n' (drop_str 4 s)
  end.

Fixpoint md5_blocks (n : nat) (s : string) (r : md5_regs) : md5_regs :=
  match n with
  | O => r
  | S n' => md5_blocks n' (drop_str 64 s) (md5_block r (words 16 s))
  end.

(** [md5.Sum] *)
Definition md5_Sum (s : string) : string :=
  let p := md5_pad s in
  let r := md5_blocks (strlen p / 64) p md5_init in
  le_put 4 (rA r) +:+ le_put 4 (rB r) +:+ le_put 4 (rC r) +:+ le_put 4 (rD r).

(** The test vectors of RFC 1321. *)
Example md5_empty : hex_encode (md5_Sum "") = "d41d8cd98f00b204e9800998ecf8427e".
Proof. vm_compute. reflexivity. Qed.

Example md5_message :
  hex_encode (md5_Sum "message digest") = "f96b697d7cb7938d525a2f31aaf161d0".
Proof. vm_compute. reflexivity. Qed.

Example md5_two_blocks :
  hex_encode (md5_Sum
    "12345678901234567890123456789012345678901234567890123456789012345678901234567890")
  = "57edf4a22be3c955ac49da2e2107b67a".
Proof. vm_compute. reflexivity. Qed.

Lemma strlen_md5_Sum s : strlen (md5_Sum s) = 16%nat.
Proof. unfold md5_Sum. by rewrite !strlen_app, !strlen_le_put. Qed.

Arguments md5_Sum : simpl never.
#[export] Hint Rewrite strlen_md5_Sum : gw_rew.
