(* ===== verification/Schema.v ===== *)
(** * The metric types of metrictank's schema package

    The gateway's data: [MetricData] with its validation and id, the [MKey] an
    id parses to, and the optimised [MetricPoint] wire format, translated from
    the vendored package the gateway is built with
    (src/vendor/github.com/grafana/metrictank/schema). A [float64] is its
    64-bit IEEE 754 pattern: the gateway only copies values. *)

From S2P Require Import Prelude GoStrings Strconv Md5.
From Stdlib Require Import Ascii.

(** ** MetricData *)

Record MetricData := mkMetricData {
  Id : string; OrgId : Z; Name : string; Interval : Z; Value : Z;
  Unit : string; Time : Z; Mtype : string; Tags : list string }.

#[export] Instance MetricData_eq_dec : EqDecision MetricData.
Proof. solve_decision. Defined.

Definition with_OrgId (o : Z) (m : MetricData) : MetricData :=
  mkMetricData (Id m) o (Name m) (Interval m) (Value m) (Unit m) (Time m) (Mtype m) (Tags m).
Definition with_Interval (i : Z) (m : MetricData) : MetricData :=
  mkMetricData (Id m) (OrgId m) (Name m) i (Value m) (Unit m) (Time m) (Mtype m) (Tags m).
Definition with_Name (n : string) (m : MetricData) : MetricData :=
  mkMetricData (Id m) (OrgId m) n (Interval m) (Value m) (Unit m) (Time m) (Mtype m) (Tags m).
Definition with_Mtype (t : string) (m : MetricData) : MetricData :=
  mkMetricData (Id m) (OrgId m) (Name m) (Interval m) (Value m) (Unit m) (Time m) t (Tags m).
Definition with_Time (t : Z) (m : MetricData) : MetricData :=
  mkMetricData (Id m) (OrgId m) (Name m) (Interval m) (Value m) (Unit m) t (Mtype m) (Tags m).

(** The zero value, [new(MetricData)]. *)
Definition zero_metric : MetricData := mkMetricData "" 0 "" 0 0 "" 0 "" [].

Definition nul : string := String (byte_of 0) "".

Definition id_buffer (m : MetricData) : string :=
  Name m +:+ nul +:+ Unit m +:+ nul +:+ Mtype m +:+ nul +:+ Itoa (Interval m) +:+
  foldr (λ k s, nul +:+ k +:+ s) "" (Tags m).

Definition SetId (m : MetricData) : MetricData :=
  let m' := mkMetricData (Id m) (OrgId m) (Name m) (Interval m) (Value m) (Unit m)
              (Time m) (Mtype m) (SortStrings (Tags m)) in
  mkMetricData (Itoa (OrgId m) +:+ "." +:+ hex_encode (md5_Sum (id_buffer m')))
    (OrgId m') (Name m') (Interval m') (Value m') (Unit m') (Time m') (Mtype m') (Tags m').

(** ** Validation *)

Inductive schema_error :=
| ErrInvalidIntervalzero | ErrInvalidOrgIdzero | ErrInvalidEmptyName
| ErrInvalidMtype | ErrInvalidTagFormat.

#[export] Instance schema_error_eq_dec : EqDecision schema_error.
Proof. solve_decision. Defined.

Definition schema_error_Error (e : schema_error) : string :=
  match e with
  | ErrInvalidIntervalzero => "interval cannot be 0"
  | ErrInvalidOrgIdzero => "org-id cannot be 0"
  | ErrInvalidEmptyName => "name cannot be empty"
  | ErrInvalidMtype => "invalid mtype"
  | ErrInvalidTagFormat => "invalid tag format"
  end.

(** The bytes after the first: [prev] says whether the one before is a dot. *)
Fixpoint count_dots (prev : bool) (s : string) : nat :=
  match s with
  | "" => 0
  | String c s' =>
      let dot := bool_decide (c = "."%char) in
      (if dot then (if prev then 1 else 0) + (if bool_decide (s' = "") then 1 else 0) else 0)
      + count_dots dot s'
  end.

(** [written]: a byte was written before ([j > 0]). *)
Fixpoint eat_go (written sawDot : bool) (s : string) : string :=
  match s with
  | "" => ""
  | String c s' =>
      if bool_decide (c = "."%char) then eat_go written (sawDot || written) s'
      else if sawDot then String "." (String c (eat_go true false s'))
      else String c (eat_go true false s')
  end.

(** The rebuilt name goes to a buffer of [len(name) - dotsToRemove] bytes, which
    it fills exactly ([eat_go_length]). *)
Definition EatDots (name : string) : string :=
  match name with
  | "" => ""
  | String c s =>
      let first := bool_decide (c = "."%char) in
      let dotsToRemove := (if first then 1 else 0) + count_dots first s in
      if bool_decide (dotsToRemove = 0) then name
      else if bool_decide (strlen name ≤ dotsToRemove) then ""
      else eat_go false false name
  end.

Definition ValidateTagKey (key : string) : bool :=
  negb (bool_decide (key = "")) &&
  negb (has_byte ";" key || has_byte "!" key || has_byte "^" key || has_byte "=" key).

Definition ValidateTagValue (value : string) : bool :=
  match value with
  | "" => false
  | String c _ => negb (bool_decide (c = "~"%char)) && negb (has_byte ";" value)
  end.

Definition ValidateTag (tag : string) : bool :=
  if bool_decide (strlen tag < 3) then false else
  match IndexByte "=" tag with
  | None => false
  | Some equal =>
      if bool_decide (equal = 0) || bool_decide (equal = strlen tag - 1) then false
      else ValidateTagKey (take_str equal tag) && ValidateTagValue (drop_str (equal + 1) tag)
  end.

Definition ValidateTags (tags : list string) : bool := forallb ValidateTag tags.

Definition valid_mtypes : list string := ["gauge"; "rate"; "count"; "counter"; "timestamp"].

(** [Validate] rewrites the name, also when it then fails. *)
Definition Validate (m : MetricData) : MetricData * option schema_error :=
  if decide (OrgId m = 0%Z) then (m, Some ErrInvalidOrgIdzero)
  else if decide (Interval m = 0%Z) then (m, Some ErrInvalidIntervalzero)
  else
    let m := with_Name (EatDots (Name m)) m in
    if decide (Name m = "") then (m, Some ErrInvalidEmptyName)
    else if decide (Mtype m ∈ valid_mtypes) then
      if ValidateTags (Tags m) then (m, None) else (m, Some ErrInvalidTagFormat)
    else (m, Some ErrInvalidMtype).

(** ** Keys *)

Record MKey := mkMKey { Key : string; Org : Z }.

#[export] Instance MKey_eq_dec : EqDecision MKey.
Proof. solve_decision. Defined.

#[export] Program Instance MKey_countable : Countable MKey :=
  inj_countable' (λ k, (Key k, Org k)) (λ p, mkMKey p.1 p.2) _.
Next Obligation. by intros []. Qed.

Inductive mkey_error := ErrStringTooShort | ErrHex | ErrOrg.

Definition MKeyFromString (s : string) : outcome mkey_error MKey :=
  let l := strlen s in
  if bool_decide (l < 34) then Err ErrStringTooShort else
  let hashStr := drop_str (l - 32) s in
  let orgStr := take_str (l - 33) s in
  match hex_decode hashStr with
  | None => Err ErrHex
  | Some hash =>
      match ParseUint orgStr 32 with
      | None => Err ErrOrg
      | Some org => Ok (mkMKey hash org)
      end
  end.

(** ** MetricPoint *)

Record MetricPoint := mkMetricPoint { mpMKey : MKey; mpValue : Z; mpTime : Z }.

Definition putWithoutOrg (p : MetricPoint) : string :=
  Key (mpMKey p) +:+ le_put 8 (mpValue p) +:+ le_put 4 (mpTime p).

(** The 28 bytes [MarshalWithoutOrg28] appends, and the 32 of [Marshal32]. *)
Definition MarshalWithoutOrg28 (p : MetricPoint) : string := putWithoutOrg p.
Definition Marshal32 (p : MetricPoint) : string :=
  putWithoutOrg p +:+ le_put 4 (Org (mpMKey p)).

(** The message formats (msg/format.go), stored in a message's first byte. *)
Definition FormatMetricPoint : Z := 2.
Definition FormatMetricPointWithoutOrg : Z := 3.

(** What a consumer reads a point message back with (msg.ReadPointMsg). *)
Definition ReadPointMsg (data : string) (defaultOrg : Z) : option MetricPoint :=
  match data with
  | "" => None
  | String v body =>
      let point org := mkMetricPoint (mkMKey (take_str 16 body) org)
                         (le_get (take_str 8 (drop_str 16 body)))
                         (le_get (take_str 4 (drop_str 24 body))) in
      if bool_decide (strlen data = 29 ∧ byte_val v = FormatMetricPointWithoutOrg)
      then Some (point defaultOrg)
      else if bool_decide (strlen data = 33 ∧ byte_val v = FormatMetricPoint)
      then Some (point (le_get (take_str 4 (drop_str 28 body))))
      else None
  end.

(** ** SetId and the key of a metric *)

Definition sort_tags (m : MetricData) : MetricData :=
  mkMetricData (Id m) (OrgId m) (Name m) (Interval m) (Value m) (Unit m)
    (Time m) (Mtype m) (SortStrings (Tags m)).

(** The key the id of a metric stands for, when its org fits 32 bits. *)
Definition key_of (m : MetricData) : MKey :=
  mkMKey (md5_Sum (id_buffer (sort_tags m))) (OrgId m).

Lemma id_buffer_ext m1 m2 :
  Name m1 = Name m2 → Unit m1 = Unit m2 → Mtype m1 = Mtype m2 →
  Interval m1 = Interval m2 → Tags m1 = Tags m2 → id_buffer m1 = id_buffer m2.
Proof. unfold id_buffer. by intros -> -> -> -> ->. Qed.

Lemma SetId_Id m :
  Id (SetId m) = Itoa (OrgId m) +:+ "." +:+ hex_encode (md5_Sum (id_buffer (sort_tags m))).
Proof. done. Qed.

Lemma SetId_idemp m : SetId (SetId m) = SetId m.
Proof.
  unfold SetId. cbn [Id OrgId Name Interval Value Unit Time Mtype Tags].
  rewrite SortStrings_idemp. done.
Qed.

Lemma key_of_SetId m : key_of (SetId m) = key_of m.
Proof.
  unfold key_of. f_equal. f_equal. apply id_buffer_ext; try done.
  cbn [sort_tags SetId Tags]. apply SortStrings_idemp.
Qed.

(** An id consistent with the metric's content. *)
Definition id_set (m : MetricData) : Prop := SetId m = m.

Lemma id_set_SetId m : id_set (SetId m).
Proof. apply SetId_idemp. Qed.

(** Changing the org and back, with [SetId] after each change, restores a metric. *)
Lemma SetId_restore m o :
  id_set m → SetId (with_OrgId (OrgId m) (SetId (with_OrgId o m))) = m.
Proof.
  intros Hm. transitivity (SetId m); [|done].
  unfold SetId, with_OrgId. cbn [Id OrgId Name Interval Value Unit Time Mtype Tags].
  by rewrite SortStrings_idemp.
Qed.

Lemma ParseUint_Itoa o w :
  ParseUint (Itoa o) w = if decide (is_u w o) then Some o else None.
Proof.
  unfold Itoa. case_decide as Hneg.
  - rewrite decide_False by (unfold is_u; lia). done.
  - case_decide as H; [by apply ParseUint_FormatUint|].
    unfold ParseUint. rewrite digits_FormatUint by lia. simpl.
    rewrite decide_False; [done|]. unfold is_u in H. lia.
Qed.

Lemma MKeyFromString_id o h :
  strlen h = 16 →
  MKeyFromString (Itoa o +:+ "." +:+ hex_encode h) =
    if decide (is_u 32 o) then Ok (mkMKey h o) else Err ErrOrg.
Proof.
  intros Hh. unfold MKeyFromString.
  set (x := hex_encode h). assert (Hx : strlen x = 32) by (unfold x; rewrite strlen_hex_encode; lia).
  assert (H1 : 1 <= strlen (Itoa o)).
  { destruct (Itoa o) eqn:E; [by apply Itoa_nonempty in E|simpl; lia]. }
  rewrite !strlen_app, Hx. change (strlen ".") with 1.
  rewrite bool_decide_eq_false_2 by lia.
  replace (strlen (Itoa o) + (1 + 32) - 32) with (strlen (Itoa o +:+ "."))
    by (rewrite strlen_app; change (strlen ".") with 1; lia).
  rewrite <- str_app_assoc at 1. rewrite drop_str_app.
  replace (strlen (Itoa o) + (1 + 32) - 33) with (strlen (Itoa o)) by lia.
  rewrite take_str_app. unfold x. rewrite hex_decode_encode, ParseUint_Itoa. by case_decide.
Qed.

Lemma MKeyFromString_SetId m :
  MKeyFromString (Id (SetId m)) =
    if decide (is_u 32 (OrgId m)) then Ok (key_of m) else Err ErrOrg.
Proof. rewrite SetId_Id. apply MKeyFromString_id, strlen_md5_Sum. Qed.

Lemma wf_key_of m : strlen (Key (key_of m)) = 16.
Proof. apply strlen_md5_Sum. Qed.

(** ** Metric points *)

Definition wf_point (p : MetricPoint) : Prop :=
  strlen (Key (mpMKey p)) = 16 ∧ is_u 32 (Org (mpMKey p)) ∧
  is_u 64 (mpValue p) ∧ is_u 32 (mpTime p).

Lemma strlen_putWithoutOrg p : wf_point p → strlen (putWithoutOrg p) = 28.
Proof. intros (Hk & _). unfold putWithoutOrg. by rewrite !strlen_app, !strlen_le_put, Hk. Qed.

Lemma putWithoutOrg_fields p rest :
  wf_point p →
  let body := putWithoutOrg p +:+ rest in
  take_str 16 body = Key (mpMKey p) ∧
  le_get (take_str 8 (drop_str 16 body)) = mpValue p ∧
  le_get (take_str 4 (drop_str 24 body)) = mpTime p ∧
  drop_str 28 body = rest.
Proof.
  intros Hp. pose proof (strlen_putWithoutOrg p Hp) as Hlen. destruct Hp as (Hk & _ & Hv & Ht).
  cbn zeta. split_and!.
  - unfold putWithoutOrg. rewrite !str_app_assoc, <- Hk. apply take_str_app.
  - unfold putWithoutOrg. rewrite !str_app_assoc, <- Hk, drop_str_app.
    rewrite <- (strlen_le_put 8 (mpValue p)) at 1. rewrite take_str_app. by apply le_get_put_id.
  - unfold putWithoutOrg. rewrite !str_app_assoc, <- (str_app_assoc (Key _)).
    replace 24 with (strlen (Key (mpMKey p) +:+ le_put 8 (mpValue p)))
      by (rewrite strlen_app, strlen_le_put; lia).
    rewrite drop_str_app. rewrite <- (strlen_le_put 4 (mpTime p)) at 1.
    rewrite take_str_app. by apply le_get_put_id.
  - rewrite <- Hlen. apply drop_str_app.
Qed.

Lemma point_eta p : mkMetricPoint (mkMKey (Key (mpMKey p)) (Org (mpMKey p))) (mpValue p) (mpTime p) = p.
Proof. by destruct p as [[]]. Qed.

Lemma ReadPointMsg_33 p dflt :
  wf_point p →
  ReadPointMsg (String (byte_of FormatMetricPoint) (Marshal32 p)) dflt = Some p.
Proof.
  intros Hp. pose proof (strlen_putWithoutOrg p Hp) as Hlen.
  destruct (putWithoutOrg_fields p (le_put 4 (Org (mpMKey p))) Hp) as (H1 & H2 & H3 & H4).
  unfold ReadPointMsg, Marshal32. rewrite H1, H2, H3, H4.
  cbn [String.length]. rewrite strlen_app, strlen_le_put, Hlen.
  rewrite bool_decide_eq_false_2 by (intros [? _]; lia).
  rewrite bool_decide_eq_true_2 by done. f_equal.
  rewrite <- (strlen_le_put 4 (Org (mpMKey p))) at 1.
  rewrite take_str_all by done. rewrite le_get_put_id by apply Hp. apply point_eta.
Qed.

Lemma ReadPointMsg_29 p dflt :
  wf_point p →
  ReadPointMsg (String (byte_of FormatMetricPointWithoutOrg) (MarshalWithoutOrg28 p)) dflt =
  Some (mkMetricPoint (mkMKey (Key (mpMKey p)) dflt) (mpValue p) (mpTime p)).
Proof.
  intros Hp. pose proof (strlen_putWithoutOrg p Hp) as Hlen.
  destruct (putWithoutOrg_fields p "" Hp) as (H1 & H2 & H3 & _).
  unfold ReadPointMsg, MarshalWithoutOrg28. rewrite str_app_nil_r in *.
  cbn [String.length]. rewrite Hlen, bool_decide_eq_true_2 by done. by rewrite H1, H2, H3.
Qed.

(** ** Validation *)

Lemma eat_go_true b s :
  strlen (eat_go true b s) + count_dots b s =
  strlen s + (if b then if bool_decide (s = "") then 0 else 1 else 0).
Proof.
  revert b. induction s as [|c s IH]; intros b; [by destruct b|]. cbn [eat_go count_dots].
  rewrite (bool_decide_eq_false_2 (String c s = "")) by done.
  destruct (bool_decide (c = "."%char)).
  - replace (b || true) with true by (by destruct b). specialize (IH true).
    destruct b, (bool_decide (s = "")) eqn:Hs; simpl in *;
      (apply bool_decide_eq_true in Hs as -> || apply bool_decide_eq_false in Hs); simpl in *; lia.
  - specialize (IH false). destruct b; simpl in *; lia.
Qed.

Lemma eat_go_false s :
  (∃ c, has_byte c s = true ∧ c ≠ "."%char) →
  strlen (eat_go false false s) + count_dots true s = strlen s.
Proof.
  induction s as [|c s IH]; intros (x & Hx & Hne); [done|]. cbn [eat_go count_dots].
  case_bool_decide as Hc; simpl.
  - subst. simpl in Hx. rewrite bool_decide_eq_false_2 in Hx by done. simpl in Hx.
    rewrite (bool_decide_eq_false_2 (s = "")) by (by intros ->).
    specialize (IH (ex_intro _ x (conj Hx Hne))). lia.
  - pose proof (eat_go_true false s). simpl in *. lia.
Qed.

(** The buffer of [EatDots] has room for exactly the bytes written to it. *)
Lemma eat_go_length name c s :
  name = String c s → (∃ x, has_byte x name = true ∧ x ≠ "."%char) →
  strlen (eat_go false false name) =
  strlen name - ((if bool_decide (c = "."%char) then 1 else 0)
                 + count_dots (bool_decide (c = "."%char)) s).
Proof.
  intros -> (x & Hx & Hne). cbn [eat_go]. case_bool_decide as Hc; simpl.
  - subst. simpl in Hx. rewrite bool_decide_eq_false_2 in Hx by done.
    pose proof (eat_go_false s (ex_intro _ x (conj Hx Hne))). lia.
  - pose proof (eat_go_true false s). simpl in *. lia.
Qed.

(** What a valid metric looks like, and what [Validate] leaves alone. *)
Lemma Validate_valid m m' :
  Validate m = (m', None) →
  m' = with_Name (EatDots (Name m)) m ∧ OrgId m ≠ 0%Z ∧ Interval m ≠ 0%Z ∧ Name m' ≠ "" ∧
  Mtype m ∈ valid_mtypes ∧ Forall (λ t, ValidateTag t = true) (Tags m).
Proof.
  unfold Validate. intros H. repeat case_decide; try case_match; simplify_eq.
  split_and!; try done. apply Forall_forall. intros t Ht.
  cbn in *. unfold ValidateTags in *. rewrite forallb_forall in *.
  by apply H4, list_elem_of_In.
Qed.

Lemma Validate_keeps m :
  ∃ n, (Validate m).1 = with_Name n m.
Proof.
  unfold Validate. repeat case_decide; try case_match; simpl; eauto; exists (Name m); by destruct m.
Qed.
