(* ===== verification/KeyCache.v ===== *)
(** * publish/kafka/keycache

    The cache that remembers which metrics were published recently. [Shard],
    [Cache] and [KeyCache] follow shard.go, cache.go and keycache.go: a map per
    org of 256 shards, each a set of the last 15 bytes of a 16-byte key. The
    specification is one set of keys; the section at the end proves the
    refinement. The goroutines of [Touch] and [clear] are interleaved in
    KeyCacheConc.v. *)

From S2P Require Import Prelude GoStrings Schema.
From Stdlib Require Import Ascii.

(** ** Shard *)

Module Shard.
Definition Shard : Type := gset string.

Definition NewShard : Shard := ∅.

(** [copy(sub[:], key[1:])] *)
Definition sub_key (key : string) : string := drop_str 1 key.

Definition Touch (s : Shard) (key : string) : bool * Shard :=
  let sub := sub_key key in (bool_decide (sub ∈ s), {[sub]} ∪ s).

Definition Len (s : Shard) : nat := size s.

Definition Reset (s : Shard) : Shard := ∅.
End Shard.

(** ** Cache *)

Module Cache.
(** [shards [256]Shard] *)
Definition Cache : Type := list Shard.Shard.

Definition NewCache : Cache := replicate 256 Shard.NewShard.

(** [int(key[0])]; a [schema.Key] is an array of 16 bytes. *)
Definition shard_index (key : string) : nat :=
  match key with String c _ => Z.to_nat (byte_val c) | "" => 0 end.

Definition Touch (c : Cache) (key : string) : bool * Cache :=
  let shard := shard_index key in
  let '(ok, s) := Shard.Touch (c !!! shard) key in (ok, <[shard := s]> c).

Definition Len (c : Cache) : nat := sum_list (Shard.Len <$> c).

Definition Clear (c : Cache) (i : nat) : nat * Cache :=
  let c' := <[i := Shard.Reset (c !!! i)]> c in (Len c', c').
End Cache.

(** ** KeyCache *)

Record KeyCache := mkKeyCache {
  clearIdx : nat;
  clearInterval : Z;
  caches : gmap Z Cache.Cache }.

(** [clearInterval / 256]: a duration is an [int64], the division truncates. *)
Definition NewKeyCache (interval : Z) : KeyCache :=
  mkKeyCache 0 (Z.quot interval 256) ∅.

Definition with_caches (k : KeyCache) (m : gmap Z Cache.Cache) : KeyCache :=
  mkKeyCache (clearIdx k) (clearInterval k) m.

Definition Touch (key : MKey) (k : KeyCache) : bool * KeyCache :=
  let cache := default Cache.NewCache (caches k !! Org key) in
  let '(ok, cache') := Cache.Touch cache (Key key) in
  (ok, with_caches k (<[Org key := cache']> (caches k))).

Definition Len (k : KeyCache) : nat :=
  sum_list (Cache.Len ∘ snd <$> map_to_list (caches k)).

(** The loop body of [clear] for one target; the target's cache is a pointer, so
    its contents are read from the map. *)
Definition clear_target (idx : nat) (m : gmap Z Cache.Cache) (org : Z) : gmap Z Cache.Cache :=
  match m !! org with
  | None => m
  | Some c =>
      let '(size, c') := Cache.Clear c idx in
      if bool_decide (size = 0) then delete org m else <[org := c']> m
  end.

(** One tick of the [clear] goroutine. *)
Definition clear (k : KeyCache) : KeyCache :=
  let targets := (map_to_list (caches k)).*1 in
  let m := foldl (clear_target (clearIdx k)) (caches k) targets in
  let next := clearIdx k + 1 in
  mkKeyCache (if bool_decide (next = 256) then 0 else next) (clearInterval k) m.

(** ** Specification: a set of keys *)

Inductive op := OpTouch (key : MKey) | OpTick.

Definition step (k : KeyCache) (o : op) : KeyCache :=
  match o with OpTouch key => (Touch key k).2 | OpTick => clear k end.

Definition run (ops : list op) (k : KeyCache) : KeyCache := foldl step k ops.

Record Spec := mkSpec { spec_keys : gset MKey; spec_idx : nat }.

Definition spec_Touch (key : MKey) (s : Spec) : bool * Spec :=
  (bool_decide (key ∈ spec_keys s), mkSpec ({[key]} ∪ spec_keys s) (spec_idx s)).

Definition spec_clear (s : Spec) : Spec :=
  mkSpec (filter (λ key, Cache.shard_index (Key key) ≠ spec_idx s) (spec_keys s))
    ((spec_idx s + 1) mod 256).

(** ** Invariant and abstraction *)

(** A key is 16 bytes long. *)
Definition wf_key (key : MKey) : Prop := strlen (Key key) = 16.

Definition wf_cache (c : Cache.Cache) : Prop := length c = 256.

Definition wf (k : KeyCache) : Prop :=
  map_Forall (λ _, wf_cache) (caches k) ∧ clearIdx k < 256.

Definition in_cache (c : Cache.Cache) (key : string) : Prop :=
  Shard.sub_key key ∈ (c !!! Cache.shard_index key : Shard.Shard).

Definition seen (k : KeyCache) (key : MKey) : Prop :=
  ∃ c, caches k !! Org key = Some c ∧ in_cache c (Key key).

#[export] Instance in_cache_dec c key : Decision (in_cache c key).
Proof. unfold in_cache. apply _. Defined.

#[export] Instance seen_dec k key : Decision (seen k key).
Proof.
  unfold seen. destruct (caches k !! Org key) as [c|].
  - destruct (decide (in_cache c (Key key))) as [Hin|Hin]; [left; eauto|right].
    intros (c' & [= <-] & Hc'). done.
  - right. by intros (c' & ? & _).
Defined.

Definition abstracts (k : KeyCache) (s : Spec) : Prop :=
  wf k ∧ clearIdx k = spec_idx s ∧ ∀ key, wf_key key → (seen k key ↔ key ∈ spec_keys s).

(** ** Lemmas on one cache *)

Lemma shard_index_lt key : Cache.shard_index key < 256.
Proof.
  destruct key as [|c key]; simpl; [lia|]. pose proof (byte_val_range c) as [? H].
  change (2 ^ 8)%Z with 256%Z in H. lia.
Qed.

Lemma key_split a b :
  strlen a = 16 → strlen b = 16 →
  Cache.shard_index a = Cache.shard_index b → Shard.sub_key a = Shard.sub_key b → a = b.
Proof.
  destruct a as [|x a], b as [|y b]; try done. unfold Shard.sub_key. simpl.
  intros _ _ H ->. f_equal. apply byte_val_inj.
  pose proof (byte_val_range x) as [? _]. pose proof (byte_val_range y) as [? _]. lia.
Qed.

Lemma lookup_insert_total c i j (s : Shard.Shard) :
  wf_cache c → i < 256 → (<[i:=s]> c : Cache.Cache) !!! j = if decide (i = j) then s else c !!! j.
Proof.
  intros Hc Hi. case_decide as H.
  - subst. apply list_lookup_total_insert_eq. by rewrite Hc.
  - by apply list_lookup_total_insert_ne.
Qed.

Lemma NewCache_wf : wf_cache Cache.NewCache.
Proof. apply length_replicate. Qed.

Lemma NewCache_empty key : ¬ in_cache Cache.NewCache key.
Proof.
  unfold in_cache, Cache.NewCache, Cache.Cache, Shard.Shard.
  rewrite list_lookup_total_alt, lookup_replicate_2 by apply shard_index_lt.
  simpl. apply not_elem_of_empty.
Qed.

Lemma Cache_Touch_result c key : (Cache.Touch c key).1 = bool_decide (in_cache c key).
Proof. done. Qed.

Lemma Cache_Touch_wf c key : wf_cache c → wf_cache (Cache.Touch c key).2.
Proof. intros H. unfold wf_cache. simpl. etrans; [apply length_insert|done]. Qed.

Lemma Cache_Touch_in c key key' :
  wf_cache c → strlen key = 16 → strlen key' = 16 →
  in_cache (Cache.Touch c key).2 key' ↔ key' = key ∨ in_cache c key'.
Proof.
  intros Hc Hk Hk'. unfold in_cache. simpl.
  rewrite lookup_insert_total by (auto using shard_index_lt).
  case_decide as E; [|naive_solver].
  rewrite elem_of_union, elem_of_singleton, E. split; [|naive_solver].
  intros [?|?]; [left|by right]. apply key_split; auto.
Qed.

Lemma Cache_Clear_wf c i : wf_cache c → wf_cache (Cache.Clear c i).2.
Proof. intros H. unfold wf_cache. simpl. etrans; [apply length_insert|done]. Qed.

Lemma Cache_Clear_in c i key :
  wf_cache c → i < 256 →
  in_cache (Cache.Clear c i).2 key ↔ Cache.shard_index key ≠ i ∧ in_cache c key.
Proof.
  intros Hc Hi. unfold in_cache. simpl. rewrite lookup_insert_total by done.
  case_decide; [|naive_solver]. unfold Shard.Reset. set_solver.
Qed.

Lemma sum_list_0 l : sum_list l = 0 → Forall (λ n, n = 0) l.
Proof. induction l; simpl; intros; constructor; try apply IHl; lia. Qed.

Lemma Cache_Len_0 c key : Cache.Len c = 0 → ¬ in_cache c key.
Proof.
  unfold Cache.Len, in_cache, Cache.Cache, Shard.Shard in *. intros H%sum_list_0 Hin.
  destruct (c !! Cache.shard_index key) as [s|] eqn:E.
  - rewrite (list_lookup_total_correct _ _ _ E) in Hin.
    rewrite Forall_forall in H. specialize (H (Shard.Len s)).
    assert (Hs : s ∈ c) by (by eapply list_elem_of_lookup_2).
    specialize (H (list_elem_of_fmap_2 _ _ _ Hs)).
    apply size_empty_inv in H. set_solver.
  - rewrite list_lookup_total_alt, E in Hin. simpl in Hin. set_solver.
Qed.

(** ** Lemmas on the operations *)

Lemma clear_target_other idx m org org' :
  org ≠ org' → clear_target idx m org !! org' = m !! org'.
Proof.
  intros. unfold clear_target. destruct (m !! org) as [c|]; [|done]. simpl.
  case_bool_decide; [by rewrite lookup_delete_ne|by rewrite lookup_insert_ne].
Qed.

Lemma clear_target_self idx m org c :
  m !! org = Some c →
  clear_target idx m org !! org =
    if bool_decide ((Cache.Clear c idx).1 = 0) then None else Some (Cache.Clear c idx).2.
Proof.
  intros E. unfold clear_target. rewrite E. simpl.
  case_bool_decide; [apply lookup_delete_eq|apply lookup_insert_eq].
Qed.

(** A tick of [clear] treats each org on its own, in whatever order. *)
Lemma clear_lookup k org :
  caches (clear k) !! org =
    match caches k !! org with
    | None => None
    | Some c =>
        if bool_decide ((Cache.Clear c (clearIdx k)).1 = 0) then None
        else Some (Cache.Clear c (clearIdx k)).2
    end.
Proof.
  unfold clear. cbn [caches]. set (idx := clearIdx k). set (m := caches k).
  assert (G : ∀ l m', NoDup l → m' !! org = m !! org →
    foldl (clear_target idx) m' l !! org =
      if decide (org ∈ l) then clear_target idx m' org !! org else m !! org).
  { induction l as [|o l IH]; intros m' Hnd Hm; [done|].
    apply NoDup_cons in Hnd as [Hno Hnd]. simpl.
    destruct (decide (o = org)) as [->|Hne].
    - rewrite (decide_True (P := org ∈ org :: l)) by set_solver.
      cut (∀ l m'', org ∉ l → foldl (clear_target idx) m'' l !! org = m'' !! org).
      { intros HH. by apply HH. }
      clear. induction l as [|o l IH]; intros m'' Hl; [done|]. simpl.
      rewrite IH by set_solver. apply clear_target_other. set_solver.
    - assert (H1 : clear_target idx m' o !! org = m' !! org) by (by apply clear_target_other).
      rewrite IH by (done || congruence).
      rewrite (decide_ext (org ∈ o :: l) (org ∈ l)) by set_solver. case_decide; [|done].
      unfold clear_target at 1 3. rewrite H1.
      destruct (m' !! org) as [c|] eqn:E; [|congruence]. simpl.
      case_bool_decide; [by rewrite !lookup_delete_eq|by rewrite !lookup_insert_eq]. }
  rewrite G by (done || apply NoDup_fst_map_to_list).
  destruct (m !! org) as [c|] eqn:E.
  - rewrite decide_True; [by apply clear_target_self|].
    apply list_elem_of_fmap. exists (org, c). split; [done|]. by apply elem_of_map_to_list.
  - rewrite decide_False; [done|]. intros ([? ?] & -> & ?%elem_of_map_to_list)%list_elem_of_fmap.
    simpl in *. congruence.
Qed.

Lemma default_wf k org : wf k → wf_cache (default Cache.NewCache (caches k !! org)).
Proof.
  intros [H _]. destruct (caches k !! org) as [c|] eqn:E; [by apply (H _ _ E)|apply NewCache_wf].
Qed.

Lemma Touch_wf key k : wf k → wf (Touch key k).2.
Proof.
  intros Hw. pose proof (default_wf k (Org key) Hw) as Hd. destruct Hw as [H1 H2].
  unfold Touch. destruct (Cache.Touch _ _) as [b c'] eqn:E. cbn [snd].
  split; [|done]. cbn [caches with_caches]. apply map_Forall_insert_2; [|done].
  change c' with (b, c').2. rewrite <- E. by apply Cache_Touch_wf.
Qed.

Lemma clear_wf k : wf k → wf (clear k).
Proof.
  intros [H1 H2]. split.
  - intros org c. rewrite clear_lookup. destruct (caches k !! org) as [c'|] eqn:E; [|done].
    case_bool_decide; [done|]. intros [= <-]. apply Cache_Clear_wf. by apply (H1 _ _ E).
  - simpl. case_bool_decide; lia.
Qed.

Lemma NewKeyCache_wf i : wf (NewKeyCache i).
Proof. split; [apply map_Forall_empty|simpl; lia]. Qed.

Lemma Touch_fst key k : (Touch key k).1 = bool_decide (seen k key).
Proof.
  unfold Touch. destruct (Cache.Touch _ _) as [b c'] eqn:E. simpl.
  change b with (b, c').1. rewrite <- E, Cache_Touch_result. apply bool_decide_ext.
  unfold seen. destruct (caches k !! Org key) as [c|]; simpl; [naive_solver|].
  split; [intros []%NewCache_empty|naive_solver].
Qed.

Lemma seen_Touch key k key' :
  wf k → wf_key key → wf_key key' →
  seen (Touch key k).2 key' ↔ key' = key ∨ seen k key'.
Proof.
  intros Hw Hk Hk'. unfold seen, Touch.
  destruct (Cache.Touch (default _ _) _) as [b c'] eqn:E. cbn [snd caches with_caches].
  destruct (decide (Org key = Org key')) as [Ho|Ho].
  - rewrite <- Ho, lookup_insert_eq.
    assert (Hc' : in_cache c' (Key key') ↔ Key key' = Key key ∨
              in_cache (default Cache.NewCache (caches k !! Org key)) (Key key')).
    { change c' with (b, c').2. rewrite <- E. apply Cache_Touch_in; try done.
      by apply default_wf. }
    assert (Heq : key' = key ↔ Key key' = Key key).
    { destruct key, key'; simpl in *; naive_solver. }
    destruct (caches k !! Org key) as [c|] eqn:Ec; simpl in Hc'; [naive_solver|].
    pose proof (NewCache_empty (Key key')). naive_solver.
  - rewrite lookup_insert_ne by done.
    assert (key' ≠ key) by (by intros ->). naive_solver.
Qed.

Lemma seen_clear k key :
  wf k → seen (clear k) key ↔ Cache.shard_index (Key key) ≠ clearIdx k ∧ seen k key.
Proof.
  intros [Hw Hi]. unfold seen. setoid_rewrite clear_lookup.
  destruct (caches k !! Org key) as [c|] eqn:Ec; [|naive_solver].
  pose proof (Cache_Clear_in c (clearIdx k) (Key key) ltac:(by apply (Hw _ _ Ec)) Hi) as Hc.
  case_bool_decide as H0.
  - pose proof (Cache_Len_0 (Cache.Clear c (clearIdx k)).2 (Key key) H0). naive_solver.
  - naive_solver.
Qed.

Lemma clearIdx_clear k : clearIdx k < 256 → clearIdx (clear k) = (clearIdx k + 1) mod 256.
Proof.
  intros H. unfold clear. cbn [clearIdx]. case_bool_decide as E; [by rewrite E|].
  symmetry. apply Nat.mod_small. lia.
Qed.

#[export] Hint Resolve Touch_wf clear_wf NewKeyCache_wf NewCache_wf Cache_Touch_wf
  Cache_Clear_wf shard_index_lt : gw.

(** ** Runs of touches and ticks *)

#[export] Instance op_eq_dec : EqDecision op.
Proof. solve_decision. Defined.

Definition ticks (ops : list op) : nat := length (filter (λ o, o = OpTick) ops).

Definition wf_op (o : op) : Prop := match o with OpTouch key => wf_key key | OpTick => True end.

Definition spec_step (s : Spec) (o : op) : Spec :=
  match o with OpTouch key => (spec_Touch key s).2 | OpTick => spec_clear s end.

Definition spec_run (ops : list op) (s : Spec) : Spec := foldl spec_step s ops.

Definition spec_init : Spec := mkSpec ∅ 0.

(** Ticks left before the shard of [key] is the next one to be cleared. *)
Definition ticks_left (k : KeyCache) (key : MKey) : nat :=
  (256 + Cache.shard_index (Key key) - clearIdx k) mod 256.

Lemma step_wf k o : wf k → wf (step k o).
Proof. destruct o; [apply Touch_wf|apply clear_wf]. Qed.

Lemma run_wf ops k : wf k → wf (run ops k).
Proof. revert k. induction ops as [|o ops IH]; intros k Hk; [done|]. apply IH, step_wf, Hk. Qed.

Lemma abstracts_init i : abstracts (NewKeyCache i) spec_init.
Proof.
  split; [apply NewKeyCache_wf|split; [done|]]. intros key _.
  split; [intros (c & H & _); simpl in H; by rewrite lookup_empty in H|].
  intros H. by apply elem_of_empty in H.
Qed.

Lemma abstracts_step k s o : wf_op o → abstracts k s → abstracts (step k o) (spec_step s o).
Proof.
  intros Ho (Hw & Hi & Hs). split; [by apply step_wf|]. destruct o as [key|]; cbn [step spec_step].
  - split; [done|]. intros key' Hk'.
    cbn [snd spec_Touch spec_keys].
    rewrite seen_Touch, Hs by done. by rewrite elem_of_union, elem_of_singleton.
  - split; [rewrite clearIdx_clear by apply Hw; by rewrite Hi|]. intros key Hk.
    cbn [spec_clear spec_keys].
    rewrite seen_clear, Hs by done. by rewrite elem_of_filter, Hi.
Qed.

Lemma abstracts_run ops k s :
  Forall wf_op ops → abstracts k s → abstracts (run ops k) (spec_run ops s).
Proof.
  revert k s. induction ops as [|o ops IH]; intros k s Hops Ha; [done|].
  apply Forall_cons in Hops as [? ?]. apply IH; [done|]. by apply abstracts_step.
Qed.

Lemma ticks_left_cases i j : i < 256 → j < 256 →
  (256 + i - j) mod 256 = if decide (j ≤ i) then i - j else 256 + i - j.
Proof.
  intros. case_decide; [|apply Nat.mod_small; lia].
  replace (256 + i - j) with (i - j + 1 * 256) by lia.
  rewrite Nat.Div0.mod_add. apply Nat.mod_small. lia.
Qed.

Lemma ticks_left_tick k key :
  wf k → ticks_left k key ≠ 0 → ticks_left (clear k) key = ticks_left k key - 1.
Proof.
  intros [_ Hi]. pose proof (shard_index_lt (Key key)). unfold ticks_left.
  rewrite clearIdx_clear by done. destruct (decide (clearIdx k = 255)) as [->|E].
  - change ((255 + 1) mod 256) with 0. rewrite !ticks_left_cases by lia.
    repeat case_decide; lia.
  - rewrite (Nat.mod_small (clearIdx k + 1)) by lia. rewrite !ticks_left_cases by lia.
    repeat case_decide; lia.
Qed.

Lemma ticks_left_0 k key :
  wf k → ticks_left k key = 0 ↔ Cache.shard_index (Key key) = clearIdx k.
Proof.
  intros [_ Hi]. pose proof (shard_index_lt (Key key)). unfold ticks_left.
  rewrite ticks_left_cases by done. case_decide; lia.
Qed.

Lemma seen_run k key ops :
  wf k → wf_key key → Forall wf_op ops → OpTouch key ∉ ops →
  seen (run ops k) key ↔ seen k key ∧ ticks ops ≤ ticks_left k key.
Proof.
  revert k. induction ops as [|o ops IH]; intros k Hw Hk Hops Hno; cbn [run foldl]; [|fold (run ops (step k o))].
  { unfold ticks. simpl. naive_solver lia. }
  apply Forall_cons in Hops as [Ho Hops]. apply not_elem_of_cons in Hno as [Hne Hno].
  rewrite IH by auto using step_wf. destruct o as [key'|]; cbn [step].
  - rewrite seen_Touch by done. unfold ticks at 2. rewrite filter_cons_False by done.
    change (ticks_left (Touch key' k).2 key) with (ticks_left k key).
    split; [intros [[->|?] ?]; [by destruct Hne|done]|naive_solver].
  - rewrite seen_clear by done. unfold ticks at 2. rewrite filter_cons_True by done. simpl.
    fold (ticks ops). rewrite <- ticks_left_0 by done.
    destruct (decide (ticks_left k key = 0)) as [E|E]; [split; [naive_solver|lia]|].
    rewrite ticks_left_tick by done. naive_solver lia.
Qed.

Lemma ticks_left_lt k key : ticks_left k key < 256.
Proof. by apply Nat.mod_upper_bound. Qed.

(** An org whose shards are all empty is dropped at the next tick. *)
Lemma Cache_Len_pos c : wf_cache c → Cache.Len c ≠ 0 → ∃ key, in_cache c key.
Proof.
  intros Hw Hl. destruct (decide (Forall (λ s, s = ∅) c)) as [Ha|Ha].
  - destruct Hl. unfold Cache.Len. clear Hw. induction Ha as [|s c -> _ IH]; [done|].
    cbn [fmap list_fmap sum_list]. by rewrite IH.
  - apply not_Forall_Exists in Ha; [|apply _]. apply Exists_exists in Ha as (s & Hs & Hne).
    apply list_elem_of_lookup in Hs as [i Hi]. apply set_choose_L in Hne as [sub Hsub].
    pose proof (lookup_lt_Some _ _ _ Hi) as Hlt. rewrite Hw in Hlt.
    exists (String (byte_of (Z.of_nat i)) sub). unfold in_cache.
    replace (Cache.shard_index _) with i.
    + rewrite (list_lookup_total_correct _ _ _ Hi). exact Hsub.
    + simpl. rewrite byte_val_of, Z.mod_small by lia. lia.
Qed.

Lemma clear_nonempty k org c :
  wf k → caches (clear k) !! org = Some c → ∃ key, in_cache c key.
Proof.
  intros [Hw Hi] Hc. rewrite clear_lookup in Hc.
  destruct (caches k !! org) as [c0|] eqn:E; [|done]. case_bool_decide as H0; [done|].
  injection Hc as <-. apply Cache_Len_pos; [apply Cache_Clear_wf, (Hw _ _ E)|exact H0].
Qed.

Lemma run_ticks_seen n k key :
  wf k → seen (run (replicate n OpTick) k) key ↔ seen k key ∧ n ≤ ticks_left k key.
Proof.
  revert k. induction n as [|n IH]; intros k Hw; cbn [replicate run foldl].
  { split; [intros; split; [done|lia]|naive_solver]. }
  fold (run (replicate n OpTick) (step k OpTick)).
  rewrite IH by auto using step_wf. cbn [step]. rewrite seen_clear by done.
  rewrite <- ticks_left_0 by done.
  destruct (decide (ticks_left k key = 0)) as [E|E]; [split; [naive_solver|lia]|].
  rewrite ticks_left_tick by done. naive_solver lia.
Qed.

(** ** Properties *)

(** C11. The sharded cache implements one set of keys: after any sequence of
    touches and ticks of the clear goroutine it holds exactly the keys of the
    set, and [Touch] answers whether the key is in it. *)
Theorem keycache_refines_set interval ops key :
  Forall wf_op ops → wf_key key →
  abstracts (run ops (NewKeyCache interval)) (spec_run ops spec_init) ∧
  (Touch key (run ops (NewKeyCache interval))).1 =
    (spec_Touch key (spec_run ops spec_init)).1.
Proof.
  intros Hops Hk. pose proof (abstracts_run ops _ _ Hops (abstracts_init interval)) as Ha.
  split; [done|]. rewrite Touch_fst. apply bool_decide_ext. by apply Ha.
Qed.

Definition key_a : MKey := mkMKey "0123456789abcdef" 1.
Definition key_b : MKey := mkMKey "0123456789abcdef" 2.

Lemma keycache_refines_set_witness :
  (Touch key_a (run [OpTouch key_a; OpTick; OpTouch key_b] (NewKeyCache 1000))).1 = true.
Proof.
  rewrite (proj2 (keycache_refines_set 1000 [OpTouch key_a; OpTick; OpTouch key_b] key_a
    ltac:(repeat constructor) eq_refl)).
  vm_compute. reflexivity.
Defined.

(** How long a key is remembered: a key touched and not touched again is
    answered as seen until the tick of its shard, which comes after fewer than
    256 further ticks, and as unseen from that tick on. *)
Theorem touch_remembered_until_its_tick interval ops1 key ops2 :
  Forall wf_op (ops1 ++ OpTouch key :: ops2) → OpTouch key ∉ ops2 →
  let k1 := run ops1 (NewKeyCache interval) in
  (Touch key (run (ops1 ++ OpTouch key :: ops2) (NewKeyCache interval))).1 =
    bool_decide (ticks ops2 ≤ ticks_left k1 key) ∧
  ticks_left k1 key < 256.
Proof.
  intros Hops Hno k1. split; [|apply ticks_left_lt].
  apply Forall_app in Hops as [H1 [Hk H2]%Forall_cons].
  pose proof (run_wf ops1 _ (NewKeyCache_wf interval)) as Hw.
  rewrite Touch_fst. apply bool_decide_ext. unfold run at 1.
  rewrite (foldl_app step ops1). cbn [foldl step].
  change (foldl step (NewKeyCache interval) ops1) with k1.
  change (foldl step (Touch key k1).2 ops2) with (run ops2 (Touch key k1).2).
  rewrite seen_run by auto using Touch_wf. rewrite seen_Touch by done.
  change (ticks_left (Touch key k1).2 key) with (ticks_left k1 key). naive_solver.
Qed.

Lemma touch_remembered_until_its_tick_witness :
  (Touch key_a (run (OpTouch key_a :: replicate 48 OpTick) (NewKeyCache 0))).1 = true ∧
  (Touch key_a (run (OpTouch key_a :: replicate 49 OpTick) (NewKeyCache 0))).1 = false.
Proof.
  split.
  - refine (eq_trans (proj1 (touch_remembered_until_its_tick 0 [] key_a (replicate 48 OpTick)
      _ _)) _); [repeat constructor|apply (bool_decide_unpack _); by vm_compute|by vm_compute].
  - refine (eq_trans (proj1 (touch_remembered_until_its_tick 0 [] key_a (replicate 49 OpTick)
      _ _)) _); [repeat constructor|apply (bool_decide_unpack _); by vm_compute|by vm_compute].
Defined.

(** Memory is given back: once every producer is silent, 256 ticks empty
    the cache of every org and remove the org from the map. *)
Theorem silent_orgs_are_dropped interval ops :
  caches (run (replicate 256 OpTick) (run ops (NewKeyCache interval))) = ∅.
Proof.
  set (k := run ops _). assert (Hw : wf k) by apply run_wf, NewKeyCache_wf.
  apply map_eq. intros org. rewrite lookup_empty. change 256 with (255 + 1).
  rewrite replicate_add. unfold run. rewrite foldl_app.
  destruct (caches _ !! org) as [c|] eqn:E; [exfalso|done].
  pose proof (run_wf (replicate 255 OpTick) k Hw) as Hw'.
  destruct (clear_nonempty _ _ _ Hw' E) as [key Hkey].
  assert (Hs : seen (run (replicate 256 OpTick) k) (mkMKey key org)).
  { exists c. split; [|done]. change 256 with (255 + 1).
    rewrite replicate_add. unfold run. by rewrite foldl_app. }
  apply run_ticks_seen in Hs as [_ Hle]; [|done].
  pose proof (ticks_left_lt k (mkMKey key org)). lia.
Qed.

#[global] Arguments Touch : simpl never.
