(* ===== verification/KeyCacheConc.v ===== *)
(** * publish/kafka/keycache, concurrently

    [Touch] runs in the request goroutines while the goroutine of [clear] runs
    beside them. A configuration holds the shared store (the caches, which are
    allocated and never freed, and the map from orgs to caches), the goroutines
    inside [Touch], and the goroutine of [clear]. A step is what happens under
    one lock: the read-locked lookup, the write-locked creation, a shard's
    [Touch], [Reset] or [Len], the write-locked deletion. [log] records the
    finished calls, the latest first. *)

From S2P Require Import Prelude GoStrings Schema KeyCache.
From stdpp Require Import relations.

(** A goroutine inside [Touch]: before the lookup, after a miss, holding a
    cache. *)
Inductive tstate :=
| TLookup (key : MKey)
| TCreate (key : MKey)
| TShard (key : MKey) (l : nat).

(** The goroutine of [clear]: waiting for a tick, looping over the targets,
    summing the shard sizes of the target it has just reset, deleting it. *)
Inductive cstate :=
| CTick
| CLoop (targets : list (Z * nat))
| CLen (org : Z) (l : nat) (i sum : nat) (rest : list (Z * nat))
| CDelete (org : Z) (rest : list (Z * nat)).

Record conf := mkConf {
  heap : list Cache.Cache;
  cmap : gmap Z nat;
  threads : gmap nat tstate;
  clr : cstate;
  idx : nat;
  log : list (MKey * bool) }.

Definition init : conf := mkConf [] ∅ ∅ CTick 0 [].

Definition set_thread (t : nat) (s : tstate) (c : conf) : conf :=
  mkConf (heap c) (cmap c) (<[t := s]> (threads c)) (clr c) (idx c) (log c).
Definition set_clr (s : cstate) (c : conf) : conf :=
  mkConf (heap c) (cmap c) (threads c) s (idx c) (log c).

(** The write-locked part of [Touch]: look again, create the cache if no other
    goroutine has. *)
Definition create (t : nat) (key : MKey) (c : conf) : conf :=
  match cmap c !! Org key with
  | Some l => set_thread t (TShard key l) c
  | None =>
      let l := length (heap c) in
      set_thread t (TShard key l)
        (mkConf (heap c ++ [Cache.NewCache]) (<[Org key := l]> (cmap c)) (threads c)
           (clr c) (idx c) (log c))
  end.

(** [cache.Touch(key.Key)] and the return. *)
Definition touch_shard (t : nat) (key : MKey) (l : nat) (c : conf) : conf :=
  let '(ok, cache) := Cache.Touch (heap c !!! l) (Key key) in
  mkConf (<[l := cache]> (heap c)) (cmap c) (delete t (threads c)) (clr c) (idx c)
    ((key, ok) :: log c).

Inductive tstep : conf → conf → Prop :=
| StepCall c t key :
    threads c !! t = None → wf_key key → tstep c (set_thread t (TLookup key) c)
| StepHit c t key l :
    threads c !! t = Some (TLookup key) → cmap c !! Org key = Some l →
    tstep c (set_thread t (TShard key l) c)
| StepMiss c t key :
    threads c !! t = Some (TLookup key) → cmap c !! Org key = None →
    tstep c (set_thread t (TCreate key) c)
| StepCreate c t key :
    threads c !! t = Some (TCreate key) → tstep c (create t key c)
| StepShard c t key l :
    threads c !! t = Some (TShard key l) → tstep c (touch_shard t key l c).

Definition reset_shard (l : nat) (c : conf) : conf :=
  mkConf (alter (λ ca : Cache.Cache, <[idx c := Shard.Reset (ca !!! idx c)]> ca) l (heap c))
    (cmap c) (threads c) (clr c) (idx c) (log c).

Definition delete_org (org : Z) (c : conf) : conf :=
  mkConf (heap c) (delete org (cmap c)) (threads c) (clr c) (idx c) (log c).

Definition next_idx (c : conf) : conf :=
  mkConf (heap c) (cmap c) (threads c) (clr c)
    (if bool_decide (idx c + 1 = 256) then 0 else idx c + 1) (log c).

Inductive cstep : conf → conf → Prop :=
| StepTick c targets :
    clr c = CTick → targets ≡ₚ map_to_list (cmap c) → cstep c (set_clr (CLoop targets) c)
| StepReset c org l rest :
    clr c = CLoop ((org, l) :: rest) →
    cstep c (set_clr (CLen org l 0 0 rest) (reset_shard l c))
| StepLen c org l i sum rest :
    clr c = CLen org l i sum rest → i < 256 →
    cstep c (set_clr (CLen org l (i + 1) (sum + Shard.Len ((heap c !!! l : Cache.Cache) !!! i)) rest) c)
| StepKeep c org l sum rest :
    clr c = CLen org l 256 sum rest → sum ≠ 0 → cstep c (set_clr (CLoop rest) c)
| StepEmpty c org l rest :
    clr c = CLen org l 256 0 rest → cstep c (set_clr (CDelete org rest) c)
| StepDelete c org rest :
    clr c = CDelete org rest → cstep c (set_clr (CLoop rest) (delete_org org c))
| StepDone c :
    clr c = CLoop [] → cstep c (set_clr CTick (next_idx c)).

Definition step (c1 c2 : conf) : Prop := tstep c1 c2 ∨ cstep c1 c2.

(** ** What the invariant says of the log *)

Definition logged (key : MKey) (lg : list (MKey * bool)) : Prop := key ∈ lg.*1.

#[export] Instance logged_dec key lg : Decision (logged key lg).
Proof. unfold logged. apply _. Defined.

(** Every call that answered "seen" was preceded by a call for the same key. *)
Fixpoint true_justified (lg : list (MKey * bool)) : Prop :=
  match lg with
  | [] => True
  | (key, ok) :: lg' => (ok = true → logged key lg') ∧ true_justified lg'
  end.

(** The answers of a single set of keys, one call after the other. *)
Fixpoint sequential (lg : list (MKey * bool)) : Prop :=
  match lg with
  | [] => True
  | (key, ok) :: lg' => ok = bool_decide (logged key lg') ∧ sequential lg'
  end.

Definition owner_ok (owner : list Z) (s : tstate) : Prop :=
  match s with
  | TLookup key | TCreate key => wf_key key
  | TShard key l => wf_key key ∧ owner !! l = Some (Org key)
  end.

(** [owner] remembers for which org each cache was created. *)
Definition inv_with (owner : list Z) (c : conf) : Prop :=
  length owner = length (heap c) ∧ idx c < 256 ∧
  (∀ org l, cmap c !! org = Some l → owner !! l = Some org) ∧
  map_Forall (λ _, owner_ok owner) (threads c) ∧
  (∀ l ca org, heap c !! l = Some ca → owner !! l = Some org →
     wf_cache ca ∧
     ∀ key, wf_key key → Org key = org → in_cache ca (Key key) → logged key (log c)) ∧
  true_justified (log c).

(** Reduce the projections of a configuration, and nothing else. *)
Ltac conf_simpl :=
  unfold inv_with;
  cbn [heap cmap threads clr idx log set_thread set_clr reset_shard delete_org next_idx].
Tactic Notation "conf_simpl" "in" hyp(H) :=
  cbn [heap cmap threads clr idx log set_thread set_clr reset_shard delete_org next_idx] in H.

Definition inv (c : conf) : Prop := ∃ owner, inv_with owner c.

Lemma inv_init : inv init.
Proof.
  exists []. split; [done|]. split; [simpl; lia|]. split; [by intros org l H|].
  split; [by apply map_Forall_empty|]. done.
Qed.

Lemma owner_ok_mono owner o s : owner_ok owner s → owner_ok (owner ++ [o]) s.
Proof. destruct s; simpl; [done|done|]. intros [? ?]. split; [done|by apply lookup_app_l_Some]. Qed.

Lemma logged_cons key k ok lg : logged key ((k, ok) :: lg) ↔ key = k ∨ logged key lg.
Proof. unfold logged. simpl. apply elem_of_cons. Qed.

(** A goroutine that only moves on keeps the invariant. *)
Lemma inv_set_thread owner t s c :
  owner_ok owner s → inv_with owner c → inv_with owner (set_thread t s c).
Proof.
  intros Hs (Hlen & Hi & Hm & Ht & Hh & Hl). split; [done|]. split; [done|]. split; [done|].
  split; [|done]. by apply map_Forall_insert_2.
Qed.

Lemma inv_set_clr owner s c : inv_with owner c → inv_with owner (set_clr s c).
Proof. done. Qed.

Lemma inv_create t key c : wf_key key → inv c → inv (create t key c).
Proof.
  intros Hk (owner & Hinv). pose proof Hinv as (Hlen & Hi & Hm & Ht & Hh & Hl). unfold create.
  destruct (cmap c !! Org key) as [l|] eqn:E.
  { exists owner. apply inv_set_thread; [|done]. split; [done|by apply Hm]. }
  exists (owner ++ [Org key]). apply inv_set_thread.
  { split; [done|]. rewrite <- Hlen. by rewrite list_lookup_middle. }
  split; [conf_simpl; rewrite !length_app; simpl; lia|]. split; [done|]. split; [|split; [|split]].
  - intros org l. conf_simpl. rewrite lookup_insert_Some. intros [[<- <-]|[_ Hl']].
    + rewrite <- Hlen. by rewrite list_lookup_middle.
    + apply lookup_app_l_Some. by apply Hm.
  - intros t' s' Hs'. apply owner_ok_mono. by apply (Ht t').
  - conf_simpl. intros l ca org Hca Ho. destruct (decide (l < length (heap c))) as [Hlt|Hge].
    + rewrite lookup_app_l in Hca by done. rewrite lookup_app_l in Ho by lia. by apply (Hh l).
    + apply lookup_app_Some in Hca as [Hca|[_ Hca]]; [by apply lookup_lt_Some in Hca|].
      apply list_lookup_singleton_Some in Hca as [_ <-]. split; [apply NewCache_wf|].
      intros key' _ _ []%NewCache_empty.
  - done.
Qed.

Lemma inv_touch_shard t key l c :
  threads c !! t = Some (TShard key l) → inv c → inv (touch_shard t key l c).
Proof.
  intros Et (owner & Hlen & Hi & Hm & Ht & Hh & Hl).
  destruct (Ht _ _ Et) as [Hk Ho].
  destruct (lookup_lt_is_Some_2 (heap c) l) as [ca Hca].
  { rewrite <- Hlen. by eapply lookup_lt_Some. }
  destruct (Hh _ _ _ Hca Ho) as [Hwf Hin].
  unfold touch_shard. rewrite (list_lookup_total_correct _ _ _ Hca).
  destruct (Cache.Touch ca (Key key)) as [ok ca'] eqn:E.
  assert (Hca' : ca' = (Cache.Touch ca (Key key)).2) by by rewrite E.
  assert (Hok : ok = bool_decide (in_cache ca (Key key))) by by rewrite <- Cache_Touch_result, E.
  exists owner. conf_simpl. split; [by rewrite length_insert|]. split; [done|]. split; [done|].
  split; [by apply map_Forall_delete|]. split; conf_simpl.
  - intros l' ca2 org Hca2 Ho2. apply list_lookup_insert_Some in Hca2 as [(-> & <- & _)|[Hne Hca2]].
    + split; [rewrite Hca'; by apply Cache_Touch_wf|]. intros key' Hk' Horg.
      rewrite Hca', Cache_Touch_in by done. rewrite logged_cons. intros [Heq|Hin'].
      * left. destruct key, key'; simpl in *. congruence.
      * right. apply Hin; [done|congruence|done].
    + destruct (Hh _ _ _ Hca2 Ho2) as [? Hin2]. split; [done|]. intros key' ???.
      rewrite logged_cons. right. by apply Hin2.
  - split; [|done]. rewrite Hok. intros Hd%bool_decide_eq_true. by apply Hin.
Qed.

Lemma inv_tstep c1 c2 : tstep c1 c2 → inv c1 → inv c2.
Proof.
  destruct 1 as [c t key Et Hk|c t key l Et Em|c t key Et Em|c t key Et|c t key l Et]; intros Hinv.
  - destruct Hinv as [owner H]. exists owner. by apply inv_set_thread.
  - destruct Hinv as [owner H]. exists owner. apply inv_set_thread; [|done].
    destruct H as (_ & _ & Hm & Ht & _). split; [by apply (Ht _ _ Et)|by apply Hm].
  - destruct Hinv as [owner H]. exists owner. apply inv_set_thread; [|done].
    destruct H as (_ & _ & _ & Ht & _). by apply (Ht _ _ Et).
  - apply inv_create; [|done]. destruct Hinv as (owner & _ & _ & _ & Ht & _). by apply (Ht _ _ Et).
  - by apply inv_touch_shard.
Qed.

Lemma inv_reset l c : inv c → inv (reset_shard l c).
Proof.
  intros (owner & Hlen & Hi & Hm & Ht & Hh & Hl). exists owner.
  split; [conf_simpl; by rewrite length_alter|]. repeat (split; [done|]). split; [|done].
  intros l' ca org Hca Ho. conf_simpl in Hca. destruct (decide (l = l')) as [->|Hne].
  - rewrite list_lookup_alter_eq in Hca. destruct (heap c !! l') as [ca0|] eqn:E; [|done].
    injection Hca as <-. destruct (Hh _ _ _ E Ho) as [Hwf Hin].
    split; [by apply (Cache_Clear_wf ca0 (idx c))|]. intros key Hk Horg Hc.
    apply Hin; [done|done|]. by apply (Cache_Clear_in ca0 (idx c) (Key key)) in Hc as [_ ?].
  - rewrite list_lookup_alter_ne in Hca by done. by apply (Hh l').
Qed.

Lemma inv_delete org c : inv c → inv (delete_org org c).
Proof.
  intros (owner & Hlen & Hi & Hm & Ht & Hh & Hl). exists owner.
  split; [done|]. split; [done|]. split; [|done].
  intros org' l. conf_simpl. intros [_ ?]%lookup_delete_Some. by apply Hm.
Qed.

Lemma inv_next c : inv c → inv (next_idx c).
Proof.
  intros (owner & Hlen & Hi & Hrest). exists owner. split; [done|]. split; [|done].
  conf_simpl. case_bool_decide; lia.
Qed.

Lemma inv_clr s c : inv c → inv (set_clr s c).
Proof. intros [owner H]. by exists owner. Qed.

#[export] Hint Resolve inv_clr inv_next inv_delete inv_reset : gw.

Lemma inv_cstep c1 c2 : cstep c1 c2 → inv c1 → inv c2.
Proof. destruct 1; eauto with gw. Qed.

Lemma inv_reachable c : rtc step init c → inv c.
Proof.
  intros H. apply (rtc_ind_r (R:=step) inv init); [apply inv_init| |done].
  intros c1 c2 _ [?|?] ?; [by eapply inv_tstep|by eapply inv_cstep].
Qed.

(** ** The calls of [Touch] among themselves *)

Definition holds (c : conf) (key : MKey) : Prop :=
  ∃ l ca, cmap c !! Org key = Some l ∧ heap c !! l = Some ca ∧ in_cache ca (Key key).

Definition current (c : conf) (s : tstate) : Prop :=
  match s with
  | TLookup key | TCreate key => wf_key key
  | TShard key l => wf_key key ∧ cmap c !! Org key = Some l
  end.

Definition tinv (c : conf) : Prop :=
  (∀ org l, cmap c !! org = Some l → ∃ ca, heap c !! l = Some ca ∧ wf_cache ca) ∧
  (∀ org1 org2 l, cmap c !! org1 = Some l → cmap c !! org2 = Some l → org1 = org2) ∧
  map_Forall (λ _, current c) (threads c) ∧
  (∀ key, wf_key key → holds c key ↔ logged key (log c)) ∧
  sequential (log c).

Lemma tinv_init : tinv init.
Proof.
  split; [by intros ? ? H|]. split; [by intros ? ? ? H|]. split; [by apply map_Forall_empty|].
  split; [|done]. intros key _. split; [by intros (l & ca & H & _)|].
  intros H. by apply elem_of_nil in H.
Qed.

Lemma tinv_set_thread t s c : current c s → tinv c → tinv (set_thread t s c).
Proof.
  intros Hs (Hh & Hj & Ht & Hl & Hq). split; [done|]. split; [done|]. split; [|done].
  by apply map_Forall_insert_2.
Qed.

Lemma tinv_create t key c : wf_key key → tinv c → tinv (create t key c).
Proof.
  intros Hk Hinv. pose proof Hinv as (Hh & Hj & Ht & Hl & Hq). unfold create.
  destruct (cmap c !! Org key) as [l|] eqn:E; [by apply tinv_set_thread|].
  assert (Hfresh : ∀ org l, cmap c !! org = Some l → l < length (heap c)).
  { intros org l Hm. destruct (Hh _ _ Hm) as (ca & Hca & _). by eapply lookup_lt_Some. }
  apply tinv_set_thread; [split; [done|apply lookup_insert_eq]|]. conf_simpl.
  split; [|split; [|split; [|split; [|done]]]]; conf_simpl.
  - intros org l [[<- <-]|[_ Hm]]%lookup_insert_Some.
    + exists Cache.NewCache. by rewrite list_lookup_middle.
    + destruct (Hh _ _ Hm) as (ca & Hca & ?). exists ca. split; [by apply lookup_app_l_Some|done].
  - intros o1 o2 l [[<- <-]|[? H1]]%lookup_insert_Some [[<- H2]|[? H2]]%lookup_insert_Some;
      [done|by apply Hfresh in H2; lia|subst; by apply Hfresh in H1; lia|by eapply Hj].
  - intros t' s' Hs'. pose proof (Ht _ _ Hs') as Hc. destruct s' as [k|k|k l]; [done|done|].
    destruct Hc as [? Hm]. split; [done|]. conf_simpl. rewrite lookup_insert_ne; [done|congruence].
  - intros key' Hk'. rewrite <- Hl by done. unfold holds. conf_simpl. split.
    + intros (l & ca & [[Ho <-]|[_ Hm]]%lookup_insert_Some & Hca & Hin).
      * rewrite list_lookup_middle in Hca by done. injection Hca as <-.
        by apply NewCache_empty in Hin.
      * pose proof (Hfresh _ _ Hm). rewrite lookup_app_l in Hca by done. by exists l, ca.
    + intros (l & ca & Hm & Hca & Hin). exists l, ca. rewrite lookup_insert_ne by congruence.
      split; [done|]. split; [by apply lookup_app_l_Some|done].
Qed.

Lemma tinv_touch_shard t key l c :
  threads c !! t = Some (TShard key l) → tinv c → tinv (touch_shard t key l c).
Proof.
  intros Et (Hh & Hj & Ht & Hl & Hq). destruct (Ht _ _ Et) as [Hk Hm].
  destruct (Hh _ _ Hm) as (ca & Hca & Hwf). pose proof (lookup_lt_Some _ _ _ Hca) as Hlt.
  unfold touch_shard. rewrite (list_lookup_total_correct _ _ _ Hca).
  destruct (Cache.Touch ca (Key key)) as [ok ca'] eqn:E.
  assert (Hca' : ca' = (Cache.Touch ca (Key key)).2) by by rewrite E.
  assert (Hok : ok = bool_decide (in_cache ca (Key key))) by by rewrite <- Cache_Touch_result, E.
  split; [|split; [done|split; [by apply map_Forall_delete|split; [|split; [|done]]]]]; conf_simpl.
  - intros org l' Hm'. destruct (decide (l = l')) as [<-|Hne].
    + exists ca'. rewrite list_lookup_insert_eq by done. rewrite Hca'.
      split; [done|by apply Cache_Touch_wf].
    + rewrite list_lookup_insert_ne by done. by eapply Hh.
  - intros key' Hk'. rewrite logged_cons, <- Hl by done. unfold holds. conf_simpl. split.
    + intros (l' & ca2 & Hm' & [(-> & <- & _)|[Hne H2]]%list_lookup_insert_Some & Hin).
      * rewrite Hca', Cache_Touch_in in Hin by done. destruct Hin as [Heq|Hin]; [left|right].
        -- pose proof (Hj _ _ _ Hm Hm'). destruct key, key'; simpl in *; congruence.
        -- by exists l', ca.
      * right. by exists l', ca2.
    + intros [->|(l' & ca2 & Hm' & H2 & Hin)].
      * exists l, ca'. rewrite list_lookup_insert_eq by done.
        rewrite Hca', Cache_Touch_in by done. auto.
      * destruct (decide (l = l')) as [<-|Hne].
        -- exists l, ca'. rewrite list_lookup_insert_eq by done. rewrite Hca', Cache_Touch_in by done.
           split; [done|]. split; [done|]. right. congruence.
        -- exists l', ca2. by rewrite list_lookup_insert_ne.
  - rewrite Hok. apply bool_decide_ext. rewrite <- Hl by done. unfold holds.
    split; [intros ?; by exists l, ca|]. intros (l' & ca2 & Hm' & H2 & Hin). congruence.
Qed.

Lemma tinv_tstep c1 c2 : tstep c1 c2 → tinv c1 → tinv c2.
Proof.
  destruct 1 as [c t key Et Hk|c t key l Et Em|c t key Et Em|c t key Et|c t key l Et];
    intros Hinv; pose proof Hinv as (_ & _ & Ht & _).
  - by apply tinv_set_thread.
  - apply tinv_set_thread; [|done]. split; [by apply (Ht _ _ Et)|done].
  - apply tinv_set_thread; [|done]. by apply (Ht _ _ Et).
  - apply tinv_create; [|done]. by apply (Ht _ _ Et).
  - by apply tinv_touch_shard.
Qed.

(** ** Executable schedules, for the examples *)

(** The next step of goroutine [t] inside [Touch]. *)
Definition advance (t : nat) (c : conf) : conf :=
  match threads c !! t with
  | Some (TLookup key) =>
      match cmap c !! Org key with
      | Some l => set_thread t (TShard key l) c
      | None => set_thread t (TCreate key) c
      end
  | Some (TCreate key) => create t key c
  | Some (TShard key l) => touch_shard t key l c
  | None => c
  end.

Lemma advance_tsteps t c : rtc tstep c (advance t c).
Proof.
  unfold advance. destruct (threads c !! t) as [[key|key|key l]|] eqn:E; [| | |apply rtc_refl].
  - destruct (cmap c !! Org key) eqn:Em; apply rtc_once; by constructor.
  - apply rtc_once. by constructor.
  - apply rtc_once. by constructor.
Qed.

(** The next step of the [clear] goroutine. *)
Definition tick (c : conf) : conf :=
  match clr c with
  | CTick => set_clr (CLoop (map_to_list (cmap c))) c
  | CLoop ((org, l) :: rest) => set_clr (CLen org l 0 0 rest) (reset_shard l c)
  | CLoop [] => set_clr CTick (next_idx c)
  | CLen org l i sum rest =>
      if decide (i < 256) then
        set_clr (CLen org l (i + 1) (sum + Shard.Len ((heap c !!! l : Cache.Cache) !!! i)) rest) c
      else if decide (i = 256) then
        set_clr (if decide (sum = 0) then CDelete org rest else CLoop rest) c
      else c
  | CDelete org rest => set_clr (CLoop rest) (delete_org org c)
  end.

Lemma tick_csteps c : rtc cstep c (tick c).
Proof.
  unfold tick. destruct (clr c) as [|[|[org l] rest]|org l i sum rest|org rest] eqn:E.
  - apply rtc_once. by constructor.
  - apply rtc_once. by constructor.
  - apply rtc_once. by constructor.
  - destruct (decide (i < 256)); [apply rtc_once; by constructor|].
    destruct (decide (i = 256)) as [->|]; [|apply rtc_refl].
    destruct (decide (sum = 0)) as [->|]; apply rtc_once; [by eapply StepEmpty|by eapply StepKeep].
  - apply rtc_once. by constructor.
Qed.

Inductive sched := SCall (t : nat) (key : MKey) | SRun (t : nat) | SClear (n : nat).

Definition sched_step (c : conf) (s : sched) : conf :=
  match s with
  | SCall t key =>
      if decide (threads c !! t = None ∧ wf_key key) then set_thread t (TLookup key) c else c
  | SRun t => advance t c
  | SClear n => Nat.iter n tick c
  end.

Lemma sched_steps s c : rtc step c (foldl sched_step c s).
Proof.
  revert c. induction s as [|[t key|t|n] s IH]; intros c; simpl; [done| | |].
  - case_decide as H; [|apply IH]. destruct H.
    eapply rtc_l; [left; by apply (StepCall c t key)|apply IH].
  - etrans; [|apply IH]. eapply rtc_subrel; [by left|apply advance_tsteps].
  - etrans; [|apply IH]. clear IH. induction n as [|n IH]; [done|].
    etrans; [exact IH|]. simpl. eapply rtc_subrel; [by right|apply tick_csteps].
Qed.

Definition no_clear (s : sched) : Prop := match s with SClear _ => False | _ => True end.

Lemma sched_tsteps s c : Forall no_clear s → rtc tstep c (foldl sched_step c s).
Proof.
  revert c. induction s as [|s0 s IH]; intros c Hs; [done|].
  apply Forall_cons in Hs as [H0 Hs]. destruct s0 as [t key|t|n]; simpl; [| |done].
  - case_decide as H; [|by apply IH]. destruct H.
    eapply rtc_l; [by apply (StepCall c t key)|by apply IH].
  - etrans; [apply advance_tsteps|by apply IH].
Qed.

(** ** Properties *)

(** Under every interleaving of [Touch] and [clear], an answer "seen" is
    justified: a call for that same key has already marked it. *)
Theorem seen_means_touched_before c : rtc step init c → true_justified (log c).
Proof. intros H. apply inv_reachable in H. by destruct H as (owner & _ & _ & _ & _ & _ & ?). Qed.

Lemma seen_means_touched_before_witness :
  let s := [SCall 1 key_a; SCall 2 key_a; SRun 1; SRun 2; SRun 1; SRun 2; SRun 1; SClear 3; SRun 2] in
  log (foldl sched_step init s) = [(key_a, true); (key_a, false)] ∧
  true_justified (log (foldl sched_step init s)).
Proof.
  split; [vm_compute; reflexivity|]. apply seen_means_touched_before, sched_steps.
Defined.

(** C13. The calls of [Touch] are atomic with respect to each other, also while
    they race to create the cache of a new org: without a tick of [clear], the
    answers are those of a single set of keys, so for each key exactly the
    first call to finish answers "not seen". *)
Theorem touches_linearize c : rtc tstep init c → sequential (log c).
Proof.
  intros H. assert (tinv c) as (_ & _ & _ & _ & Hq); [|done].
  apply (rtc_ind_r (R:=tstep) tinv init); [apply tinv_init| |done]. intros c1 c2 _ ? ?. by eapply tinv_tstep.
Qed.

Lemma touches_linearize_witness :
  let s := [SCall 1 key_a; SCall 2 key_a; SRun 1; SRun 2; SRun 1; SRun 2; SRun 1; SRun 2] in
  log (foldl sched_step init s) = [(key_a, true); (key_a, false)] ∧
  sequential (log (foldl sched_step init s)).
Proof.
  split; [vm_compute; reflexivity|]. apply touches_linearize, sched_tsteps. repeat constructor.
Defined.

(** [clear] reads the size of a cache and deletes the cache in two critical
    sections. A call of [Touch] in between is lost: the key is marked in a cache
    that is then dropped, and a later call for it answers "not seen" although
    its shard has not been reset in between. *)
Theorem clear_can_drop_a_touched_key :
  ∃ c, rtc step init c ∧ idx c = 1 ∧ Cache.shard_index (Key key_a) = 48 ∧
       log c = [(key_a, false); (key_a, false); (mkMKey (String (byte_of 0) "123456789abcdef") 1, false)].
Proof.
  set (z := mkMKey (String (byte_of 0) "123456789abcdef") 1).
  exists (foldl sched_step init
    ([SCall 1 z; SRun 1; SRun 1; SRun 1; SCall 2 key_a; SRun 2; SClear 259; SRun 2; SClear 2;
      SCall 3 key_a; SRun 3; SRun 3; SRun 3])).
  split; [apply sched_steps|]. by vm_compute.
Qed.
