(* ===== verification/Util.v ===== *)
(** * util

    [JoinUrlFragments] (util.go), [Int64SliceFlag] (flags.go), the pools
    (metricpool.go, buffer_pool.go) and the parameters of the two profiling
    handlers (metrics_server.go). A [sync.Pool] may drop any of its elements at
    any time and [Get] may return any element that was put and not yet taken, or
    call [New]: a pool is the multiset of what it may still hold and [Get] is a
    relation. *)

From S2P Require Import Prelude GoStrings Strconv.
From Stdlib Require Import Ascii.

(** ** JoinUrlFragments *)

Definition JoinUrlFragments (a b : string) : string :=
  let aslash := HasSuffix a "/" in
  let bslash := HasPrefix b "/" in
  if aslash && bslash then a +:+ drop_str 1 b
  else if negb aslash && negb bslash then a +:+ "/" +:+ b
  else a +:+ b.

(** ** Int64SliceFlag *)

(** [*i] after the call, and the error if any. [strconv.Atoi]'s error is not
    told apart further. *)
Fixpoint Set_go (i : list Z) (splits : list string) : list Z * option string :=
  match splits with
  | [] => (i, None)
  | split :: rest =>
      let split := TrimSpace split in
      if bool_decide (split = "") then Set_go i rest
      else match Atoi split with
           | None => (i, Some split)
           | Some parsed => Set_go (i ++ [parsed]) rest
           end
  end.

Definition FlagSet (i : list Z) (value : string) : list Z * option string :=
  Set_go i (Split "," value).

(** [fmt.Sprint] of a slice of integers. *)
Definition Sprint (i : list Z) : string := "[" +:+ Join " " (Itoa <$> i) +:+ "]".

Definition FlagString (i : list Z) : string := Trim (Replace (Sprint i) " " ", ") "[]".

(** ** Pools *)

Section pool.
Context {A : Type}.

Inductive pool_get (New : A) : list A → A → list A → Prop :=
| GetNew p : pool_get New p New p
| GetOld p x p' : p ≡ₚ x :: p' → pool_get New p x p'.

Definition pool_put (x : A) (p : list A) : list A := x :: p.

(** Elements taken from a pool satisfy what [New] and every [Put] established. *)
Lemma pool_get_Forall (P : A → Prop) New p x p' :
  P New → Forall P p → pool_get New p x p' → P x ∧ Forall P p'.
Proof.
  intros Hn Hp Hg. destruct Hg as [q|q y q' Hq]; [done|]. rewrite Hq in Hp. by apply Forall_cons.
Qed.
End pool.

(** A byte slice as far as the pools look at it. *)
Record buf := mkBuf { buf_cap : nat; buf_data : string }.

Definition wf_buf (b : buf) : Prop := strlen (buf_data b) ≤ buf_cap b.

(** [buf[:0]] *)
Definition reset_buf (b : buf) : buf := mkBuf (buf_cap b) "".

Definition BufferPool_New : buf := mkBuf 0 "".
Definition BufferPool33_New : buf := mkBuf 33 "".

Definition BufferPool_Put (b : buf) (p : list buf) : list buf := pool_put (reset_buf b) p.
Definition BufferPool33_Put (b : buf) (p : list buf) : list buf := pool_put (reset_buf b) p.

(** [buf[:n]] panics beyond the capacity; the bytes between the length and [n]
    are what an earlier user left, here given by [stale]. *)
Definition reslice (n : nat) (stale : string) (b : buf) : option buf :=
  if decide (n ≤ buf_cap b) then Some (mkBuf (buf_cap b) (take_str n (buf_data b +:+ stale)))
  else None.

(** ** The profiling handlers of metrics_server.go *)

(** The value [strconv.ParseUint] returns: with a syntax error 0 (here [None]),
    out of range the largest number, whatever follows the digits read. *)
Fixpoint parse_clamped (max acc : Z) (s : string) : option Z :=
  match s with
  | "" => Some acc
  | String c s' =>
      match digit_val c with
      | None => None
      | Some d =>
          let n := (acc * 10 + d)%Z in
          if decide (max < n)%Z then Some max else parse_clamped max n s'
      end
  end.

(** [x, _ := strconv.Atoi(s)] *)
Definition Atoi_value (s : string) : Z :=
  let '(neg, s') :=
    match s with String "-" r => (true, r) | String "+" r => (false, r) | _ => (false, s) end in
  let un := match s' with "" => None | _ => parse_clamped (2 ^ 64 - 1) 0 s' end in
  match un with
  | None => 0%Z
  | Some n => if neg then Z.opp (Z.min n (2 ^ 63)) else Z.min n (2 ^ 63 - 1)
  end.

Inductive prof_event :=
| SetRate (profile : string) (rate : Z)
| Sleep (ns : Z)
| WriteTo (profile : string) (debug : Z).

Definition profileHandler (profile : string) (dflt_rate : Z) (debug seconds rate : string) :
    list prof_event :=
  let debug := Atoi_value debug in
  let sec := Atoi_value seconds in
  let sec := if bool_decide (sec = 0%Z) then 30%Z else sec in
  let rate := Atoi_value rate in
  let rate := if bool_decide (rate = 0%Z) then dflt_rate else rate in
  [SetRate profile rate; Sleep (wrap_s 64 (sec * 1000000000)); SetRate profile 0;
   WriteTo profile debug].

Definition blockHandler : string → string → string → list prof_event :=
  profileHandler "block" 10000.
Definition mutexHandler : string → string → string → list prof_event :=
  profileHandler "mutex" 1000.

(** ** The debug endpoint

    What is registered at the [http.ServeMux], and its match of a path that is
    clean (the mux redirects others to the clean one): the pattern itself; else
    the longest pattern that ends in "/" and is a prefix; but a path whose
    pattern with a "/" is registered is redirected there. *)

Inductive debug_handler :=
| PromHandler | BlockHandler | MutexHandler | PprofIndex | PprofCmdline | PprofProfile | PprofSymbol | PprofTrace
| PprofHandler (name : string).

#[export] Instance debug_handler_eq_dec : EqDecision debug_handler.
Proof. solve_decision. Defined.

Definition debug_routes : list (string * debug_handler) :=
  [("/metrics", PromHandler); ("/debug/pprof/block", BlockHandler); ("/debug/pprof/mutex", MutexHandler);
   ("/debug/pprof/", PprofIndex); ("/debug/pprof/cmdline", PprofCmdline); ("/debug/pprof/profile", PprofProfile);
   ("/debug/pprof/symbol", PprofSymbol); ("/debug/pprof/trace", PprofTrace);
   ("/debug/pprof/heap", PprofHandler "heap"); ("/debug/pprof/threadcreate", PprofHandler "threadcreate");
   ("/debug/pprof/goroutine", PprofHandler "goroutine"); ("/debug/pprof/allocs", PprofHandler "allocs")].

Inductive mux_reply := Serve (h : debug_handler) | RedirectTo (path : string) | MuxNotFound.

Definition mux_exact (routes : list (string * debug_handler)) (path : string) : option debug_handler :=
  snd <$> List.find (λ e, bool_decide (e.1 = path)) routes.

(** The longest, the first among equals. *)
Fixpoint mux_prefix (routes : list (string * debug_handler)) (path : string) : option (string * debug_handler) :=
  match routes with
  | [] => None
  | e :: routes' =>
      let rest := mux_prefix routes' path in
      if HasSuffix e.1 "/" && HasPrefix path e.1 then
        match rest with
        | Some e' => if bool_decide (strlen e.1 < strlen e'.1) then Some e' else Some e
        | None => Some e
        end
      else rest
  end.

Definition mux_handler (routes : list (string * debug_handler)) (path : string) : mux_reply :=
  match mux_exact routes path with
  | Some h => Serve h
  | None =>
      if bool_decide (is_Some (mux_exact routes (path +:+ "/"))) then RedirectTo (path +:+ "/")
      else match mux_prefix routes path with Some e => Serve e.2 | None => MuxNotFound end
  end.

(** The handler of the server. *)
Definition NewMetricsServer (path : string) : mux_reply := mux_handler debug_routes path.

(** ** Lemmas *)

(** Only the patterns that end in "/" are prefixes. *)
Lemma mux_prefix_filter routes path :
  mux_prefix routes path = mux_prefix (List.filter (λ e, HasSuffix e.1 "/") routes) path.
Proof.
  induction routes as [|e routes IH]; [done|]. cbn [List.filter mux_prefix].
  destruct (HasSuffix e.1 "/") eqn:E; [|exact IH]. cbn [mux_prefix]. by rewrite E, IH.
Qed.

(** The debug endpoint serves its patterns; below /debug/pprof/ the index takes
    what is none of them, and nothing else is served. *)
Theorem debug_endpoint path :
  NewMetricsServer path =
    match mux_exact debug_routes path with
    | Some h => Serve h
    | None =>
        if bool_decide (path = "/debug/pprof") then RedirectTo "/debug/pprof/"
        else if HasPrefix path "/debug/pprof/" then Serve PprofIndex else MuxNotFound
    end.
Proof.
  unfold NewMetricsServer, mux_handler. destruct (mux_exact debug_routes path) as [h|]; [done|].
  assert (Hred : bool_decide (is_Some (mux_exact debug_routes (path +:+ "/"))) = bool_decide (path = "/debug/pprof")).
  { apply bool_decide_ext. split; [|by intros ->].
    unfold mux_exact. intros [h ([q h'] & [Hin Hq%bool_decide_eq_true]%List.find_some & _)%fmap_Some]. cbn in Hq. subst q.
    assert (He : HasSuffix (path +:+ "/") "/" = true) by (apply HasSuffix_spec; by exists path).
    cbn [debug_routes In] in Hin.
    repeat (destruct Hin as [Hin|Hin]; [apply (f_equal fst) in Hin; cbn [fst] in Hin; rewrite <- Hin in He;
      first [by vm_compute in He|exact (eq_sym (str_app_inj_r "/debug/pprof" path "/" Hin))]|]). done. }
  rewrite Hred. clear Hred. case_bool_decide as Hp; [by subst|].
  rewrite mux_prefix_filter.
  replace (List.filter _ debug_routes) with [("/debug/pprof/", PprofIndex)] by (vm_compute; reflexivity).
  unfold mux_prefix. change (HasSuffix ("/debug/pprof/", PprofIndex).1 "/") with true.
  change ("/debug/pprof/", PprofIndex).1 with "/debug/pprof/". cbn [andb].
  generalize (HasPrefix path "/debug/pprof/"). by intros [].
Qed.

Lemma Replace_byte_app c new a b :
  Replace (a +:+ b) (String c "") new =
    Replace a (String c "") new +:+ Replace b (String c "") new.
Proof.
  unfold Replace. induction a as [|d a IH]; [done|]. rewrite str_app_cons. cbn [replace_go].
  replace (strlen (String c "") - 1) with 0 by done. rewrite IH.
  assert (HasPrefix (String d (a +:+ b)) (String c "") = HasPrefix (String d a) (String c ""))
    as -> by (simpl; by destruct a, b).
  destruct (HasPrefix _ _); [by rewrite str_app_assoc|done].
Qed.

Lemma Replace_byte_none c new s :
  has_byte c s = false → Replace s (String c "") new = s.
Proof.
  unfold Replace. induction s as [|d s IH]; [done|]. cbn [has_byte replace_go].
  intros [Hd Hs]%orb_false_iff. rewrite IH by done.
  assert (HasPrefix (String d s) (String c "") = false) as ->; [|done].
  simpl. apply bool_decide_eq_false in Hd. rewrite bool_decide_eq_false_2; done.
Qed.

Lemma Replace_Join l :
  Forall (λ x, has_byte " " x = false) l → Replace (Join " " l) " " ", " = Join ", " l.
Proof.
  induction l as [|x l IH]; [done|]. intros [Hx Hl]%Forall_cons.
  destruct l as [|y l]; [by apply Replace_byte_none|].
  change (Join " " (x :: y :: l)) with (x +:+ " " +:+ Join " " (y :: l)).
  rewrite !Replace_byte_app, IH, (Replace_byte_none _ _ x) by done. done.
Qed.

Lemma trim_left_set_id set s :
  all_bytes (λ c, has_byte c set = false) s → trim_left_set set s = s.
Proof. destruct s; [done|]. cbn. by intros [-> _]. Qed.

Lemma Trim_brackets s :
  all_bytes (λ c, has_byte c "[]" = false) s → Trim ("[" +:+ s +:+ "]") "[]" = s.
Proof.
  intros Hs. unfold Trim.
  assert (trim_left_set "[]" ("[" +:+ s +:+ "]") = trim_left_set "[]" (s +:+ "]")) as -> by done.
  destruct s as [|c s].
  - done.
  - rewrite str_app_cons. cbn [trim_left_set]. destruct Hs as [Hc Hs]. rewrite Hc.
    rewrite <- str_app_cons, rev_str_app. change (String.rev "]") with "]".
    change (trim_left_set "[]" ("]" +:+ String.rev (String c s)))
      with (trim_left_set "[]" (String.rev (String c s))).
    rewrite trim_left_set_id; [apply rev_str_invol|]. apply all_bytes_rev. by split.
Qed.

Lemma Join_all_bytes P sep l :
  all_bytes P sep → Forall (all_bytes P) l → all_bytes P (Join sep l).
Proof.
  intros Hs. induction 1 as [|x l Hx Hl IH]; [done|]. destruct l as [|y l]; [done|].
  change (Join sep (x :: y :: l)) with (x +:+ sep +:+ Join sep (y :: l)).
  by rewrite !all_bytes_app.
Qed.

Lemma num_byte_not c d : num_byte c → ¬ num_byte d → c ≠ d.
Proof. by intros ? ? ->. Qed.

Lemma not_num_byte c : ¬ is_digit c → c ≠ "-"%char → ¬ num_byte c.
Proof. intros ? ? []; done. Qed.

Lemma Itoa_lacks c z : ¬ num_byte c → has_byte c (Itoa z) = false.
Proof.
  intros Hc. apply has_byte_all. eapply all_bytes_mono; [|apply Itoa_num].
  intros d Hd. by apply num_byte_not.
Qed.

Lemma space_not_num : ¬ num_byte " ".
Proof. apply not_num_byte; [|done]. unfold is_digit. by vm_compute; intros []. Qed.
Lemma comma_not_num : ¬ num_byte ",".
Proof. apply not_num_byte; [|done]. unfold is_digit. by vm_compute; intros []. Qed.

Lemma FlagString_eq i : FlagString i = Join ", " (Itoa <$> i).
Proof.
  unfold FlagString, Sprint. rewrite !Replace_byte_app, Replace_Join.
  2:{ apply Forall_fmap, Forall_true. intros z. apply Itoa_lacks, space_not_num. }
  apply Trim_brackets, Join_all_bytes; [by vm_compute|].
  apply Forall_fmap, Forall_true. intros z. eapply all_bytes_mono; [|apply Itoa_num].
  intros c [Hc| ->]; [|done]. unfold is_digit in Hc. cbn [has_byte].
  rewrite !bool_decide_eq_false_2; [done| |]; intros <-; vm_compute in Hc; by destruct Hc.
Qed.

Lemma Set_go_app i l1 l2 :
  Set_go i (l1 ++ l2) =
    match Set_go i l1 with (i', None) => Set_go i' l2 | r => r end.
Proof.
  revert i. induction l1 as [|x l1 IH]; intros i; [done|]. simpl.
  case_bool_decide; [apply IH|]. destruct (Atoi _); [apply IH|done].
Qed.

Lemma Set_go_item i z pad rest :
  is_s 64 z → pad = "" ∨ pad = " " → Set_go i ((pad +:+ Itoa z) :: rest) = Set_go (i ++ [z]) rest.
Proof.
  intros Hz Hpad. cbn [Set_go].
  assert (TrimSpace (pad +:+ Itoa z) = Itoa z) as ->.
  { destruct Hpad as [-> | ->]; [apply TrimSpace_graphic|apply TrimSpace_space_graphic];
      apply Itoa_graphic. }
  rewrite bool_decide_eq_false_2 by apply Itoa_nonempty. by rewrite Atoi_Itoa.
Qed.

Lemma Split_FlagString z i :
  Split "," (Join ", " (Itoa <$> (z :: i))) = Itoa z :: ((λ z, " " +:+ Itoa z) <$> i).
Proof.
  revert z. induction i as [|y i IH]; intros z.
  - apply Split_none, Itoa_lacks, comma_not_num.
  - change (Join ", " (Itoa <$> z :: y :: i))
      with (Itoa z +:+ String "," (" " +:+ Join ", " (Itoa <$> (y :: i)))).
    rewrite Split_app by apply Itoa_lacks, comma_not_num. f_equal.
    change (Split "," (" " +:+ Join ", " (Itoa <$> y :: i)))
      with (cons_head " " (Split "," (Join ", " (Itoa <$> y :: i)))).
    by rewrite IH.
Qed.

(** Every reading of [Set] extends what the flag held. *)
Lemma Set_go_extends i l : ∃ new, (Set_go i l).1 = i ++ new.
Proof.
  revert i. induction l as [|x l IH]; intros i; [exists []; by rewrite app_nil_r|]. cbn [Set_go].
  case_bool_decide; [apply IH|]. destruct (Atoi _) as [z|]; [|exists []; by rewrite app_nil_r].
  destruct (IH (i ++ [z])) as [new ->]. exists (z :: new). by rewrite <- app_assoc.
Qed.

Lemma Set_go_items i l :
  Forall (is_s 64) l →
  Set_go i ((λ z, " " +:+ Itoa z) <$> l) = (i ++ l, None).
Proof.
  revert i. induction l as [|z l IH]; intros i; [by rewrite app_nil_r|].
  intros [Hz Hl]%Forall_cons. rewrite fmap_cons, Set_go_item by auto.
  rewrite IH by done. by rewrite <- app_assoc.
Qed.

(** ** Properties *)

(** [JoinUrlFragments] joins with exactly one slash, whichever of the two
    fragments already carries it. *)
Theorem JoinUrlFragments_one_slash a b :
  JoinUrlFragments a b = TrimSuffix a "/" +:+ "/" +:+ TrimPrefix b "/".
Proof.
  unfold JoinUrlFragments, TrimSuffix, TrimPrefix.
  assert (HasPrefix b "/" = true → drop_str 1 b = drop_str (strlen "/") b) as Hb by done.
  destruct (HasSuffix a "/") eqn:Ha, (HasPrefix b "/") eqn:Eb; cbn [andb negb].
  3: apply HasPrefix_spec in Eb as [u ->]; done.
  3: done.
  all: apply HasSuffix_spec in Ha as [t ->]; rewrite strlen_app, Nat.add_sub, take_str_app.
  all: by rewrite str_app_assoc.
Qed.

(** A flag prints its values so that setting it from the text gives them
    back: [Set] after [String] is the identity on lists of 64-bit integers. *)
Theorem Int64SliceFlag_roundtrip i :
  Forall (is_s 64) i → FlagSet [] (FlagString i) = (i, None).
Proof.
  intros Hi. rewrite FlagString_eq. unfold FlagSet. destruct i as [|z i]; [done|].
  rewrite Split_FlagString. apply Forall_cons in Hi as [Hz Hi].
  rewrite (Set_go_item [] z ""), Set_go_items by auto. done.
Qed.

Lemma Int64SliceFlag_roundtrip_witness :
  FlagSet [] (FlagString [1; -20; 300]%Z) = ([1; -20; 300]%Z, None).
Proof.
  apply (Int64SliceFlag_roundtrip [1; -20; 300]%Z).
  apply (bool_decide_unpack _). vm_compute. exact I.
Defined.
