(* ===== verification/Logging.v ===== *)
(** * util: the logger and the tracer's configuration

    [InitLogger] and the hook of log.go, which names the source line of an error,
    and [GetTracer] of tracer.go. logrus, the runtime's call stack and jaeger are
    parameters. *)

From S2P Require Import Prelude GoStrings Strconv.
From Stdlib Require Import Ascii.

Inductive level := PanicLevel | FatalLevel | ErrorLevel | WarnLevel | InfoLevel | DebugLevel.

#[export] Instance level_eq_dec : EqDecision level.
Proof. solve_decision. Defined.

(** logrus writes an entry of level [l] when the logger is at [at_level]. *)
Definition severity (l : level) : nat :=
  match l with
  | PanicLevel => 0 | FatalLevel => 1 | ErrorLevel => 2 | WarnLevel => 3 | InfoLevel => 4 | DebugLevel => 5
  end.
Definition logged (at_level l : level) : bool := bool_decide (severity l ≤ severity at_level).

(** -log-level; any other number leaves the level as it is. *)
Definition InitLogger (flag : Z) (current : level) : level :=
  match flag with
  | 1 => DebugLevel | 2 => InfoLevel | 3 => WarnLevel | 4 => ErrorLevel | 5 => FatalLevel | 6 => PanicLevel
  | _ => current
  end%Z.

(** [locationHook]. [caller] is what [runtime.Caller(7)] finds. *)
Definition Levels : list level := [ErrorLevel; FatalLevel; PanicLevel].

Definition basename (file : string) : string := List.last (Split "/" file) "".

Definition Fire (caller : option (string * Z)) : string :=
  let '(file, line) := match caller with Some (f, n) => (basename f, n) | None => ("<???>", 1%Z) end in
  file +:+ ":" +:+ Itoa line.

(** The field "source" of an entry. *)
Definition source_field (l : level) (caller : option (string * Z)) : option string :=
  if bool_decide (l ∈ Levels) then Some (Fire caller) else None.

(** [GetTracer]: every trace is sampled, and nothing is when it is disabled. *)
Record tracer_cfg := mkTracerCfg { t_disabled : bool; t_sampler : string; t_param : Z; t_agent : string }.

Definition GetTracer {T} (New : string → tracer_cfg → option T) (app : string) (enabled : bool)
    (addr : string) : outcome unit T :=
  or_err (New app (mkTracerCfg (negb enabled) "const" 1 addr)) ().

(** ** Lemmas *)

(** Each level the flag can name is the one up to which entries are written. *)
Lemma InitLogger_levels flag l :
  (1 ≤ flag ≤ 6)%Z → logged (InitLogger flag InfoLevel) l = bool_decide (Z.of_nat (severity l) ≤ 6 - flag)%Z.
Proof.
  intros Hf. assert (flag = 1 ∨ flag = 2 ∨ flag = 3 ∨ flag = 4 ∨ flag = 5 ∨ flag = 6)%Z as Hc by lia.
  by destruct Hc as [->|[->|[->|[->|[->| ->]]]]], l.
Qed.

(** What a separator is followed by is split on its own. *)
Lemma Split_sep c d t : ∃ x xs, Split c (d +:+ String c t) = (x :: xs) ++ Split c t.
Proof.
  induction d as [|e d (x & xs & IH)].
  - exists "", []. change ("" +:+ String c t) with (String c t). cbn. by rewrite bool_decide_eq_true_2.
  - rewrite str_app_cons. cbn. rewrite IH. case_bool_decide; [by exists "", (x :: xs)|by exists (String e x), xs].
Qed.

Lemma last_app_cons {A} (l1 l2 : list A) y d : List.last (l1 ++ y :: l2) d = List.last (y :: l2) d.
Proof. induction l1 as [|x l1 IH]; [done|]. rewrite <- IH. by destruct l1. Qed.

Lemma basename_path f dirs :
  has_byte "/" f = false → basename (foldr (λ d t, d +:+ String "/" t) f dirs) = f.
Proof.
  intros Hf. unfold basename. induction dirs as [|d dirs IH]; cbn [foldr]; [by rewrite Split_none|].
  revert IH. generalize (foldr (λ d t : string, d +:+ String "/" t) f dirs). intros t IH.
  destruct (Split_sep "/" d t) as (x & xs & ->). destruct (Split_cons "/" t) as (y & ys & Et).
  rewrite Et in *. rewrite last_app_cons. exact IH.
Qed.

(** An error names the file and the line it was logged from, without the
    directories of the path; entries below an error name none. *)
Lemma errors_name_their_line l dirs file n :
  has_byte "/" file = false →
  source_field l (Some (foldr (λ d t, d +:+ String "/" t) file dirs, n)) =
    if bool_decide (severity l ≤ 2) then Some (file +:+ ":" +:+ Itoa n) else None.
Proof. intros Hf. unfold source_field, Fire. rewrite basename_path by done. by destruct l. Qed.
