(* ===== verification/Kafka.v ===== *)
(** * publish/kafka/publish.go

    The Kafka publisher: the topic settings parsed from the flags, the start-up
    checks of [New], the choice between a full MetricData message and a
    MetricPoint, and [Publish] itself, written in the monad of Prelude.v over
    the state it reads and changes (the metric the loop is at, the key cache,
    the payload and the counters).

    What a metric hashes to, the msgp encoding, the storage-schemas lookup and
    the broker are parameters. *)

From S2P Require Import Prelude GoStrings Strconv Md5 Schema KeyCache.
From Stdlib Require Import Ascii.

(** ** Topic settings *)

(** schema/partition.go *)
Inductive PartitionByMethod :=
| PartitionByOrg | PartitionBySeries | PartitionBySeriesWithTags | PartitionBySeriesWithTagsFnv.

#[export] Instance PartitionByMethod_eq_dec : EqDecision PartitionByMethod.
Proof. solve_decision. Defined.

Definition PartitonMethodFromString (input : string) : option PartitionByMethod :=
  if bool_decide (input = "byOrg") then Some PartitionByOrg
  else if bool_decide (input = "bySeries") then Some PartitionBySeries
  else if bool_decide (input = "bySeriesWithTags") then Some PartitionBySeriesWithTags
  else if bool_decide (input = "bySeriesWithTagsFnv") then Some PartitionBySeriesWithTagsFnv
  else None.

Record topicSettings := mkTopic {
  name : string;
  partitioner : PartitionByMethod;
  numPartitions : Z;
  onlyOrgId : Z;
  discardPrefixes : list string;
  rw_source : Z;
  rw_target : Z }.

#[export] Instance topicSettings_eq_dec : EqDecision topicSettings.
Proof. solve_decision. Defined.

Inductive topic_error :=
| MorePartitionSchemes | MoreOrgIds | NeedDiscardPrefixes | NeedRewrites
| BadPartitioner | BadRewriteCount | BadRewriteId.

Abbreviation res := (outcome topic_error).

(** The comma-separated lists the flags stand for; an empty flag gives no list. *)
Definition csv_or_empty (s : string) : list string :=
  if bool_decide (s = "") then [] else Split "," s.

(** The partitioner of topic [i]; a single scheme is shared with topic 0. *)
Definition topic_partitioner (schemes : list string) (i : nat) (topics : list topicSettings) :
    res PartitionByMethod :=
  if bool_decide (length schemes = 1 ∧ 0 < i) then
    t0 ← index topics 0; mret (partitioner t0)
  else
    scheme ← index schemes i; or_err (PartitonMethodFromString (TrimSpace scheme)) BadPartitioner.

Definition topic_only_org (onlyOrgIds : list Z) (i : nat) : res Z :=
  match onlyOrgIds with
  | [] => mret 0%Z
  | [o] => mret o
  | _ => index onlyOrgIds i
  end.

Definition topic_discard (discards : list string) (i : nat) : res (list string) :=
  match discards with
  | [] => mret []
  | _ => d ← index discards i; mret (FieldsByte "|" d)
  end.

(** [int(source)] converts an unsigned 64-bit number. *)
Definition parse_rewrite (r : string) : res (Z * Z) :=
  if bool_decide (r = "") then mret (0, 0)%Z else
  match Split ":" r with
  | [a; b] =>
      source ← or_err (ParseUint a 64) BadRewriteId;
      target ← or_err (ParseUint b 64) BadRewriteId;
      mret (wrap_s 64 source, wrap_s 64 target)
  | _ => Err BadRewriteCount
  end.

Definition topic_rewrite (rewrites : list string) (i : nat) : res (Z * Z) :=
  match rewrites with
  | [] => mret (0, 0)%Z
  | _ => r ← index rewrites i; parse_rewrite r
  end.

Definition parse_topic (schemes : list string) (onlyOrgIds : list Z)
    (discards rewrites : list string) (i : nat) (topicName : string)
    (topics : list topicSettings) : res topicSettings :=
  part ← topic_partitioner schemes i topics;
  only ← topic_only_org onlyOrgIds i;
  disc ← topic_discard discards i;
  rw ← topic_rewrite rewrites i;
  mret (mkTopic (TrimSpace topicName) part 0 only disc rw.1 rw.2).

(** The loop over the topic names, with [topics] appended to; the index of the
    next topic is the number of topics so far. *)
Fixpoint parse_topics (schemes : list string) (onlyOrgIds : list Z)
    (discards rewrites names : list string) (topics : list topicSettings) :
    res (list topicSettings) :=
  match names with
  | [] => mret topics
  | topicName :: names' =>
      topic ← parse_topic schemes onlyOrgIds discards rewrites (length topics) topicName topics;
      parse_topics schemes onlyOrgIds discards rewrites names' (topics ++ [topic])
  end.

Definition parseTopicSettings (partitionSchemesStr topicsStr : string) (onlyOrgIds : list Z)
    (discardPrefixesStr rewriteOrgIdStr : string) : res (list topicSettings) :=
  let partitionSchemes := Split "," partitionSchemesStr in
  let topicsStrList := Split "," topicsStr in
  let discards := csv_or_empty discardPrefixesStr in
  let rewrites := csv_or_empty rewriteOrgIdStr in
  let n := length topicsStrList in
  if bool_decide (1 < length partitionSchemes ∧ length partitionSchemes ≠ n)
  then Err MorePartitionSchemes
  else if bool_decide (1 < length onlyOrgIds ∧ length onlyOrgIds ≠ n) then Err MoreOrgIds
  else if bool_decide (0 < length discards ∧ length discards ≠ n) then Err NeedDiscardPrefixes
  else if bool_decide (0 < length rewrites ∧ length rewrites ≠ n) then Err NeedRewrites
  else parse_topics partitionSchemes onlyOrgIds discards rewrites topicsStrList [].

(** ** New *)

Inductive CompressionCodec := CompressionNone | CompressionGZIP | CompressionSnappy.

(** [log.Fatalf] ends the process: [Err] of a reason. *)
Inductive fatal :=
| UnknownCodec | InvalidBroker (b : string) | InvalidKafkaVersion | InvalidTopics (e : topic_error)
| InvalidSchemas | InvalidTLS | InvalidConfig | NoClient | NoPartitions (topic : string) | NoProducer.

Definition getCompression (codec : string) : outcome fatal CompressionCodec :=
  if bool_decide (codec = "none") then Ok CompressionNone
  else if bool_decide (codec = "gzip") then Ok CompressionGZIP
  else if bool_decide (codec = "snappy") then Ok CompressionSnappy
  else Err UnknownCodec.

Fixpoint Count (c : ascii) (s : string) : nat :=
  match s with
  | "" => 0
  | String d s' => (if bool_decide (d = c) then 1 else 0) + Count c s'
  end.

Definition check_broker (b : string) : outcome fatal unit :=
  if bool_decide (b = "") then Err (InvalidBroker b) else
  let cnt := Count ":" b in
  if bool_decide (1 < cnt) then Err (InvalidBroker b)
  else if bool_decide (cnt = 1) then
    let parts := SplitN2 ":" b in
    p0 ← index parts 0;
    p1 ← index parts 1;
    if bool_decide (p0 = "" ∨ p1 = "") then Err (InvalidBroker b)
    else match Atoi p1 with Some _ => Ok tt | None => Err (InvalidBroker b) end
  else Ok tt.

Fixpoint check_brokers (brokers : list string) : outcome fatal unit :=
  match brokers with
  | [] => Ok tt
  | b :: brokers' => _ ← check_broker b; check_brokers brokers'
  end.

(** The fields of sarama's configuration that [New] sets. *)
Record producer_config := mkProducerConfig {
  RequiredAcks_WaitForAll : bool;
  Retry_Max : nat;
  Compression : CompressionCodec;
  Return_Successes : bool;
  Flush_Frequency : Z;
  Flush_MaxMessages : Z;
  ManualPartitioner : bool;
  Version : string;
  TLS_InsecureSkipVerify : option bool }.

(** The package's flags. *)
Record kafka_flags := mkFlags {
  f_topics : string; f_rewrite : string; f_only : list Z; f_discard : string; f_codec : string;
  f_enabled : bool; f_tls : bool; f_tlsSkipVerify : bool; f_schemes : string;
  f_flushFreq : Z; f_maxMessages : Z; f_v2 : bool; f_v2ClearInterval : Z; f_version : string }.

Record mtPublisher := mkPublisher { autoInterval : bool; topics : list topicSettings }.

(** The world [New] starts in: whether the version string, the schemas file,
    the TLS files, the configuration and the two connections are accepted, and
    the partitions of each topic. *)
Record kafka_env := mkEnv {
  e_version_ok : bool; e_schemas_ok : bool; e_tls_ok : bool;
  e_config_ok : producer_config → bool; e_client_ok : bool; e_producer_ok : bool;
  e_partitions : string → option (list Z) }.

Definition require (b : bool) (e : fatal) : outcome fatal unit := if b then Ok tt else Err e.

Definition make_config (f : kafka_flags) (codec : CompressionCodec) : producer_config :=
  mkProducerConfig true 10 codec true (f_flushFreq f) (f_maxMessages f) true (f_version f)
    (if f_tls f then Some (f_tlsSkipVerify f) else None).

Definition with_numPartitions (n : Z) (t : topicSettings) : topicSettings :=
  mkTopic (name t) (partitioner t) n (onlyOrgId t) (discardPrefixes t) (rw_source t) (rw_target t).

Fixpoint count_partitions (e : kafka_env) (ts : list topicSettings) :
    outcome fatal (list topicSettings) :=
  match ts with
  | [] => Ok []
  | t :: ts' =>
      partitions ← or_err (e_partitions e (name t)) (NoPartitions (name t));
      if bool_decide (length partitions < 1) then Err (NoPartitions (name t)) else
      ts'' ← count_partitions e ts';
      mret (with_numPartitions (wrap_s 32 (Z.of_nat (length partitions))) t :: ts'')
  end.

(** The result is [nil] when publishing is disabled; otherwise the publisher and
    the global [keyCache], which is [nil] without v2. *)
Definition New (f : kafka_flags) (e : kafka_env) (brokers : list string) (auto : bool) :
    outcome fatal (option (mtPublisher * option KeyCache)) :=
  if negb (f_enabled f) then Ok None else
  _ ← check_brokers brokers;
  _ ← require (e_version_ok e) InvalidKafkaVersion;
  ts ← (match parseTopicSettings (f_schemes f) (f_topics f) (f_only f) (f_discard f) (f_rewrite f) with
        | Ok ts => Ok ts | Err x => Err (InvalidTopics x) | Panic => Panic end);
  _ ← require (negb auto || e_schemas_ok e) InvalidSchemas;
  codec ← getCompression (f_codec f);
  _ ← require (negb (f_tls f) || e_tls_ok e) InvalidTLS;
  _ ← require (e_config_ok e (make_config f codec)) InvalidConfig;
  _ ← require (e_client_ok e) NoClient;
  ts ← count_partitions e ts;
  _ ← require (e_producer_ok e) NoProducer;
  mret (Some (mkPublisher auto ts,
              if f_v2 f then Some (NewKeyCache (f_v2ClearInterval f)) else None)).

(** ** Messages *)

Inductive MetricDataType := TMetricData | TMetricPoint | TMetricPointNoOrg.

#[export] Instance MetricDataType_eq_dec : EqDecision MetricDataType.
Proof. solve_decision. Defined.

Record MetricDataBuffer := mkMetricDataBuffer { Data : string; Type_ : MetricDataType }.

Record ProducerMessage := mkMessage { Topic : string; Partition : Z; Message : MetricDataBuffer }.

(** The settings of the process that [Publish] reads. *)
Record pub_cfg := mkPubCfg { has_producer : bool; v2 : bool; v2Org : bool }.

Inductive publish_error :=
| BadKey (e : mkey_error) | Marshal | PartitionFailed | CannotDeduceInterval | SendFailed.

(** [*metric], the key cache, and the locals of [Publish]. The payload's message
    keeps the type of its buffer, which the code keeps in the counters only. *)
Record pub_state := mkPubState {
  p_metric : MetricData;
  p_keys : KeyCache;
  p_cache : gmap Z MetricDataBuffer;
  p_payload : list ProducerMessage;
  p_count : MetricDataType → gmap string nat }.

Definition set_metric (m : MetricData) (s : pub_state) : pub_state :=
  mkPubState m (p_keys s) (p_cache s) (p_payload s) (p_count s).
Definition set_keys (k : KeyCache) (s : pub_state) : pub_state :=
  mkPubState (p_metric s) k (p_cache s) (p_payload s) (p_count s).
Definition set_cache (c : gmap Z MetricDataBuffer) (s : pub_state) : pub_state :=
  mkPubState (p_metric s) (p_keys s) c (p_payload s) (p_count s).

Definition bump (k : string) (m : gmap string nat) : gmap string nat :=
  <[k := S (default 0 (m !! k))]> m.

Definition add_message (msg : ProducerMessage) (s : pub_state) : pub_state :=
  mkPubState (p_metric s) (p_keys s) (p_cache s) (p_payload s ++ [msg])
    (λ t, if bool_decide (t = Type_ (Message msg)) then bump (Topic msg) (p_count s t)
          else p_count s t).

(** ** dataFromMetricData and Publish *)

Section publish.
(** The msgp encoding of a metric; the hash of a metric by a method onto a
    number of partitions; [SecondsPerPoint] of the first retention of the schema
    a name matches. *)
Context (MarshalMsg : MetricData → option string).
Context (PartitionID : PartitionByMethod → MetricData → Z → option Z).
Context (auto_interval : string → Z).
Context (cfg : pub_cfg).

Abbreviation P := (ST pub_state publish_error).

Definition full_message (metric : MetricData) : P MetricDataBuffer :=
  data ← lift_outcome (or_err (MarshalMsg metric) Marshal);
  mret (mkMetricDataBuffer data TMetricData).

Definition point_of (mkey : MKey) (metric : MetricData) : MetricPoint :=
  mkMetricPoint mkey (Value metric) (wrap_u 32 (Time metric)).

Definition point_message (mp : MetricPoint) : MetricDataBuffer :=
  if v2Org cfg
  then mkMetricDataBuffer (String (byte_of FormatMetricPoint) (Marshal32 mp)) TMetricPoint
  else mkMetricDataBuffer (String (byte_of FormatMetricPointWithoutOrg) (MarshalWithoutOrg28 mp))
         TMetricPointNoOrg.

Definition touch_key (mkey : MKey) : P bool := λ s,
  let '(ok, k) := Touch mkey (p_keys s) in (set_keys k s, Ok ok).

Definition key_from_id (id : string) : P MKey :=
  lift_outcome (match MKeyFromString id with
                | Ok k => Ok k | Err e => Err (BadKey e) | Panic => Panic end).

Definition dataFromMetricData (metric : MetricData) : P MetricDataBuffer :=
  if v2 cfg then
    mkey ← key_from_id (Id metric);
    ok ← touch_key mkey;
    if (ok : bool) then mret (point_message (point_of mkey metric)) else full_message metric
  else full_message metric.

(** The partitioners that look at the tags sort them in place. *)
Definition partition_effect (method : PartitionByMethod) (metric : MetricData) : MetricData :=
  match method with
  | PartitionBySeriesWithTags | PartitionBySeriesWithTagsFnv => sort_tags metric
  | _ => metric
  end.

Definition buffer_for (metric : MetricData) : P MetricDataBuffer :=
  cache ← gets p_cache;
  match cache !! OrgId metric with
  | Some b => mret b
  | None =>
      b ← dataFromMetricData metric;
      modify (λ s, set_cache (<[OrgId metric := b]> (p_cache s)) s);; mret b
  end.

(** The [continue TOPICS] tests. *)
Definition topic_takes (topic : topicSettings) (metric : MetricData) : bool :=
  negb (existsb (HasPrefix (Name metric)) (discardPrefixes topic)) &&
  (bool_decide (onlyOrgId topic = 0%Z) || bool_decide (OrgId metric = onlyOrgId topic)).

Definition rewrite_org (topic : topicSettings) (metric : MetricData) : MetricData :=
  if bool_decide (OrgId metric = rw_source topic)
  then SetId (with_OrgId (rw_target topic) metric) else metric.

Definition restore_org (original : Z) (metric : MetricData) : MetricData :=
  if bool_decide (OrgId metric = original) then metric else SetId (with_OrgId original metric).

(** One round of the loop over the topics. *)
Definition publish_topic (topic : topicSettings) : P unit :=
  metric ← gets p_metric;
  if negb (topic_takes topic metric) then mret tt else
  let originalOrgID := OrgId metric in
  modify (set_metric (rewrite_org topic metric));;
  metric ← gets p_metric;
  mdBuffer ← buffer_for metric;
  modify (set_metric (partition_effect (partitioner topic) metric));;
  partition ← lift_outcome (or_err (PartitionID (partitioner topic) metric (numPartitions topic))
                              PartitionFailed);
  metric ← gets p_metric;
  modify (set_metric (restore_org originalOrgID metric));;
  modify (add_message (mkMessage (name topic) partition mdBuffer)).

Definition deduce_interval (m : mtPublisher) : P unit :=
  metric ← gets p_metric;
  if bool_decide (Interval metric = 0%Z) then
    if autoInterval m
    then modify (set_metric (SetId (with_Interval (auto_interval (Name metric)) metric)))
    else fail CannotDeduceInterval
  else mret tt.

Definition publish_metric (m : mtPublisher) : P unit :=
  deduce_interval m;;
  modify (set_cache ∅);;
  for_each publish_topic (topics m).

(** The loop over the metrics. The pointers of [metrics] are distinct, so each
    round changes one element; the list returned is what they point to after. *)
Fixpoint publish_metrics (m : mtPublisher) (metrics : list MetricData) (s : pub_state) :
    pub_state * list MetricData * outcome publish_error unit :=
  match metrics with
  | [] => (s, [], Ok tt)
  | metric :: rest =>
      match publish_metric m (set_metric metric s) with
      | (s', Ok _) =>
          let '(s'', rest', r) := publish_metrics m rest s' in (s'', p_metric s' :: rest', r)
      | (s', r) => (s', p_metric s' :: rest, r)
      end
  end.

(** What a call of [Publish] leaves behind: the metrics, the key cache, the
    payload if it got as far as [SendMessages], the totals added to the three
    counters, the result. *)
Record publish_result := mkResult {
  r_metrics : list MetricData;
  r_keys : KeyCache;
  r_sent : option (list ProducerMessage);
  r_published : MetricDataType → nat;
  r_out : outcome publish_error unit }.

Definition init_state (metric : MetricData) (keys : KeyCache) : pub_state :=
  mkPubState metric keys ∅ [] (λ _, ∅).

Definition published (ts : list topicSettings) (counts : gmap string nat) : nat :=
  sum_list ((λ t, default 0 (counts !! name t)) <$> ts).

Definition Publish (send : list ProducerMessage → bool) (m : mtPublisher)
    (metrics : list MetricData) (keys : KeyCache) : publish_result :=
  let nothing := mkResult metrics keys None (λ _, 0) (Ok tt) in
  if negb (has_producer cfg) then nothing
  else if bool_decide (length metrics = 0) then nothing
  else if bool_decide (length (topics m) = 0) then nothing
  else
    match publish_metrics m metrics (init_state zero_metric keys) with
    | (s, metrics', Ok _) =>
        if send (p_payload s)
        then mkResult metrics' (p_keys s) (Some (p_payload s))
               (λ t, published (topics m) (p_count s t)) (Ok tt)
        else mkResult metrics' (p_keys s) (Some (p_payload s)) (λ _, 0) (Err SendFailed)
    | (s, metrics', r) => mkResult metrics' (p_keys s) None (λ _, 0) r
    end.
End publish.

Definition Type_name : string := "Metrictank".
