(* ===== verification/Partition.v ===== *)
(** * The partition of a metric

    partition.go of the vendored metrictank/schema with the hashes behind it:
    FNV-1a (hash/fnv, and the string writer of metrictank/util, which goes over a
    string rune by rune), XXH64 (cespare/xxhash, as a digest that is written in
    pieces) and jump consistent hashing (dgryski/go-jump), whose [float64]
    arithmetic is carried out on integers. This is the function the publisher of
    Kafka.v has as a parameter. *)

From S2P Require Import Prelude GoStrings Strconv Schema Kafka.
From Stdlib Require Import Ascii.

#[local] Open Scope Z_scope.

(** ** The runes of a string

    [for _, c := range s]: a byte that does not begin a rune is U+FFFD. *)

Definition cont (b : Z) : bool := bool_decide (128 ≤ b ≤ 191).

(** The range the byte after [b0] has to be in. *)
Definition second_ok (b0 b1 : Z) : bool :=
  if bool_decide (b0 = 224) then bool_decide (160 ≤ b1 ≤ 191)
  else if bool_decide (b0 = 237) then bool_decide (128 ≤ b1 ≤ 159)
  else if bool_decide (b0 = 240) then bool_decide (144 ≤ b1 ≤ 191)
  else if bool_decide (b0 = 244) then bool_decide (128 ≤ b1 ≤ 143)
  else cont b1.

(** The rune at the start of bytes, and its width. *)
Definition decode_rune (bs : list Z) : Z * nat :=
  match bs with
  | [] => (65533, 0%nat)
  | b0 :: r =>
      if bool_decide (b0 < 128) then (b0, 1%nat)
      else match r with
      | b1 :: r1 =>
          if bool_decide (194 ≤ b0 ≤ 223) && cont b1 then ((b0 - 192) * 64 + (b1 - 128), 2%nat)
          else match r1 with
          | b2 :: r2 =>
              if bool_decide (224 ≤ b0 ≤ 239) && second_ok b0 b1 && cont b2
              then ((b0 - 224) * 4096 + (b1 - 128) * 64 + (b2 - 128), 3%nat)
              else match r2 with
              | b3 :: _ =>
                  if bool_decide (240 ≤ b0 ≤ 244) && second_ok b0 b1 && cont b2 && cont b3
                  then ((b0 - 240) * 262144 + (b1 - 128) * 4096 + (b2 - 128) * 64 + (b3 - 128), 4%nat)
                  else (65533, 1%nat)
              | [] => (65533, 1%nat)
              end
          | [] => (65533, 1%nat)
          end
      | [] => (65533, 1%nat)
      end
  end.

(** Every rune takes a byte at least, so the length is enough fuel. *)
Fixpoint runes_go (fuel : nat) (bs : list Z) : list Z :=
  match fuel, bs with
  | S fuel', _ :: _ => let '(c, n) := decode_rune bs in c :: runes_go fuel' (drop n bs)
  | _, _ => []
  end.

Definition bytes (s : string) : list Z := byte_val <$> String.list_ascii_of_string s.
Definition runes (s : string) : list Z := runes_go (length (bytes s)) (bytes s).

(** ** FNV-1a *)

Definition offset32 : Z := 2166136261.
Definition prime32 : Z := 16777619.

Definition fnv_step (hash c : Z) : Z := wrap_u 32 (Z.lxor hash c * prime32).
(** [hash/fnv] on bytes, and [WriteString] of util on the runes of a string. *)
Definition fnv_Write (hash : Z) (data : string) : Z := foldl fnv_step hash (bytes data).
Definition fnv_WriteString (hash : Z) (data : string) : Z := foldl fnv_step hash (runes data).

(** ** XXH64 *)

Definition prime1 : Z := 11400714785074694791.
Definition prime2 : Z := 14029467366897019727.
Definition prime3 : Z := 1609587929392839161.
Definition prime4 : Z := 9650029242287828579.
Definition prime5 : Z := 2870177450012600261.

Definition add64 (a b : Z) : Z := wrap_u 64 (a + b).
Definition mul64 (a b : Z) : Z := wrap_u 64 (a * b).
Definition rol (n x : Z) : Z := Z.lor (wrap_u 64 (Z.shiftl x n)) (Z.shiftr x (64 - n)).

Definition round (acc input : Z) : Z := mul64 (rol 31 (add64 acc (mul64 input prime2))) prime1.
Definition mergeRound (acc val : Z) : Z := add64 (mul64 (Z.lxor acc (round 0 val)) prime1) prime4.

(** The four accumulators; [u64 s] is of the first 8 bytes. *)
Definition lanes : Type := Z * Z * Z * Z.
Definition u64 (s : string) : Z := le_get (take_str 8 s).
Definition u32 (s : string) : Z := le_get (take_str 4 s).

Definition block (v : lanes) (s : string) : lanes :=
  let '(v1, v2, v3, v4) := v in
  (round v1 (u64 s), round v2 (u64 (drop_str 8 s)), round v3 (u64 (drop_str 16 s)),
   round v4 (u64 (drop_str 24 s))).

(** [n] blocks of 32 bytes. *)
Fixpoint blocks (n : nat) (v : lanes) (s : string) : lanes :=
  match n with O => v | S n' => blocks n' (block v s) (drop_str 32 s) end.

(** [mem] holds the [n] bytes of [d.mem] that are used. *)
Record Digest := mkDigest { vs : lanes; total : Z; mem : string }.

Definition init_lanes : lanes := (add64 prime1 prime2, prime2, 0, wrap_u 64 (- prime1)).
Definition New : Digest := mkDigest init_lanes 0 "".

Definition Write (b : string) (d : Digest) : Digest :=
  let total' := add64 (total d) (Z.of_nat (strlen b)) in
  if bool_decide (strlen (mem d) + strlen b < 32)%nat then mkDigest (vs d) total' (mem d +:+ b) else
  let '(v, b) :=
    if bool_decide (0 < strlen (mem d))%nat
    then (block (vs d) (mem d +:+ take_str (32 - strlen (mem d)) b), drop_str (32 - strlen (mem d)) b)
    else (vs d, b) in
  let n := (strlen b / 32)%nat in
  mkDigest (blocks n v b) total' (drop_str (32 * n) b).

(** The tail: groups of 8 bytes, then 4, then single ones. *)
Fixpoint tail8 (n : nat) (h : Z) (s : string) : Z :=
  match n with
  | O => h
  | S n' => tail8 n' (add64 (mul64 (rol 27 (Z.lxor h (round 0 (u64 s)))) prime1) prime4) (drop_str 8 s)
  end.
Definition tail4 (h : Z) (s : string) : Z * string :=
  if bool_decide (4 ≤ strlen s)%nat
  then (add64 (mul64 (rol 23 (Z.lxor h (mul64 (u32 s) prime1))) prime2) prime3, drop_str 4 s)
  else (h, s).
Definition tail1 (h c : Z) : Z := mul64 (rol 11 (Z.lxor h (mul64 c prime5))) prime1.

Definition avalanche (h : Z) : Z :=
  let h := mul64 (Z.lxor h (Z.shiftr h 33)) prime2 in
  let h := mul64 (Z.lxor h (Z.shiftr h 29)) prime3 in
  Z.lxor h (Z.shiftr h 32).

Definition finish_tail (h : Z) (s : string) : Z :=
  let n := (strlen s / 8)%nat in
  let h := tail8 n h s in
  let '(h, s) := tail4 h (drop_str (8 * n) s) in
  avalanche (foldl tail1 h (bytes s)).

Definition converge (v : lanes) : Z :=
  let '(v1, v2, v3, v4) := v in
  let h := add64 (add64 (add64 (rol 1 v1) (rol 7 v2)) (rol 12 v3)) (rol 18 v4) in
  mergeRound (mergeRound (mergeRound (mergeRound h v1) v2) v3) v4.

Definition Sum64 (d : Digest) : Z :=
  let h := if bool_decide (32 ≤ total d) then converge (vs d) else add64 (vs d).1.2 prime5 in
  finish_tail (add64 h (total d)) (mem d).

(** The function of the package that hashes a whole string at once. *)
Definition Sum64_whole (b : string) : Z :=
  let n := (strlen b / 32)%nat in
  let h := if bool_decide (32 ≤ strlen b)%nat then converge (blocks n init_lanes b) else prime5 in
  finish_tail (add64 h (Z.of_nat (strlen b))) (drop_str (32 * n) b).

Example xxh64_empty : Sum64_whole "" = 0xef46db3751d8e999. Proof. by vm_compute. Qed.
Example xxh64_abc : Sum64_whole "abc" = 0x44bc2cf5ad770999. Proof. by vm_compute. Qed.
Example xxh64_long : Sum64_whole "Nobody inspects the spammish repetition" = 0xfbcea83c8a378bf1.
Proof. by vm_compute. Qed.

(** ** Positive float64 numbers

    A positive [float64] is [m * 2^e]. [round_div n d] is the one nearest to
    [n / d], the even one of two. *)

(** The nearest integer of a quotient. *)
Definition nearest (n d : Z) : Z :=
  let q := n / d in
  match 2 * (n mod d) ?= d with
  | Lt => q | Gt => q + 1 | Eq => if Z.even q then q else q + 1
  end.

(** The exponent at which the quotient has 53 bits. *)
Definition exponent (n d : Z) : Z :=
  let e := Z.log2 n - Z.log2 d - 52 in
  if bool_decide (n * 2 ^ Z.max 0 (- e) < 2 ^ 52 * d * 2 ^ Z.max 0 e) then e - 1 else e.

Definition round_div (n d : Z) : Z * Z :=
  let e := exponent n d in (nearest (n * 2 ^ Z.max 0 (- e)) (d * 2 ^ Z.max 0 e), e).

(** ** Jump consistent hashing *)

Definition next_key (key : Z) : Z := wrap_u 64 (key * 2862933555777941757 + 1).

(** [int64(float64(b+1) * (float64(int64(1)<<31) / float64((key>>33)+1)))]; the
    integers converted are below [2^53]. *)
Definition next_bucket (b key : Z) : Z :=
  let '(m, e) := round_div (2 ^ 31) (Z.shiftr key 33 + 1) in
  let '(m', e') := round_div ((b + 1) * m) 1 in
  wrap_s 64 (Z.shiftl m' (e' + e)).

(** The loop, entered with [j]. [None]: out of fuel. *)
Fixpoint jump_loop (fuel : nat) (key b j numBuckets : Z) : option Z :=
  if bool_decide (j < numBuckets) then
    match fuel with
    | O => None
    | S fuel' => let key := next_key key in jump_loop fuel' key j (next_bucket j key) numBuckets
    end
  else Some b.

(** The bucket grows with every round, so [numBuckets] rounds are enough. *)
Definition Hash (key numBuckets : Z) : option Z :=
  jump_loop (Z.to_nat numBuckets) key (-1) 0 numBuckets.

Example jump_hash_values :
  (λ k, Hash k 11) <$> [10863919174838991; 2016238256797177309; 1673758223894951030] = [Some 6; Some 3; Some 5] ∧
  (λ k, Hash k 100001) <$> [2; 2201; 2202] = [Some 80343; Some 22152; Some 15018].
Proof. by vm_compute. Qed.

(** ** PartitionID *)

(** [writeSortedTagString], after the tags were sorted: the pieces written. *)
Definition is_name_tag (t : string) : bool := bool_decide (5 < strlen t)%nat && HasPrefix t "name=".
Definition tag_pieces (name : string) (tags : list string) : list string :=
  name :: mjoin ((λ t, [";"; t]) <$> List.filter (λ t, negb (is_name_tag t)) (SortStrings tags)).

Definition fnv_partition (h partitions : Z) : outcome unit Z :=
  if bool_decide (partitions = 0) then Panic else
  let p := Z.rem (wrap_s 32 h) partitions in
  Ok (if bool_decide (p < 0) then - p else p).

(** [Err]: out of fuel, which does not happen. *)
Definition PartitionID (method : PartitionByMethod) (m : MetricData) (partitions : Z) : outcome unit Z :=
  match method with
  | PartitionByOrg => fnv_partition (fnv_Write offset32 (le_put 4 (wrap_u 32 (OrgId m)))) partitions
  | PartitionBySeries => fnv_partition (fnv_WriteString offset32 (Name m)) partitions
  | PartitionBySeriesWithTags =>
      let h := foldl (λ d p, Write p d) New (tag_pieces (Name m) (Tags m)) in
      or_err (Hash (Sum64 h) partitions) ()
  | PartitionBySeriesWithTagsFnv =>
      fnv_partition (foldl fnv_WriteString offset32 (tag_pieces (Name m) (Tags m))) partitions
  end.

(** As the publisher of Kafka.v takes it. *)
Definition partition_by (method : PartitionByMethod) (m : MetricData) (partitions : Z) : option Z :=
  match PartitionID method m partitions with Ok p => Some p | _ => None end.

(** ** The rounding *)

Lemma nearest_lower n d k : 0 < d → k * d ≤ n → k ≤ nearest n d.
Proof.
  intros Hd Hk. unfold nearest. assert (k ≤ n / d) by (apply Z.div_le_lower_bound; lia).
  destruct (_ ?= _); [destruct (Z.even _)|..]; lia.
Qed.

Lemma nearest_upper n d k : 0 < d → n ≤ k * d → nearest n d ≤ k.
Proof.
  intros Hd Hk. unfold nearest. pose proof (Z.div_mod n d). pose proof (Z.mod_pos_bound n d Hd).
  assert (n / d ≤ k) by (apply Z.div_le_upper_bound; lia).
  destruct (2 * (n mod d) ?= d) eqn:Hc.
  - apply Z.compare_eq in Hc. destruct (Z.even (n / d)); [lia|]. assert (n / d ≠ k) by nia. lia.
  - lia.
  - apply Z.compare_gt_iff in Hc. assert (n / d ≠ k) by nia. lia.
Qed.

(** At its exponent a quotient is at least [2^52]. *)
Lemma exponent_lower n d :
  0 < n → 0 < d → let e := exponent n d in
  2 ^ 52 * (d * 2 ^ Z.max 0 e) ≤ n * 2 ^ Z.max 0 (- e).
Proof.
  intros Hn Hd. cbv zeta. unfold exponent. set (e := Z.log2 n - Z.log2 d - 52).
  case_bool_decide as Hc; [|lia].
  destruct (Z.log2_spec n Hn) as [Hn1 _], (Z.log2_spec d Hd) as [_ Hd1].
  pose proof (Z.log2_nonneg n). pose proof (Z.log2_nonneg d).
  destruct (decide (0 ≤ e - 1)) as [He|He].
  - rewrite Z.max_r, (Z.max_l 0 (- (e - 1))) by lia. rewrite Z.pow_0_r, Z.mul_1_r.
    transitivity (2 ^ 52 * (2 ^ Z.succ (Z.log2 d) * 2 ^ (e - 1))); [|].
    + apply Z.mul_le_mono_nonneg_l; [lia|]. apply Z.mul_le_mono_nonneg_r; [apply Z.pow_nonneg|]; lia.
    + rewrite <- !Z.pow_add_r by lia. etransitivity; [|exact Hn1]. apply Z.pow_le_mono_r; lia.
  - rewrite Z.max_l, (Z.max_r 0 (- (e - 1))) by lia. rewrite Z.pow_0_r, Z.mul_1_r.
    transitivity (2 ^ 52 * 2 ^ Z.succ (Z.log2 d)); [lia|].
    transitivity (2 ^ Z.log2 n * 2 ^ (- (e - 1))).
    + rewrite <- !Z.pow_add_r by lia. apply Z.pow_le_mono_r; lia.
    + apply Z.mul_le_mono_nonneg_r; [apply Z.pow_nonneg|]; lia.
Qed.

(** Rounding does not pass a number [c * 2^t] of few bits. *)
Lemma round_div_lower n d c t :
  0 < n → 0 < d → 0 ≤ c → 0 ≤ t → c * 2 ^ t * d ≤ n →
  let '(m, e) := round_div n d in (e ≤ t → c * 2 ^ (t - e) ≤ m) ∧ 2 ^ 52 ≤ m.
Proof.
  intros Hn Hd Hc Ht Hle. unfold round_div. pose proof (exponent_lower n d Hn Hd) as Hx.
  cbv zeta in Hx. set (e := exponent n d) in *.
  assert (Hp : 0 < d * 2 ^ Z.max 0 e) by (apply Z.mul_pos_pos; [|apply Z.pow_pos_nonneg]; lia).
  split; [|by apply nearest_lower]. intros He. apply nearest_lower; [done|].
  destruct (decide (0 ≤ e)) as [H0|H0].
  - rewrite (Z.max_r 0 e), (Z.max_l 0 (- e)), Z.pow_0_r by lia.
    replace (c * 2 ^ (t - e) * (d * 2 ^ e)) with (c * 2 ^ (t - e + e) * d) by (rewrite Z.pow_add_r by lia; ring).
    replace (t - e + e) with t by lia. lia.
  - rewrite (Z.max_l 0 e), (Z.max_r 0 (- e)), Z.pow_0_r by lia.
    replace (t - e) with (t + - e) by lia. rewrite Z.pow_add_r by lia.
    assert (0 < 2 ^ (- e)) by (apply Z.pow_pos_nonneg; lia). nia.
Qed.

Lemma round_div_upper n d c t :
  0 < n → 0 < d → 0 < c ≤ 2 ^ 52 → 0 ≤ t → n ≤ c * 2 ^ t * d →
  let '(m, e) := round_div n d in e ≤ t ∧ m ≤ c * 2 ^ (t - e).
Proof.
  intros Hn Hd Hc Ht Hle. unfold round_div. pose proof (exponent_lower n d Hn Hd) as Hx.
  cbv zeta in Hx. set (e := exponent n d) in *.
  assert (Hp : 0 < d * 2 ^ Z.max 0 e) by (apply Z.mul_pos_pos; [|apply Z.pow_pos_nonneg]; lia).
  assert (He : e ≤ t).
  { destruct (decide (e ≤ t)) as [|Hgt]; [done|exfalso].
    rewrite (Z.max_r 0 e), (Z.max_l 0 (- e)), Z.pow_0_r in Hx by lia.
    assert (H1 : 2 ^ 52 * (d * 2 ^ e) ≤ 2 ^ 52 * (d * 2 ^ t)).
    { assert (c * (2 ^ t * d) ≤ 2 ^ 52 * (2 ^ t * d)); [|lia].
      assert (0 < 2 ^ t) by (apply Z.pow_pos_nonneg; lia). apply Z.mul_le_mono_nonneg_r; nia. }
    assert (H2 : 2 ^ t * 2 ≤ 2 ^ e).
    { rewrite <- (Z.pow_1_r 2) at 2. rewrite <- Z.pow_add_r by lia. apply Z.pow_le_mono_r; lia. }
    assert (0 < 2 ^ t) by (apply Z.pow_pos_nonneg; lia). nia. }
  split; [done|]. apply nearest_upper; [done|].
  destruct (decide (0 ≤ e)) as [H0|H0].
  - rewrite (Z.max_r 0 e), (Z.max_l 0 (- e)), Z.pow_0_r by lia.
    replace (c * 2 ^ (t - e) * (d * 2 ^ e)) with (c * 2 ^ (t - e + e) * d) by (rewrite Z.pow_add_r by lia; ring).
    replace (t - e + e) with t by lia. lia.
  - rewrite (Z.max_l 0 e), (Z.max_r 0 (- e)), Z.pow_0_r by lia.
    replace (t - e) with (t + - e) by lia. rewrite Z.pow_add_r by lia.
    assert (0 < 2 ^ (- e)) by (apply Z.pow_pos_nonneg; lia). nia.
Qed.

(** Bringing [c * 2^t] back. *)
Lemma shiftl_lower m c s : 0 ≤ m → 0 ≤ c → (s ≤ 0 → c * 2 ^ (- s) ≤ m) → (0 ≤ s → c ≤ m) → c ≤ Z.shiftl m s.
Proof.
  intros Hm Hc Hn Hp. destruct (decide (0 ≤ s)) as [Hs|Hs].
  - rewrite Z.shiftl_mul_pow2 by lia. assert (1 ≤ 2 ^ s) by (apply Z.lt_pred_le, Z.pow_pos_nonneg; lia).
    specialize (Hp Hs). nia.
  - rewrite Z.shiftl_div_pow2 by lia. apply Z.div_le_lower_bound; [apply Z.pow_pos_nonneg; lia|].
    rewrite Z.mul_comm. apply Hn. lia.
Qed.

Lemma shiftl_upper m c s :
  0 ≤ m → (0 ≤ s → m * 2 ^ s ≤ c) → (s ≤ 0 → m ≤ c * 2 ^ (- s)) → Z.shiftl m s ≤ c.
Proof.
  intros Hm Hp Hn. destruct (decide (0 ≤ s)) as [Hs|Hs].
  - rewrite Z.shiftl_mul_pow2 by lia. by apply Hp.
  - rewrite Z.shiftl_div_pow2 by lia. apply Z.div_le_upper_bound; [apply Z.pow_pos_nonneg; lia|].
    rewrite Z.mul_comm. apply Hn. lia.
Qed.

(** The next bucket is a later one, and the conversion to [int64] is exact. *)
Lemma next_bucket_range b key :
  is_u 64 key → 0 ≤ b < 2 ^ 31 → b + 1 ≤ next_bucket b key ≤ 2 ^ 62.
Proof.
  intros Hk Hb. unfold next_bucket. set (y := Z.shiftr key 33 + 1).
  assert (Hy : 1 ≤ y ≤ 2 ^ 31).
  { unfold y, is_u in *. rewrite Z.shiftr_div_pow2 by lia.
    pose proof (Z.div_pos key (2 ^ 33)). assert (key / 2 ^ 33 < 2 ^ 31) by (apply Z.div_lt_upper_bound; lia). lia. }
  pose proof (round_div_lower (2 ^ 31) y 1 0) as L1. pose proof (round_div_upper (2 ^ 31) y 1 31) as U1.
  pose proof (exponent_lower (2 ^ 31) y) as X1.
  destruct (round_div (2 ^ 31) y) as [m e] eqn:E1.
  assert (Ee : e = exponent (2 ^ 31) y) by (unfold round_div in E1; by injection E1).
  rewrite <- Ee in X1. cbv zeta in X1.
  specialize (L1 ltac:(lia) ltac:(lia) ltac:(lia) ltac:(lia) ltac:(lia)) as [L1 Hm].
  specialize (U1 ltac:(lia) ltac:(lia) ltac:(lia) ltac:(lia) ltac:(lia)) as [_ U1].
  assert (He : e < 0).
  { destruct (decide (e < 0)) as [|He]; [done|exfalso].
    specialize (X1 ltac:(lia) ltac:(lia)). rewrite (Z.max_r 0 e), (Z.max_l 0 (- e)), Z.pow_0_r in X1 by lia.
    assert (1 ≤ 2 ^ e) by (apply Z.lt_pred_le, Z.pow_pos_nonneg; lia). nia. }
  specialize (L1 ltac:(lia)). rewrite Z.mul_1_l in L1, U1. replace (0 - e) with (- e) in L1 by lia.
  pose proof (round_div_lower ((b + 1) * m) 1 (b + 1) (- e)) as L2.
  pose proof (round_div_upper ((b + 1) * m) 1 (b + 1) (31 - e)) as U2.
  destruct (round_div ((b + 1) * m) 1) as [m' e'].
  specialize (L2 ltac:(nia) ltac:(lia) ltac:(lia) ltac:(lia) ltac:(nia)) as [L2 Hm'].
  specialize (U2 ltac:(nia) ltac:(lia) ltac:(lia) ltac:(lia) ltac:(nia)) as [He' U2].
  assert (Hlo : b + 1 ≤ Z.shiftl m' (e' + e)).
  { apply shiftl_lower; [lia..| |lia]. intros Hs. replace (- (e' + e)) with (- e - e') by lia. apply L2. lia. }
  assert (Hhi : Z.shiftl m' (e' + e) ≤ 2 ^ 62).
  { transitivity ((b + 1) * 2 ^ 31); [|lia]. apply shiftl_upper; [lia|..]; intros Hs.
    - transitivity ((b + 1) * 2 ^ (31 - e - e') * 2 ^ (e' + e)).
      { apply Z.mul_le_mono_nonneg_r; [apply Z.pow_nonneg; lia|done]. }
      rewrite <- Z.mul_assoc, <- Z.pow_add_r by lia. by replace (31 - e - e' + (e' + e)) with 31 by lia.
    - etransitivity; [exact U2|]. rewrite <- Z.mul_assoc, <- Z.pow_add_r by lia.
      by replace (31 + - (e' + e)) with (31 - e - e') by lia. }
  rewrite wrap_s_id; [lia|lia|]. unfold is_s. lia.
Qed.

(** ** The loop *)

Lemma next_key_u64 key : is_u 64 (next_key key).
Proof. by apply wrap_u_range. Qed.

Lemma jump_loop_spec fuel key b j n :
  n ≤ 2 ^ 31 → 0 ≤ j → n - j ≤ Z.of_nat fuel →
  ∃ r, jump_loop fuel key b j n = Some r ∧ (j < n → j ≤ r < n) ∧ (n ≤ j → r = b).
Proof.
  intros Hn. revert key b j. induction fuel as [|fuel IH]; intros key b j Hj Hf; cbn [jump_loop].
  - rewrite bool_decide_eq_false_2 by lia. exists b. split_and!; [done|lia|done].
  - case_bool_decide as Hlt; [|exists b; split_and!; [done|lia|done]].
    pose proof (next_bucket_range j (next_key key) (next_key_u64 key)) as Hb.
    destruct (IH (next_key key) j (next_bucket j (next_key key))) as (r & -> & H1 & H2); [lia..|].
    exists r. split_and!; [done| |lia]. intros _.
    destruct (decide (next_bucket j (next_key key) < n)); [specialize (H1 ltac:(done)); lia|].
    rewrite H2 by lia. lia.
Qed.

(** A loop that is done with [n] buckets has at most one round more with [n + 1]. *)
Lemma jump_loop_last fuel key b j n y :
  n < 2 ^ 31 → 0 ≤ j → ¬ j < n → jump_loop fuel key b j (n + 1) = Some y → y = b ∨ y = n.
Proof.
  intros Hn Hj H Hy. destruct (decide (j < n + 1)) as [H1|H1].
  - assert (j = n) as -> by lia. right.
    pose proof (next_bucket_range n (next_key key) (next_key_u64 key)).
    destruct fuel; cbn [jump_loop] in Hy; rewrite bool_decide_eq_true_2 in Hy by lia; [done|].
    destruct fuel; cbn [jump_loop] in Hy; rewrite bool_decide_eq_false_2 in Hy by lia; congruence.
  - left. destruct fuel; cbn [jump_loop] in Hy; rewrite bool_decide_eq_false_2 in Hy by lia; congruence.
Qed.

Lemma jump_loop_more f1 f2 key b j n x y :
  n < 2 ^ 31 → 0 ≤ j → jump_loop f1 key b j n = Some x → jump_loop f2 key b j (n + 1) = Some y →
  y = x ∨ y = n.
Proof.
  intros Hn. revert f2 key b j. induction f1 as [|f1 IH]; intros f2 key b j Hj Hx Hy.
  - destruct (decide (j < n)) as [H|H]; cbn [jump_loop] in Hx; [by rewrite bool_decide_eq_true_2 in Hx|].
    rewrite bool_decide_eq_false_2 in Hx by done. injection Hx as <-. by eapply jump_loop_last.
  - destruct (decide (j < n)) as [H|H]; cbn [jump_loop] in Hx.
    + rewrite bool_decide_eq_true_2 in Hx by done.
      destruct f2; cbn [jump_loop] in Hy; rewrite bool_decide_eq_true_2 in Hy by lia; [done|].
      pose proof (next_bucket_range j (next_key key) (next_key_u64 key)). eapply IH; [|done..]. lia.
    + rewrite bool_decide_eq_false_2 in Hx by done. injection Hx as <-. by eapply jump_loop_last.
Qed.

Lemma Hash_range key n :
  0 < n ≤ 2 ^ 31 → ∃ r, Hash key n = Some r ∧ 0 ≤ r < n.
Proof.
  intros Hn. unfold Hash. destruct (jump_loop_spec (Z.to_nat n) key (-1) 0 n) as (r & -> & H & _); [lia..|].
  exists r. split; [done|]. apply H. lia.
Qed.

Lemma fnv_partition_range h n :
  0 < n ≤ 2 ^ 31 → ∃ r, fnv_partition h n = Ok r ∧ 0 ≤ r < n.
Proof.
  intros Hn. unfold fnv_partition. rewrite bool_decide_eq_false_2 by lia. eexists. split; [done|].
  pose proof (Z.rem_bound_abs (wrap_s 32 h) n). case_bool_decide; lia.
Qed.

(** ** The digest does not depend on the pieces *)

#[local] Open Scope nat_scope.

Lemma drop_str_drop a b s : drop_str a (drop_str b s) = drop_str (b + a) s.
Proof. revert s. induction b as [|b IH]; intros [|c s]; [by destruct a..|by destruct a|apply IH]. Qed.

Lemma drop_str_app_le n s t : n ≤ strlen s → drop_str n (s +:+ t) = drop_str n s +:+ t.
Proof.
  revert s. induction n as [|n IH]; intros [|c s] H; cbn in *; try done; [lia|]. apply IH. lia.
Qed.

Lemma take_str_app_le n s t : n ≤ strlen s → take_str n (s +:+ t) = take_str n s.
Proof.
  revert s. induction n as [|n IH]; intros [|c s] H; cbn in *; try done; [lia|]. f_equal. apply IH. lia.
Qed.

Lemma u64_app s t : 8 ≤ strlen s → u64 (s +:+ t) = u64 s.
Proof. intros H. unfold u64. by rewrite take_str_app_le. Qed.

Lemma block_app v s t : 32 ≤ strlen s → block v (s +:+ t) = block v s.
Proof.
  intros H. unfold block. destruct v as [[[v1 v2] v3] v4].
  rewrite !(drop_str_app_le _ s t), !u64_app; rewrite ?strlen_drop; (done || lia).
Qed.

Lemma blocks_app n v s t : 32 * n ≤ strlen s → blocks n v (s +:+ t) = blocks n v s.
Proof.
  revert v s. induction n as [|n IH]; intros v s H; [done|]. cbn [blocks].
  rewrite block_app, drop_str_app_le, IH; rewrite ?strlen_drop; (done || lia).
Qed.

Lemma blocks_add a b v s : blocks (a + b) v s = blocks b (blocks a v s) (drop_str (32 * a) s).
Proof.
  revert v s. induction a as [|a IH]; intros v s; [by rewrite drop_str_0|]. cbn [blocks Nat.add].
  rewrite IH, drop_str_drop. do 2 f_equal. lia.
Qed.

(** What a digest is after the bytes [s]. *)
Definition digest_of (s : string) : Digest :=
  mkDigest (blocks (strlen s / 32) init_lanes s) (wrap_u 64 (Z.of_nat (strlen s)))
    (drop_str (32 * (strlen s / 32)) s).

Lemma strlen_mem s : strlen (mem (digest_of s)) = strlen s mod 32.
Proof. cbn [mem digest_of]. rewrite strlen_drop. pose proof (Nat.div_mod_eq (strlen s) 32). lia. Qed.

(** The blocks of [s ++ b] are those of [s] and those of what is left of [s] with [b]. *)
Lemma digest_of_app s b :
  let m := mem (digest_of s) +:+ b in
  digest_of (s +:+ b) =
    mkDigest (blocks (strlen m / 32) (vs (digest_of s)) m) (wrap_u 64 (Z.of_nat (strlen (s +:+ b))))
      (drop_str (32 * (strlen m / 32)) m).
Proof.
  cbv zeta. unfold digest_of at 1. cbn [vs mem digest_of]. set (q := strlen s / 32).
  assert (Hq : 32 * q ≤ strlen s) by (pose proof (Nat.div_mod_eq (strlen s) 32); lia).
  rewrite <- (drop_str_app_le (32 * q) s b) by done. set (r := drop_str (32 * q) (s +:+ b)).
  assert (Hr : strlen (s +:+ b) / 32 = q + strlen r / 32).
  { unfold r. rewrite strlen_drop. rewrite <- Nat.div_add_l by lia. f_equal. rewrite strlen_app. lia. }
  rewrite Hr. f_equal.
  - rewrite blocks_add. by rewrite blocks_app.
  - unfold r. rewrite drop_str_drop. f_equal. lia.
Qed.

Lemma Write_digest s b : Write b (digest_of s) = digest_of (s +:+ b).
Proof.
  rewrite digest_of_app. cbv zeta. unfold Write.
  assert (Ht : add64 (total (digest_of s)) (Z.of_nat (strlen b)) = wrap_u 64 (Z.of_nat (strlen (s +:+ b)))).
  { cbn [total digest_of]. unfold add64, wrap_u. rewrite strlen_app, Nat2Z.inj_add.
    by rewrite Zplus_mod_idemp_l. }
  rewrite Ht. set (m := mem (digest_of s)) in *. set (v := vs (digest_of s)) in *.
  assert (Hm : strlen m < 32) by (unfold m; rewrite strlen_mem; apply Nat.mod_upper_bound; lia).
  case_bool_decide as Hs.
  { rewrite Nat.div_small by (rewrite strlen_app; lia). rewrite Nat.mul_0_r, drop_str_0. done. }
  case_bool_decide as H0.
  - set (k := 32 - strlen m).
    assert (Em : m +:+ b = (m +:+ take_str k b) +:+ drop_str k b)
      by (rewrite str_app_assoc; by rewrite take_drop_str).
    assert (Hl : strlen (m +:+ take_str k b) = 32) by (rewrite strlen_app, strlen_take; lia).
    pose proof (drop_str_app (m +:+ take_str k b) (drop_str k b)) as Hd32. rewrite Hl in Hd32.
    assert (Hd : strlen (m +:+ b) / 32 = 1 + strlen (drop_str k b) / 32).
    { rewrite Em, strlen_app, Hl. replace (32 + strlen (drop_str k b)) with (1 * 32 + strlen (drop_str k b)) by lia.
      rewrite Nat.div_add_l by lia. done. }
    rewrite Hd. f_equal.
    + cbn [Nat.add blocks]. rewrite Em, (block_app v (m +:+ take_str k b)) by lia. by rewrite Hd32.
    + rewrite Em. replace (32 * (1 + strlen (drop_str k b) / 32)) with (32 + 32 * (strlen (drop_str k b) / 32)) by lia.
      rewrite <- drop_str_drop. by rewrite Hd32.
  - assert (strlen m = 0) as ->%strlen_0 by lia. done.
Qed.

Lemma New_digest : New = digest_of "".
Proof. by vm_compute. Qed.

Lemma Sum64_digest s : (Z.of_nat (strlen s) < 2 ^ 64)%Z → Sum64 (digest_of s) = Sum64_whole s.
Proof.
  intros Hl. unfold Sum64, Sum64_whole. cbn [total vs mem digest_of]. rewrite wrap_u_id by (unfold is_u; lia).
  rewrite (bool_decide_ext (32 ≤ Z.of_nat (strlen s))%Z (32 ≤ strlen s)) by lia.
  case_bool_decide as H; [done|]. rewrite Nat.div_small by lia. done.
Qed.

Lemma Write_pieces ps s : foldl (λ d p, Write p d) (digest_of s) ps = digest_of (s +:+ foldr String.append "" ps).
Proof.
  revert s. induction ps as [|p ps IH]; intros s; cbn [foldl foldr]; [by rewrite str_app_nil_r|].
  rewrite Write_digest, IH. by rewrite str_app_assoc.
Qed.
