(* ===== verification/KafkaSpec.v ===== *)
(** * The Kafka publisher's theorems

    What [parseTopicSettings] builds, and what [Publish] sends: the routing of
    every metric to the topics that take it, the contents of the messages, the
    order in which full messages and points appear, the state the metrics and
    the key cache are left in. *)

From S2P Require Import Prelude GoStrings Strconv Md5 Schema KeyCache Kafka.
From Stdlib Require Import Ascii.

(** ** parseTopicSettings *)

(** A flag given once stands for every topic. *)
Definition pick {A} (l : list A) (i : nat) : option A :=
  match l with [x] => Some x | _ => l !! i end.

Definition topic_spec (schemes : list string) (onlyOrgIds : list Z)
    (discards rewrites names : list string) (i : nat) (t : topicSettings) : Prop :=
  name t = TrimSpace (default "" (names !! i)) ∧
  PartitonMethodFromString (TrimSpace (default "" (pick schemes i))) = Some (partitioner t) ∧
  onlyOrgId t = default 0%Z (pick onlyOrgIds i) ∧
  discardPrefixes t = FieldsByte "|" (default "" (discards !! i)) ∧
  parse_rewrite (default "" (rewrites !! i)) = Ok (rw_source t, rw_target t) ∧
  numPartitions t = 0%Z.

Section parse.
Context (schemes : list string) (onlyOrgIds : list Z) (discards rewrites names : list string).
Context (Hschemes : 0 < length schemes ∧ (1 < length schemes → length schemes = length names)).
Context (Honly : 1 < length onlyOrgIds → length onlyOrgIds = length names).
Context (Hdisc : 0 < length discards → length discards = length names).
Context (Hrew : 0 < length rewrites → length rewrites = length names).

Abbreviation spec := (topic_spec schemes onlyOrgIds discards rewrites names).
Abbreviation one i := (parse_topic schemes onlyOrgIds discards rewrites i (default "" (names !! i))).

Lemma index_in {A} (l : list A) (i : nat) :
  i < length l → ∃ x, l !! i = Some x ∧ index (E:=topic_error) l i = Ok x.
Proof. intros [x Hx]%lookup_lt_is_Some_2. exists x. unfold index. by rewrite Hx. Qed.

Lemma topic_partitioner_eq i ts :
  i < length names → length ts = i → (∀ j t, ts !! j = Some t → spec j t) →
  topic_partitioner schemes i ts =
    or_err (PartitonMethodFromString (TrimSpace (default "" (pick schemes i)))) BadPartitioner.
Proof.
  intros Hi Hl Hts. destruct Hschemes as [H0 H1]. unfold topic_partitioner.
  case_bool_decide as Hc.
  - destruct Hc as [Hs Hpos]. destruct schemes as [|s [|]]; try done. simpl.
    destruct (index_in ts 0 ltac:(lia)) as (t0 & Ht0 & ->). cbn.
    destruct (Hts _ _ Ht0) as (_ & E & _). simpl in E. by rewrite E.
  - assert (i < length schemes) as Hlt.
    { destruct (decide (1 < length schemes)); [rewrite H1; done|]. lia. }
    destruct (index_in schemes i Hlt) as (s & Hs & ->). cbn.
    unfold pick. destruct schemes as [|s0 [|s1 l]] eqn:E; [done| |by rewrite Hs].
    destruct i; [|simpl in Hlt; lia]. simpl in Hs. by injection Hs as <-.
Qed.

Lemma topic_only_org_eq i :
  i < length names → topic_only_org onlyOrgIds i = Ok (default 0%Z (pick onlyOrgIds i)).
Proof.
  intros Hi. unfold topic_only_org, pick. destruct onlyOrgIds as [|o [|o' l]] eqn:E; [done|done|].
  destruct (index_in (o :: o' :: l) i) as (x & Hx & ->); [|by rewrite Hx].
  rewrite Honly; simpl; lia.
Qed.

Lemma topic_discard_eq i :
  i < length names →
  topic_discard discards i = Ok (FieldsByte "|" (default "" (discards !! i))).
Proof.
  intros Hi. unfold topic_discard. destruct discards as [|d l] eqn:E; [done|].
  destruct (index_in (d :: l) i) as (x & Hx & ->); [|by rewrite Hx].
  rewrite Hdisc; simpl; lia.
Qed.

Lemma topic_rewrite_eq i :
  i < length names → topic_rewrite rewrites i = parse_rewrite (default "" (rewrites !! i)).
Proof.
  intros Hi. unfold topic_rewrite. destruct rewrites as [|r l] eqn:E; [done|].
  destruct (index_in (r :: l) i) as (x & Hx & ->); [|by rewrite Hx].
  rewrite Hrew; simpl; lia.
Qed.

Lemma parse_rewrite_no_panic r : parse_rewrite r ≠ Panic.
Proof.
  unfold parse_rewrite. case_bool_decide; [done|].
  destruct (Split ":" r) as [|a [|b [|]]]; try done. cbn.
  unfold or_err. by destruct (ParseUint a 64), (ParseUint b 64).
Qed.

Lemma parse_topic_cases i ts :
  i < length names → length ts = i → (∀ j t, ts !! j = Some t → spec j t) →
  match one i ts with Ok t => spec i t | Err _ => True | Panic => False end.
Proof.
  intros Hi Hl Hts. unfold parse_topic. rewrite topic_partitioner_eq by done.
  rewrite topic_only_org_eq, topic_discard_eq, topic_rewrite_eq by done.
  destruct (PartitonMethodFromString _) as [p|] eqn:Ep; [|done]. cbn.
  pose proof (parse_rewrite_no_panic (default "" (rewrites !! i))) as Hnp.
  destruct (parse_rewrite _) as [[src tgt]|e|] eqn:Er; [|done|done]. cbn.
  unfold topic_spec. cbn. by rewrite Ep, Er.
Qed.

Lemma parse_topics_cases rest ts :
  rest = drop (length ts) names → (∀ j t, ts !! j = Some t → spec j t) → length ts ≤ length names →
  match parse_topics schemes onlyOrgIds discards rewrites rest ts with
  | Ok ts' => length ts' = length names ∧ ∀ j t, ts' !! j = Some t → spec j t
  | Err _ => True
  | Panic => False
  end.
Proof.
  revert ts. induction rest as [|n rest IH]; intros ts Hrest Hts Hle; cbn [parse_topics].
  - split; [|done]. pose proof (f_equal length Hrest) as E. rewrite length_drop in E. simpl in E. lia.
  - assert (Hn : names !! length ts = Some n).
    { rewrite <- (Nat.add_0_r (length ts)), <- lookup_drop, <- Hrest. done. }
    pose proof (lookup_lt_Some _ _ _ Hn) as Hlt.
    pose proof (parse_topic_cases (length ts) ts Hlt eq_refl Hts) as Hone.
    replace (default "" (names !! length ts)) with n in Hone by by rewrite Hn.
    destruct (parse_topic _ _ _ _ _ n ts) as [t|e|]; [|exact I|exact Hone].
    cbn [mbind outcome_bind].
    apply IH.
    + apply (f_equal (drop 1)) in Hrest. rewrite drop_drop in Hrest. cbn [drop] in Hrest.
      rewrite length_app. change (drop 0 rest) with rest in Hrest. rewrite Hrest. done.
    + intros j t' [Ht'|[Hge Ht']]%lookup_app_Some; [by apply Hts|].
      apply list_lookup_singleton_Some in Ht' as [Hj <-].
      replace j with (length ts) by lia. done.
    + rewrite length_app. simpl. lia.
Qed.
End parse.

Lemma parseTopicSettings_cases schemes ts onlys discs rews :
  match parseTopicSettings schemes ts onlys discs rews with
  | Ok l => length l = length (Split "," ts) ∧
            ∀ i t, l !! i = Some t →
              topic_spec (Split "," schemes) onlys (csv_or_empty discs) (csv_or_empty rews)
                (Split "," ts) i t
  | Err _ => True
  | Panic => False
  end.
Proof.
  unfold parseTopicSettings. pose proof (Split_nonempty "," schemes).
  repeat (case_bool_decide; [exact I|]). 
  apply parse_topics_cases; [lia|lia|lia|lia|done| |simpl; lia].
  intros j t Hj. by rewrite lookup_nil in Hj.
Qed.

(** The topic settings are read as the flags describe: one setting per
    topic name, in order; a scheme or org restriction given once is shared by
    all topics; each topic has its own discard prefixes and org rewrite. *)
Theorem parseTopicSettings_spec schemes ts onlys discs rews l :
  parseTopicSettings schemes ts onlys discs rews = Ok l →
  length l = length (Split "," ts) ∧
  ∀ i t, l !! i = Some t →
    topic_spec (Split "," schemes) onlys (csv_or_empty discs) (csv_or_empty rews) (Split "," ts) i t.
Proof. intros H. pose proof (parseTopicSettings_cases schemes ts onlys discs rews) as G. rewrite H in G. exact G. Qed.

Definition two_topics : list topicSettings :=
  [mkTopic "mdm" PartitionByOrg 0 7 ["a"; "b"] 33 45; mkTopic "mdm2" PartitionByOrg 0 7 [] 0 0].

Lemma parseTopicSettings_spec_witness :
  parseTopicSettings "byOrg" "mdm, mdm2" [7%Z] "a||b,|" "33:45," = Ok two_topics ∧
  length two_topics = 2.
Proof.
  assert (H : parseTopicSettings "byOrg" "mdm, mdm2" [7%Z] "a||b,|" "33:45," = Ok two_topics)
    by (vm_compute; reflexivity).
  split; [exact H|]. apply (parseTopicSettings_spec _ _ _ _ _ _ H).
Defined.

(** Reading the topic settings never indexes a list out of range, whatever
    the five flags hold: it ends in settings or in an error. *)
Theorem parseTopicSettings_no_panic schemes ts onlys discs rews :
  parseTopicSettings schemes ts onlys discs rews ≠ Panic.
Proof. intros H. pose proof (parseTopicSettings_cases schemes ts onlys discs rews) as G. rewrite H in G. exact G. Qed.

(** ** What Publish is to send *)

(** The metric as a topic is to see it. *)
Definition as_org (o : Z) (m : MetricData) : MetricData := SetId (with_OrgId o m).

(** The topics that take a metric, each with the metric as it goes there. *)
Definition routed (ts : list topicSettings) (m : MetricData) : list (topicSettings * MetricData) :=
  (λ t, (t, rewrite_org t m)) <$> filter (λ t, topic_takes t m = true) ts.

Definition expected (ts : list topicSettings) (ms : list MetricData) :
    list (topicSettings * MetricData) := ms ≫= routed ts.

(** A metric as [Publish] gets it: its id was set, its value is 64 bits wide. *)
Definition wf_metric (m : MetricData) : Prop := id_set m ∧ is_u 64 (Value m).

Section spec.
Context (MarshalMsg : MetricData → option string).
Context (PartitionID : PartitionByMethod → MetricData → Z → option Z).
Context (auto_interval : string → Z).
Context (cfg : pub_cfg).

(** A buffer holds a metric: all of it, or as a point that a consumer reads back
    (a point without org takes the org the consumer supplies). *)
Definition carries (m : MetricData) (b : MetricDataBuffer) : Prop :=
  match Type_ b with
  | TMetricData => MarshalMsg m = Some (Data b)
  | TMetricPoint =>
      v2 cfg = true ∧ v2Org cfg = true ∧
      ∀ dflt, ReadPointMsg (Data b) dflt = Some (point_of (key_of m) m)
  | TMetricPointNoOrg =>
      v2 cfg = true ∧ v2Org cfg = false ∧
      ReadPointMsg (Data b) (OrgId m) = Some (point_of (key_of m) m)
  end.

Definition message_for (e : topicSettings * MetricData) (msg : ProducerMessage) : Prop :=
  Topic msg = name e.1 ∧
  PartitionID (partitioner e.1) e.2 (numPartitions e.1) = Some (Partition msg) ∧
  carries e.2 (Message msg).

(** The keys of the messages, with the kind of message, in the order sent. *)
Definition entries (exp : list (topicSettings * MetricData)) (payload : list ProducerMessage) :
    list (MKey * MetricDataType) :=
  zip_with (λ e msg, (key_of e.2, Type_ (Message msg))) exp payload.

(** Every point comes after a full message of its key, or its key was known. *)
Definition justified (keys0 : KeyCache) (l : list (MKey * MetricDataType)) : Prop :=
  ∀ i k ty, l !! i = Some (k, ty) → ty ≠ TMetricData →
    seen keys0 k ∨ (k, TMetricData) ∈ take i l.

Lemma justified_snoc keys0 l k ty :
  justified keys0 l → (ty ≠ TMetricData → seen keys0 k ∨ (k, TMetricData) ∈ l) →
  justified keys0 (l ++ [(k, ty)]).
Proof.
  intros Hl Hk i k' ty' [Hi|[Hge Hi]]%lookup_app_Some Hty.
  - rewrite take_app_le by (apply lookup_lt_Some in Hi; lia). by eapply Hl.
  - apply list_lookup_singleton_Some in Hi as [Hi [= <- <-]].
    replace i with (length l) by lia. rewrite take_app_length. auto.
Qed.

Lemma entries_snoc exp payload e msg :
  length exp = length payload →
  entries (exp ++ [e]) (payload ++ [msg]) =
    entries exp payload ++ [(key_of e.2, Type_ (Message msg))].
Proof. intros H. unfold entries. by rewrite zip_with_app. Qed.

(** The messages of a kind for a topic. *)
Definition count_of (ty : MetricDataType) (n : string) (payload : list ProducerMessage) : nat :=
  length (filter (λ msg, Topic msg = n ∧ Type_ (Message msg) = ty) payload).

(** *** The invariant of the loops *)

Record inv (keys0 : KeyCache) (exp : list (topicSettings * MetricData)) (s : pub_state) : Prop := {
  inv_wf : wf (p_keys s);
  inv_msgs : Forall2 message_for exp (p_payload s);
  inv_seen k : wf_key k → seen (p_keys s) k →
    seen keys0 k ∨ (k, TMetricData) ∈ entries exp (p_payload s);
  inv_just : justified keys0 (entries exp (p_payload s));
  inv_marked : v2 cfg = true → Forall (λ e, seen (p_keys s) (key_of e.2)) exp;
  inv_mono k : seen keys0 k → wf_key k → seen (p_keys s) k;
  inv_full k : v2 cfg = true → (k, TMetricData) ∈ entries exp (p_payload s) → ¬ seen keys0 k;
  inv_count ty n : default 0 (p_count s ty !! n) = count_of ty n (p_payload s) }.

(** In the loop over the topics, with [m0] the metric: what the buffers kept per
    org hold. *)
Record topic_inv (keys0 : KeyCache) (exp : list (topicSettings * MetricData)) (m0 : MetricData)
    (s : pub_state) : Prop := {
  ti_inv : inv keys0 exp s;
  ti_metric : p_metric s = m0;
  ti_cache o b : p_cache s !! o = Some b →
    carries (as_org o m0) b ∧
    (v2 cfg = true → seen (p_keys s) (key_of (as_org o m0))) ∧
    (Type_ b ≠ TMetricData →
       seen keys0 (key_of (as_org o m0)) ∨
       (key_of (as_org o m0), TMetricData) ∈ entries exp (p_payload s)) ∧
    (v2 cfg = true → Type_ b = TMetricData → ¬ seen keys0 (key_of (as_org o m0))) }.

Lemma count_of_snoc ty n payload msg :
  count_of ty n (payload ++ [msg]) =
    count_of ty n payload + if decide (Topic msg = n ∧ Type_ (Message msg) = ty) then 1 else 0.
Proof. unfold count_of. rewrite filter_snoc, length_app. by case_decide. Qed.

(** *** One buffer *)

Lemma key_of_wf m : wf_key (key_of m).
Proof. apply wf_key_of. Qed.

Lemma id_set_as_org o m : id_set (as_org o m).
Proof. apply id_set_SetId. Qed.

Lemma sort_tags_id m : id_set m → sort_tags m = m.
Proof. unfold id_set. intros <-. unfold sort_tags, SetId. cbn. by rewrite SortStrings_idemp. Qed.

Lemma partition_effect_id method m : id_set m → partition_effect method m = m.
Proof. intros H. destruct method; [done|done| |]; by apply sort_tags_id. Qed.

Lemma point_wf m : is_u 32 (OrgId m) → is_u 64 (Value m) → wf_point (point_of (key_of m) m).
Proof. intros Ho Hv. split_and!; [apply wf_key_of|done|done|by apply wrap_u_range]. Qed.

Lemma point_carries m :
  v2 cfg = true → is_u 32 (OrgId m) → is_u 64 (Value m) →
  carries m (point_message cfg (point_of (key_of m) m)).
Proof.
  intros Hv2 Ho Hv. pose proof (point_wf m Ho Hv) as Hp. unfold carries, point_message.
  destruct (v2Org cfg); cbn [Type_ Data].
  - split_and!; [done|done|]. intros dflt. by apply ReadPointMsg_33.
  - split_and!; [done|done|]. rewrite ReadPointMsg_29 by done. done.
Qed.

(** What a successful [dataFromMetricData] returns and marks. *)
Lemma dataFromMetricData_ok m s s' b :
  wf (p_keys s) → id_set m → is_u 64 (Value m) →
  dataFromMetricData MarshalMsg cfg m s = (s', Ok b) →
  ∃ k', s' = set_keys k' s ∧ wf k' ∧ carries m b ∧
    (v2 cfg = true → k' = (Touch (key_of m) (p_keys s)).2) ∧
    (v2 cfg = false → k' = p_keys s) ∧
    (Type_ b ≠ TMetricData → seen (p_keys s) (key_of m)) ∧
    (Type_ b = TMetricData → v2 cfg = true → ¬ seen (p_keys s) (key_of m)).
Proof.
  intros Hw Hid Hval. unfold dataFromMetricData, full_message.
  destruct (v2 cfg) eqn:Hv2; intros H; st_inv.
  - unfold key_from_id in *. st_inv. pose proof (MKeyFromString_SetId m) as EK.
    unfold id_set in Hid. rewrite Hid in EK. rewrite EK in *.
    case_decide as Ho; simplify_eq.
    unfold touch_key in *. pose proof (Touch_fst (key_of m) (p_keys s)) as Hfst.
    pose proof (Touch_wf (key_of m) (p_keys s) Hw) as Hw'.
    destruct (Touch (key_of m) (p_keys s)) as [ok k'] eqn:ET. simplify_eq/=.
    exists k'. case_bool_decide as Hs; st_inv; split_and!; try done.
    + by apply point_carries.
    + unfold point_message. by destruct (v2Org cfg).
  - exists (p_keys s). split_and!; try done. by destruct s.
Qed.

(** A buffer for the metric as it goes to a topic, made or found. *)
Lemma buffer_for_ok keys0 exp m0 s s' b o :
  wf_metric m0 → topic_inv keys0 exp m0 (set_metric m0 s) → p_metric s = as_org o m0 →
  buffer_for MarshalMsg cfg (as_org o m0) s = (s', Ok b) →
  p_metric s' = as_org o m0 ∧ p_payload s' = p_payload s ∧ p_count s' = p_count s ∧
  wf (p_keys s') ∧
  carries (as_org o m0) b ∧
  (∀ k, seen (p_keys s) k → wf_key k → seen (p_keys s') k) ∧
  (v2 cfg = true → seen (p_keys s') (key_of (as_org o m0))) ∧
  (Type_ b ≠ TMetricData →
     seen keys0 (key_of (as_org o m0)) ∨
     (key_of (as_org o m0), TMetricData) ∈ entries exp (p_payload s)) ∧
  (∀ k, wf_key k → seen (p_keys s') k → seen (p_keys s) k ∨
     k = key_of (as_org o m0) ∧ Type_ b = TMetricData) ∧
  (∀ o' b', p_cache s' !! o' = Some b' →
     p_cache s !! o' = Some b' ∨ o' = o ∧ b' = b) ∧
  (v2 cfg = true → Type_ b = TMetricData → ¬ seen keys0 (key_of (as_org o m0))).
Proof.
  intros [Hid Hval] [Hinv Hm Hc] Hs. unfold buffer_for. intros H. st_inv.
  change (OrgId (as_org o m0)) with o in *. cbn [p_metric p_keys p_cache p_payload p_count set_metric] in *.
  destruct Hinv as [Hw Hmsgs Hseen Hjust Hmark Hmon Hfl Hcnt].
  cbn [p_metric p_keys p_cache p_payload p_count set_metric] in *.
  destruct (p_cache s !! o) as [b0|] eqn:Eo; st_inv.
  - destruct (Hc _ _ Eo) as (H1 & H2 & H3 & H4). split_and!; auto.
  - match goal with H : dataFromMetricData _ _ _ _ = _ |- _ =>
      apply dataFromMetricData_ok in H as (k' & -> & Hw' & Hca & Hv & Hnv & Hpt & Hfull) end;
      [|done|apply id_set_as_org|done].
    cbn [p_metric p_keys p_cache p_payload p_count set_metric set_keys set_cache].
    pose proof (key_of_wf (as_org o m0)) as Hk.
    assert (Hsn : ∀ k, wf_key k → seen k' k ↔
              seen (p_keys s) k ∨ v2 cfg = true ∧ k = key_of (as_org o m0)).
    { intros k Hkk. destruct (v2 cfg) eqn:Ev.
      - rewrite Hv by done. rewrite seen_Touch by done. split; [intros [?|?]|intros [?|[_ ?]]]; auto.
      - rewrite Hnv by done. split; [by left|by intros [?|[? _]]]. }
    split_and!; try done.
    + intros k ??. apply Hsn; auto.
    + intros ?. apply Hsn; auto.
    + intros Ht. apply Hseen; auto.
    + intros k Hkk Hsk. apply Hsn in Hsk as [?|[Ev ->]]; [by left| |done].
      destruct (decide (Type_ b = TMetricData)) as [Et|Et]; [by right|left; auto].
    + intros o' b' [[<- <-]|[_ ?]]%lookup_insert_Some; auto.
    + intros Hv2 Ht Hs0. by apply (Hfull Ht Hv2), Hmon.
Qed.

Lemma as_org_self m : id_set m → as_org (OrgId m) m = m.
Proof. unfold as_org. intros H. by replace (with_OrgId (OrgId m) m) with m by by destruct m. Qed.

Lemma rewrite_as_org t m : id_set m → rewrite_org t m = as_org (OrgId (rewrite_org t m)) m.
Proof. intros H. unfold rewrite_org. case_bool_decide; [done|by rewrite as_org_self]. Qed.

Lemma restore_as_org o m : id_set m → restore_org (OrgId m) (as_org o m) = m.
Proof.
  intros H. unfold restore_org. case_bool_decide as E; [|by apply SetId_restore].
  change (OrgId (as_org o m)) with o in E. subst o. by apply as_org_self.
Qed.

Lemma routed_one t m :
  routed [t] m = if topic_takes t m then [(t, rewrite_org t m)] else [].
Proof. unfold routed. rewrite filter_cons. by destruct (topic_takes t m). Qed.

Lemma routed_snoc ts t m : routed (ts ++ [t]) m = routed ts m ++ routed [t] m.
Proof. unfold routed. by rewrite filter_app, fmap_app. Qed.

Lemma publish_topic_ok keys0 exp m0 t s s' :
  wf_metric m0 → topic_inv keys0 exp m0 s →
  publish_topic MarshalMsg PartitionID cfg t s = (s', Ok tt) →
  topic_inv keys0 (exp ++ routed [t] m0) m0 s'.
Proof.
  intros Hm0 Hti. unfold publish_topic. intros H. st_inv.
  rewrite (ti_metric _ _ _ _ Hti) in *. rewrite routed_one.
  destruct (topic_takes t m0); cbn [negb] in *; st_inv; [|by rewrite app_nil_r].
  pose proof (proj1 Hm0) as Hid. cbn [p_metric set_metric] in *.
  rewrite (rewrite_as_org t m0 Hid) in *. set (o := OrgId (rewrite_org t m0)) in *. clearbody o.
  match goal with H : buffer_for _ _ _ _ = (?s3, Ok ?b3) |- _ =>
    apply (buffer_for_ok keys0 exp m0) in H; [rename H into HB, b3 into b|done| |done] end.
  2:{ destruct Hti as [[] ? ?]. split; [split|..]; done. }
  cbn [p_metric p_keys p_cache p_payload p_count set_metric] in *.
  destruct HB as (Hm3 & Hp3 & Hc3 & Hw3 & Hcar & Hmono & Hmk & Hpt & Hnew & Hcache & Hnf).
  rewrite partition_effect_id, restore_as_org in * by (done || apply id_set_as_org).
  destruct Hti as [[Hw Hmsgs Hseen Hjust Hmark Hmon Hfl Hcnt] _ Hc].
  assert (Hlen : length exp = length (p_payload s)) by by eapply Forall2_length.
  assert (Hent : ∀ msg, entries (exp ++ [(t, as_org o m0)]) (p_payload s ++ [msg]) =
            entries exp (p_payload s) ++ [(key_of (as_org o m0), Type_ (Message msg))])
    by (intros; by apply entries_snoc).
  split; [split|..]; cbn [p_metric p_keys p_cache p_payload p_count set_metric add_message];
    rewrite ?Hp3, ?Hent, ?Hc3.
  - done.
  - apply Forall2_app; [done|]. by repeat constructor.
  - intros k Hk Hsk. rewrite elem_of_app, list_elem_of_singleton. cbn [Message].
    destruct (Hnew k Hk Hsk) as [Hs|[-> Ht]]; [|rewrite Ht; auto].
    destruct (Hseen k Hk Hs); auto.
  - apply justified_snoc; done.
  - intros Hv. apply Forall_app. split; [|by repeat constructor; apply Hmk].
    eapply Forall_impl; [exact (Hmark Hv)|]. intros e He. by apply Hmono, key_of_wf.
  - intros k Hk0 Hk. apply Hmono; auto.
  - intros k Hv. rewrite elem_of_app, list_elem_of_singleton. cbn [Message].
    intros [?|[= -> Ht]]; [by apply Hfl|]. by apply Hnf.
  - intros ty n. cbn [Message Topic]. rewrite count_of_snoc. cbn [Message Topic].
    case_bool_decide as Et; [|rewrite Hcnt, decide_False; [lia|naive_solver]].
    unfold bump. destruct (decide (name t = n)) as [<-|Hne].
    + rewrite lookup_insert_eq, decide_True by done. cbn [default from_option].
      pose proof (Hcnt ty (name t)). unfold default in *. simpl in *. lia.
    + rewrite lookup_insert_ne by done. rewrite Hcnt, decide_False; [lia|naive_solver].
  - done.
  - intros o' b' [Hin|[-> ->]]%Hcache; [|split_and!; [done|done| |done]].
    + destruct (Hc _ _ Hin) as (? & Hs & Hf & ?).
      split_and!; [done|intros; apply Hmono; auto using key_of_wf| |done].
      intros Ht. rewrite elem_of_app. destruct (Hf Ht); auto.
    + intros Ht. rewrite elem_of_app. destruct (Hpt Ht); auto.
Qed.

(** *** The loops *)

Definition deduced (m : mtPublisher) (metric : MetricData) : MetricData :=
  if bool_decide (Interval metric = 0%Z)
  then SetId (with_Interval (auto_interval (Name metric)) metric) else metric.

(** An input: a metric without interval gets its id from [Publish]. *)
Definition wf_input (m : MetricData) : Prop :=
  is_u 64 (Value m) ∧ (Interval m ≠ 0%Z → id_set m).

Lemma deduced_wf m metric : wf_input metric → wf_metric (deduced m metric).
Proof.
  intros [Hv Hid]. unfold deduced. case_bool_decide; split; auto using id_set_SetId.
Qed.

Lemma publish_metric_ok keys0 exp m metric s s' :
  wf_input metric → inv keys0 exp s →
  publish_metric MarshalMsg PartitionID auto_interval cfg m (set_metric metric s) = (s', Ok tt) →
  inv keys0 (exp ++ routed (topics m) (deduced m metric)) s' ∧ p_metric s' = deduced m metric.
Proof.
  intros Hin Hinv. unfold publish_metric. intros H. st_inv.
  assert (Hd : x = set_metric (deduced m metric) s).
  { unfold deduce_interval, deduced in *. st_inv. cbn [p_metric set_metric] in *.
    case_bool_decide; [destruct (autoInterval m)|]; st_inv; done. }
  subst x.
  match goal with H : deduce_interval _ _ _ = _ |- _ => clear H end.
  match goal with H : for_each _ _ _ = _ |- _ =>
    eapply (for_each_ok_ind (λ done_ s,
      topic_inv keys0 (exp ++ routed done_ (deduced m metric)) (deduced m metric) s)) in H end.
  - match goal with H : topic_inv _ _ _ _ |- _ => destruct H; auto end.
  - rewrite app_nil_r. destruct Hinv. split; [split|..]; done.
  - intros done_ t s1 s2 Hs1 _ Hrun. rewrite routed_snoc, app_assoc.
    eapply publish_topic_ok; [by apply deduced_wf|done|done].
Qed.

Lemma publish_metrics_ok keys0 exp m metrics s s' ms' :
  Forall wf_input metrics → inv keys0 exp s →
  publish_metrics MarshalMsg PartitionID auto_interval cfg m metrics s = (s', ms', Ok tt) →
  inv keys0 (exp ++ expected (topics m) (deduced m <$> metrics)) s' ∧ ms' = deduced m <$> metrics.
Proof.
  revert exp s ms'. induction metrics as [|metric rest IH]; intros exp s ms' Hin Hinv Hrun;
    cbn [publish_metrics] in Hrun.
  - injection Hrun as <- <-. by rewrite app_nil_r.
  - apply Forall_cons in Hin as [H1 H2].
    destruct (publish_metric _ _ _ _ _ _) as [s1 [[]| |]] eqn:E1; [|done|done].
    apply publish_metric_ok with (keys0 := keys0) (exp := exp) in E1 as [Hinv1 Hm1]; [|done|done].
    destruct (publish_metrics _ _ _ _ _ rest s1) as [[s2 rest'] r] eqn:E2.
    injection Hrun as <- <- ->. apply (IH _ _ _ H2 Hinv1) in E2 as [Hinv2 ->].
    rewrite Hm1. split; [|done]. unfold expected in *. cbn [fmap list_fmap mbind list_bind].
    by rewrite app_assoc.
Qed.

Lemma pub_inv_init keys metric : wf keys → inv keys [] (init_state metric keys).
Proof.
  intros Hw. split; cbn [p_keys p_payload p_count init_state entries zip_with]; try done.
  - by left.
  - intros k _ Hk. by apply elem_of_nil in Hk.
Qed.

(** Whatever the broker answers, a payload that is handed over is the one the
    settings ask for. *)
Lemma Publish_sent send m metrics keys payload :
  wf keys → Forall wf_input metrics →
  r_sent (Publish MarshalMsg PartitionID auto_interval cfg send m metrics keys) = Some payload →
  let r := Publish MarshalMsg PartitionID auto_interval cfg send m metrics keys in
  ∃ s, inv keys (expected (topics m) (deduced m <$> metrics)) s ∧ p_payload s = payload ∧
    r_metrics r = deduced m <$> metrics ∧ r_keys r = p_keys s ∧
    (r_out r = if send payload then Ok tt else Err SendFailed) ∧
    (send payload = true → ∀ ty, r_published r ty = published (topics m) (p_count s ty)).
Proof.
  intros Hw Hin. unfold Publish. cbv zeta.
  destruct (negb (has_producer cfg)); [done|]. case_bool_decide; [done|]. case_bool_decide; [done|].
  destruct (publish_metrics _ _ _ _ _ _ _) as [[s ms'] r] eqn:E.
  destruct r as [[]|e|]; [|done|done].
  apply (publish_metrics_ok keys []) in E as [Hinv ->]; [|done|by apply pub_inv_init].
  destruct (send (p_payload s)) eqn:Es; cbn; intros [= <-]; exists s; rewrite Es; split_and!; done.
Qed.

(** *** Neither the loops nor the encoding panic *)

Lemma no_panic_data metric : no_panic (dataFromMetricData MarshalMsg cfg metric).
Proof.
  unfold dataFromMetricData, full_message.
  destruct (v2 cfg); [|by auto 6 with gw].
  apply no_panic_bind; [|intros mkey].
  - intros s. unfold key_from_id, MKeyFromString. simpl.
    case_bool_decide; [done|]. destruct (hex_decode _); [|done]. by destruct (ParseUint _ _).
  - apply no_panic_bind; [|intros []; by auto 6 with gw].
    intros s. unfold touch_key. by destruct (Touch mkey (p_keys s)).
Qed.

Lemma no_panic_topic t : no_panic (publish_topic MarshalMsg PartitionID cfg t).
Proof.
  unfold publish_topic. apply no_panic_bind; [auto with gw|intros metric].
  destruct (negb _); [auto with gw|].
  assert (∀ m, no_panic (buffer_for MarshalMsg cfg m)) as Hb.
  { intros m. unfold buffer_for. apply no_panic_bind; [auto with gw|intros c].
    destruct (c !! OrgId m); [auto with gw|].
    apply no_panic_bind; [apply no_panic_data|auto with gw]. }
  repeat (apply no_panic_bind; [by auto with gw|intros ?]). auto with gw.
Qed.

Lemma no_panic_metric m : no_panic (publish_metric MarshalMsg PartitionID auto_interval cfg m).
Proof.
  unfold publish_metric. apply no_panic_bind; [|intros _; apply no_panic_bind; [auto with gw|]].
  - unfold deduce_interval. apply no_panic_bind; [auto with gw|intros x].
    case_bool_decide; [destruct (autoInterval m)|]; auto with gw.
  - intros _. apply no_panic_for_each, no_panic_topic.
Qed.

Lemma no_panic_metrics m metrics s :
  (publish_metrics MarshalMsg PartitionID auto_interval cfg m metrics s).2 ≠ Panic.
Proof.
  revert s. induction metrics as [|x l IH]; intros s; cbn [publish_metrics]; [done|].
  pose proof (no_panic_metric m (set_metric x s)) as Hp.
  destruct (publish_metric _ _ _ _ _ _) as [s' [[]|e|]]; [|done|done].
  specialize (IH s'). by destruct (publish_metrics _ _ _ _ _ l s') as [[s2 l2] r].
Qed.

Lemma Publish_no_panic send m metrics keys :
  r_out (Publish MarshalMsg PartitionID auto_interval cfg send m metrics keys) ≠ Panic.
Proof.
  unfold Publish. cbv zeta. destruct (negb _); [done|]. case_bool_decide; [done|].
  case_bool_decide; [done|].
  pose proof (no_panic_metrics m metrics (init_state zero_metric keys)) as Hp.
  destruct (publish_metrics _ _ _ _ _ _ _) as [[s ms] [[]|e|]]; [|done|done].
  by destruct (send (p_payload s)).
Qed.
End spec.

(** ** Counting *)

(** The messages of a kind. *)
Definition count_type (ty : MetricDataType) (payload : list ProducerMessage) : nat :=
  length (filter (λ msg, Type_ (Message msg) = ty) payload).

Definition indicator (b : bool) : nat := if b then 1 else 0.

Lemma sum_indicator (x : string) l :
  NoDup l → sum_list ((λ n, indicator (bool_decide (x = n))) <$> l) = indicator (bool_decide (x ∈ l)).
Proof.
  induction 1 as [|n l Hn _ IH]; [done|]. cbn [fmap list_fmap sum_list]. rewrite IH.
  destruct (decide (x = n)) as [->|Hne].
  - rewrite (bool_decide_eq_true_2 (n = n)), (bool_decide_eq_false_2 (n ∈ l)) by done.
    rewrite bool_decide_eq_true_2 by set_solver. done.
  - rewrite (bool_decide_eq_false_2 (x = n)) by done. cbn [indicator].
    rewrite (bool_decide_ext (x ∈ n :: l) (x ∈ l)) by set_solver. done.
Qed.

Lemma sum_list_fmap_add {A} (f g : A → nat) l :
  sum_list ((λ x, f x + g x) <$> l) = sum_list (f <$> l) + sum_list (g <$> l).
Proof. induction l as [|x l IH]; [done|]. rewrite !fmap_cons. cbn [sum_list_with]. rewrite IH. unfold id. lia. Qed.

Lemma sum_list_fmap_0 {A} (l : list A) : sum_list ((λ _, 0) <$> l) = 0.
Proof. by induction l. Qed.

Lemma count_of_topics ty ns payload :
  NoDup ns → Forall (λ msg, Topic msg ∈ ns) payload →
  sum_list ((λ n, count_of ty n payload) <$> ns) = count_type ty payload.
Proof.
  intros Hnd. induction payload as [|msg payload IH] using rev_ind; intros Hall.
  - apply sum_list_fmap_0.
  - apply Forall_app in Hall as [Hall [Hm _]%Forall_cons].
    unfold count_type. rewrite filter_snoc, length_app. fold (count_type ty payload).
    rewrite <- IH by done.
    transitivity (sum_list ((λ n, count_of ty n payload +
        (if decide (Type_ (Message msg) = ty) then indicator (bool_decide (Topic msg = n)) else 0)) <$> ns)).
    { f_equal. apply list_fmap_ext. intros _ n _. rewrite count_of_snoc. f_equal.
      unfold indicator. repeat case_decide; try case_bool_decide; naive_solver. }
    rewrite sum_list_fmap_add. f_equal. case_decide.
    + rewrite sum_indicator by done. by rewrite bool_decide_eq_true_2.
    + apply sum_list_fmap_0.
Qed.

Lemma expected_topics ts ms e : e ∈ expected ts ms → e.1 ∈ ts.
Proof.
  unfold expected, routed. intros (m & Hin & _)%list_elem_of_bind.
  apply list_elem_of_fmap in Hin as (t & -> & Ht). by apply list_elem_of_filter in Ht as [_ ?].
Qed.

(** ** Properties of Publish *)

(** C4. Routing. For metrics whose values are 64 bits wide and whose id, where they
    come with an interval, is the one computed of their content (an admin's
    /metrics may hold others), every payload [Publish] hands to the broker is,
    message by message, what the settings ask for: for each metric in order and
    each topic that takes it (its prefixes do not discard it, its org restriction
    admits it), one message of that topic, in the partition its scheme gives,
    carrying the metric under the rewritten org, in full or as a point that
    decodes to it. The metrics are left under their own org and id, those without
    an interval with the one of the schemas and its id, and the call succeeds
    exactly when the broker accepts the payload. *)
Theorem Publish_routes MarshalMsg PartitionID auto_interval cfg send m metrics keys payload :
  wf keys → Forall wf_input metrics →
  let r := Publish MarshalMsg PartitionID auto_interval cfg send m metrics keys in
  r_sent r = Some payload →
  Forall2 (message_for MarshalMsg PartitionID cfg)
    (expected (topics m) (deduced auto_interval m <$> metrics)) payload ∧
  r_metrics r = deduced auto_interval m <$> metrics ∧
  r_out r = (if send payload then Ok tt else Err SendFailed).
Proof.
  intros Hw Hin r Hs. destruct (Publish_sent _ _ _ _ _ _ _ _ _ Hw Hin Hs)
    as (s & [] & <- & ? & ? & ? & _). done.
Qed.

(** A small setting to apply the theorems at: a metric of org 33, rewritten to
    45 for the second topic, with a third topic that discards it. *)
Definition ex_marshal (m : MetricData) : option string := Some (Id m).
Definition ex_partition (p : PartitionByMethod) (m : MetricData) (n : Z) : option Z :=
  Some (OrgId m mod n)%Z.
Definition ex_auto (n : string) : Z := 10.
Definition ex_cfg : pub_cfg := mkPubCfg true true true.
Definition ex_publisher : mtPublisher := mkPublisher true
  [mkTopic "t1" PartitionByOrg 8 33 [] 0 0; mkTopic "t2" PartitionBySeries 4 0 [] 33 45;
   mkTopic "t3" PartitionBySeries 4 0 ["some."] 0 0].
Definition ex_metric (interval : Z) (n : string) : MetricData :=
  SetId (mkMetricData "" 33 n interval 4607182418800017408 "" 1500000000 "gauge" ["b=c"; "a=b"]).
Definition ex_metrics : list MetricData := [ex_metric 0 "other.id"; ex_metric 10 "some.id"].

Lemma ex_metrics_wf : Forall wf_input ex_metrics.
Proof. repeat constructor; try (by vm_compute); intros _; apply id_set_SetId. Qed.

Abbreviation ex_run send := (Publish ex_marshal ex_partition ex_auto ex_cfg send ex_publisher
  ex_metrics (NewKeyCache 0)).

Definition ex_payload : list ProducerMessage := default [] (r_sent (ex_run (λ _, true))).

Lemma Publish_routes_witness :
  length ex_payload = 5 ∧
  Forall2 (message_for ex_marshal ex_partition ex_cfg)
    (expected (topics ex_publisher) (deduced ex_auto ex_publisher <$> ex_metrics)) ex_payload.
Proof.
  split; [vm_compute; reflexivity|].
  apply (Publish_routes ex_marshal ex_partition ex_auto ex_cfg (λ _, true) ex_publisher ex_metrics
           (NewKeyCache 0) ex_payload (NewKeyCache_wf 0) ex_metrics_wf).
  vm_compute. reflexivity.
Defined.

(** With v2, a key is never published as a point before it was published in
    full: every point in a payload follows a full message of its key in the same
    payload, unless the key cache already held the key; and a key the cache held
    is only published as points. *)
Theorem Publish_points_follow_full MarshalMsg PartitionID auto_interval cfg send m metrics keys payload :
  wf keys → Forall wf_input metrics →
  r_sent (Publish MarshalMsg PartitionID auto_interval cfg send m metrics keys) = Some payload →
  let l := entries (expected (topics m) (deduced auto_interval m <$> metrics)) payload in
  justified keys l ∧
  (v2 cfg = true → ∀ k, (k, TMetricData) ∈ l → ¬ seen keys k).
Proof.
  intros Hw Hin Hs. destruct (Publish_sent _ _ _ _ _ _ _ _ _ Hw Hin Hs)
    as (s & [] & <- & _). split; [done|]. intros Hv k. by apply inv_full0.
Qed.

Lemma Publish_points_follow_full_witness :
  (entries (expected (topics ex_publisher) (deduced ex_auto ex_publisher <$> ex_metrics)) ex_payload).*2
    = replicate 5 TMetricData ∧
  justified (NewKeyCache 0)
    (entries (expected (topics ex_publisher) (deduced ex_auto ex_publisher <$> ex_metrics)) ex_payload).
Proof.
  split; [vm_compute; reflexivity|].
  apply (Publish_points_follow_full ex_marshal ex_partition ex_auto ex_cfg (λ _, true) ex_publisher
           ex_metrics (NewKeyCache 0) ex_payload (NewKeyCache_wf 0) ex_metrics_wf).
  vm_compute. reflexivity.
Defined.

(** Accounting. When the broker accepts the payload and the topics have
    different names, the three counters grow by the number of messages of their
    kind. *)
Theorem Publish_counts_messages MarshalMsg PartitionID auto_interval cfg send m metrics keys payload :
  wf keys → Forall wf_input metrics → NoDup (name <$> topics m) →
  let r := Publish MarshalMsg PartitionID auto_interval cfg send m metrics keys in
  r_sent r = Some payload → r_out r = Ok tt →
  ∀ ty, r_published r ty = count_type ty payload.
Proof.
  intros Hw Hin Hnd r Hs Hok ty. destruct (Publish_sent _ _ _ _ _ _ _ _ _ Hw Hin Hs)
    as (s & [] & <- & _ & _ & Hr & Hpub). fold r in Hr, Hpub. rewrite Hok in Hr.
  destruct (send (p_payload s)); [|done]. rewrite Hpub by done. unfold published.
  rewrite <- (count_of_topics ty (name <$> topics m)); [|done|].
  - rewrite <- list_fmap_compose. apply (f_equal sum_list), list_fmap_ext.
    intros i t _. exact (inv_count0 ty (name t)).
  - apply Forall_forall. intros msg [i Hi]%list_elem_of_lookup.
    destruct (Forall2_lookup_r _ _ _ _ _ inv_msgs0 Hi) as (e & He & Ht & _). rewrite Ht.
    apply list_elem_of_fmap_2. eapply expected_topics. by eapply list_elem_of_lookup_2.
Qed.

Lemma Publish_counts_messages_witness :
  r_published (ex_run (λ _, true)) TMetricData = count_type TMetricData ex_payload.
Proof.
  apply (Publish_counts_messages ex_marshal ex_partition ex_auto ex_cfg (λ _, true) ex_publisher
           ex_metrics (NewKeyCache 0) ex_payload (NewKeyCache_wf 0) ex_metrics_wf).
  - apply (bool_decide_unpack _). vm_compute. exact I.
  - vm_compute. reflexivity.
  - vm_compute. reflexivity.
Defined.

(** C38. A key is marked as published before the payload is sent and is not unmarked
    when sending fails. With v2, and metrics whose values are 64 bits wide and
    whose id, where they come with an interval, is the one computed of their
    content: when the broker refuses the payload of a batch, the call returns an
    error, and the client's retry of the batch sends a message for each message
    that was refused, but no full one, although none has reached the broker. *)
Theorem retry_after_failed_send_has_no_full_message
    MarshalMsg PartitionID auto_interval cfg send1 send2 m metrics keys payload payload2 :
  wf keys → Forall wf_input metrics → v2 cfg = true →
  let r := Publish MarshalMsg PartitionID auto_interval cfg send1 m metrics keys in
  r_sent r = Some payload → send1 payload = false →
  r_sent (Publish MarshalMsg PartitionID auto_interval cfg send2 m metrics (r_keys r)) = Some payload2 →
  r_out r = Err SendFailed ∧ length payload2 = length payload ∧
  Forall (λ msg, Type_ (Message msg) ≠ TMetricData) payload2.
Proof.
  intros Hw Hin Hv2 r Hs Hf Hs2.
  destruct (Publish_sent _ _ _ _ _ _ _ _ _ Hw Hin Hs) as (s & Hinv & <- & _ & Hk & Ho & _).
  fold r in Hk, Ho. rewrite Hf in Ho. split; [done|]. destruct Hinv. rewrite Hk in Hs2.
  destruct (Publish_sent _ _ _ _ _ _ _ _ _ inv_wf0 Hin Hs2) as (s2 & Hinv2 & <- & _).
  split; [by rewrite <- (Forall2_length _ _ _ inv_msgs0), (Forall2_length _ _ _ (inv_msgs _ _ _ _ _ _ Hinv2))|].
  specialize (inv_marked0 Hv2). clear - Hinv2 inv_marked0 Hv2. destruct Hinv2.
  apply Forall_lookup. intros i msg Hi Ht.
  destruct (Forall2_lookup_r _ _ _ _ _ inv_msgs0 Hi) as (e & He & _).
  apply (inv_full0 (key_of e.2) Hv2).
  - rewrite <- Ht. apply list_elem_of_lookup. exists i. unfold entries.
    rewrite lookup_zip_with, He. simpl. by rewrite Hi.
  - rewrite Forall_lookup in inv_marked0. by eapply inv_marked0.
Qed.

Lemma retry_after_failed_send_has_no_full_message_witness :
  r_out (ex_run (λ _, false)) = Err SendFailed ∧
  length (default [] (r_sent (Publish ex_marshal ex_partition ex_auto ex_cfg (λ _, true) ex_publisher
    ex_metrics (r_keys (ex_run (λ _, false)))))) = length ex_payload ∧
  Forall (λ msg, Type_ (Message msg) ≠ TMetricData)
    (default [] (r_sent (Publish ex_marshal ex_partition ex_auto ex_cfg (λ _, true) ex_publisher
      ex_metrics (r_keys (ex_run (λ _, false)))))).
Proof.
  eapply (retry_after_failed_send_has_no_full_message ex_marshal ex_partition ex_auto ex_cfg
    (λ _, false) (λ _, true) ex_publisher ex_metrics (NewKeyCache 0) ex_payload _
    (NewKeyCache_wf 0) ex_metrics_wf eq_refl).
  - vm_compute. reflexivity.
  - reflexivity.
  - vm_compute. reflexivity.
Defined.

(** The key cache does not tell the topics apart. With an org rewrite a
    metric of org 33 first goes to topic t1 as org 45; the same metric of org 45,
    which goes to t2, is then sent there as a point, and t2 never gets the full
    message. *)
Theorem rewritten_topic_hides_full_message :
  let p := mkPublisher true [mkTopic "t1" PartitionByOrg 8 33 [] 33 45;
                             mkTopic "t2" PartitionByOrg 8 45 [] 0 0] in
  let m := ex_metric 10 "some.id" in
  let r := Publish ex_marshal ex_partition ex_auto ex_cfg (λ _, true) p
             [m; SetId (with_OrgId 45 m)] (NewKeyCache 0) in
  ((λ msg, (Topic msg, Type_ (Message msg))) <$> default [] (r_sent r)) =
    [("t1", TMetricData); ("t2", TMetricPoint)].
Proof. vm_compute. reflexivity. Qed.
