(* ===== verification/PartitionSpec.v ===== *)
(** * What the partition of a metric promises

    The partition each method assigns to a metric: a partition of its topic, by
    the method's formula, the same one for every point of a series;
    [bySeriesWithTagsFnv] agrees with [bySeries] on metrics
    without tags; [bySeriesWithTags] moves no series between old partitions when
    a topic grows; the digest that is written in pieces is the hash of the whole
    string. Then the publisher of Kafka.v, with this function as its partitioner. *)

From S2P Require Import Prelude GoStrings Strconv Schema KeyCache Kafka Partition KafkaSpec.

#[local] Open Scope Z_scope.

(** ** Lemmas *)

(** What [writeSortedTagString] writes, as one string. *)
Definition tag_string (name : string) (tags : list string) : string :=
  foldr String.append "" (tag_pieces name tags).

Lemma tag_pieces_perm name t1 t2 : t1 ≡ₚ t2 → tag_pieces name t1 = tag_pieces name t2.
Proof. intros H. unfold tag_pieces. by rewrite (SortStrings_eq _ _ H). Qed.

Lemma tag_pieces_untagged name tags : Forall (λ t, is_name_tag t = true) tags → tag_pieces name tags = [name].
Proof.
  intros H. unfold tag_pieces. rewrite <- (SortStrings_perm tags) in H.
  induction H as [|t l Ht _ IH]; [done|]. cbn [List.filter]. by rewrite Ht.
Qed.

Lemma Sum64_pieces ps :
  Z.of_nat (strlen (foldr String.append "" ps)) < 2 ^ 64 →
  Sum64 (foldl (λ d p, Write p d) New ps) = Sum64_whole (foldr String.append "" ps).
Proof. intros H. rewrite New_digest, Write_pieces. by apply Sum64_digest. Qed.

Lemma Hash_next key n x y :
  n < 2 ^ 31 → Hash key n = Some x → Hash key (n + 1) = Some y → y = x ∨ y = n.
Proof. intros Hn Hx Hy. unfold Hash in *. by eapply jump_loop_more; [done| |done..]. Qed.

(** The buckets a key jumps to, and the key on the way: [next_bucket] is later
    than the bucket it starts from ([next_bucket_range]). *)
Definition jumps (key : Z) (k : nat) : Z * Z :=
  Nat.iter k (λ x, (next_key x.1, next_bucket x.2 (next_key x.1))) (key, 0).
Definition bucket (key : Z) (k : nat) : Z := (jumps key k).2.

Lemma jump_loop_bucket fuel key k b n x :
  bucket key k < n →
  jump_loop fuel (jumps key k).1 b (bucket key k) n = Some x →
  ∃ k', x = bucket key k' ∧ bucket key k' < n ≤ bucket key (S k').
Proof.
  revert k b. induction fuel as [|fuel IH]; intros k b Hlt; cbn [jump_loop];
    rewrite bool_decide_eq_true_2 by done; [done|].
  change (next_key (jumps key k).1) with (jumps key (S k)).1.
  change (next_bucket (bucket key k) (jumps key (S k)).1) with (bucket key (S k)).
  destruct (decide (bucket key (S k) < n)) as [H|H]; [by apply IH|].
  destruct fuel; cbn [jump_loop]; rewrite bool_decide_eq_false_2 by done; intros [= <-]; exists k; (split; [done|lia]).
Qed.

Lemma Hash_bucket key n x :
  0 < n → Hash key n = Some x → ∃ k, x = bucket key k ∧ bucket key k < n ≤ bucket key (S k).
Proof. intros Hn. by apply (jump_loop_bucket _ key 0). Qed.

(** The partition a method assigns. *)
Definition int32_mod (h n : Z) : Z := Z.abs (Z.rem (wrap_s 32 h) n).
Definition assigned (method : PartitionByMethod) (m : MetricData) (n p : Z) : Prop :=
  match method with
  | PartitionByOrg => p = int32_mod (fnv_Write offset32 (le_put 4 (wrap_u 32 (OrgId m)))) n
  | PartitionBySeries => p = int32_mod (fnv_WriteString offset32 (Name m)) n
  | PartitionBySeriesWithTagsFnv =>
      p = int32_mod (foldl fnv_WriteString offset32 (tag_pieces (Name m) (Tags m))) n
  | PartitionBySeriesWithTags =>
      let h := Sum64_whole (tag_string (Name m) (Tags m)) in
      ∃ k, p = bucket h k ∧ bucket h k < n ≤ bucket h (S k)
  end.

Lemma fnv_partition_mod h n p : fnv_partition h n = Ok p → p = int32_mod h n.
Proof.
  unfold fnv_partition, int32_mod. case_bool_decide; [done|]. intros [= <-]. case_bool_decide; lia.
Qed.

Lemma PartitionID_assigned method m n p :
  Z.of_nat (strlen (tag_string (Name m) (Tags m))) < 2 ^ 64 →
  0 < n → PartitionID method m n = Ok p → assigned method m n p.
Proof.
  intros Hl Hn. destruct method; cbn [PartitionID assigned]; try apply fnv_partition_mod.
  intros H. apply Hash_bucket; [done|]. rewrite Sum64_pieces in H by done.
  unfold tag_string. by destruct (Hash _ n) as [x|]; [injection H as <-|].
Qed.

Lemma PartitionID_total method m n :
  0 < n ≤ 2 ^ 31 → ∃ p, PartitionID method m n = Ok p ∧ 0 ≤ p < n.
Proof.
  intros Hn. destruct method; cbn [PartitionID]; try by apply fnv_partition_range.
  by destruct (Hash_range (Sum64 (foldl (λ d p, Write p d) New (tag_pieces (Name m) (Tags m)))) n Hn)
    as (p & -> & Hp); exists p.
Qed.

(** When a topic partitioned [bySeriesWithTags] grows by a partition, a
    series stays where it was or moves to the new partition. *)
Lemma PartitionID_grows m n :
  0 < n < 2 ^ 31 →
  ∃ p q, PartitionID PartitionBySeriesWithTags m n = Ok p ∧
    PartitionID PartitionBySeriesWithTags m (n + 1) = Ok q ∧ (q = p ∨ q = n).
Proof.
  intros Hn. destruct (PartitionID_total PartitionBySeriesWithTags m n) as (p & Hp & _); [lia|].
  destruct (PartitionID_total PartitionBySeriesWithTags m (n + 1)) as (q & Hq & _); [lia|].
  exists p, q. split_and!; [done..|]. cbn [PartitionID] in Hp, Hq.
  destruct (Hash _ n) as [x|] eqn:Ex in Hp; [|done]. destruct (Hash _ (n + 1)) as [y|] eqn:Ey in Hq; [|done].
  cbn in Hp, Hq. injection Hp as <-. injection Hq as <-. eapply Hash_next; [|done..]. lia.
Qed.

(** Two points of one series. *)
Definition same_series (m1 m2 : MetricData) : Prop :=
  OrgId m1 = OrgId m2 ∧ Name m1 = Name m2 ∧ Tags m1 ≡ₚ Tags m2.

Lemma PartitionID_series method m1 m2 n :
  same_series m1 m2 → PartitionID method m1 n = PartitionID method m2 n.
Proof.
  intros (Ho & Hn & Ht). destruct method; cbn [PartitionID]; rewrite ?Ho, ?Hn, ?(tag_pieces_perm _ _ _ Ht); done.
Qed.

Lemma partition_by_range method m n p :
  0 < n ≤ 2 ^ 31 → partition_by method m n = Some p → 0 ≤ p < n.
Proof.
  intros Hn. unfold partition_by. destruct (PartitionID_total method m n Hn) as (q & -> & Hq). by intros [= <-].
Qed.

(** ** Properties *)

(** C33. The partition of a metric (whose name and tags are shorter than [2^64]
    bytes). For a topic of 1 to [2^31] partitions it is one of the topic's: with
    the FNV methods the hash of the org's four bytes, of the name's runes or of
    the runes of the name and the sorted tags, as an [int32], its remainder made
    positive; with [bySeriesWithTags] a bucket of the jump sequence that begins
    with the XXH64 hash of the string [name;tag;tag], one whose successor is past
    the last partition, so that when the topic grows by a partition the series
    stays or goes to the new one. Two points of one series (org, name, and tags
    in any order) get the same. Without partitions the FNV methods divide by
    zero, and jump hashing says [-1]. *)
Theorem PartitionID_assigns method m n :
  Z.of_nat (strlen (tag_string (Name m) (Tags m))) < 2 ^ 64 →
  (0 < n ≤ 2 ^ 31 →
   ∃ p, PartitionID method m n = Ok p ∧ 0 ≤ p < n ∧ assigned method m n p ∧
     ∀ m', same_series m m' → PartitionID method m' n = Ok p) ∧
  (0 < n < 2 ^ 31 → method = PartitionBySeriesWithTags →
   ∃ p q, PartitionID method m n = Ok p ∧ PartitionID method m (n + 1) = Ok q ∧ (q = p ∨ q = n)) ∧
  PartitionID method m 0 =
    (match method with PartitionBySeriesWithTags => Ok (-1) | _ => Panic end).
Proof.
  intros Hlen. split_and!; [|intros Hn ->; by apply PartitionID_grows|by destruct method].
  intros Hn. destruct (PartitionID_total method m n Hn) as (p & Hp & Hr). exists p. split_and!; [done|lia..| |].
  - apply PartitionID_assigned; [done|lia|done].
  - intros m' Hs. by rewrite <- (PartitionID_series method _ _ _ Hs).
Qed.

Definition ex_series (tags : list string) : MetricData :=
  mkMetricData "" 33 "disk.free" 10 0 "" 1500000000 "gauge" tags.
Definition ex_tags : list string := ["host=web1"; "name=other"; "dc=eu"; "path=/var/lib/data"].

(** From 5 to 6 partitions this series moves, to the new one. *)
Lemma PartitionID_assigns_witness :
  (0 < 5 < 2 ^ 31 → PartitionBySeriesWithTags = PartitionBySeriesWithTags →
   ∃ p q, PartitionID PartitionBySeriesWithTags (ex_series ex_tags) 5 = Ok p ∧
     PartitionID PartitionBySeriesWithTags (ex_series ex_tags) (5 + 1) = Ok q ∧ (q = p ∨ q = 5)) ∧
  PartitionID PartitionBySeriesWithTags (ex_series ex_tags) 0 = Ok (-1).
Proof. apply (PartitionID_assigns PartitionBySeriesWithTags (ex_series ex_tags) 5). vm_compute. reflexivity. Defined.

(** The migration [bySeriesWithTagsFnv] is made for: a metric without tags,
    or with [name=] tags only, stays in the partition [bySeries] gave it. *)
Theorem SeriesWithTagsFnv_is_compatible m n :
  Forall (λ t, is_name_tag t = true) (Tags m) →
  PartitionID PartitionBySeriesWithTagsFnv m n = PartitionID PartitionBySeries m n.
Proof. intros H. cbn [PartitionID]. by rewrite tag_pieces_untagged. Qed.

Lemma SeriesWithTagsFnv_is_compatible_witness :
  PartitionID PartitionBySeriesWithTagsFnv (ex_series ["name=x.y"]) 32 = PartitionID PartitionBySeries (ex_series ["name=x.y"]) 32.
Proof. apply (SeriesWithTagsFnv_is_compatible (ex_series ["name=x.y"]) 32). repeat constructor. Defined.

(** The digest that is written piece by piece hashes the concatenation:
    however [name;tag;tag] is cut into pieces, the sum is that of the whole
    string. *)
Theorem the_digest_is_streaming ps :
  Z.of_nat (strlen (foldr String.append "" ps)) < 2 ^ 64 →
  Sum64 (foldl (λ d p, Write p d) New ps) = Sum64_whole (foldr String.append "" ps).
Proof. apply Sum64_pieces. Qed.

Lemma the_digest_is_streaming_witness :
  Sum64 (foldl (λ d p, Write p d) New (tag_pieces "disk.free" ex_tags)) =
    Sum64_whole (tag_string "disk.free" ex_tags).
Proof. apply (the_digest_is_streaming (tag_pieces "disk.free" ex_tags)). vm_compute. reflexivity. Defined.

(** C6. With this partitioner, every message the publisher hands to the broker
    goes to a partition of its topic, and the messages of a topic that are of one
    series (org, name and tags in any order) go to one partition. *)
Theorem Publish_partitions MarshalMsg auto_interval cfg send m metrics keys payload :
  wf keys → Forall wf_input metrics → Forall (λ t, 0 < numPartitions t < 2 ^ 31) (topics m) →
  r_sent (Publish MarshalMsg partition_by auto_interval cfg send m metrics keys) = Some payload →
  let exp := expected (topics m) (deduced auto_interval m <$> metrics) in
  Forall2 (λ e msg, Topic msg = name e.1 ∧ 0 ≤ Partition msg < numPartitions e.1) exp payload ∧
  ∀ i j e1 e2 msg1 msg2,
    exp !! i = Some e1 → payload !! i = Some msg1 → exp !! j = Some e2 → payload !! j = Some msg2 →
    e1.1 = e2.1 → same_series e1.2 e2.2 → Partition msg1 = Partition msg2.
Proof.
  intros Hw Hin Ht Hs exp.
  destruct (Publish_sent _ _ _ _ _ _ _ _ _ Hw Hin Hs) as (s & Hinv & <- & _).
  pose proof (inv_msgs _ _ _ _ _ _ Hinv) as Hm. split.
  - apply Forall2_same_length_lookup_2; [by eapply Forall2_length|]. intros i e msg Hi1 Hi2.
    pose proof (Forall2_lookup_lr _ _ _ _ _ _ Hm Hi1 Hi2) as (Hn & Hp & _). split; [done|].
    apply list_elem_of_lookup_2, expected_topics in Hi1 as He. eapply Forall_forall in Ht; [|exact He].
    apply (partition_by_range (partitioner e.1) e.2); [lia|done].
  - intros i j e1 e2 msg1 msg2 Hi1 Hi2 Hj1 Hj2 Ee Hser.
    pose proof (Forall2_lookup_lr _ _ _ _ _ _ Hm Hi1 Hi2) as (_ & H1 & _).
    pose proof (Forall2_lookup_lr _ _ _ _ _ _ Hm Hj1 Hj2) as (_ & H2 & _).
    unfold partition_by in H1, H2. rewrite <- Ee, <- (PartitionID_series _ _ _ _ Hser) in H2. congruence.
Qed.

(** The publisher of KafkaSpec.v: the first metric goes to partition 4 of [t1]
    by its org and to partition 0 of [t2] by its name. *)
Lemma Publish_partitions_witness :
  let r := Publish ex_marshal partition_by ex_auto ex_cfg (λ _, true) ex_publisher ex_metrics (NewKeyCache 0) in
  ∃ payload, r_sent r = Some payload ∧
    Forall2 (λ e msg, Topic msg = name e.1 ∧ 0 ≤ Partition msg < numPartitions e.1)
      (expected (topics ex_publisher) (deduced ex_auto ex_publisher <$> ex_metrics)) payload.
Proof.
  eexists. split; [vm_compute; reflexivity|].
  apply (Publish_partitions ex_marshal ex_auto ex_cfg (λ _, true) ex_publisher ex_metrics (NewKeyCache 0)
    _ (NewKeyCache_wf 0) ex_metrics_wf); [repeat constructor; done|vm_compute; reflexivity].
Defined.
