(* ===== verification/PublishConc.v ===== *)
(** * publish/kafka: calls of Publish at the same time

    Every request, and every carbon flusher, calls [Publish] in a goroutine of its
    own; what the calls share is the key cache and the producer. A step of a call
    is one round of its loop over the topics, which touches one key at most (a
    [Touch] is atomic: KeyCacheConc.v), the start of a metric, or the send. The
    broker is the log of the payloads it accepted. [cstep] and [crun] leave the
    key cache to the calls; [estep] and [erun] have the goroutine that clears it
    run between their steps, one lock at a time, and calls that touch an org's
    cache they have looked up before it was dropped. *)

From S2P Require Import Prelude GoStrings Strconv Md5 Schema KeyCache Kafka KafkaSpec.
From Stdlib Require Import Ascii.

(** What is left of a call: a metric to begin, a topic for the metric begun. *)
Inductive job := JMetric (m : MetricData) | JTopic (t : topicSettings).

(** [finished]: what the call returned; a call that returned early has a [todo]. *)
Record call := mkCall {
  todo : list job; local : pub_state; finished : option (outcome publish_error unit) }.

Record world := mkWorld {
  w_keys : KeyCache; w_calls : list call; w_log : list (list ProducerMessage) }.

Section conc.
Context (MarshalMsg : MetricData → option string).
Context (PartitionID : PartitionByMethod → MetricData → Z → option Z).
Context (auto_interval : string → Z).
Context (cfg : pub_cfg) (m : mtPublisher).
(** Does the broker accept the payload of this call. *)
Context (send : nat → list ProducerMessage → bool).

Definition jobs (metrics : list MetricData) : list job :=
  metrics ≫= λ metric, JMetric metric :: (JTopic <$> topics m).

(** A call with nothing to do returns at once. *)
Definition spawn (metrics : list MetricData) : call :=
  let idle := negb (has_producer cfg) || bool_decide (length metrics = 0)
    || bool_decide (length (topics m) = 0) in
  mkCall (if idle then [] else jobs metrics) (init_state zero_metric (NewKeyCache 0))
    (if idle then Some (Ok tt) else None).

Definition start (keys : KeyCache) (requests : list (list MetricData)) : world :=
  mkWorld keys (spawn <$> requests) [].

Definition run_job (j : job) (s : pub_state) : pub_state * outcome publish_error unit :=
  match j with
  | JMetric metric => (deduce_interval auto_interval m;; modify (set_cache ∅)) (set_metric metric s)
  | JTopic t => publish_topic MarshalMsg PartitionID cfg t s
  end.

(** A call goes on; a call that has returned, or is not there, does nothing. *)
Definition cstep (i : nat) (w : world) : world :=
  match w_calls w !! i with
  | Some (mkCall (j :: rest) s None) =>
      let '(s', r) := run_job j (set_keys (w_keys w) s) in
      mkWorld (p_keys s')
        (<[i := match r with
                | Ok _ => mkCall rest s' None | _ => mkCall (j :: rest) s' (Some r) end]> (w_calls w)) (w_log w)
  | Some (mkCall [] s None) =>
      let ok := send i (p_payload s) in
      mkWorld (w_keys w)
        (<[i := mkCall [] s (Some (if ok then Ok tt else Err SendFailed))]> (w_calls w))
        (w_log w ++ (if ok then [p_payload s] else []))
  | _ => w
  end.

Definition crun (schedule : list nat) (w : world) : world := foldl (λ w i, cstep i w) w schedule.

(** The goroutine that clears the key cache runs beside the calls. For each org it
    resets a shard of the org's cache, sums the sizes of the shards, and deletes
    the org if the sum is 0; then it goes to the next shard. What it read of the
    sizes may be old by the time it deletes, so here it may delete an org at any
    time. A cache that was deleted is still in the hands of the calls that looked
    it up before: [e_orphans], with its org. *)
Definition reset_org (org : Z) (k : KeyCache) : KeyCache :=
  with_caches k (alter (λ c, (Cache.Clear c (clearIdx k)).2) org (caches k)).
Definition drop_org (org : Z) (k : KeyCache) : KeyCache := with_caches k (delete org (caches k)).
Definition next_shard (k : KeyCache) : KeyCache :=
  let next := clearIdx k + 1 in
  mkKeyCache (if bool_decide (next = 256) then 0 else next) (clearInterval k) (caches k).

(** [k] with [oc] as the cache of [org]. *)
Definition with_cache (org : Z) (oc : option Cache.Cache) (k : KeyCache) : KeyCache :=
  with_caches k (partial_alter (λ _, oc) org (caches k)).
Definition with_keys (K : KeyCache) (w : world) : world := mkWorld K (w_calls w) (w_log w).

Record eworld := mkEworld { e_world : world; e_orphans : list (Z * Cache.Cache) }.

Inductive event :=
| ERun (i : nat)             (* a step of the call [i] *)
| EStale (i n : nat)         (* the same, with the orphan [n] for its org's cache *)
| EReset (org : Z) | EDrop (org : Z) | ENext.

Definition estep (e : event) (w : eworld) : eworld :=
  let K := w_keys (e_world w) in
  match e with
  | ERun i => mkEworld (cstep i (e_world w)) (e_orphans w)
  | EStale i n =>
      match e_orphans w !! n with
      | Some (org, c) =>
          let w1 := cstep i (with_keys (with_cache org (Some c) K) (e_world w)) in
          mkEworld (with_keys (with_cache org (caches K !! org) (w_keys w1)) w1)
            (<[n := (org, default c (caches (w_keys w1) !! org))]> (e_orphans w))
      | None => w
      end
  | EReset org => mkEworld (with_keys (reset_org org K) (e_world w)) (e_orphans w)
  | EDrop org =>
      match caches K !! org with
      | Some c => mkEworld (with_keys (drop_org org K) (e_world w)) (e_orphans w ++ [(org, c)])
      | None => w
      end
  | ENext => mkEworld (with_keys (next_shard K) (e_world w)) (e_orphans w)
  end.

Definition erun (events : list event) (w : eworld) : eworld := foldl (λ w e, estep e w) w events.
End conc.
