(* ===== verification/PublishConcSpec.v ===== *)
(** * publish/kafka, concurrent calls: theorems

    Every call keeps the invariant that the sequential [Publish] has (KafkaSpec.v)
    over the keys that were known to it: those of the start and those other calls
    have touched first. So whatever the schedule a call sends what it is to send,
    and of all calls one sends a series in full, as long as the key cache is not
    cleared; PublishClears.v has what holds when it is. *)

From S2P Require Import Prelude GoStrings Strconv Md5 Schema KeyCache Kafka KafkaSpec PublishConc.
From Stdlib Require Import Ascii.

Section spec.
Context (MarshalMsg : MetricData → option string).
Context (PartitionID : PartitionByMethod → MetricData → Z → option Z).
Context (auto_interval : string → Z).
Context (cfg : pub_cfg) (m : mtPublisher).
Context (send : nat → list ProducerMessage → bool).

#[local] Abbreviation run_job := (run_job MarshalMsg PartitionID auto_interval cfg m).
#[local] Abbreviation cstep := (cstep MarshalMsg PartitionID auto_interval cfg m send).
#[local] Abbreviation crun := (crun MarshalMsg PartitionID auto_interval cfg m send).
#[local] Abbreviation inv := (inv MarshalMsg PartitionID cfg).
#[local] Abbreviation topic_inv := (topic_inv MarshalMsg PartitionID cfg).
#[local] Abbreviation deduced := (deduced auto_interval m).

(** ** What a step does to the key cache *)

(** Nothing, or it touches a key. *)
Definition touches (K K' : KeyCache) : Prop := K' = K ∨ ∃ k, wf_key k ∧ K' = (Touch k K).2.

#[local] Abbreviation P := (ST pub_state publish_error).

Definition keeps_keys {A} (p : P A) : Prop := ∀ s, p_keys (p s).1 = p_keys s.

Lemma keeps_bind {A B} (p : P A) (f : A → P B) : keeps_keys p → (∀ a, keeps_keys (f a)) → keeps_keys (p ≫= f).
Proof.
  intros Hp Hf s. rewrite bind_eval. specialize (Hp s). destruct (p s) as [s' [a|e|]]; [|done|done].
  cbn in *. by rewrite Hf.
Qed.

(** A program that touches, then one that does not; and the other way round. *)
Lemma touches_bind_l {A B} (p : P A) (f : A → P B) s :
  touches (p_keys s) (p_keys (p s).1) → (∀ a, keeps_keys (f a)) → touches (p_keys s) (p_keys ((p ≫= f) s).1).
Proof.
  intros Hp Hf. rewrite bind_eval. destruct (p s) as [s' [a|e|]]; [|done|done]. cbn in *. by rewrite Hf.
Qed.

Lemma full_keeps metric : keeps_keys (full_message MarshalMsg metric).
Proof. intros s. unfold full_message. rewrite bind_eval. cbn. by destruct (MarshalMsg metric). Qed.

Lemma data_touches metric s :
  id_set metric → touches (p_keys s) (p_keys (dataFromMetricData MarshalMsg cfg metric s).1).
Proof.
  intros Hid. unfold dataFromMetricData. destruct (v2 cfg); [|left; apply full_keeps].
  rewrite bind_eval. unfold key_from_id, lift_outcome.
  pose proof (MKeyFromString_SetId metric) as EK. unfold id_set in Hid. rewrite Hid in EK. rewrite EK.
  case_decide; [|by left]. apply touches_bind_l.
  - right. exists (key_of metric). split; [apply wf_key_of|]. unfold touch_key. by destruct (Touch _ _).
  - intros []; [by intros s'|apply full_keeps].
Qed.

Lemma publish_topic_touches t s :
  id_set (p_metric s) → touches (p_keys s) (p_keys (publish_topic MarshalMsg PartitionID cfg t s).1).
Proof.
  intros Hid. unfold publish_topic. rewrite bind_eval. cbn [gets].
  destruct (negb _); [by left|]. rewrite bind_eval. cbn [modify]. rewrite bind_eval. cbn [gets].
  change (p_keys s) with (p_keys (set_metric (rewrite_org t (p_metric s)) s)).
  apply touches_bind_l.
  - unfold buffer_for. rewrite bind_eval. cbn [gets]. cbn [p_metric set_metric].
    destruct (_ !! _); [by left|]. apply touches_bind_l; [|by intros b s'].
    apply data_touches. unfold rewrite_org. case_bool_decide; [apply id_set_SetId|done].
  - intros b. repeat (apply keeps_bind; [|intros ?]); try (by intros s').
Qed.

(** ** What another call's step leaves of the invariant *)

(** The keys known to a call, after another one has touched [k]. *)
Definition grow (K : KeyCache) (k : MKey) (g : KeyCache) : KeyCache :=
  if bool_decide (seen K k) then g else (Touch k g).2.

Lemma grow_wf K k g : wf g → wf (grow K k g).
Proof. unfold grow. case_bool_decide; [done|]. apply Touch_wf. Qed.

Lemma seen_grow K k g k' :
  wf g → wf_key k → wf_key k' → seen (grow K k g) k' ↔ seen g k' ∨ k' = k ∧ ¬ seen K k.
Proof.
  intros Hg Hk Hk'. unfold grow. case_bool_decide as Hs; [naive_solver|].
  rewrite seen_Touch by done. naive_solver.
Qed.

Lemma entries_key k ty exp l : (k, ty) ∈ entries exp l → wf_key k ∧ ∃ e, e ∈ exp ∧ k = key_of e.2.
Proof.
  unfold entries. intros (i & Hi)%list_elem_of_lookup. rewrite lookup_zip_with in Hi.
  destruct (exp !! i) as [e|] eqn:He; [|done]. cbn in Hi. destruct (l !! i); [|done].
  injection Hi as <- _. split; [apply wf_key_of|]. exists e. split; [by eapply list_elem_of_lookup_2|done].
Qed.

Lemma inv_grow g exp s k :
  wf g → wf_key k → inv g exp s → inv (grow (p_keys s) k g) exp (set_keys (Touch k (p_keys s)).2 s).
Proof.
  intros Hg Hk [Hw Hm Hs Hj Hmk Hmo Hf Hc]. pose proof (Touch_wf k _ Hw) as Hw'.
  assert (Hseen : ∀ k', wf_key k' → seen (Touch k (p_keys s)).2 k' ↔ k' = k ∨ seen (p_keys s) k')
    by (intros; rewrite seen_Touch by done; naive_solver).
  assert (Hgrow : ∀ k', wf_key k' → seen g k' → seen (grow (p_keys s) k g) k')
    by (intros; apply seen_grow; auto).
  split; cbn [p_keys p_payload p_count set_keys]; try done.
  - intros k' Hk' [->|H']%Hseen; [|destruct (Hs k' Hk' H'); auto|done].
    destruct (decide (seen (p_keys s) k)) as [H'|H']; [destruct (Hs k Hk H'); auto|].
    left. apply seen_grow; auto.
  - intros i k' ty Hi Hty. destruct (Hj i k' ty Hi Hty) as [H'|]; [left|by right].
    apply Hgrow; [|done]. apply list_elem_of_lookup_2 in Hi. by apply entries_key in Hi as [? _].
  - intros Hv. eapply Forall_impl; [exact (Hmk Hv)|]. intros e He. apply Hseen; [apply wf_key_of|by right].
  - intros k' H' Hk'. apply Hseen; [done|]. apply seen_grow in H' as [H'|[-> _]]; auto.
  - intros k' Hv Hk' H'. pose proof Hk' as [Hw1 (e & He & ->)]%entries_key.
    apply seen_grow in H' as [H'|[<- H']]; [by eapply Hf| |done..].
    apply H'. specialize (Hmk Hv). by eapply Forall_forall in Hmk.
Qed.

Lemma topic_inv_grow g exp m0 s k :
  wf g → wf_key k → topic_inv g exp m0 s →
  topic_inv (grow (p_keys s) k g) exp m0 (set_keys (Touch k (p_keys s)).2 s).
Proof.
  intros Hg Hk [Hi Hm Hc]. split; [by apply inv_grow|done|].
  cbn [p_keys p_payload p_cache set_keys]. intros o b Hb.
  destruct (Hc o b Hb) as (H1 & H2 & H3 & H4). split_and!; [done| | |].
  - intros Hv. pose proof (inv_wf _ _ _ _ _ _ Hi). apply seen_Touch; [done..|apply wf_key_of|]. right. by apply H2.
  - intros Ht. destruct (H3 Ht) as [H'|]; [left|by right]. apply seen_grow; [done..|apply wf_key_of|by left].
  - intros Hv Ht [H'|[E H']]%seen_grow; [by apply H4| |done|done|apply wf_key_of].
    apply H'. rewrite <- E. by apply H2.
Qed.

(** ** The steps of a call *)

Definition grows {A} (p : P A) : Prop := ∀ s, p_payload s `prefix_of` p_payload (p s).1.

Lemma grows_bind {A B} (p : P A) (f : A → P B) : grows p → (∀ a, grows (f a)) → grows (p ≫= f).
Proof.
  intros Hp Hf s. rewrite bind_eval. specialize (Hp s). destruct (p s) as [s' [a|e|]]; [|done|done].
  etransitivity; [exact Hp|apply Hf].
Qed.

Lemma grows_same {A} (p : P A) : (∀ s, p_payload (p s).1 = p_payload s) → grows p.
Proof. intros H s. by rewrite H. Qed.

Lemma data_grows metric : grows (dataFromMetricData MarshalMsg cfg metric).
Proof.
  assert (Hfull : grows (full_message MarshalMsg metric)).
  { apply grows_same. intros s. unfold full_message. rewrite bind_eval. cbn. by destruct (MarshalMsg metric). }
  unfold dataFromMetricData. destruct (v2 cfg); [|done].
  apply grows_bind; [by apply grows_same|]. intros k. apply grows_bind.
  - apply grows_same. intros s. unfold touch_key. by destruct (Touch k (p_keys s)).
  - intros []; [by apply grows_same|done].
Qed.

Lemma topic_grows t : grows (publish_topic MarshalMsg PartitionID cfg t).
Proof.
  unfold publish_topic. apply grows_bind; [by apply grows_same|intros x]. destruct (negb _); [by apply grows_same|].
  apply grows_bind; [by apply grows_same|intros _]. apply grows_bind; [by apply grows_same|intros y].
  apply grows_bind.
  { unfold buffer_for. apply grows_bind; [by apply grows_same|intros c]. destruct (c !! _); [by apply grows_same|].
    apply grows_bind; [apply data_grows|intros b]. by apply grows_same. }
  intros b. do 4 (apply grows_bind; [by apply grows_same|intros ?]).
  intros s. by apply prefix_app_r.
Qed.

(** What is left to send. *)
Fixpoint left_over (cur : MetricData) (l : list job) : list (topicSettings * MetricData) :=
  match l with
  | [] => []
  | JMetric x :: r => left_over (deduced x) r
  | JTopic t :: r => routed [t] cur ++ left_over cur r
  end.

Lemma left_over_topics cur ts r : left_over cur ((JTopic <$> ts) ++ r) = routed ts cur ++ left_over cur r.
Proof.
  induction ts as [|t ts IH]; [done|]. cbn [fmap list_fmap app left_over]. rewrite IH, app_assoc. f_equal.
  change (t :: ts) with ([t] ++ ts). unfold routed. by rewrite filter_app, fmap_app.
Qed.

Lemma left_over_jobs cur ms : left_over cur (jobs m ms) = expected (topics m) (deduced <$> ms).
Proof.
  revert cur. induction ms as [|x ms IH]; intros cur; [done|].
  unfold jobs. cbn [mbind list_bind app left_over]. rewrite left_over_topics. fold (jobs m ms). by rewrite IH.
Qed.

Definition job_wf (j : job) : Prop := match j with JMetric x => wf_input x | JTopic _ => True end.

Lemma jobs_wf ms : Forall wf_input ms → Forall job_wf (jobs m ms).
Proof.
  induction 1 as [|x ms Hx _ IH]; [constructor|]. unfold jobs. cbn [mbind list_bind].
  constructor; [done|]. apply Forall_app. split; [|exact IH]. apply Forall_fmap, Forall_true. done.
Qed.

(** A call over the keys [K]: [g] are the keys it found known, [total] what it is
    to send. *)
Definition call_ok (K : KeyCache) (total : list (topicSettings * MetricData)) (g : KeyCache) (c : call) : Prop :=
  wf g ∧ Forall job_wf (todo c) ∧ (finished c ≠ None → todo c = []) ∧
  ∃ exp, inv g exp (set_keys K (local c)) ∧
    exp ++ left_over (p_metric (local c)) (todo c) = total ∧
    match todo c with
    | JTopic _ :: _ => wf_metric (p_metric (local c)) ∧ topic_inv g exp (p_metric (local c)) (set_keys K (local c))
    | _ => True
    end.

Lemma set_keys_self s : set_keys (p_keys s) s = s.
Proof. by destruct s. Qed.

Lemma call_ok_grow K total g c k :
  wf_key k → call_ok K total g c → call_ok (Touch k K).2 total (grow K k g) c.
Proof.
  intros Hk (Hg & Hj & Hf & exp & Hi & He & Ht). split_and!; [by apply grow_wf|done|done|].
  exists exp. split_and!; [by apply (inv_grow _ _ _ k) in Hi|done|].
  destruct (todo c) as [|[x|t] r]; [done|done|]. destruct Ht as [H1 H2]. split; [done|].
  by apply (topic_inv_grow _ _ _ _ k) in H2.
Qed.

(** The next job of a call that is well. *)
Lemma run_job_ok K total g j rest s s' r :
  call_ok K total g (mkCall (j :: rest) s None) → run_job j (set_keys K s) = (s', r) →
  touches K (p_keys s') ∧ p_payload s `prefix_of` p_payload s' ∧
  (∀ u, r = Ok u → call_ok (p_keys s') total g (mkCall rest s' None)).
Proof.
  intros (Hg & [Hj Hjs]%Forall_cons & _ & exp & Hi & He & Ht). cbn [todo local finished] in *.
  destruct j as [x|t]; cbn [PublishConc.run_job]; intros H.
  - assert (Hs : p_keys s' = K ∧ p_payload s' = p_payload s ∧
      (∀ u, r = Ok u → s' = set_cache ∅ (set_metric (deduced x) (set_keys K s)))).
    { rewrite bind_eval in H. unfold deduce_interval, KafkaSpec.deduced in *. rewrite bind_eval in H. cbn in H.
      case_bool_decide; [destruct (autoInterval m)|]; cbn in H; injection H as <- <-; split_and!; done. }
    destruct Hs as (HK & Hp & Hok). split_and!; [left; done|by rewrite Hp|].
    intros u Hr. rewrite (Hok u Hr). split_and!; [done|done|done|]. exists exp. cbn [local todo]. split_and!.
    + destruct Hi. by split.
    + done.
    + destruct rest as [|[y|t] rest]; [done|done|]. cbn in Hj. split; [by apply deduced_wf|].
      destruct Hi. split; [by split|done|]. cbn. intros o b Hb. by rewrite lookup_empty in Hb.
  - destruct Ht as [Hm0 Hti]. pose proof (publish_topic_touches t (set_keys K s) (proj1 Hm0)) as HK.
    pose proof (topic_grows t (set_keys K s)) as Hp. rewrite H in HK, Hp.
    split_and!; [exact HK|exact Hp|]. intros [] ->.
    eapply (publish_topic_ok _ _ auto_interval) in H; [|exact Hm0|exact Hti]. pose proof (ti_metric _ _ _ _ _ _ _ H) as Hm.
    split_and!; [done|done|done|]. exists (exp ++ routed [t] (p_metric s)). cbn [local todo].
    rewrite set_keys_self, Hm. split_and!; [apply H|by rewrite <- app_assoc|].
    by destruct rest as [|[y|t'] rest].
Qed.

(** ** All calls *)

(** What the call of [metrics] is to send, and the keys of what it has sent so far. *)
Definition total (metrics : list MetricData) : list (topicSettings * MetricData) :=
  expected (topics m) (deduced <$> metrics).
Definition carried (metrics : list MetricData) (c : call) : list (MKey * MetricDataType) :=
  entries (total metrics) (p_payload (local c)).

(** It returned before the send: a metric could not be encoded or partitioned. *)
Definition early (c : call) : Prop := finished c ≠ None ∧ todo c ≠ [].

Lemma cstep_length i w : length (w_calls (cstep i w)) = length (w_calls w).
Proof.
  unfold PublishConc.cstep. destruct (w_calls w !! i) as [[[|j r] s [o|]]|]; try done.
  - cbn. by rewrite length_insert.
  - destruct (run_job _ _) as [s' x]. cbn. by rewrite length_insert.
Qed.

(** A call at its start. *)
Lemma spawned_call_ok ms :
  has_producer cfg = true → Forall wf_input ms → let c := spawn cfg m ms in
  local c = init_state zero_metric (NewKeyCache 0) ∧ Forall job_wf (todo c) ∧ (finished c ≠ None → todo c = []) ∧
  (∀ cur, left_over cur (todo c) = total ms) ∧ match todo c with JTopic _ :: _ => False | _ => True end.
Proof.
  intros Hp Hms. cbv zeta. unfold spawn. rewrite Hp. cbn [negb orb].
  destruct (bool_decide (length ms = 0)) eqn:E1; cbn [orb].
  { apply bool_decide_eq_true, nil_length_inv in E1 as ->. by split_and!; [|apply Forall_nil_2|..]. }
  destruct (bool_decide (length (topics m) = 0)) eqn:E2; cbn [todo local finished].
  { apply bool_decide_eq_true, nil_length_inv in E2. split_and!; try done; try apply Forall_nil_2.
    intros cur. cbn [left_over]. unfold total, expected. rewrite E2. generalize (deduced <$> ms). intros l. by induction l. }
  split_and!; [done|by apply jobs_wf|done|intros cur; apply left_over_jobs|by destruct ms].
Qed.

Section requests.
Context (K0 : KeyCache) (requests : list (list MetricData)).

(** Call [j] carries [k] in full. *)
Definition full_in (w : world) (j : nat) (k : MKey) : Prop :=
  ∃ c ms, w_calls w !! j = Some c ∧ requests !! j = Some ms ∧ (k, TMetricData) ∈ carried ms c.
Definition some_early (w : world) : Prop := ∃ (j : nat) c, w_calls w !! j = Some c ∧ early c.

(** [gs i]: the keys that call [i] found known. *)
Record world_ok (gs : nat → KeyCache) (w : world) : Prop := {
  wo_wf : wf (w_keys w);
  wo_call (i : nat) c ms : w_calls w !! i = Some c → requests !! i = Some ms → ¬ early c →
    call_ok (w_keys w) (total ms) (gs i) c;
  wo_ghost i : wf (gs i) ∧ ∀ k, wf_key k → seen K0 k → seen (gs i) k;
  wo_known i k : wf_key k → seen (gs i) k →
    seen K0 k ∨ (∃ j, j ≠ i ∧ full_in w j k) ∨ some_early w;
  wo_others i j k : v2 cfg = true → j ≠ i → full_in w j k → seen (gs i) k ∨ some_early w;
  wo_log : Forall (λ payload, ∃ (i : nat) c, w_calls w !! i = Some c ∧ finished c = Some (Ok tt) ∧
    ¬ early c ∧ p_payload (local c) = payload) (w_log w) }.

Lemma entries_prefix exp l1 l2 x : l1 `prefix_of` l2 → x ∈ entries exp l1 → x ∈ entries exp l2.
Proof.
  intros [l ->]. unfold entries. revert exp. induction l1 as [|a l1 IH]; intros [|e exp]; cbn.
  all: try (by intros ?%elem_of_nil).
  rewrite !elem_of_cons. intros [->|H]; [by left|right]. by apply IH.
Qed.

Lemma entries_total exp rest l : length exp = length l → entries (exp ++ rest) l = entries exp l.
Proof.
  unfold entries. revert l. induction exp as [|e exp IH]; intros [|a l] H; try done; [by destruct rest|].
  cbn. f_equal. apply IH. by injection H.
Qed.

Section step.
Context (w : world) (i : nat) (c c' : call) (K : KeyCache) (log : list (list ProducerMessage)).
Context (Hi : w_calls w !! i = Some c) (Hun : finished c = None).
Context (Hpre : p_payload (local c) `prefix_of` p_payload (local c')).

#[local] Abbreviation w' := (mkWorld K (<[i := c']> (w_calls w)) log).

Lemma full_in_step j k : full_in w j k → full_in w' j k.
Proof using Hi Hpre.
  intros (cj & ms & Hc & Hr & Hk). destruct (decide (j = i)) as [->|Hne].
  - rewrite Hi in Hc. injection Hc as <-. exists c', ms. split_and!; [|done|by eapply entries_prefix].
    cbn. apply list_lookup_insert_eq. by eapply lookup_lt_Some.
  - exists cj, ms. split_and!; [|done|done]. cbn. by rewrite list_lookup_insert_ne.
Qed.

Lemma some_early_step : some_early w → some_early w'.
Proof using Hi Hun.
  intros (j & cj & Hc & He). assert (j ≠ i) by (intros ->; rewrite Hi in Hc; injection Hc as <-; by destruct He).
  exists j, cj. split; [|done]. cbn. by rewrite list_lookup_insert_ne.
Qed.

Lemma full_in_other j k : j ≠ i → full_in w' j k → full_in w j k.
Proof using.
  intros Hne (cj & ms & Hc & Hr & Hk). cbn in Hc. rewrite list_lookup_insert_ne in Hc by done. by exists cj, ms.
Qed.

Lemma log_step l :
  Forall (λ payload, ∃ (i : nat) c, w_calls w !! i = Some c ∧ finished c = Some (Ok tt) ∧ ¬ early c ∧
    p_payload (local c) = payload) l →
  Forall (λ payload, ∃ (i : nat) c, w_calls w' !! i = Some c ∧ finished c = Some (Ok tt) ∧ ¬ early c ∧
    p_payload (local c) = payload) l.
Proof using Hi Hun.
  intros H. eapply Forall_impl; [exact H|]. intros pl (j & cj & Hc & Hf & Hrest).
  assert (j ≠ i) by (intros ->; rewrite Hi in Hc; injection Hc as <-; congruence).
  exists j, cj. split; [|done]. cbn. by rewrite list_lookup_insert_ne.
Qed.
End step.

Lemma world_send gs w i s :
  world_ok gs w → w_calls w !! i = Some (mkCall [] s None) → world_ok gs (cstep i w).
Proof.
  intros [Hw Hc Hg Hk Ho Hl] Hi. unfold PublishConc.cstep. rewrite Hi. cbv zeta.
  set (ok := send i (p_payload s)). set (c' := mkCall [] s (Some (if ok then Ok tt else Err SendFailed))).
  pose proof (full_in_step w i _ c' (w_keys w) (w_log w ++ if ok then [p_payload s] else []) Hi (reflexivity _)) as Hfull.
  pose proof (some_early_step w i _ c' (w_keys w) (w_log w ++ if ok then [p_payload s] else []) Hi eq_refl) as Hearly.
  set (w1 := mkWorld _ _ _) in *.
  assert (Hlt : i < length (w_calls w)) by (by eapply lookup_lt_Some).
  assert (Hback : ∀ j k, full_in w1 j k → full_in w j k).
  { intros j k. destruct (decide (j = i)) as [->|Hne]; [|by apply full_in_other].
    intros (cj & ms & H1 & H2 & H3). cbn in H1. rewrite list_lookup_insert_eq in H1 by done. injection H1 as <-.
    by eexists _, ms. }
  split.
  - done.
  - intros j cj ms Hj Hr He. cbn in Hj. destruct (decide (j = i)) as [->|Hne].
    + rewrite list_lookup_insert_eq in Hj by done. injection Hj as <-.
      assert (He0 : ¬ early (mkCall [] s None)) by (by intros [? _]).
      destruct (Hc i _ ms Hi Hr He0) as (H1 & H2 & _ & H3). by split_and!.
    + rewrite list_lookup_insert_ne in Hj by done. by apply Hc.
  - done.
  - intros j k H1 H2. destruct (Hk j k H1 H2) as [H|[(l & Hne & H)|H]]; [by left| |by right; right; apply Hearly].
    right; left. exists l. split; [done|]. by apply Hfull.
  - intros j l k Hv Hne H. destruct (Ho j l k Hv Hne (Hback _ _ H)) as [?|H']; [by left|right]. by apply Hearly.
  - cbn. apply Forall_app. split; [exact (log_step w i _ c' (w_keys w) (w_log w) Hi eq_refl _ Hl)|].
    destruct ok; [|constructor]. constructor; [|constructor]. exists i, c'. split_and!; [|done|by intros [_ ?]|done].
    cbn. by apply list_lookup_insert_eq.
Qed.

(** The keys the calls found known, after call [i] has taken the cache from [K] to
    [K']. *)
Lemma touch_ghosts K K' i (gs : nat → KeyCache) :
  wf K → touches K K' → (∀ j, wf (gs j)) →
  wf K' ∧ ∃ gs' : nat → KeyCache,
    gs' i = gs i ∧ (∀ j, wf (gs' j)) ∧
    (∀ j k, wf_key k → j ≠ i → seen (gs' j) k ↔ seen (gs j) k ∨ seen K' k ∧ ¬ seen K k) ∧
    (∀ j c t, j ≠ i → call_ok K t (gs j) c → call_ok K' t (gs' j) c).
Proof.
  intros Hw HK Hg. destruct HK as [->|(k0 & Hk0 & ->)].
  - split; [done|]. exists gs. split_and!; [done|done| |done]. intros. tauto.
  - split; [by apply Touch_wf|]. exists (λ j, if decide (j = i) then gs i else grow K k0 (gs j)). split_and!.
    + by rewrite decide_True.
    + intros j. case_decide; [done|by apply grow_wf].
    + intros j k Hk Hne. rewrite decide_False, seen_grow, seen_Touch by done. naive_solver.
    + intros j c t Hne H. rewrite decide_False by done. by apply call_ok_grow.
Qed.

Lemma call_entries K ms g c :
  call_ok K (total ms) g c → ∃ exp, inv g exp (set_keys K (local c)) ∧
    carried ms c = entries exp (p_payload (local c)) ∧ exp ++ left_over (p_metric (local c)) (todo c) = total ms.
Proof.
  intros (_ & _ & _ & exp & Hi & He & _). exists exp. split_and!; [done| |done].
  unfold carried. rewrite <- He. apply entries_total. by apply (Forall2_length _ _ _ (inv_msgs _ _ _ _ _ _ Hi)).
Qed.

(** What the world of call [i]'s step owes to the calls, given the ghosts after it. *)
Section job.
Context (gs gs' : nat → KeyCache) (w : world) (i : nat) (c c' : call) (ms : list MetricData) (K' : KeyCache).
Context (Hw : world_ok gs w) (Hi : w_calls w !! i = Some c) (Hms : requests !! i = Some ms).
Context (Hun : finished c = None) (Hpre : p_payload (local c) `prefix_of` p_payload (local c')).
Context (Hold : call_ok (w_keys w) (total ms) (gs i) c).
Context (Hnew : early c' ∨ call_ok K' (total ms) (gs i) c').
Context (Gi : gs' i = gs i).
Context (Gs : ∀ j k, wf_key k → j ≠ i → seen (gs' j) k ↔ seen (gs j) k ∨ seen K' k ∧ ¬ seen (w_keys w) k).

#[local] Abbreviation w1 := (mkWorld K' (<[i := c']> (w_calls w)) (w_log w)).

Lemma job_self : w_calls w1 !! i = Some c'.
Proof using Hi. cbn. apply list_lookup_insert_eq. by eapply lookup_lt_Some. Qed.

Lemma job_early : early c' → some_early w1.
Proof using Hi. intros He. exists i, c'. split; [apply job_self|done]. Qed.

Lemma job_known l k :
  wf_key k → seen (gs' l) k → seen K0 k ∨ (∃ j, j ≠ l ∧ full_in w1 j k) ∨ some_early w1.
Proof using All.
  intros H1 H2.
  assert (Hcase : seen (gs l) k ∨ l ≠ i ∧ seen K' k ∧ ¬ seen (w_keys w) k).
  { destruct (decide (l = i)) as [->|Hne]; [left; by rewrite <- Gi|]. apply Gs in H2; [|done..]. naive_solver. }
  destruct Hcase as [H|(Hne & H & Hn)].
  - destruct (wo_known _ _ Hw l k H1 H) as [?|[(l' & Hne & H')|H']]; [by left| |right; right; by eapply some_early_step].
    right; left. exists l'. split; [done|]. by eapply full_in_step.
  - right. destruct Hnew as [He|Hn']; [right; by apply job_early|left]. exists i. split; [done|].
    exists c', ms. split_and!; [apply job_self|done|].
    destruct (call_entries _ _ _ _ Hn') as (exp' & Hinv' & -> & _).
    destruct (call_entries _ _ _ _ Hold) as (exp & Hinv & _ & _).
    destruct (inv_seen _ _ _ _ _ _ Hinv' k H1 H) as [Hgk|]; [|done].
    exfalso. apply Hn. by apply (inv_mono _ _ _ _ _ _ Hinv).
Qed.

(** A key that [i] newly carries in full was not known to any call. *)
Lemma job_full l k :
  v2 cfg = true → l ≠ i → full_in w1 i k → seen (gs' l) k ∨ some_early w1.
Proof using All.
  intros Hv Hne (cl & ms' & H1 & H2 & H3). rewrite job_self in H1. injection H1 as <-.
  replace ms' with ms in * by congruence.
  destruct Hnew as [He|Hn']; [right; by apply job_early|].
  destruct (call_entries _ _ _ _ Hn') as (exp' & Hinv' & E' & _). rewrite E' in *.
  pose proof H3 as [Hwk (e & He & Hke)]%entries_key.
  assert (Hse : seen K' k).
  { pose proof (inv_marked _ _ _ _ _ _ Hinv' Hv) as Hmk. rewrite Hke. by eapply Forall_forall in Hmk. }
  destruct (decide (seen (w_keys w) k)) as [Hs|Hs]; [|left; apply Gs; [done..|by right]].
  destruct (call_entries _ _ _ _ Hold) as (exp & Hinv & E0 & _).
  destruct (inv_seen _ _ _ _ _ _ Hinv k Hwk Hs) as [Hgk|Hin]; [by apply (inv_full _ _ _ _ _ _ Hinv' k Hv) in H3|].
  destruct (wo_others _ _ Hw l i k Hv ltac:(congruence)) as [?|?].
  - exists c, ms. split_and!; [done..|by rewrite E0].
  - left. apply Gs; [done..|by left].
  - right. by eapply some_early_step.
Qed.

Lemma job_others l j k :
  v2 cfg = true → j ≠ l → full_in w1 j k → seen (gs' l) k ∨ some_early w1.
Proof using All.
  intros Hv Hne H. destruct (decide (j = i)) as [->|Hji]; [by apply job_full; [|congruence|]|].
  apply full_in_other in H; [|done].
  destruct (wo_others _ _ Hw l j k Hv Hne H) as [Hs|Hs]; [left|right; by eapply some_early_step].
  destruct (decide (l = i)) as [->|Hli]; [by rewrite Gi|]. apply Gs; [|done|by left].
  destruct H as (cl & ms' & _ & _ & H3). by apply entries_key in H3 as [? _].
Qed.
End job.

Lemma world_job gs w i j rest s :
  world_ok gs w → w_calls w !! i = Some (mkCall (j :: rest) s None) → i < length requests →
  ∃ gs', world_ok gs' (cstep i w).
Proof.
  intros Hw Hi Hlt. unfold PublishConc.cstep. rewrite Hi.
  apply lookup_lt_is_Some in Hlt as [ms Hms].
  assert (Hold : call_ok (w_keys w) (total ms) (gs i) (mkCall (j :: rest) s None))
    by (apply (wo_call _ _ Hw); [done..|by intros [? _]]).
  destruct (run_job j (set_keys (w_keys w) s)) as [s' r] eqn:Er.
  destruct (run_job_ok _ _ _ _ _ _ _ _ Hold Er) as (HK & Hpre & Hok).
  destruct (touch_ghosts (w_keys w) (p_keys s') i gs) as (Hw' & gs' & Gi & Gw & Gs & Gc);
    [apply Hw|done|intros; apply (wo_ghost _ _ Hw)|].
  set (c' := match r with Ok _ => mkCall rest s' None | _ => mkCall (j :: rest) s' (Some r) end).
  assert (Hpre' : p_payload s `prefix_of` p_payload (local c')) by (unfold c'; by destruct r).
  assert (Hnew : early c' ∨ call_ok (p_keys s') (total ms) (gs i) c').
  { unfold c'. destruct r as [u|e|]; [right; by eapply Hok|by left..]. }
  exists gs'. split.
  - done.
  - intros l cl ms' Hcl Hr He. cbn in Hcl. destruct (decide (l = i)) as [->|Hne].
    + rewrite list_lookup_insert_eq in Hcl by (by eapply lookup_lt_Some). injection Hcl as <-. rewrite Gi.
      replace ms' with ms by congruence. by destruct Hnew.
    + rewrite list_lookup_insert_ne in Hcl by done. apply Gc; [done|]. by apply (wo_call _ _ Hw).
  - intros l. split; [apply Gw|]. intros k H1 H2. destruct (decide (l = i)) as [->|Hne].
    + rewrite Gi. by apply (wo_ghost _ _ Hw).
    + apply Gs; [done..|]. left. by apply (wo_ghost _ _ Hw).
  - intros l k. by apply (job_known gs gs' w i (mkCall (j :: rest) s None) c' ms).
  - intros l l' k. by apply (job_others gs gs' w i (mkCall (j :: rest) s None) c' ms).
  - exact (log_step w i _ c' (w_keys w) (w_log w) Hi eq_refl _ (wo_log _ _ Hw)).
Qed.

Context (Hprod : has_producer cfg = true).
Context (HK0 : wf K0) (Hreq : Forall (Forall wf_input) requests).

#[local] Abbreviation spawn := (spawn cfg m).
#[local] Abbreviation start := (start cfg m).

Lemma calls_start : world_ok (λ _, K0) (start K0 requests).
Proof using HK0 Hprod Hreq.
  assert (Hcall : ∀ (i : nat) c, w_calls (start K0 requests) !! i = Some c → ∃ ms, requests !! i = Some ms ∧ c = spawn ms).
  { intros i c H. cbn in H. rewrite list_lookup_fmap in H. apply fmap_Some in H as (ms & ? & ->). by exists ms. }
  split.
  - done.
  - intros i c ms Hc Hr _. apply Hcall in Hc as (ms' & Hr' & ->). replace ms' with ms by congruence.
    eapply Forall_lookup_1 in Hreq; [|exact Hr].
    destruct (spawned_call_ok ms Hprod Hreq) as (H1 & H2 & H3 & H4 & H5). split_and!; [done..|].
    exists []. rewrite H1. split_and!; [by apply pub_inv_init|by rewrite H4|by destruct (todo (spawn ms)) as [|[]]].
  - done.
  - by left.
  - intros i j k _ _ (c & ms & Hc & Hr & Hk). apply Hcall in Hc as (ms' & Hr' & ->).
    unfold carried, PublishConc.spawn in Hk. cbn in Hk.
    unfold entries in Hk. destruct (total ms); by apply elem_of_nil in Hk.
  - constructor.
Qed.

Lemma calls_run schedule : ∃ gs, world_ok gs (crun schedule (start K0 requests)).
Proof using HK0 Hprod Hreq.
  assert (H0 : ∃ gs, world_ok gs (start K0 requests) ∧ length (w_calls (start K0 requests)) = length requests).
  { exists (λ _, K0). split; [exact calls_start|]. cbn. by rewrite length_fmap. }
  revert H0. unfold PublishConc.crun. generalize (start K0 requests).
  induction schedule as [|i l IH]; intros w (gs & Hw & Hlen); [by exists gs|]. cbn [foldl]. apply IH.
  assert (Hlen' : length (w_calls (cstep i w)) = length requests) by (by rewrite cstep_length).
  destruct (w_calls w !! i) as [[[|j r] s [o|]]|] eqn:Hi.
  - exists gs. split; [|done]. unfold PublishConc.cstep. by rewrite Hi.
  - exists gs. split; [|done]. by eapply world_send.
  - exists gs. split; [|done]. unfold PublishConc.cstep. by rewrite Hi.
  - assert (i < length requests) by (rewrite <- Hlen; by eapply lookup_lt_Some).
    destruct (world_job gs w i j r s Hw Hi) as [gs' H']; [done|]. by exists gs'.
  - exists gs. split; [|done]. unfold PublishConc.cstep. by rewrite Hi.
Qed.
End requests.

Lemma crun_calls_length schedule K requests :
  length (w_calls (crun schedule (start cfg m K requests))) = length requests.
Proof.
  transitivity (length (w_calls (start cfg m K requests))); [|cbn; by rewrite length_fmap].
  unfold PublishConc.crun. generalize (start cfg m K requests).
  induction schedule as [|i l IH]; intros w; [done|]. cbn [foldl]. by rewrite IH, cstep_length.
Qed.

(** ** A call alone *)

Fixpoint exec (l : list job) (s : pub_state) : pub_state * outcome publish_error unit :=
  match l with
  | [] => (s, Ok tt)
  | j :: r => match run_job j s with (s', Ok _) => exec r s' | (s', e) => (s', e) end
  end.

Lemma exec_topics ts r s :
  exec ((JTopic <$> ts) ++ r) s =
    match for_each (publish_topic MarshalMsg PartitionID cfg) ts s with
    | (s', Ok _) => exec r s' | (s', e) => (s', e) end.
Proof.
  revert s. induction ts as [|t ts IH]; intros s; [done|]. cbn [fmap list_fmap app exec for_each PublishConc.run_job].
  rewrite bind_eval. destruct (publish_topic _ _ _ t s) as [s' [u|e|]]; [apply IH|done|done].
Qed.

Lemma exec_jobs ms s :
  exec (jobs m ms) s =
    let '(s', _, r) := publish_metrics MarshalMsg PartitionID auto_interval cfg m ms s in (s', r).
Proof.
  revert s. induction ms as [|x ms IH]; intros s; [done|].
  unfold jobs. cbn [mbind list_bind app exec publish_metrics PublishConc.run_job]. fold (jobs m ms).
  unfold publish_metric. rewrite !bind_eval.
  destruct (deduce_interval auto_interval m (set_metric x s)) as [s1 [u|e|]]; [|done|done].
  rewrite bind_eval. cbn [modify]. rewrite exec_topics.
  destruct (for_each _ (topics m) (set_cache ∅ s1)) as [s2 [u2|e|]]; [|done|done].
  rewrite IH. by destruct (publish_metrics _ _ _ _ _ ms s2) as [[s3 l] r].
Qed.

Lemma crun_returned n i w c : w_calls w !! i = Some c → finished c ≠ None → crun (replicate n i) w = w.
Proof.
  intros Hi Hf. unfold PublishConc.crun. induction n as [|n IH]; [done|]. cbn.
  replace (cstep i w) with w; [done|]. unfold PublishConc.cstep. rewrite Hi. destruct c as [[|j r] s [o|]]; done.
Qed.

(** A call that runs alone, from its first job to the last. *)
Lemma crun_exec l K s log :
  ∃ c, crun (replicate (length l) 0) (mkWorld K [mkCall l s None] log) =
      mkWorld (p_keys (exec l (set_keys K s)).1) [c] log ∧
    match (exec l (set_keys K s)).2 with
    | Ok _ => todo c = [] ∧ finished c = None ∧ p_payload (local c) = p_payload (exec l (set_keys K s)).1
    | r => finished c = Some r
    end.
Proof.
  revert K s. induction l as [|j l IH]; intros K s; [by eexists|].
  cbn [length replicate exec]. unfold PublishConc.crun. cbn [foldl]. unfold PublishConc.cstep at 2. cbn [w_calls lookup list_lookup w_keys w_log].
  destruct (run_job j (set_keys K s)) as [s' [u|e|]] eqn:Er; cbn [insert list_insert].
  - destruct (IH (p_keys s') s') as (c & H1 & H2). rewrite set_keys_self in *. by exists c.
  - eexists. split; [eapply (crun_returned _ 0); [done|done]|done].
  - eexists. split; [eapply (crun_returned _ 0); [done|done]|done].
Qed.

(** C29. The steps of a call are [Publish]. A call that runs alone, step by step,
    leaves the same key cache as [Publish], returns the same result on every
    branch, early returns and errors included, and what the broker then has is
    what [Publish] sent and the broker accepted. *)
Theorem a_call_alone_is_Publish K metrics :
  let R := Publish MarshalMsg PartitionID auto_interval cfg (send 0) m metrics K in
  let w := crun (replicate (S (length (jobs m metrics))) 0) (start cfg m K [metrics]) in
  w_keys w = r_keys R ∧ finished <$> w_calls w = [Some (r_out R)] ∧
  w_log w = match r_sent R, r_out R with Some payload, Ok _ => [payload] | _, _ => [] end.
Proof.
  cbv zeta. unfold start, spawn, Publish. cbn [fmap list_fmap].
  destruct (has_producer cfg); cbn [negb orb];
    [|by rewrite (crun_returned _ 0 _ (mkCall [] (init_state zero_metric (NewKeyCache 0)) (Some (Ok tt))))].
  case_bool_decide; cbn [orb];
    [by rewrite (crun_returned _ 0 _ (mkCall [] (init_state zero_metric (NewKeyCache 0)) (Some (Ok tt))))|].
  case_bool_decide; cbn [orb];
    [by rewrite (crun_returned _ 0 _ (mkCall [] (init_state zero_metric (NewKeyCache 0)) (Some (Ok tt))))|].
  rewrite replicate_S_end. unfold PublishConc.crun. rewrite foldl_app. cbn [foldl].
  destruct (crun_exec (jobs m metrics) K (init_state zero_metric (NewKeyCache 0)) []) as (c & H1 & H2).
  unfold PublishConc.crun in H1. rewrite H1. rewrite exec_jobs in *.
  change (set_keys K (init_state zero_metric (NewKeyCache 0))) with (init_state zero_metric K) in *.
  destruct (publish_metrics _ _ _ _ _ _ _) as [[s ms'] r]. cbn [fst snd] in *.
  unfold PublishConc.cstep. cbn [w_calls lookup list_lookup].
  destruct r as [[]|e|]; [|by destruct c as [[|] ? ?]; cbn in *; subst..].
  destruct H2 as (Ht & Hf & Hp). destruct c as [td lc fi]. cbn in Ht, Hf, Hp. subst td fi.
  rewrite Hp. cbn. by destruct (send 0 (p_payload s)).
Qed.

(** ** Properties *)

(** Whatever the order in which calls of [Publish] run, each sends what it is to
    send: every payload in the broker is, message by message, the one the
    settings ask for the metrics of one of the calls, in their order, each topic
    with its partition, its rewritten org and the metric in full or as a point
    that decodes to it; and so is the payload of every call that got as far as
    its send, accepted or not. *)
Theorem concurrent_calls_send_what_they_are_to_send K requests schedule :
  has_producer cfg = true → wf K → Forall (Forall wf_input) requests →
  let w := crun schedule (start cfg m K requests) in
  let routed_as ms := Forall2 (message_for MarshalMsg PartitionID cfg) (expected (topics m) (deduced <$> ms)) in
  Forall (λ payload, ∃ (i : nat) ms, requests !! i = Some ms ∧ routed_as ms payload) (w_log w) ∧
  ∀ (i : nat) c ms, w_calls w !! i = Some c → requests !! i = Some ms → finished c ≠ None → todo c = [] →
    routed_as ms (p_payload (local c)).
Proof.
  intros Hp HK Hr w routed_as.
  destruct (calls_run K requests Hp HK Hr schedule) as [gs [_ Hc _ _ _ Hl]]. fold w in Hc, Hl.
  assert (Hcall : ∀ (i : nat) c ms, w_calls w !! i = Some c → requests !! i = Some ms → finished c ≠ None →
    ¬ early c → routed_as ms (p_payload (local c))).
  { intros i c ms Hi Hms Hf He. destruct (Hc i c ms Hi Hms He) as (_ & _ & Htodo & exp & Hinv & E & _).
    rewrite (Htodo Hf) in E. cbn [left_over] in E. rewrite app_nil_r in E. unfold routed_as. fold (total ms).
    rewrite <- E. apply (inv_msgs _ _ _ _ _ _ Hinv). }
  split.
  - eapply Forall_impl; [exact Hl|]. intros payload (i & c & Hi & Hf & He & <-).
    assert (Hlen : length (w_calls w) = length requests) by apply crun_calls_length.
    destruct (lookup_lt_is_Some_2 requests i) as [ms Hms]; [rewrite <- Hlen; by eapply lookup_lt_Some|].
    exists i, ms. split; [done|]. apply (Hcall i c ms); [done|done|by rewrite Hf|done].
  - intros i c ms Hi Hms Hf Htd. apply (Hcall i c ms); [done..|]. by intros [_ ?].
Qed.

(** C12. With v2, of all calls that run at the same time one sends a series in full.
    For a gateway that publishes, and metrics whose values are 64 bits wide and
    whose id, where they come with an interval, is the one computed of their
    content (an admin's /metrics may hold others): while no call returns early
    and the key cache is not cleared, two calls never both carry a series in
    full, nor one that was known at the start; and every point is of a series that
    was known at the start, or that its own call carries in full before, or that
    another call carries in full. *)
Theorem one_call_carries_a_series_in_full K requests schedule :
  has_producer cfg = true → wf K → Forall (Forall wf_input) requests → v2 cfg = true →
  let w := crun schedule (start cfg m K requests) in
  (∀ (i : nat) c, w_calls w !! i = Some c → ¬ early c) →
  (∀ i j k, full_in requests w i k → full_in requests w j k → i = j ∧ ¬ seen K k) ∧
  ∀ (i : nat) c ms p k ty,
    w_calls w !! i = Some c → requests !! i = Some ms → carried ms c !! p = Some (k, ty) → ty ≠ TMetricData →
    seen K k ∨ (k, TMetricData) ∈ take p (carried ms c) ∨ ∃ j, j ≠ i ∧ full_in requests w j k.
Proof.
  intros Hp HK Hr Hv w Hearly.
  destruct (calls_run K requests Hp HK Hr schedule) as [gs [_ Hc Hg Hk Ho _]]. fold w in Hc, Hk, Ho.
  assert (Hno : ¬ some_early w) by (intros (i & c & Hi & He); by eapply Hearly).
  assert (Hfull : ∀ i k, full_in requests w i k → wf_key k ∧ ¬ seen (gs i) k).
  { intros i k (c & ms & Hi & Hms & Hin). split; [by apply entries_key in Hin as [? _]|].
    destruct (call_entries _ _ _ _ (Hc i c ms Hi Hms (Hearly i c Hi))) as (exp & Hinv & E & _).
    rewrite E in Hin. by apply (inv_full _ _ _ _ _ _ Hinv k Hv). }
  split.
  - intros i j k Hi Hj. destruct (Hfull i k Hi) as [Hwk Hn]. split.
    + destruct (decide (i = j)) as [|Hne]; [done|]. by destruct (Ho i j k Hv ltac:(congruence) Hj).
    + intros Hs. by apply Hn, Hg.
  - intros i c ms p k ty Hi Hms Hpk Hty.
    destruct (call_entries _ _ _ _ (Hc i c ms Hi Hms (Hearly i c Hi))) as (exp & Hinv & E & _).
    assert (Hwk : wf_key k) by (apply list_elem_of_lookup_2 in Hpk; by apply entries_key in Hpk as [? _]).
    rewrite E in *. destruct (inv_just _ _ _ _ _ _ Hinv p k ty Hpk Hty) as [Hs|]; [|by right; left].
    destruct (Hk i k Hwk Hs) as [?|[?|?]]; [by left|by right; right|done].
Qed.
End spec.

(** ** Two requests with the same series *)

Definition ex_topic : mtPublisher := mkPublisher true [mkTopic "mdm" PartitionBySeries 8 0 [] 0 0].
Definition ex_first : list MetricData := [ex_metric 10 "some.id"].
Definition ex_second : list MetricData := [ex_metric 10 "some.id"; ex_metric 0 "other.id"].
Definition ex_two : list (list MetricData) := [ex_first; ex_second].
(** The first touches the series, the second overtakes it. *)
Definition ex_order : list nat := [0; 0; 1; 1; 1; 1; 1; 0].
Abbreviation ex_world send := (crun ex_marshal ex_partition ex_auto ex_cfg ex_topic send ex_order
  (start ex_cfg ex_topic (NewKeyCache 0) ex_two)).
Definition ex_w : world := ex_world (λ _ _, true).
Definition kinds (w : world) : list (list MetricDataType) :=
  (λ payload : list ProducerMessage, (λ msg, Type_ (Message msg)) <$> payload) <$> w_log w.

(** A series is marked as published when its full message is made, not when the
    broker has it. A request that runs at the same time then publishes the series
    as a point, which the broker has before the full message; and if the send of
    the first fails, that point is all the broker ever gets, with the second
    request answered as published. *)
Theorem a_point_overtakes_the_full_message :
  kinds (ex_world (λ _ _, true)) = [[TMetricPoint; TMetricData]; [TMetricData]] ∧
  (carried ex_auto ex_topic ex_first <$> (w_calls (ex_world (λ _ _, true)) !! 0)) =
    Some [(key_of (ex_metric 10 "some.id"), TMetricData)] ∧
  kinds (ex_world (λ i _, bool_decide (i = 1))) = [[TMetricPoint; TMetricData]] ∧
  finished <$> w_calls (ex_world (λ i _, bool_decide (i = 1))) = [Some (Err SendFailed); Some (Ok tt)].
Proof. vm_compute. split_and!; reflexivity. Qed.

Lemma ex_two_wf : Forall (Forall wf_input) ex_two.
Proof. repeat constructor; try (by vm_compute); intros _; apply id_set_SetId. Qed.

Lemma concurrent_calls_send_what_they_are_to_send_witness :
  length (w_log ex_w) = 2 ∧
  Forall (λ payload, ∃ (i : nat) ms, ex_two !! i = Some ms ∧
    Forall2 (message_for ex_marshal ex_partition ex_cfg) (expected (topics ex_topic) (deduced ex_auto ex_topic <$> ms)) payload)
    (w_log ex_w).
Proof.
  split; [vm_compute; reflexivity|].
  apply (concurrent_calls_send_what_they_are_to_send ex_marshal ex_partition ex_auto ex_cfg ex_topic (λ _ _, true)
    (NewKeyCache 0) ex_two ex_order eq_refl (NewKeyCache_wf 0) ex_two_wf).
Defined.

Lemma from_option_true {A} (o : option A) (f : A → bool) :
  from_option f false o = true → ∃ x, o = Some x ∧ f x = true.
Proof. destruct o as [x|]; [by exists x|done]. Qed.

Definition on_time (c : call) : bool := match finished c, todo c with Some _, _ :: _ => false | _, _ => true end.

Lemma on_time_all w :
  forallb on_time (w_calls w) = true → ∀ (i : nat) c, w_calls w !! i = Some c → ¬ early c.
Proof.
  intros H i c Hi [H1 H2]. apply Is_true_true, forallb_True in H. eapply Forall_lookup_1 in H; [|exact Hi].
  unfold on_time in H. destruct (finished c); [|done]. by destruct (todo c).
Qed.

Definition ex_key : MKey := key_of (ex_metric 10 "some.id").

(** The point of call 1 is of a series that call 0 carries in full. *)
Lemma one_call_carries_a_series_in_full_witness :
  ∃ j, j ≠ 1 ∧ full_in ex_auto ex_topic ex_two ex_w j ex_key.
Proof.
  destruct (from_option_true (w_calls ex_w !! 1)
    (λ c, bool_decide (carried ex_auto ex_topic ex_second c !! 0 = Some (ex_key, TMetricPoint))))
    as (c & Hc & Hp); [vm_compute; reflexivity|]. apply bool_decide_eq_true in Hp.
  assert (He : forallb on_time (w_calls ex_w) = true) by (vm_compute; reflexivity).
  assert (Hn : bool_decide (seen (NewKeyCache 0) ex_key) = false) by (vm_compute; reflexivity).
  apply bool_decide_eq_false in Hn.
  assert (E : ex_world (λ _ _, true) = ex_w) by (unfold ex_w; reflexivity).
  assert (H : ∀ w, ex_world (λ _ _, true) = w → (∀ (i : nat) c, w_calls w !! i = Some c → ¬ early c) →
    ∀ (i : nat) c ms p k ty, w_calls w !! i = Some c → ex_two !! i = Some ms →
      carried ex_auto ex_topic ms c !! p = Some (k, ty) → ty ≠ TMetricData →
      seen (NewKeyCache 0) k ∨ (k, TMetricData) ∈ take p (carried ex_auto ex_topic ms c) ∨
      ∃ j, j ≠ i ∧ full_in ex_auto ex_topic ex_two w j k).
  { intros w <- Hw. exact (proj2 (one_call_carries_a_series_in_full ex_marshal ex_partition ex_auto ex_cfg ex_topic
      (λ _ _, true) (NewKeyCache 0) ex_two ex_order eq_refl (NewKeyCache_wf 0) ex_two_wf eq_refl Hw)). }
  specialize (H ex_w E (on_time_all _ He)).
  destruct (H 1 c ex_second 0 ex_key TMetricPoint Hc ltac:(reflexivity) Hp ltac:(discriminate)) as [H0|[H0|H0]].
  - contradiction.
  - rewrite take_0 in H0. inversion H0.
  - exact H0.
Defined.
