(* ===== verification/PublishClears.v ===== *)
(** * publish/kafka, concurrent calls while the key cache is cleared

    The invariant of PublishConcSpec.v says which keys a call found known, and a
    clear takes some of them back, or has a call mark a key in a cache nobody will
    look up again. What survives is lighter: a known key, in the map or in such a
    cache, was known at the start, or a call carries its series in full. *)

From S2P Require Import Prelude GoStrings Strconv Md5 Schema KeyCache Kafka KafkaSpec PublishConc PublishConcSpec.
From Stdlib Require Import Ascii.

(** ** Clearing *)

Lemma with_cache_wf org oc k : wf k → (∀ c, oc = Some c → wf_cache c) → wf (with_cache org oc k).
Proof.
  intros [Hw Hi] Hc. split; [|done]. intros o c. cbn [caches with_cache with_caches].
  destruct (decide (org = o)) as [->|Hne]; [rewrite lookup_partial_alter_eq; apply Hc|].
  rewrite lookup_partial_alter_ne by done. apply Hw.
Qed.

Lemma with_cache_seen org oc k key :
  seen (with_cache org oc k) key →
  (Org key = org ∧ ∃ c, oc = Some c ∧ in_cache c (Key key)) ∨ Org key ≠ org ∧ seen k key.
Proof.
  intros (c & Hc & Hin). cbn [caches with_cache with_caches] in Hc. destruct (decide (org = Org key)) as [->|Hne].
  - rewrite lookup_partial_alter_eq in Hc. left. by eauto.
  - rewrite lookup_partial_alter_ne in Hc by done. right. split; [done|]. by exists c.
Qed.

(** Both steps of the clearing goroutine change the cache of one org. *)
Lemma reset_org_eq org k :
  reset_org org k = with_cache org ((λ c, (Cache.Clear c (clearIdx k)).2) <$> caches k !! org) k.
Proof.
  unfold reset_org, with_cache, with_caches. f_equal. apply map_eq. intros o. destruct (decide (org = o)) as [->|Hne].
  - by rewrite lookup_alter_eq, lookup_partial_alter_eq.
  - by rewrite lookup_alter_ne, lookup_partial_alter_ne.
Qed.

Lemma drop_org_eq org k : drop_org org k = with_cache org None k.
Proof. done. Qed.

Lemma reset_org_wf org k : wf k → wf (reset_org org k).
Proof.
  intros Hw. rewrite reset_org_eq. apply with_cache_wf; [done|]. intros c (c0 & Hc & ->)%fmap_Some.
  apply Cache_Clear_wf. destruct Hw as [Hw _]. by apply (Hw _ _ Hc).
Qed.

Lemma reset_org_seen org k key : wf k → seen (reset_org org k) key → seen k key.
Proof.
  intros [Hw Hi]. rewrite reset_org_eq. intros [(<- & c & Hc & Hin)|[_ ?]]%with_cache_seen; [|done].
  apply fmap_Some in Hc as (c0 & Hc & ->). exists c0. split; [done|].
  by apply (Cache_Clear_in c0 (clearIdx k) (Key key) ltac:(by apply (Hw _ _ Hc)) Hi) in Hin as [_ ?].
Qed.

Lemma drop_org_seen org k key : seen (drop_org org k) key → seen k key.
Proof. rewrite drop_org_eq. by intros [(_ & c & ? & _)|[_ ?]]%with_cache_seen. Qed.

(** A tick is these steps, with nothing between them: the orgs one after the
    other, each dropped if its cache is empty after the reset. *)
Definition clear_org (org : Z) (k : KeyCache) : KeyCache :=
  match caches (reset_org org k) !! org with
  | Some c => if bool_decide (Cache.Len c = 0) then drop_org org (reset_org org k) else reset_org org k
  | None => k
  end.

Lemma clear_org_target org k : clear_org org k = with_caches k (clear_target (clearIdx k) (caches k) org).
Proof.
  unfold clear_org, clear_target, reset_org. cbn [caches with_caches]. rewrite lookup_alter_eq.
  destruct (caches k !! org) as [c|] eqn:Ec; cbn; [|by destruct k].
  destruct (bool_decide _); unfold drop_org, with_caches; cbn; f_equal; apply map_eq; intros o;
    destruct (decide (org = o)) as [->|Hne].
  - by rewrite !lookup_delete_eq.
  - by rewrite !lookup_delete_ne, lookup_alter_ne.
  - by rewrite lookup_alter_eq, lookup_insert_eq, Ec.
  - by rewrite lookup_alter_ne, lookup_insert_ne.
Qed.

Lemma clear_steps k :
  clear k = next_shard (foldl (λ k org, clear_org org k) k (map_to_list (caches k)).*1).
Proof.
  unfold clear. generalize ((map_to_list (caches k)).*1) as l. intros l. revert k.
  induction l as [|o l IH]; intros k; [done|]. cbn [foldl].
  pose proof (IH (clear_org o k)) as H. rewrite clear_org_target in *.
  cbn [with_caches caches clearIdx clearInterval] in H. exact H.
Qed.

Lemma next_shard_wf k : wf k → wf (next_shard k).
Proof. intros [Hw Hi]. split; [done|]. cbn. case_bool_decide; lia. Qed.

Section spec.
Context (MarshalMsg : MetricData → option string).
Context (PartitionID : PartitionByMethod → MetricData → Z → option Z).
Context (auto_interval : string → Z).
Context (cfg : pub_cfg) (m : mtPublisher).
Context (send : nat → list ProducerMessage → bool).

#[local] Abbreviation run_job := (run_job MarshalMsg PartitionID auto_interval cfg m).
#[local] Abbreviation cstep := (cstep MarshalMsg PartitionID auto_interval cfg m send).
#[local] Abbreviation estep := (estep MarshalMsg PartitionID auto_interval cfg m send).
#[local] Abbreviation erun := (erun MarshalMsg PartitionID auto_interval cfg m send).
#[local] Abbreviation deduced := (deduced auto_interval m).
#[local] Abbreviation message_for := (message_for MarshalMsg PartitionID cfg).
#[local] Abbreviation carries := (carries MarshalMsg cfg).
#[local] Abbreviation total := (total auto_interval m).
#[local] Abbreviation carried := (carried auto_interval m).
#[local] Abbreviation left_over := (left_over auto_interval m).
#[local] Abbreviation full_in := (full_in auto_interval m).

(** ** One round of the loop over the topics

    [J]: the keys whose series is known or carried in full. *)
Record light (J : MKey → Prop) (m0 : MetricData) (s : pub_state) : Prop := {
  li_wf : wf (p_keys s);
  li_seen k : wf_key k → seen (p_keys s) k → J k;
  li_metric : p_metric s = m0;
  li_cache o b : p_cache s !! o = Some b →
    carries (as_org o m0) b ∧ (Type_ b ≠ TMetricData → J (key_of (as_org o m0))) }.

Lemma buffer_for_light (J : MKey → Prop) m0 s s' b o :
  wf_metric m0 → light J m0 (set_metric m0 s) → p_metric s = as_org o m0 →
  buffer_for MarshalMsg cfg (as_org o m0) s = (s', Ok b) →
  p_metric s' = as_org o m0 ∧ p_payload s' = p_payload s ∧ wf (p_keys s') ∧
  carries (as_org o m0) b ∧ (Type_ b ≠ TMetricData → J (key_of (as_org o m0))) ∧
  (∀ k, wf_key k → seen (p_keys s') k → J k ∨ k = key_of (as_org o m0) ∧ Type_ b = TMetricData) ∧
  (∀ o' b', p_cache s' !! o' = Some b' → p_cache s !! o' = Some b' ∨ o' = o ∧ b' = b).
Proof.
  intros [Hid Hval] [Hw Hs _ Hc] Hm. cbn [p_metric p_keys p_cache set_metric] in *. unfold buffer_for. intros H. st_inv.
  change (OrgId (as_org o m0)) with o in *. destruct (p_cache s !! o) as [b0|] eqn:Eo; st_inv.
  - destruct (Hc _ _ Eo) as [H1 H2]. split_and!; try done; auto.
  - match goal with H : dataFromMetricData _ _ _ _ = _ |- _ =>
      apply dataFromMetricData_ok in H as (k' & -> & Hw' & Hca & Hv & Hnv & Hpt & _) end;
      [|done|apply id_set_as_org|done].
    cbn [p_metric p_keys p_cache p_payload set_metric set_keys set_cache].
    pose proof (key_of_wf (as_org o m0)) as Hk.
    split_and!; try done.
    + intros Ht. apply Hs; [done|]. by apply Hpt.
    + intros k Hkk Hsk. destruct (v2 cfg) eqn:Ev.
      * rewrite Hv in Hsk by done. apply seen_Touch in Hsk as [->|Hsk]; [|left; by apply Hs|done..].
        destruct (decide (Type_ b = TMetricData)) as [Et|Et]; [by right|left]. apply Hs; [done|]. by apply Hpt.
      * rewrite Hnv in Hsk by done. left. by apply Hs.
    + intros o' b' [[<- <-]|[_ ?]]%lookup_insert_Some; auto.
Qed.

Lemma publish_topic_light (J : MKey → Prop) m0 t s s' :
  wf_metric m0 → light J m0 s → publish_topic MarshalMsg PartitionID cfg t s = (s', Ok tt) →
  ∃ msgs, p_payload s' = p_payload s ++ msgs ∧ Forall2 message_for (routed [t] m0) msgs ∧
    let J' k := J k ∨ (k, TMetricData) ∈ entries (routed [t] m0) msgs in
    light J' m0 s' ∧ ∀ k ty, (k, ty) ∈ entries (routed [t] m0) msgs → ty ≠ TMetricData → J' k.
Proof.
  intros Hm0 Hli. unfold publish_topic. intros H. st_inv.
  rewrite (li_metric _ _ _ Hli) in *. rewrite routed_one.
  destruct (topic_takes t m0); cbn [negb] in *; st_inv.
  2:{ exists []. rewrite app_nil_r. split; [done|]. split; [by apply Forall2_nil_2|]. cbv zeta. split; [|by intros k ty ?%elem_of_nil].
      destruct Hli as [A B C D]. split; [done|by left; auto|done|]. intros o b Hb. destruct (D o b Hb). auto. }
  pose proof (proj1 Hm0) as Hid. cbn [p_metric set_metric] in *.
  rewrite (rewrite_as_org t m0 Hid) in *. set (o := OrgId (rewrite_org t m0)) in *. clearbody o.
  match goal with H : buffer_for _ _ _ _ = (?s3, Ok ?b3) |- _ =>
    apply (buffer_for_light J m0) in H; [rename H into HB, b3 into b|done| |done] end.
  2:{ destruct Hli as [A B C D]. by split. }
  cbn [p_metric p_keys p_cache p_payload p_count set_metric] in *.
  destruct HB as (Hm3 & Hp3 & Hw3 & Hcar & Hpt & Hnew & Hcache).
  rewrite partition_effect_id, restore_as_org in * by (done || apply id_set_as_org).
  set (msg := mkMessage (name t) _ b). exists [msg].
  assert (Hent : entries [(t, as_org o m0)] [msg] = [(key_of (as_org o m0), Type_ b)]) by done.
  rewrite Hent. cbn [p_payload add_message set_metric]. rewrite Hp3. split; [done|].
  split; [by repeat constructor|]. cbv zeta. split.
  - destruct Hli as [A B C D]. split; cbn [p_metric p_keys p_cache set_metric add_message].
    + done.
    + intros k Hk Hs. destruct (Hnew k Hk Hs) as [?|[-> Et]]; [by left|right]. rewrite Et. by apply list_elem_of_singleton.
    + done.
    + intros o' b' [Hin|[-> ->]]%Hcache; [|split; [done|]; auto]. destruct (D o' b' Hin). split; [done|]. auto.
  - intros k ty [= -> ->]%list_elem_of_singleton Hty. left. auto.
Qed.

(** ** A call *)

Definition call_light (J : MKey → Prop) (ms : list MetricData) (c : call) : Prop :=
  Forall job_wf (todo c) ∧ (finished c ≠ None → todo c = []) ∧
  ∃ exp, Forall2 message_for exp (p_payload (local c)) ∧
    exp ++ left_over (p_metric (local c)) (todo c) = total ms ∧
    (∀ k ty, (k, ty) ∈ entries exp (p_payload (local c)) → ty ≠ TMetricData → J k) ∧
    match todo c with
    | JTopic _ :: _ => wf_metric (p_metric (local c)) ∧
        ∀ o b, p_cache (local c) !! o = Some b →
          carries (as_org o (p_metric (local c))) b ∧
          (Type_ b ≠ TMetricData → J (key_of (as_org o (p_metric (local c)))))
    | _ => True
    end.

Lemma call_light_mono (J J' : MKey → Prop) ms c : (∀ k, J k → J' k) → call_light J ms c → call_light J' ms c.
Proof.
  intros HJ (Hj & Hf & exp & Hm & He & Hp & Ht). split_and!; [done..|]. exists exp. split_and!; [done|done|eauto|].
  destruct (todo c) as [|[x|t] r]; [done|done|]. destruct Ht as [H1 H2]. split; [done|].
  intros o b Hb. destruct (H2 o b Hb). auto.
Qed.

Lemma entries_app exp1 exp2 l1 l2 :
  length exp1 = length l1 → entries (exp1 ++ exp2) (l1 ++ l2) = entries exp1 l1 ++ entries exp2 l2.
Proof. intros H. unfold entries. by rewrite zip_with_app. Qed.

(** The next job of a call. What is known after it is known before, or carried in
    full by now. *)
Lemma run_job_light (J : MKey → Prop) K ms j rest s s' r :
  wf K → (∀ k, wf_key k → seen K k → J k) → call_light J ms (mkCall (j :: rest) s None) →
  run_job j (set_keys K s) = (s', r) →
  wf (p_keys s') ∧ p_payload s `prefix_of` p_payload s' ∧
  ∀ u, r = Ok u → ∀ J' : MKey → Prop,
    (∀ k, J k → J' k) → (∀ k, (k, TMetricData) ∈ carried ms (mkCall rest s' None) → J' k) →
    (∀ k, wf_key k → seen (p_keys s') k → J' k) ∧ call_light J' ms (mkCall rest s' None).
Proof.
  intros HK HJ ([Hj Hjs]%Forall_cons & _ & exp & Hm & He & Hp & Ht). cbn [todo local finished] in *.
  destruct j as [x|t]; cbn [PublishConc.run_job]; intros H.
  - assert (Hs : p_keys s' = K ∧ p_payload s' = p_payload s ∧
      (∀ u, r = Ok u → s' = set_cache ∅ (set_metric (deduced x) (set_keys K s)))).
    { rewrite bind_eval in H. unfold deduce_interval, KafkaSpec.deduced in *. rewrite bind_eval in H. cbn in H.
      case_bool_decide; [destruct (autoInterval m)|]; cbn in H; injection H as <- <-; split_and!; done. }
    destruct Hs as (E1 & E2 & Hok). rewrite E1, E2. split_and!; [done|done|].
    intros u Hr J' HJ' _. split; [eauto|]. rewrite (Hok u Hr). split_and!; [done|done|]. exists exp.
    cbn [local todo p_payload p_metric p_cache set_cache set_metric set_keys]. split_and!; [done|done|eauto|].
    destruct rest as [|[y|t] rest]; [done|done|]. cbn in Hj. split; [by apply deduced_wf|].
    intros o b Hb. by rewrite lookup_empty in Hb.
  - destruct Ht as [Hm0 Hc].
    pose proof (publish_topic_touches MarshalMsg PartitionID cfg t (set_keys K s) (proj1 Hm0)) as Htch.
    pose proof (topic_grows MarshalMsg PartitionID cfg t (set_keys K s)) as Hpre. rewrite H in Htch, Hpre.
    cbn [fst p_keys set_keys] in Htch. split; [|split; [exact Hpre|]].
    { destruct Htch as [->|(k & _ & ->)]; [done|by apply Touch_wf]. }
    intros [] -> J' HJ' Hcar.
    destruct (publish_topic_light J (p_metric s) t (set_keys K s) s') as (msgs & Ep & Hr & [A B C D] & Hpts); [done| |done|].
    { split; done. }
    cbn [p_payload set_keys] in Ep.
    assert (Hent : entries (exp ++ routed [t] (p_metric s)) (p_payload s') =
      entries exp (p_payload s) ++ entries (routed [t] (p_metric s)) msgs).
    { rewrite Ep. apply entries_app. by eapply Forall2_length. }
    assert (Hin : ∀ k, J k ∨ (k, TMetricData) ∈ entries (routed [t] (p_metric s)) msgs → J' k).
    { intros k [?|Hk]; [by apply HJ'|]. apply Hcar. unfold PublishConcSpec.carried. rewrite <- He. cbn [left_over local].
      rewrite app_assoc, entries_total.
      - rewrite Hent. apply elem_of_app. by right.
      - rewrite Ep, !length_app. f_equal; by eapply Forall2_length. }
    split; [intros k Hk Hs; apply Hin; by apply B|].
    split_and!; [done|done|]. exists (exp ++ routed [t] (p_metric s)). cbn [local todo]. rewrite C. split_and!.
    + rewrite Ep. by apply Forall2_app.
    + by rewrite <- app_assoc.
    + rewrite Hent. intros k ty [Hk|Hk]%elem_of_app Hty; [apply HJ'; by eapply Hp|]. apply Hin. by eapply Hpts.
    + destruct rest as [|[y|t'] rest]; [done|done|]. split; [done|]. intros o b Hb.
      destruct (D o b Hb) as [H1 H2]. split; [done|]. auto.
Qed.

(** ** All calls *)

Section requests.
Context (K0 : KeyCache) (requests : list (list MetricData)).

(** The series was known at the start, or a call carries it in full, or a call
    has given up, with a key it has touched. *)
Definition known (w : world) (k : MKey) : Prop :=
  seen K0 k ∨ (∃ j, full_in requests w j k) ∨ some_early w.

Definition logged (w : world) (payload : list ProducerMessage) : Prop :=
  ∃ (i : nat) c, w_calls w !! i = Some c ∧ finished c = Some (Ok tt) ∧ ¬ early c ∧ p_payload (local c) = payload.

Record world_light (w : world) : Prop := {
  wl_wf : wf (w_keys w);
  wl_seen k : wf_key k → seen (w_keys w) k → known w k;
  wl_call (i : nat) c ms : w_calls w !! i = Some c → requests !! i = Some ms → ¬ early c → call_light (known w) ms c;
  wl_log : Forall (logged w) (w_log w) }.

Lemma world_light_step w i c c' K log ms :
  world_light w → w_calls w !! i = Some c → requests !! i = Some ms → finished c = None →
  p_payload (local c) `prefix_of` p_payload (local c') → wf K →
  let w' := mkWorld K (<[i := c']> (w_calls w)) log in
  ((∀ k, known w k → known w' k) →
    (∀ k, wf_key k → seen K k → known w' k) ∧ (¬ early c' → call_light (known w') ms c') ∧ Forall (logged w') log) →
  world_light w'.
Proof.
  intros [Hw Hs Hc Hl] Hi Hr Hun Hpre HK w' Hrest.
  assert (Hmono : ∀ k, known w k → known w' k).
  { intros k [?|[[j Hj]|He]]; [by left|right; left|right; right].
    - exists j. by apply (full_in_step _ _ _ _ _ _ c' K log Hi Hpre).
    - by apply (some_early_step _ _ _ c' K log Hi Hun). }
  destruct (Hrest Hmono) as (H1 & H2 & H3). split; [done|done| |done].
  intros j cj msj Hj Hrj He. cbn in Hj. destruct (decide (j = i)) as [->|Hne].
  - rewrite list_lookup_insert_eq in Hj by by eapply lookup_lt_Some. injection Hj as <-.
    rewrite Hr in Hrj. injection Hrj as <-. by apply H2.
  - rewrite list_lookup_insert_ne in Hj by done. eapply call_light_mono; [exact Hmono|]. by apply (Hc j).
Qed.

Lemma logged_step w i c c' K log l :
  w_calls w !! i = Some c → finished c = None → Forall (logged w) l →
  Forall (logged (mkWorld K (<[i := c']> (w_calls w)) log)) l.
Proof. intros Hi Hun. apply (log_step w i c c' K log Hi Hun). Qed.

Lemma estep_length e w : length (w_calls (e_world (estep e w))) = length (w_calls (e_world w)).
Proof.
  destruct e as [i|i n|org|org|]; cbn [PublishConc.estep]; try done.
  - apply cstep_length.
  - destruct (e_orphans w !! n) as [[org c]|]; [|done]. cbn [w_calls with_keys e_world]. by rewrite cstep_length.
  - by destruct (caches _ !! org).
Qed.

Lemma run_job_grows j s : p_payload s `prefix_of` p_payload (run_job j s).1.
Proof.
  destruct j as [x|t]; cbn [PublishConc.run_job]; [|apply topic_grows].
  unfold deduce_interval. rewrite !bind_eval. cbn.
  case_bool_decide; [destruct (autoInterval m)|]; done.
Qed.

Lemma known_cstep i w k : known w k → known (cstep i w) k.
Proof.
  intros Hk. unfold PublishConc.cstep. destruct (w_calls w !! i) as [[[|j r] s [o|]]|] eqn:Hi; try done.
  - destruct Hk as [?|[[l Hl]|He]]; [by left|right; left|right; right].
    + exists l. by eapply full_in_step; [exact Hi|..].
    + by eapply some_early_step; [exact Hi|..].
  - pose proof (run_job_grows j (set_keys (w_keys w) s)) as Hg.
    destruct (run_job _ _) as [s' x]. destruct Hk as [?|[[l Hl]|He]]; [by left|right; left|right; right].
    + exists l. eapply full_in_step; [exact Hi| |exact Hl]. by destruct x.
    + by eapply some_early_step; [exact Hi|..].
Qed.

Lemma world_light_job w i j rest s ms :
  world_light w → w_calls w !! i = Some (mkCall (j :: rest) s None) → requests !! i = Some ms →
  world_light (cstep i w).
Proof.
  intros Hwl Hi Hr. unfold PublishConc.cstep. rewrite Hi.
  destruct (run_job j (set_keys (w_keys w) s)) as [s' r] eqn:Ej.
  assert (He0 : ¬ early (mkCall (j :: rest) s None)) by by intros [? _].
  destruct (run_job_light (known w) (w_keys w) ms j rest s s' r) as (HK & Hpre & Hok);
    [apply Hwl|apply Hwl|by apply (wl_call _ Hwl i)|done|].
  eapply (world_light_step w i _ _ _ _ ms Hwl Hi Hr eq_refl); [|exact HK|intros Hmono].
  { by destruct r. }
  split_and!; [| |by apply (logged_step _ _ _ _ _ _ _ Hi), Hwl].
  - destruct r as [u|e|].
    + eapply (Hok u eq_refl); [done|]. intros k Hk. right; left. exists i. eexists _, ms. split_and!; [|done|exact Hk].
      cbn. apply list_lookup_insert_eq. by eapply lookup_lt_Some.
    + intros k _ _. right; right. exists i. eexists. split; [cbn; apply list_lookup_insert_eq; by eapply lookup_lt_Some|done].
    + intros k _ _. right; right. exists i. eexists. split; [cbn; apply list_lookup_insert_eq; by eapply lookup_lt_Some|done].
  - destruct r as [u|e|]; [|intros He; by destruct He..].
    intros _. eapply (Hok u eq_refl); [done|]. intros k Hk. right; left. exists i. eexists _, ms. split_and!; [|done|exact Hk].
    cbn. apply list_lookup_insert_eq. by eapply lookup_lt_Some.
Qed.

Lemma world_light_send w i s ms :
  world_light w → w_calls w !! i = Some (mkCall [] s None) → requests !! i = Some ms → world_light (cstep i w).
Proof.
  intros Hwl Hi Hr. unfold PublishConc.cstep. rewrite Hi. cbv zeta.
  eapply (world_light_step w i _ _ _ _ ms Hwl Hi Hr eq_refl); [done|apply Hwl|intros Hmono].
  split_and!.
  - intros k H1 H2. by apply Hmono, Hwl.
  - intros _. eapply call_light_mono; [exact Hmono|].
    destruct (wl_call _ Hwl i _ ms Hi Hr) as (H1 & _ & H3); [by intros [? _]|]. by split_and!.
  - apply Forall_app. split; [by apply (logged_step _ _ _ _ _ _ _ Hi), Hwl|].
    destruct (send i (p_payload s)); [|apply Forall_nil_2]. apply Forall_cons. split; [|apply Forall_nil_2].
    exists i. eexists. split; [cbn; apply list_lookup_insert_eq; by eapply lookup_lt_Some|].
    split_and!; [done|by intros [_ ?]|done].
Qed.

(** The same calls over other keys. *)
Lemma world_light_keys w K :
  world_light w → wf K → (∀ k, wf_key k → seen K k → known w k) → world_light (with_keys K w).
Proof. intros [Hw Hs Hc Hl] HK Hsub. by split. Qed.

Lemma world_light_cstep i w :
  length (w_calls w) = length requests → world_light w → world_light (cstep i w).
Proof.
  intros Hlen Hw. destruct (w_calls w !! i) as [c|] eqn:Hi; [|unfold PublishConc.cstep; by rewrite Hi].
  destruct (lookup_lt_is_Some_2 requests i) as [ms Hms]; [rewrite <- Hlen; by eapply lookup_lt_Some|].
  destruct c as [[|j r] s [o|]].
  - unfold PublishConc.cstep. by rewrite Hi.
  - by eapply world_light_send.
  - unfold PublishConc.cstep. by rewrite Hi.
  - by eapply world_light_job.
Qed.

(** A cache that was dropped holds known keys only, too. *)
Definition orphan_ok (w : world) (o : Z * Cache.Cache) : Prop :=
  wf_cache o.2 ∧ ∀ k, wf_key k → Org k = o.1 → in_cache o.2 (Key k) → known w k.

Lemma orphan_ok_cstep i w o : orphan_ok w o → orphan_ok (cstep i w) o.
Proof. intros [H1 H2]. split; [done|]. intros k ???. apply known_cstep. auto. Qed.

Definition eworld_light (w : eworld) : Prop := world_light (e_world w) ∧ Forall (orphan_ok (e_world w)) (e_orphans w).

(** A call that goes on with an orphan [c] of [org]. *)
Lemma stale_light i w org c :
  length (w_calls w) = length requests → world_light w → orphan_ok w (org, c) →
  let w1 := cstep i (with_keys (with_cache org (Some c) (w_keys w)) w) in
  world_light (with_keys (with_cache org (caches (w_keys w) !! org) (w_keys w1)) w1) ∧
  orphan_ok w1 (org, default c (caches (w_keys w1) !! org)) ∧ ∀ k, known w k → known w1 k.
Proof.
  intros Hlen Hw [Hc1 Hc2] w1. cbn [fst snd] in *.
  assert (Hw0 : world_light (with_keys (with_cache org (Some c) (w_keys w)) w)).
  { apply world_light_keys; [done| |].
    - apply with_cache_wf; [apply Hw|]. by intros c' [= <-].
    - intros k Hk [(Ho & c' & [= <-] & Hin)|[_ Hs]]%with_cache_seen; [by apply Hc2|by apply (wl_seen _ Hw)]. }
  assert (Hmono : ∀ k, known w k → known w1 k) by (intros k Hk; by apply known_cstep).
  apply (world_light_cstep i) in Hw0; [|done]. fold w1 in Hw0. split_and!; [| |done].
  - apply world_light_keys; [done| |].
    + apply with_cache_wf; [apply Hw0|]. destruct (wl_wf _ Hw) as [Hwf _]. intros c' Hc'. by apply (Hwf _ _ Hc').
    + intros k Hk [(Ho & c' & Hc' & Hin)|[_ Hs]]%with_cache_seen; [|by apply (wl_seen _ Hw0)].
      apply Hmono, (wl_seen _ Hw); [done|]. exists c'. by rewrite Ho.
  - destruct (caches (w_keys w1) !! org) as [c'|] eqn:Ec; cbn [default fst snd].
    + split; [destruct (wl_wf _ Hw0) as [Hwf _]; by apply (Hwf _ _ Ec)|]. intros k Hk Ho Hin.
      apply (wl_seen _ Hw0); [done|]. exists c'. by rewrite Ho.
    + split; [done|]. intros k Hk Ho Hin. by apply Hmono, Hc2.
Qed.

Lemma eworld_light_step e w :
  length (w_calls (e_world w)) = length requests → eworld_light w → eworld_light (estep e w).
Proof.
  intros Hlen [Hw Ho]. assert (Hsub : ∀ K, wf K → (∀ k, seen K k → seen (w_keys (e_world w)) k) →
    world_light (with_keys K (e_world w))).
  { intros K HK Hs. apply world_light_keys; [done|done|]. intros k Hk Hk'. by apply (wl_seen _ Hw), Hs. }
  destruct e as [i|i n|org|org|]; cbn [PublishConc.estep].
  - split; [by apply world_light_cstep|]. eapply Forall_impl; [exact Ho|]. intros o. apply orphan_ok_cstep.
  - destruct (e_orphans w !! n) as [[org c]|] eqn:En; [|by split].
    pose proof (Forall_lookup_1 _ _ _ _ Ho En) as Hc.
    destruct (stale_light i (e_world w) org c Hlen Hw Hc) as (H1 & H2 & H3). split; [exact H1|].
    apply Forall_insert; [|exact H2]. eapply Forall_impl; [exact Ho|]. intros o [A B]. split; [done|].
    intros k ???. apply H3. auto.
  - split; [|exact Ho]. apply Hsub; [apply reset_org_wf, Hw|]. intros k. apply reset_org_seen, Hw.
  - destruct (caches _ !! org) as [c|] eqn:Ec; [|by split]. split.
    + apply Hsub; [rewrite drop_org_eq; by apply with_cache_wf; [apply Hw|]|]. intros k. apply drop_org_seen.
    + apply Forall_app. split; [exact Ho|]. apply Forall_cons. split; [|apply Forall_nil_2].
      split; [destruct (wl_wf _ Hw) as [Hwf _]; by apply (Hwf _ _ Ec)|]. cbn [fst snd]. intros k Hk Hk' Hin.
      apply (wl_seen _ Hw); [done|]. exists c. by rewrite Hk'.
  - split; [|exact Ho]. apply Hsub; [apply next_shard_wf, Hw|done].
Qed.

Hypothesis producer : has_producer cfg = true.
Hypothesis keys_wf : wf K0.
Hypothesis input_wf : Forall (Forall wf_input) requests.

Lemma start_light : world_light (start cfg m K0 requests).
Proof using producer keys_wf input_wf.
  split; cbn [start w_keys w_calls w_log].
  - done.
  - intros k _ Hk. by left.
  - intros i c ms Hi Hr _. rewrite list_lookup_fmap, Hr in Hi. injection Hi as <-.
    rewrite Forall_forall in input_wf. pose proof (input_wf ms ltac:(by eapply list_elem_of_lookup_2)) as Hms.
    destruct (spawned_call_ok auto_interval cfg m ms producer Hms) as (H1 & H2 & H3 & H4 & H5). split_and!; [done..|].
    exists []. rewrite H1. split_and!; [by apply Forall2_nil_2|by rewrite H4|by intros k ty ?%elem_of_nil|].
    by destruct (todo (spawn cfg m ms)) as [|[]].
  - apply Forall_nil_2.
Qed.

Lemma erun_light events :
  let w := erun events (mkEworld (start cfg m K0 requests) []) in
  eworld_light w ∧ length (w_calls (e_world w)) = length requests.
Proof using All.
  cbv zeta. assert (Hlen : length (w_calls (start cfg m K0 requests)) = length requests) by (cbn; by rewrite length_fmap).
  assert (Hw : eworld_light (mkEworld (start cfg m K0 requests) [])) by (split; [exact start_light|apply Forall_nil_2]).
  change (start cfg m K0 requests) with (e_world (mkEworld (start cfg m K0 requests) [])) in Hlen.
  unfold PublishConc.erun. revert Hlen Hw. generalize (mkEworld (start cfg m K0 requests) []).
  induction events as [|e l IH]; intros w Hlen Hw; [done|]. cbn [foldl]. apply IH.
  - by rewrite estep_length.
  - by apply eworld_light_step.
Qed.
End requests.

(** ** Every call returns *)

(** The steps a call has left at most. *)
Definition turns_left (w : world) (i : nat) : nat :=
  match w_calls w !! i with
  | Some c => match finished c with Some _ => 0 | None => S (length (todo c)) end
  | None => 0
  end.

Lemma cstep_self i w : turns_left (cstep i w) i ≤ turns_left w i - 1.
Proof.
  unfold PublishConc.cstep. destruct (w_calls w !! i) as [[[|j r] s [o|]]|] eqn:Hi;
    try (unfold turns_left; rewrite Hi; cbn; lia).
  - unfold turns_left. cbn [w_calls]. rewrite list_lookup_insert_eq by by eapply lookup_lt_Some. cbn. lia.
  - destruct (run_job _ _) as [s' r']. unfold turns_left at 1. cbn [w_calls].
    rewrite list_lookup_insert_eq by by eapply lookup_lt_Some. unfold turns_left. rewrite Hi.
    destruct r'; cbn; lia.
Qed.

Lemma cstep_other i j w : i ≠ j → w_calls (cstep i w) !! j = w_calls w !! j.
Proof.
  intros Hne. unfold PublishConc.cstep. destruct (w_calls w !! i) as [[[|job r] s [o|]]|]; try done.
  - cbn. by rewrite list_lookup_insert_ne.
  - destruct (run_job _ _) as [s' r']. cbn. by rewrite list_lookup_insert_ne.
Qed.

(** No step of an event takes a call back, and its own takes it further. *)
Lemma estep_turns e w i :
  turns_left (e_world (estep e w)) i ≤
    turns_left (e_world w) i - match e with ERun j => if bool_decide (j = i) then 1 else 0 | _ => 0 end.
Proof.
  assert (Hc : ∀ j w0, turns_left (cstep j w0) i ≤ turns_left w0 i - (if bool_decide (j = i) then 1 else 0)).
  { intros j w0. case_bool_decide as Hj; [subst j; apply cstep_self|]. unfold turns_left.
    rewrite cstep_other by done. lia. }
  destruct e as [j|j n|org|org|]; cbn [PublishConc.estep].
  - apply Hc.
  - destruct (e_orphans w !! n) as [[org c]|]; [|lia].
    pose proof (Hc j (with_keys (with_cache org (Some c) (w_keys (e_world w))) (e_world w))) as H.
    unfold turns_left in *. cbn [w_calls with_keys e_world] in *. destruct (bool_decide _) in H; lia.
  - unfold turns_left. cbn. lia.
  - destruct (caches _ !! org); unfold turns_left; cbn; lia.
  - unfold turns_left. cbn. lia.
Qed.

(** The turns of a call in a schedule. *)
Definition turns (i : nat) (events : list event) : nat :=
  length (List.filter (λ e, match e with ERun j => bool_decide (j = i) | _ => false end) events).

(** A call that gets a turn for each of its metrics and topics, and one for the
    send, returns, whatever the others and the clearing goroutine do. *)
Theorem a_call_returns_in_its_turns K requests events (i : nat) ms :
  requests !! i = Some ms → S (length (jobs m ms)) ≤ turns i events →
  ∃ c, w_calls (e_world (erun events (mkEworld (start cfg m K requests) []))) !! i = Some c ∧ finished c ≠ None.
Proof.
  intros Hms Hturns. set (w0 := mkEworld (start cfg m K requests) []).
  assert (Hleft : ∀ w, turns_left (e_world (erun events w)) i ≤ turns_left (e_world w) i - turns i events).
  { clear Hturns. unfold PublishConc.erun, turns. induction events as [|e l IH]; intros w; cbn [foldl List.filter length]; [lia|].
    specialize (IH (estep e w)). pose proof (estep_turns e w i) as He.
    destruct e as [j|j n|org|org|]; try lia. case_bool_decide; cbn [length]; lia. }
  assert (Hlen : length (w_calls (e_world (erun events w0))) = length requests).
  { transitivity (length (w_calls (e_world w0))); [|cbn; by rewrite length_fmap].
    unfold PublishConc.erun. generalize w0.
    clear Hturns Hleft. induction events as [|e l IH]; intros w; [done|]. cbn [foldl]. by rewrite IH, estep_length. }
  specialize (Hleft w0).
  destruct (w_calls (e_world (erun events w0)) !! i) as [c|] eqn:Hc.
  2:{ apply lookup_ge_None in Hc. apply lookup_lt_Some in Hms. lia. }
  exists c. split; [done|]. intros Hf.
  assert (H0 : turns_left (e_world w0) i ≤ S (length (jobs m ms))).
  { unfold turns_left, w0, start. cbn [w_calls e_world]. rewrite list_lookup_fmap, Hms. cbn [fmap option_fmap option_map].
    unfold spawn. destruct (_ || _ || _); cbn; lia. }
  unfold turns_left in Hleft at 1. rewrite Hc, Hf in Hleft. lia.
Qed.

(** ** Properties *)

(** C5. Whatever the order in which calls of [Publish] run, and however the
    goroutine that empties the key cache resets shards and drops the caches of
    orgs between their steps, with calls still marking keys in a cache that was
    dropped: for a gateway that publishes, and metrics whose values are 64 bits
    wide and whose id, where they come with an interval, is the one computed of
    their content (an admin's /metrics may hold others), each call sends what it
    is to send. Every payload in the broker is, message by message, the one the
    settings ask for the metrics of one of the calls, in their order, each topic
    with its partition, its rewritten org and the metric in full or as a point
    that decodes to it; so is the payload of every call that got as far as its
    send, accepted or not; and, while no call returns early, no point is orphaned:
    its series was known at the start or is carried in full by one of the
    calls. *)
Theorem calls_among_clears K requests events :
  has_producer cfg = true → wf K → Forall (Forall wf_input) requests →
  let w := e_world (erun events (mkEworld (start cfg m K requests) [])) in
  let routed_as ms := Forall2 message_for (expected (topics m) (deduced <$> ms)) in
  Forall (λ payload, ∃ (i : nat) ms, requests !! i = Some ms ∧ routed_as ms payload) (w_log w) ∧
  (∀ (i : nat) c ms, w_calls w !! i = Some c → requests !! i = Some ms → finished c ≠ None → todo c = [] →
    routed_as ms (p_payload (local c))) ∧
  ((∀ (i : nat) c, w_calls w !! i = Some c → ¬ early c) →
    ∀ (i : nat) c ms k ty, w_calls w !! i = Some c → requests !! i = Some ms →
      (k, ty) ∈ carried ms c → ty ≠ TMetricData → seen K k ∨ ∃ j, full_in requests w j k).
Proof.
  intros Hp HK Hr w routed_as.
  destruct (erun_light K requests Hp HK Hr events) as [[[_ _ Hc Hl] _] Hlen]. fold w in Hc, Hl, Hlen.
  assert (Hcall : ∀ (i : nat) c ms, w_calls w !! i = Some c → requests !! i = Some ms → finished c ≠ None →
    ¬ early c → routed_as ms (p_payload (local c))).
  { intros i c ms Hi Hms Hf He. destruct (Hc i c ms Hi Hms He) as (_ & Htodo & exp & Hm & E & _).
    rewrite (Htodo Hf) in E. cbn [left_over] in E. rewrite app_nil_r in E. unfold routed_as. fold (total ms).
    by rewrite <- E. }
  split_and!.
  - eapply Forall_impl; [exact Hl|]. intros payload (i & c & Hi & Hf & He & <-).
    destruct (lookup_lt_is_Some_2 requests i) as [ms Hms]; [rewrite <- Hlen; by eapply lookup_lt_Some|].
    exists i, ms. split; [done|]. apply (Hcall i c ms); [done|done|by rewrite Hf|done].
  - intros i c ms Hi Hms Hf Htd. apply (Hcall i c ms); [done..|]. by intros [_ ?].
  - intros Hearly i c ms k ty Hi Hms Hin Hty.
    destruct (Hc i c ms Hi Hms (Hearly i c Hi)) as (_ & _ & exp & Hm & E & Hpt & _).
    unfold PublishConcSpec.carried in Hin. rewrite <- E, entries_total in Hin by by eapply Forall2_length.
    destruct (Hpt k ty Hin Hty) as [?|[?|(j & cj & Hj & He)]]; [by left|by right|]. by destruct (Hearly j cj Hj).
Qed.
End spec.

(** The series of the first call is forgotten while the second has the cache of
    the org in hand; the cache is dropped, and the second call marks the series
    there and sends it in full once more. *)
Definition ex_events : list event :=
  [ERun 0; ERun 0; ERun 0; ERun 1] ++ (replicate 256 tt ≫= λ _, [EReset 33; ENext]) ++
  [EDrop 33; EStale 1 0; ERun 1; ERun 1; ERun 1].
Definition ex_cleared : eworld := erun ex_marshal ex_partition ex_auto ex_cfg ex_topic (λ _ _, true) ex_events
  (mkEworld (start ex_cfg ex_topic (NewKeyCache 0) ex_two) []).

Lemma a_call_returns_in_its_turns_witness :
  ∃ c, w_calls (e_world (erun ex_marshal ex_partition ex_auto ex_cfg ex_topic (λ _ _, true)
      (replicate 5 (ERun 1)) (mkEworld (start ex_cfg ex_topic (NewKeyCache 0) ex_two) []))) !! 1 = Some c ∧
    finished c ≠ None.
Proof.
  exact (a_call_returns_in_its_turns ex_marshal ex_partition ex_auto ex_cfg ex_topic (λ _ _, true)
    (NewKeyCache 0) ex_two (replicate 5 (ERun 1)) 1 ex_second eq_refl ltac:(vm_compute; lia)).
Defined.

Lemma calls_among_clears_witness :
  kinds (e_world ex_cleared) = [[TMetricData]; [TMetricData; TMetricData]] ∧
  Forall (λ payload, ∃ (i : nat) ms, ex_two !! i = Some ms ∧
    Forall2 (message_for ex_marshal ex_partition ex_cfg) (expected (topics ex_topic) (deduced ex_auto ex_topic <$> ms)) payload)
    (w_log (e_world ex_cleared)).
Proof.
  split; [vm_compute; reflexivity|].
  apply (calls_among_clears ex_marshal ex_partition ex_auto ex_cfg ex_topic (λ _ _, true)
    (NewKeyCache 0) ex_two ex_events eq_refl (NewKeyCache_wf 0) ex_two_wf).
Defined.
