(* ===== verification/Publish.v ===== *)
(** * publish/publish.go

    The package-level [Publish], [Persist] and [Init] in front of a publisher.
    [Publisher] is the Go interface as a record of operations; [PublisherLaws]
    is what the accounting in [Publish] needs of an implementation, and the two
    implementations (the null publisher, Kafka) discharge it. *)

From S2P Require Import Prelude GoStrings Strconv Schema KeyCache Kafka KafkaSpec.

(** ** The interface *)

(** [S] is the state the publisher keeps; the metrics are pointers, so a call
    returns what they point to afterwards. *)
Record Publisher (S E : Type) := mkPublisherI {
  PublishFn : list MetricData → S → S * list MetricData * option E;
  TypeFn : string }.
Arguments PublishFn {S E}.
Arguments TypeFn {S E}.

Definition nullPublisher {S E} : Publisher S E :=
  mkPublisherI S E (λ metrics s, (s, metrics, None)) "nullPublisher".

(** [Init]: the package variable [publisher]. *)
Definition Init {S E} (p : option (Publisher S E)) : Publisher S E :=
  match p with None => nullPublisher | Some p => p end.

(** ** Publish and Persist *)

(** [ingestedMetrics], by the value of the label [org]. *)
Abbreviation counters := (gmap string Z).

Section publish.
Context {S E : Type}.

(** [orgCounts[m.OrgId]++], an [int32]. *)
Definition count_org (counts : gmap Z Z) (m : MetricData) : gmap Z Z :=
  <[OrgId m := wrap_s 32 (default 0%Z (counts !! OrgId m) + 1)]> counts.

Definition org_counts (metrics : list MetricData) : gmap Z Z := foldl count_org ∅ metrics.

Definition add_counter (org : Z) (count : Z) (c : counters) : counters :=
  <[Itoa org := (default 0 (c !! Itoa org) + count)%Z]> c.

(** The range over the map is in no particular order; the labels of different
    orgs differ, so the order does not matter. *)
Definition account (metrics : list MetricData) (c : counters) : counters :=
  map_fold add_counter c (org_counts metrics).

Record pstate := mkPState { pub : S; ingested : counters }.

Definition Publish (p : Publisher S E) (metrics : list MetricData) (s : pstate) :
    pstate * list MetricData * option E :=
  if bool_decide (length metrics = 0) then (s, metrics, None) else
  match PublishFn p metrics (pub s) with
  | (s', metrics', Some err) => (mkPState s' (ingested s), metrics', Some err)
  | (s', metrics', None) => (mkPState s' (account metrics' (ingested s)), metrics', None)
  end.

(** [Persist] publishes without the accounting. *)
Definition Persist (p : Publisher S E) (metrics : list MetricData) (s : pstate) :
    pstate * list MetricData * option E :=
  let '(s', metrics', err) := PublishFn p metrics (pub s) in
  (mkPState s' (ingested s), metrics', err).
End publish.
Arguments pstate : clear implicits.

(** ** What the accounting needs of a publisher *)

Class PublisherLaws {S E} (p : Publisher S E) (pre : S → list MetricData → Prop) : Prop := {
  keeps_orgs metrics s s' metrics' :
    pre s metrics → PublishFn p metrics s = (s', metrics', None) →
    OrgId <$> metrics' = OrgId <$> metrics }.

#[export] Instance nullPublisher_laws {S E} : PublisherLaws (S:=S) (E:=E) nullPublisher (λ _ _, True).
Proof. split. by intros ms s s' ms' _ [= _ <-]. Qed.

(** *** Kafka *)

Section kafka.
Context (MarshalMsg : MetricData → option string).
Context (PartitionID : PartitionByMethod → MetricData → Z → option Z).
Context (auto_interval : string → Z).
Context (cfg : pub_cfg) (send : list ProducerMessage → bool) (m : mtPublisher).

(** The panic result does not occur: [KafkaSpec.Publish_no_panic]. *)
Definition kafka_publisher : Publisher KeyCache publish_error :=
  mkPublisherI _ _ (λ metrics keys,
    let r := Kafka.Publish MarshalMsg PartitionID auto_interval cfg send m metrics keys in
    (r_keys r, r_metrics r,
     match r_out r with Ok _ => None | Err e => Some e | Panic => Some SendFailed end))
    Kafka.Type_name.

Lemma deduced_OrgId metric : OrgId (deduced auto_interval m metric) = OrgId metric.
Proof. unfold deduced. by case_bool_decide. Qed.

#[export] Instance kafka_laws :
  PublisherLaws kafka_publisher (λ keys metrics, wf keys ∧ Forall wf_input metrics).
Proof.
  split. intros metrics keys keys' metrics' [Hw Hin]. simpl.
  destruct (r_sent (Kafka.Publish MarshalMsg PartitionID auto_interval cfg send m metrics keys))
    as [payload|] eqn:Es.
  - destruct (Publish_sent _ _ _ _ _ _ _ _ _ Hw Hin Es) as (s & _ & _ & -> & _ & _ & _).
    intros [= _ <- _]. rewrite <- list_fmap_compose. apply list_fmap_ext.
    intros i x _. apply deduced_OrgId.
  - revert Es. unfold Kafka.Publish. cbv zeta.
    destruct (negb (has_producer cfg)); [by intros _ [= _ <-]|].
    case_bool_decide; [by intros _ [= _ <-]|]. case_bool_decide; [by intros _ [= _ <-]|].
    destruct (publish_metrics _ _ _ _ _ _ _) as [[s ms] [[]|e|]]; [|done|done].
    by destruct (send (p_payload s)).
Qed.
End kafka.

(** ** Counting orgs *)

Definition count_in (o : Z) (orgs : list Z) : Z := Z.of_nat (length (filter (λ x, x = o) orgs)).

Lemma Itoa_inj a b : is_s 64 a → is_s 64 b → Itoa a = Itoa b → a = b.
Proof. intros Ha Hb E. apply (f_equal Atoi) in E. rewrite !Atoi_Itoa in E by done. congruence. Qed.

Lemma count_in_snoc o l x : count_in o (l ++ [x]) = (count_in o l + if decide (x = o) then 1 else 0)%Z.
Proof. unfold count_in. rewrite filter_snoc, length_app. case_decide; simpl; lia. Qed.

Lemma count_in_le o l : (0 ≤ count_in o l ≤ Z.of_nat (length l))%Z.
Proof. unfold count_in. pose proof (length_filter (λ x, x = o) l). lia. Qed.

Lemma org_counts_spec metrics :
  (Z.of_nat (length metrics) < 2 ^ 31)%Z →
  ∀ o, org_counts metrics !! o =
    let n := count_in o (OrgId <$> metrics) in if decide (n = 0)%Z then None else Some n.
Proof.
  unfold org_counts. induction metrics as [|m l IH] using rev_ind; intros Hlen o; [done|].
  rewrite length_app in Hlen. simpl in Hlen.
  rewrite foldl_snoc, fmap_app. change (OrgId <$> [m]) with [OrgId m].
  rewrite count_in_snoc. unfold count_org at 1. cbn zeta.
  assert (Hd : default 0%Z (foldl count_org ∅ l !! OrgId m) = count_in (OrgId m) (OrgId <$> l)).
  { rewrite IH by lia. cbn zeta. by case_decide. }
  pose proof (count_in_le (OrgId m) (OrgId <$> l)) as Hle. rewrite length_fmap in Hle.
  rewrite Hd, wrap_s_id by (unfold is_s; simpl; lia).
  destruct (decide (OrgId m = o)) as [<-|Hne].
  - rewrite lookup_insert_eq. case_decide; [lia|done].
  - rewrite lookup_insert_ne by done. rewrite IH by lia. cbn zeta. by rewrite Z.add_0_r.
Qed.

Lemma add_counters_spec (counts : gmap Z Z) (c : counters) k :
  map_Forall (λ o _, is_s 64 o) counts → is_s 64 k →
  default 0%Z (map_fold add_counter c counts !! Itoa k) =
    (default 0 (c !! Itoa k) + default 0 (counts !! k))%Z.
Proof.
  intros Hs Hk. revert Hs.
  apply (map_fold_weak_ind (λ r m, map_Forall (λ o _, is_s 64 o) m →
    default 0%Z (r !! Itoa k) = (default 0 (c !! Itoa k) + default 0 (m !! k))%Z)).
  - intros _. rewrite lookup_empty. simpl. lia.
  - intros o n m r Hno IH Hs. apply map_Forall_insert in Hs as [Ho Hs]; [|done].
    specialize (IH Hs). unfold add_counter. destruct (decide (o = k)) as [->|Hne].
    + rewrite !lookup_insert_eq. transitivity (default 0%Z (r !! Itoa k) + n)%Z; [done|].
      rewrite IH, Hno. change (default 0%Z None) with 0%Z. change (default 0%Z (Some n)) with n. lia.
    + rewrite lookup_insert_ne by (intros E; by apply Itoa_inj in E).
      rewrite IH. by rewrite lookup_insert_ne.
Qed.

(** ** Properties *)

(** Accounting. A successful [Publish] adds to the ingestion counter of each
    org the number of its metrics in the batch, and a failed one adds nothing;
    the orgs are those the caller passed, for any publisher that keeps them. *)
Theorem Publish_accounts {S E} (p : Publisher S E) pre `{!PublisherLaws p pre}
    metrics (s s' : pstate S) metrics' err org :
  pre (pub s) metrics → (Z.of_nat (length metrics) < 2 ^ 31)%Z →
  Forall (λ m, is_s 64 (OrgId m)) metrics → is_s 64 org →
  Publish p metrics s = (s', metrics', err) →
  default 0%Z (ingested s' !! Itoa org) =
    (default 0 (ingested s !! Itoa org) +
     match err with None => count_in org (OrgId <$> metrics) | Some _ => 0 end)%Z.
Proof.
  intros Hpre Hlen Horgs Horg. unfold Publish. case_bool_decide as H0.
  - apply nil_length_inv in H0 as ->. intros [= <- _ <-]. unfold count_in. simpl. lia.
  - destruct (PublishFn p metrics (pub s)) as [[s1 ms] [e|]] eqn:Ep; intros [= <- _ <-]; simpl; [lia|].
    apply (keeps_orgs metrics) in Ep; [|done]. unfold account.
    assert (Hl : length ms = length metrics)
      by (rewrite <- (length_fmap OrgId ms), Ep; apply length_fmap).
    assert (Hc := org_counts_spec ms ltac:(by rewrite Hl)). rewrite Ep in Hc.
    rewrite add_counters_spec; [|intros o n|done]; rewrite Hc; cbn zeta.
    + case_decide as Hz; simpl; lia.
    + case_decide as Hz; [done|]. intros _. unfold count_in in Hz.
      destruct (filter (λ x, x = o) (OrgId <$> metrics)) as [|x l] eqn:Ef; [done|].
      assert (Hx : x ∈ filter (λ x, x = o) (OrgId <$> metrics)) by (rewrite Ef; left).
      apply list_elem_of_filter in Hx as [<- Hx].
      apply list_elem_of_fmap in Hx as (m & -> & Hm).
      rewrite Forall_forall in Horgs. by apply Horgs.
Qed.

Lemma Publish_accounts_witness :
  let p := kafka_publisher ex_marshal ex_partition ex_auto ex_cfg (λ _, true) ex_publisher in
  let s' := (Publish p ex_metrics (mkPState (NewKeyCache 0) ∅)).1.1 in
  default 0%Z (ingested s' !! "33") = 2%Z.
Proof.
  cbv zeta.
  assert (H1 : (Z.of_nat (length ex_metrics) < 2 ^ 31)%Z) by (vm_compute; reflexivity).
  assert (H2 : Forall (λ m, is_s 64 (OrgId m)) ex_metrics) by (repeat constructor; by vm_compute).
  assert (H3 : is_s 64 33) by (by vm_compute).
  destruct (Publish (kafka_publisher ex_marshal ex_partition ex_auto ex_cfg (λ _, true) ex_publisher)
              ex_metrics (mkPState (NewKeyCache 0) ∅)) as [[s' ms'] err] eqn:E.
  pose proof (Publish_accounts _ (λ keys metrics, wf keys ∧ Forall wf_input metrics)
    ex_metrics (mkPState (NewKeyCache 0) ∅) s' ms' err 33%Z
    (conj (NewKeyCache_wf 0) ex_metrics_wf) H1 H2 H3 E) as H.
  assert (Herr : err = None).
  { change err with (s', ms', err).2. rewrite <- E. vm_compute. reflexivity. }
  rewrite Herr in H. exact H.
Defined.
