(* ===== verification/Http.v ===== *)
(** * Requests, replies and users

    What the handlers of api/, ingest/ and query/ share: the user a request was
    authenticated as (auth/auth.go, auth/gcom/roles.go), the replies written to
    the client, the points at which a handler looks at the request's context. *)

From S2P Require Import Prelude GoStrings Strconv.

(** ** Roles and users *)

(** [RoleType] is a string: grafana.com may answer with any. *)
Definition RoleType : Type := string.

Definition ROLE_VIEWER : RoleType := "Viewer".
Definition ROLE_EDITOR : RoleType := "Editor".
Definition ROLE_METRICS_PUBLISHER : RoleType := "MetricsPublisher".
Definition ROLE_ADMIN : RoleType := "Admin".

Definition IsValid (r : RoleType) : bool :=
  bool_decide (r = ROLE_VIEWER) || bool_decide (r = ROLE_ADMIN) || bool_decide (r = ROLE_EDITOR) ||
  bool_decide (r = ROLE_METRICS_PUBLISHER).
Definition IsPublisher (r : RoleType) : bool :=
  bool_decide (r = ROLE_METRICS_PUBLISHER) || bool_decide (r = ROLE_ADMIN) ||
  bool_decide (r = ROLE_EDITOR).
Definition IsViewer (r : RoleType) : bool :=
  bool_decide (r = ROLE_VIEWER) || bool_decide (r = ROLE_ADMIN) || bool_decide (r = ROLE_EDITOR).

Record User := mkUser { ID : Z; IsAdmin : bool; Role : RoleType }.

#[export] Instance User_eq_dec : EqDecision User.
Proof. solve_decision. Defined.

(** [&auth.User{}] *)
Definition zero_user : User := mkUser 0 false "".

Definition with_ID (i : Z) (u : User) : User := mkUser i (IsAdmin u) (Role u).

(** ** Replies *)

(** [ctx.JSON(status, body)] and the like. The first reply sets the status; a
    handler that replies twice has appended to the body. *)
Record reply (B : Type) := mkReply { status : Z; body : B }.
Arguments mkReply {B}.
Arguments status {B}.
Arguments body {B}.

(** ** The request's context

    Whether the client is gone or the deadline is past, at the points where a
    handler looks: after a failed read, after the rate limiter, before the
    publication. A context that is done stays done. *)
Record ctx_done := mkDone { done_read : bool; done_limit : bool; done_publish : bool }.

Definition wf_done (d : ctx_done) : Prop :=
  (done_read d = true → done_limit d = true) ∧ (done_limit d = true → done_publish d = true).

(** ** Properties of the roles *)

(** The valid roles are the publishers and the viewers. *)
Lemma IsValid_roles r : IsValid r = IsPublisher r || IsViewer r.
Proof.
  unfold IsValid, IsPublisher, IsViewer.
  destruct (bool_decide (r = ROLE_VIEWER)), (bool_decide (r = ROLE_ADMIN)),
    (bool_decide (r = ROLE_EDITOR)), (bool_decide (r = ROLE_METRICS_PUBLISHER)); done.
Qed.
