(* ===== verification/Ingest.v ===== *)
(** * ingest: the /metrics endpoint

    metrics_response.go, metrics.go and rate_limit.go: the validation of a batch
    of metrics, the rate limits, and the two handlers of POST /metrics. The
    decoders (JSON, snappy, msgp) and the limiter of golang.org/x/time/rate are
    parameters; the publisher is the interface of Publish.v. *)

From S2P Require Import Prelude GoStrings Strconv Schema Publish Http.
From Stdlib Require Import Ascii.

(** ** MetricsResponse *)

Record ValidationError := mkVErr { Count : Z; ExampleIds : list Z }.

Record MetricsResponse := mkResponse {
  Invalid : Z; Published : Z; ValidationErrors : gmap string ValidationError }.

Definition NewMetricsResponse : MetricsResponse := mkResponse 0 0 ∅.

Definition zero_verr : ValidationError := mkVErr 0 [].

(** [key] is the error's text. *)
Definition AddInvalid (key : string) (index : Z) (m : MetricsResponse) : MetricsResponse :=
  let vErr := default zero_verr (ValidationErrors m !! key) in
  let count := (Count vErr + 1)%Z in
  let ids := if bool_decide (count < 10)%Z then ExampleIds vErr ++ [index] else ExampleIds vErr in
  mkResponse (Invalid m + 1) (Published m) (<[key := mkVErr count ids]> (ValidationErrors m)).

Definition with_Published (n : Z) (m : MetricsResponse) : MetricsResponse :=
  mkResponse (Invalid m) n (ValidationErrors m).

(** ** prepareIngest *)

(** [discardsByOrg.Add] *)
Definition add_discard (org : Z) (reason : string) (d : gmap Z (gmap string Z)) :
    gmap Z (gmap string Z) :=
  let dbr := default ∅ (d !! org) in
  <[org := <[reason := (default 0 (dbr !! reason) + 1)%Z]> dbr]> d.

(** The slice to publish, the response, the discards by org and reason, and the
    timestamps recorded by org. *)
Record prepared := mkPrepared {
  toPublish : list MetricData;
  resp : MetricsResponse;
  discards : gmap Z (gmap string Z);
  stamps : list (Z * Z) }.

(** What the loop makes of a metric before it validates it. *)
Definition normalise (user : User) (m : MetricData) : MetricData :=
  let m := if IsAdmin user then m else with_OrgId (ID user) m in
  if bool_decide (Mtype m = "") then with_Mtype "gauge" m else m.

(** One round: [i] is the index, [None] a JSON null, which the code
    dereferences. [Validate] has rewritten the name also where it fails. *)
Definition prepare_one (user : User) (i : nat) (x : option MetricData) (p : prepared) :
    outcome unit prepared :=
  match x with
  | None => Panic
  | Some m =>
      let '(m, err) := Validate (normalise user m) in
      match err with
      | Some e =>
          Ok (mkPrepared (toPublish p) (AddInvalid (schema_error_Error e) (Z.of_nat i) (resp p))
                (add_discard (OrgId m) (schema_error_Error e) (discards p)) (stamps p))
      | None =>
          let m := if IsAdmin user then m else SetId m in
          let org := if IsAdmin user then OrgId m else ID user in
          Ok (mkPrepared (toPublish p ++ [m]) (resp p) (discards p)
                (stamps p ++ [(org, wrap_u 32 (Time m))]))
      end
  end.

Fixpoint prepare_from (user : User) (i : nat) (l : list (option MetricData)) (p : prepared) :
    outcome unit prepared :=
  match l with
  | [] => Ok p
  | x :: l' => p' ← prepare_one user i x p; prepare_from user (S i) l' p'
  end.

Definition prepareIngest (user : User) (l : list (option MetricData)) : outcome unit prepared :=
  prepare_from user 0 l (mkPrepared [] NewMetricsResponse ∅ []).

(** ** Rate limits *)

Inductive limit_error := ErrRequestExceedsBurst | ErrWait.

#[export] Instance limit_error_eq_dec : EqDecision limit_error.
Proof. solve_decision. Defined.

Inductive config_error := BadLimitString | BadLimitOrg | BadLimitRate.

Section limits.
(** golang.org/x/time/rate: a limiter with its bucket, [NewLimiter(r, b)],
    [Burst], [WaitN] (whether the wait ended without an error) and [Allow]. *)
Context {L : Type}.
Context (NewLimiter : Z → Z → L) (Burst : L → Z) (WaitN : L → Z → L * bool) (Allow : L → L * bool).

Definition parse_limit (s : string) : outcome config_error (Z * Z) :=
  match SplitN2 ":" s with
  | [o; l] =>
      orgId ← or_err (ParseInt o 32) BadLimitOrg;
      limit ← or_err (ParseInt l 32) BadLimitRate;
      mret (orgId, limit)
  | _ => Err BadLimitString
  end.

(** The global map keeps what was read before an error. *)
Fixpoint configure_limits (l : list string) (m : gmap Z L) : gmap Z L * option config_error :=
  match l with
  | [] => (m, None)
  | s :: l' =>
      match parse_limit s with
      | Ok (orgId, limit) => configure_limits l' (<[orgId := NewLimiter limit limit]> m)
      | Err e => (m, Some e)
      | Panic => (m, None)
      end
  end.

Definition ConfigureRateLimits (limitStr : string) (m : gmap Z L) : gmap Z L * option config_error :=
  if bool_decide (strlen limitStr = 0) then (m, None)
  else configure_limits (Split ";" limitStr) ∅.

(** The limiter is a pointer: a call changes the one in the map. *)
Definition rateLimit (orgId datapoints : Z) (m : gmap Z L) : gmap Z L * option limit_error :=
  match m !! orgId with
  | None => (m, None)
  | Some limiter =>
      if bool_decide (Burst limiter < datapoints)%Z then (m, Some ErrRequestExceedsBurst)
      else let '(limiter', ok) := WaitN limiter datapoints in
           (<[orgId := limiter']> m, if (ok : bool) then None else Some ErrWait)
  end.

Definition IsRateBudgetAvailable (orgId : Z) (m : gmap Z L) : gmap Z L * bool :=
  match m !! orgId with
  | None => (m, true)
  | Some limiter => let '(limiter', ok) := Allow limiter in (<[orgId := limiter']> m, ok)
  end.

Definition UseRateLimit (m : gmap Z L) : bool := bool_decide (0 < size m).

(** ** The handlers of POST /metrics *)

Context {S E : Type} (publisher : Publisher S E).

Inductive jbody :=
| Text (s : string)
| ErrText
| Response (r : MetricsResponse).

(** The gateway as far as the handlers change it. *)
Record gw := mkGw { g_pub : pstate S; g_limits : gmap Z L }.

(** The request: is there a body, was it read, and what it decodes to. *)
Record metrics_req := mkReq {
  rq_type : string; rq_body : bool;
  rq_read : option string; rq_done : ctx_done }.

(** [Ok None]: the client is gone, the reply is 499. *)
Definition limit_batch (user : User) (n : Z) (d : ctx_done) (g : gw) :
    gw * option (reply jbody) :=
  if UseRateLimit (g_limits g) then
    let '(lim, err) := rateLimit (ID user) n (g_limits g) in
    let g := mkGw (g_pub g) lim in
    match err with
    | Some e =>
        if done_limit d then (g, None)
        else if bool_decide (e = ErrRequestExceedsBurst)
        then (g, Some (mkReply 413 (Text "batch is larger than limit")))
        else (g, Some (mkReply 429 (Text "rate limit is exhausted")))
    | None => (g, None)
    end
  else (g, None).

(** The end of both handlers, from the decoded metrics on. *)
Definition ingest_batch (user : User) (d : ctx_done) (metrics : list (option MetricData)) (g : gw) :
    outcome unit (gw * reply jbody) :=
  p ← prepareIngest user metrics;
  let n := Z.of_nat (length (toPublish p)) in
  match limit_batch user n d g with
  | (g, Some r) => Ok (g, r)
  | (g, None) =>
      if done_publish d then Ok (g, mkReply 499 (Text "request canceled")) else
      match Publish publisher (toPublish p) (g_pub g) with
      | (s, _, Some _) => Ok (mkGw s (g_limits g), mkReply 500 ErrText)
      | (s, _, None) => Ok (mkGw s (g_limits g), mkReply 200 (Response (with_Published n (resp p))))
      end
  end.

Definition read_failed (d : ctx_done) : reply jbody :=
  if done_read d then mkReply 499 (Text "request canceled") else mkReply 500 ErrText.

(** [json.Unmarshal] into a slice of pointers. *)
Context (unmarshal_json : string → option (list (option MetricData))).
(** snappy's reader; [InitFromMsg] and [DecodeMetricData] of the message format. *)
Context (unsnappy : option string → option string).
Context (decode_msg : string → option (list (option MetricData))).

Definition metricsJson (user : User) (rq : metrics_req) (g : gw) : outcome unit (gw * reply jbody) :=
  if negb (rq_body rq) then Ok (g, mkReply 400 (Text "no data included in request.")) else
  match rq_read rq with
  | None => Ok (g, read_failed (rq_done rq))
  | Some body =>
      match unmarshal_json body with
      | None => Ok (g, mkReply 400 ErrText)
      | Some metrics => ingest_batch user (rq_done rq) metrics g
      end
  end.

Definition metricsBinary (user : User) (compressed : bool) (rq : metrics_req) (g : gw) :
    outcome unit (gw * reply jbody) :=
  if negb (rq_body rq) then Ok (g, mkReply 400 (Text "no data included in request.")) else
  match (if compressed then unsnappy (rq_read rq) else rq_read rq) with
  | None => Ok (g, read_failed (rq_done rq))
  | Some body =>
      match decode_msg body with
      | None => Ok (g, mkReply 400 ErrText)
      | Some metrics => ingest_batch user (rq_done rq) metrics g
      end
  end.

Definition Metrics (user : User) (rq : metrics_req) (g : gw) : outcome unit (gw * reply jbody) :=
  if bool_decide (rq_type rq = "rt-metric-binary") then metricsBinary user false rq g
  else if bool_decide (rq_type rq = "rt-metric-binary-snappy") then metricsBinary user true rq g
  else if bool_decide (rq_type rq = "application/json") then metricsJson user rq g
  else Ok (g, mkReply 400 (Text ("unknown content-type: " +:+ rq_type rq))).
End limits.
