(* ===== verification/IngestSpec.v ===== *)
(** * The theorems of the /metrics endpoint

    What [prepareIngest] keeps, rejects and counts; that a tenant's metrics
    carry the tenant's org and id; the rate limits' configuration and effect;
    the reply of the handler to each request. *)

From S2P Require Import Prelude GoStrings Strconv Md5 Schema KeyCache Kafka KafkaSpec Publish Http Ingest Util.
From Stdlib Require Import Ascii.

(** ** A metric of a batch *)

Definition validated (user : User) (m : MetricData) : MetricData := (Validate (normalise user m)).1.

Definition accepted (user : User) (m : MetricData) : option MetricData :=
  match (Validate (normalise user m)).2 with
  | None => Some (if IsAdmin user then validated user m else SetId (validated user m))
  | Some _ => None
  end.

(** The org and the reason a metric is rejected for. *)
Definition rejection (user : User) (m : MetricData) : option (Z * string) :=
  (λ e, (OrgId (validated user m), schema_error_Error e)) <$> (Validate (normalise user m)).2.

Definition rejections (user : User) (ms : list MetricData) : list (nat * (Z * string)) :=
  omap (λ x, pair x.1 <$> rejection user x.2) (imap pair ms).

Definition examples (key : string) (rs : list (nat * (Z * string))) : list Z :=
  (λ r, Z.of_nat r.1) <$> filter (λ r, r.2.2 = key) rs.

Lemma rejections_snoc user ms m :
  rejections user (ms ++ [m]) =
    rejections user ms ++
    match rejection user m with Some r => [(length ms, r)] | None => [] end.
Proof.
  unfold rejections. rewrite imap_app, omap_app. f_equal. cbn. rewrite Nat.add_0_r.
  by destruct (rejection user m).
Qed.

Lemma examples_snoc key rs r :
  examples key (rs ++ [r]) = examples key rs ++ if decide (r.2.2 = key) then [Z.of_nat r.1] else [].
Proof. unfold examples. rewrite filter_snoc, fmap_app. by case_decide. Qed.

Lemma accepted_rejected user m :
  (∃ r, accepted user m = None ∧ rejection user m = Some r) ∨
  (∃ a, accepted user m = Some a ∧ rejection user m = None).
Proof. unfold accepted, rejection. destruct (Validate _).2; simpl; eauto. Qed.

(** *** The loop's invariant *)

Definition verr_spec (user : User) (ms : list MetricData) (key : string) : option ValidationError :=
  let ex := examples key (rejections user ms) in
  match ex with [] => None | _ => Some (mkVErr (Z.of_nat (length ex)) (take 9 ex)) end.

Record prep_inv (user : User) (ms : list MetricData) (p : prepared) : Prop := {
  pi_pub : toPublish p = omap (accepted user) ms;
  pi_invalid : Invalid (resp p) = Z.of_nat (length (rejections user ms));
  pi_published : Published (resp p) = 0%Z;
  pi_errors key : ValidationErrors (resp p) !! key = verr_spec user ms key;
  pi_discards org key : default 0%Z (default ∅ (discards p !! org) !! key) =
    Z.of_nat (length (filter (λ r, r.2 = (org, key)) (rejections user ms)));
  pi_stamps : stamps p = (λ m, (OrgId m, wrap_u 32 (Time m))) <$> toPublish p }.

Lemma verr_default user ms key :
  let ex := examples key (rejections user ms) in
  default zero_verr (verr_spec user ms key) = mkVErr (Z.of_nat (length ex)) (take 9 ex).
Proof. unfold verr_spec. by destruct (examples key (rejections user ms)). Qed.

Lemma verr_some user ms key :
  examples key (rejections user ms) ≠ [] →
  let ex := examples key (rejections user ms) in
  verr_spec user ms key = Some (mkVErr (Z.of_nat (length ex)) (take 9 ex)).
Proof. unfold verr_spec. by destruct (examples key (rejections user ms)). Qed.

Lemma verr_snoc user ms m key reason org r :
  rejection user m = Some (org, reason) →
  (∀ key, ValidationErrors r !! key = verr_spec user ms key) →
  ValidationErrors (AddInvalid reason (Z.of_nat (length ms)) r) !! key =
    verr_spec user (ms ++ [m]) key.
Proof.
  intros Hr Hs. unfold AddInvalid. cbn [ValidationErrors].
  assert (Hrs : rejections user (ms ++ [m]) = rejections user ms ++ [(length ms, (org, reason))])
    by by rewrite rejections_snoc, Hr.
  destruct (decide (reason = key)) as [->|Hne].
  - assert (Hex : examples key (rejections user (ms ++ [m])) =
              examples key (rejections user ms) ++ [Z.of_nat (length ms)]).
    { rewrite Hrs, examples_snoc. cbn [snd fst]. by rewrite decide_True. }
    rewrite lookup_insert_eq, Hs, verr_default, verr_some.
    2:{ rewrite Hex. by destruct (examples key (rejections user ms)). }
    cbn zeta. rewrite Hex. cbn [Count ExampleIds]. rewrite length_app. f_equal. f_equal; [simpl; lia|].
    case_bool_decide as Hc.
    + rewrite !take_ge; [done|rewrite length_app; simpl; lia|lia].
    + by rewrite take_app_le by lia.
  - rewrite lookup_insert_ne, Hs by done. unfold verr_spec.
    rewrite Hrs, examples_snoc. cbn [snd]. rewrite decide_False by done. by rewrite app_nil_r.
Qed.

Lemma discard_snoc user ms m reason org d org' key :
  rejection user m = Some (org, reason) →
  (∀ org key, default 0%Z (default ∅ (d !! org) !! key) =
    Z.of_nat (length (filter (λ r, r.2 = (org, key)) (rejections user ms)))) →
  default 0%Z (default ∅ (add_discard org reason d !! org') !! key) =
    Z.of_nat (length (filter (λ r, r.2 = (org', key)) (rejections user (ms ++ [m])))).
Proof.
  intros Hr Hd. rewrite rejections_snoc, Hr, filter_snoc, length_app. cbn [snd].
  rewrite Nat2Z.inj_add, <- Hd. unfold add_discard. destruct (decide (org = org')) as [<-|Hne].
  - rewrite lookup_insert_eq. change (default ∅ (Some ?x)) with x.
    destruct (decide (reason = key)) as [<-|Hk].
    + rewrite lookup_insert_eq, decide_True by done. done.
    + rewrite lookup_insert_ne, decide_False by naive_solver. simpl. by rewrite Z.add_0_r.
  - rewrite lookup_insert_ne by done. rewrite decide_False by naive_solver. by rewrite Z.add_0_r.
Qed.

Lemma omap_snoc {A B} (f : A → option B) l x :
  omap f (l ++ [x]) = omap f l ++ match f x with Some y => [y] | None => [] end.
Proof. rewrite omap_app. cbn. by destruct (f x). Qed.

Lemma with_OrgId_fields user m : IsAdmin user = false → OrgId (normalise user m) = ID user.
Proof. intros H. unfold normalise. rewrite H. by case_bool_decide. Qed.

Lemma Validate_OrgId m : OrgId (Validate m).1 = OrgId m.
Proof. unfold Validate. solve_cases. Qed.

Lemma prepare_one_inv user ms m p :
  prep_inv user ms p →
  ∃ p', prepare_one user (length ms) (Some m) p = Ok p' ∧ prep_inv user (ms ++ [m]) p'.
Proof.
  intros []. unfold prepare_one.
  pose proof (Validate_OrgId (normalise user m)) as Ho.
  destruct (Validate (normalise user m)) as [m' [e|]] eqn:EV.
  - assert (Hr : rejection user m = Some (OrgId m', schema_error_Error e))
      by (unfold rejection, validated; by rewrite EV).
    assert (Ha : accepted user m = None) by (unfold accepted; by rewrite EV).
    eexists. split; [done|]. split; cbn [toPublish resp discards stamps].
    + by rewrite omap_snoc, Ha, app_nil_r.
    + rewrite rejections_snoc, Hr, length_app. simpl. lia.
    + done.
    + intros key. eapply verr_snoc; [exact Hr|done].
    + intros org key. by eapply discard_snoc.
    + done.
  - assert (Hr : rejection user m = None) by (unfold rejection; by rewrite EV).
    assert (Ha : accepted user m = Some (if IsAdmin user then m' else SetId m'))
      by (unfold accepted, validated; by rewrite EV).
    assert (Hrs : rejections user (ms ++ [m]) = rejections user ms)
      by by rewrite rejections_snoc, Hr, app_nil_r.
    eexists. split; [done|]. split; cbn [toPublish resp discards stamps].
    + by rewrite omap_snoc, Ha, pi_pub0.
    + by rewrite Hrs.
    + done.
    + intros key. unfold verr_spec. rewrite Hrs. apply pi_errors0.
    + intros org key. by rewrite Hrs.
    + rewrite fmap_app, pi_stamps0. f_equal. cbn [fmap list_fmap]. cbn [fst] in Ho.
      destruct (IsAdmin user) eqn:Eadm; [done|].
      by rewrite <- (with_OrgId_fields user m Eadm), <- Ho.
Qed.

Lemma prepare_from_inv user ms rest p :
  prep_inv user ms p →
  ∃ p', prepare_from user (length ms) (Some <$> rest) p = Ok p' ∧ prep_inv user (ms ++ rest) p'.
Proof.
  revert ms p. induction rest as [|m rest IH]; intros ms p Hp; cbn [prepare_from fmap list_fmap].
  - exists p. by rewrite app_nil_r.
  - destruct (prepare_one_inv user ms m p Hp) as (p1 & -> & Hp1). cbn [mbind outcome_bind].
    destruct (IH _ _ Hp1) as (p2 & H2 & Hinv). exists p2.
    rewrite length_app, Nat.add_1_r in H2. by rewrite <- app_assoc in Hinv.
Qed.

Lemma prep_inv_nil user : prep_inv user [] (mkPrepared [] NewMetricsResponse ∅ []).
Proof.
  split; try done.
Qed.

Lemma prepareIngest_inv user ms :
  ∃ p, prepareIngest user (Some <$> ms) = Ok p ∧ prep_inv user ms p.
Proof. apply (prepare_from_inv user [] ms), prep_inv_nil. Qed.

Lemma rejections_accepted user ms :
  length (rejections user ms) + length (omap (accepted user) ms) = length ms.
Proof.
  induction ms as [|m ms IH] using rev_ind; [done|].
  rewrite rejections_snoc, omap_snoc, !length_app.
  destruct (accepted_rejected user m) as [(r & -> & ->)|(a & -> & ->)]; simpl; lia.
Qed.

Lemma prepare_from_null user i l p : None ∈ l → prepare_from user i l p = Panic.
Proof.
  revert i p. induction l as [|x l IH]; intros i p Hin; [by apply elem_of_nil in Hin|].
  apply elem_of_cons in Hin as [<-|Hin]; [done|]. cbn [prepare_from].
  assert (∀ p', prepare_from user (S i) l p' = Panic) as H by auto.
  destruct (prepare_one user i x p) as [p'|e|] eqn:E; cbn [mbind outcome_bind]; [apply H| |done].
  exfalso. revert E. unfold prepare_one. destruct x; [|done]. by destruct (Validate _) as [? []].
Qed.

Lemma no_null l : None ∉ l → ∃ ms : list MetricData, l = Some <$> ms.
Proof.
  induction l as [|x l IH]; intros Hn; [by exists []|].
  apply not_elem_of_cons in Hn as [Hx Hn]. destruct (IH Hn) as [ms ->].
  destruct x as [m|]; [by exists (m :: ms)|done].
Qed.

Lemma prepareIngest_ok user l p :
  prepareIngest user l = Ok p → ∃ ms, l = Some <$> ms ∧ prep_inv user ms p.
Proof.
  intros Hp. destruct (decide (None ∈ l)) as [Hn|Hn].
  { apply (prepare_from_null user 0 _ (mkPrepared [] NewMetricsResponse ∅ [])) in Hn.
    unfold prepareIngest in Hp. congruence. }
  destruct (no_null l Hn) as [ms ->]. destruct (prepareIngest_inv user ms) as (p' & Hp' & Hinv).
  exists ms. rewrite Hp in Hp'. by injection Hp' as <-.
Qed.

Lemma prepareIngest_cases user l :
  match prepareIngest user l with
  | Ok p => ∃ ms, l = Some <$> ms ∧ prep_inv user ms p | Err _ => False | Panic => None ∈ l
  end.
Proof.
  destruct (decide (None ∈ l)) as [Hn|Hn].
  - unfold prepareIngest. by rewrite (prepare_from_null user 0 _ _ Hn).
  - destruct (no_null l Hn) as [ms ->]. destruct (prepareIngest_inv user ms) as (p & -> & Hinv). by exists ms.
Qed.

(** ** Properties of prepareIngest *)

(** C17. A batch is sorted into what is published and what is rejected: the valid
    metrics are kept in order, every other one is counted once in the response
    and once in the discards of its org; each error carries its count and the
    positions of its first nine metrics; nothing is lost. *)
Theorem prepareIngest_sorts user ms :
  ∃ p, prepareIngest user (Some <$> ms) = Ok p ∧
    toPublish p = omap (accepted user) ms ∧
    (∀ key, ValidationErrors (resp p) !! key = verr_spec user ms key) ∧
    (∀ org key, default 0%Z (default ∅ (discards p !! org) !! key) =
       Z.of_nat (length (filter (λ r, r.2 = (org, key)) (rejections user ms)))) ∧
    (Invalid (resp p) + Z.of_nat (length (toPublish p)) = Z.of_nat (length ms))%Z.
Proof.
  destruct (prepareIngest_inv user ms) as (p & Hp & []). exists p. split_and!; try done.
  rewrite pi_invalid0, pi_pub0. pose proof (rejections_accepted user ms). lia.
Qed.

(** The handler dereferences every element: the batch is processed exactly
    when no element is a JSON null, otherwise the goroutine panics. *)
Theorem prepareIngest_null_panics user l : prepareIngest user l = Panic ↔ None ∈ l.
Proof.
  split; [|apply prepare_from_null]. intros H. destruct (decide (None ∈ l)) as [|Hn]; [done|].
  destruct (no_null l Hn) as [ms ->]. destruct (prepareIngest_inv user ms) as (p & Hp & _). congruence.
Qed.

Lemma prepared_orgs user l p :
  prepareIngest user l = Ok p → Forall (λ m, IsAdmin user = true ∨ OrgId m = ID user) (toPublish p).
Proof.
  intros Hp. destruct (IsAdmin user) eqn:Ha; [by apply Forall_true; left|].
  destruct (prepareIngest_ok _ _ _ Hp) as (ms & -> & []). rewrite pi_pub0. apply Forall_forall.
  intros a (m & _ & Hacc)%list_elem_of_omap. right. revert Hacc. unfold accepted, validated.
  rewrite Ha. destruct (Validate (normalise user m)) as [m' [e|]] eqn:EV; [done|].
  intros [= <-]. cbn. change m' with (m', @None schema_error).1. rewrite <- EV, Validate_OrgId.
  by apply with_OrgId_fields.
Qed.

(** C2. Tenant isolation: whatever org and id the metrics of a request claim, a
    user who is no admin only gets metrics published under the user's own org,
    with an id computed from their content, whose key is a key of that org. *)
Theorem tenant_isolation user l p :
  IsAdmin user = false → prepareIngest user l = Ok p →
  Forall (λ m, OrgId m = ID user ∧ id_set m ∧
    (is_u 32 (ID user) → ∃ k, MKeyFromString (Id m) = Ok k ∧ Org k = ID user)) (toPublish p).
Proof.
  intros Ha Hp. destruct (prepareIngest_ok _ _ _ Hp) as (ms & -> & []).
  rewrite pi_pub0. apply Forall_forall. intros a Hin.
  apply list_elem_of_omap in Hin as (m & _ & Hacc). unfold accepted in Hacc.
  destruct (Validate (normalise user m)).2; [done|]. rewrite Ha in Hacc. injection Hacc as <-.
  assert (Ho : OrgId (SetId (validated user m)) = ID user).
  { unfold validated. cbn. rewrite Validate_OrgId. by apply with_OrgId_fields. }
  split_and!; [done|apply id_set_SetId|]. intros Hu.
  exists (key_of (validated user m)). rewrite MKeyFromString_SetId.
  assert (OrgId (validated user m) = ID user) as E by done.
  rewrite decide_True by by rewrite E. split; [done|]. unfold key_of. by rewrite <- E.
Qed.

Definition ex_user : User := mkUser 7 false ROLE_EDITOR.
Definition ex_foreign : MetricData :=
  mkMetricData "9.00000000000000000000000000000000" 9 "some.id" 10 0 "" 1500000000 "" ["a=b"].

Lemma tenant_isolation_witness :
  match prepareIngest ex_user [Some ex_foreign] with
  | Ok p => OrgId <$> toPublish p = [7%Z] ∧ Forall (λ m, OrgId m = ID ex_user) (toPublish p)
  | _ => False
  end.
Proof.
  destruct (prepareIngest ex_user [Some ex_foreign]) as [p| |] eqn:E; [|discriminate|discriminate].
  split.
  - assert (Hp : match prepareIngest ex_user [Some ex_foreign] with
                 | Ok q => OrgId <$> toPublish q | _ => [] end = [7%Z]) by (vm_compute; reflexivity).
    rewrite E in Hp. exact Hp.
  - pose proof (tenant_isolation ex_user [Some ex_foreign] p eq_refl E) as H.
    eapply Forall_impl; [exact H|]. intros m [Hm _]. exact Hm.
Defined.

(** ** From the request to the messages *)

Lemma Validate_Value m : Schema.Value (Validate m).1 = Schema.Value m.
Proof. unfold Validate. solve_cases. Qed.

Lemma normalise_Value user m : Schema.Value (normalise user m) = Schema.Value m.
Proof. unfold normalise. destruct (IsAdmin user); by case_bool_decide. Qed.

Lemma accepted_wf user m a :
  IsAdmin user = false → is_u 64 (Schema.Value m) → accepted user m = Some a →
  wf_input a ∧ OrgId a = ID user.
Proof.
  intros Ha Hv. unfold accepted. destruct (Validate (normalise user m)).2; [done|].
  rewrite Ha. intros [= <-]. split; [split|].
  - cbn. unfold validated. by rewrite Validate_Value, normalise_Value.
  - intros _. apply id_set_SetId.
  - cbn. unfold validated. rewrite Validate_OrgId. by apply with_OrgId_fields.
Qed.

Lemma expected_org ts ms e o :
  Forall (λ m, OrgId m = o) ms → e ∈ expected ts ms →
  OrgId e.2 = (if bool_decide (o = rw_source e.1) then rw_target e.1 else o).
Proof.
  intros Hms. unfold expected, routed. intros (m & Hin & Hm)%list_elem_of_bind.
  apply list_elem_of_fmap in Hin as (t & -> & _). cbn [fst snd].
  rewrite Forall_forall in Hms. specialize (Hms m Hm). unfold rewrite_org. rewrite <- Hms.
  by case_bool_decide.
Qed.

(** C3. From the request to the broker: every message published for a batch of
    a user who is no admin carries a metric of the user's org, or of the org
    the operator's settings rewrite it to for that topic. *)
Theorem published_messages_stay_in_the_org
    MarshalMsg PartitionID auto_interval cfg send m keys user ms p payload :
  IsAdmin user = false → wf keys → Forall (λ m, is_u 64 (Schema.Value m)) ms →
  prepareIngest user (Some <$> ms) = Ok p →
  r_sent (Kafka.Publish MarshalMsg PartitionID auto_interval cfg send m (toPublish p) keys)
    = Some payload →
  Forall (λ msg, ∃ t metric, t ∈ topics m ∧ Topic msg = name t ∧
    carries MarshalMsg cfg metric (Message msg) ∧
    OrgId metric = (if bool_decide (ID user = rw_source t) then rw_target t else ID user)) payload.
Proof.
  intros Ha Hw Hv Hp Hsent. destruct (prepareIngest_ok _ _ _ Hp) as (ms' & E & []).
  apply (inj _) in E as <-.
  assert (Hin : Forall (λ a, wf_input a ∧ OrgId a = ID user) (toPublish p)).
  { rewrite pi_pub0. apply Forall_forall. intros a (x & Hx & Hacc)%list_elem_of_omap.
    rewrite Forall_forall in Hv. eapply accepted_wf; eauto. }
  apply Forall_and in Hin as [Hin Horg].
  destruct (Publish_sent _ _ _ _ _ _ _ _ _ Hw Hin Hsent) as (s & [] & <- & _).
  apply Forall_lookup. intros i msg Hi.
  destruct (Forall2_lookup_r _ _ _ _ _ inv_msgs Hi) as (e & He & Ht & _ & Hc).
  apply list_elem_of_lookup_2 in He. exists e.1, e.2.
  split_and!; [by eapply expected_topics|done|done|].
  eapply expected_org; [|exact He]. apply Forall_fmap. eapply Forall_impl; [exact Horg|].
  intros x Hx. cbn. by rewrite deduced_OrgId.
Qed.

Lemma published_messages_stay_in_the_org_witness :
  match prepareIngest ex_user [Some ex_foreign] with
  | Ok p =>
      Forall (λ msg, ∃ t metric, t ∈ topics ex_publisher ∧ Topic msg = name t ∧
          carries ex_marshal ex_cfg metric (Message msg) ∧
          OrgId metric = (if bool_decide (7%Z = rw_source t) then rw_target t else 7%Z))
        (default [] (r_sent (Kafka.Publish ex_marshal ex_partition ex_auto ex_cfg (λ _, true)
           ex_publisher (toPublish p) (NewKeyCache 0))))
  | _ => False
  end.
Proof.
  destruct (prepareIngest ex_user [Some ex_foreign]) as [p| |] eqn:E; [|discriminate|discriminate].
  apply (published_messages_stay_in_the_org ex_marshal ex_partition ex_auto ex_cfg (λ _, true)
    ex_publisher (NewKeyCache 0) ex_user [ex_foreign] p).
  - reflexivity.
  - apply NewKeyCache_wf.
  - repeat constructor; by vm_compute.
  - exact E.
  - vm_compute in E. injection E as <-. vm_compute. reflexivity.
Defined.

(** ** Rate limits *)

Definition show_limit (x : Z * Z) : string := Itoa x.1 +:+ ":" +:+ Itoa x.2.

Section limits.
Context {L : Type} (NewLimiter : Z → Z → L) (Burst : L → Z) (WaitN : L → Z → L * bool).

Definition configured (l : list (Z * Z)) : gmap Z L :=
  foldl (λ m x, <[x.1 := NewLimiter x.2 x.2]> m) ∅ l.

Lemma semi_not_num : ¬ num_byte ";".
Proof. apply not_num_byte; [|done]. unfold is_digit. by vm_compute; intros []. Qed.
Lemma colon_not_num : ¬ num_byte ":".
Proof. apply not_num_byte; [|done]. unfold is_digit. by vm_compute; intros []. Qed.

Lemma parse_limit_show x :
  is_s 32 x.1 → is_s 32 x.2 → parse_limit (show_limit x) = Ok x.
Proof.
  intros H1 H2. unfold parse_limit, show_limit. change (":" +:+ Itoa x.2) with (String ":" (Itoa x.2)).
  rewrite SplitN2_app by apply Itoa_lacks, colon_not_num. rewrite !ParseInt_Itoa by done. by destruct x.
Qed.

Lemma configure_limits_show l m :
  Forall (λ x, is_s 32 x.1 ∧ is_s 32 x.2) l →
  configure_limits NewLimiter (show_limit <$> l) m =
    (foldl (λ m x, <[x.1 := NewLimiter x.2 x.2]> m) m l, None).
Proof.
  revert m. induction l as [|x l IH]; intros m; [done|]. intros [[H1 H2] Hl]%Forall_cons.
  cbn [configure_limits fmap list_fmap foldl]. rewrite parse_limit_show by done.
  destruct x. by apply IH.
Qed.
End limits.

(** The flag of rate limits means what it says: the text made of
    "org:limit" entries separated by semicolons configures for each org a
    limiter of that rate and burst, the last entry of an org winning. *)
Theorem ConfigureRateLimits_entries {L} (NewLimiter : Z → Z → L) l old :
  l ≠ [] → Forall (λ x, is_s 32 x.1 ∧ is_s 32 x.2) l →
  ConfigureRateLimits NewLimiter (Join ";" (show_limit <$> l)) old = (configured NewLimiter l, None).
Proof.
  intros Hne Hl. unfold ConfigureRateLimits.
  assert (Hlack : Forall (λ x, has_byte ";" x = false) (show_limit <$> l)).
  { apply Forall_fmap, Forall_true. intros x. cbn. unfold show_limit. rewrite !has_byte_app.
    rewrite !Itoa_lacks by apply semi_not_num. done. }
  rewrite bool_decide_eq_false_2.
  - rewrite Split_Join by (done || by destruct l). by apply configure_limits_show.
  - rewrite strlen_0. intros H0. destruct l as [|[o r] l]; [done|].
    assert (Itoa o ≠ "") as Ho by apply Itoa_nonempty.
    destruct (Itoa o) as [|c s] eqn:E; [done|].
    destruct l; unfold show_limit in H0; cbn in H0; rewrite E in H0; done.
Qed.

Lemma ConfigureRateLimits_entries_witness :
  (ConfigureRateLimits (λ r b, (r, b)) "22:1000;23:10;22:5" ∅).1 !! 22%Z = Some (5, 5)%Z.
Proof.
  change "22:1000;23:10;22:5" with (Join ";" (show_limit <$> [(22, 1000); (23, 10); (22, 5)]%Z)).
  rewrite (ConfigureRateLimits_entries (λ r b, (r, b)) [(22, 1000); (23, 10); (22, 5)]%Z ∅).
  - vm_compute. reflexivity.
  - discriminate.
  - apply (bool_decide_unpack _). vm_compute. exact I.
Defined.

(** ** The handlers *)

Section handlers.
Context {L S E : Type} (Burst : L → Z) (WaitN : L → Z → L * bool) (publisher : Publisher S E).
Context (unmarshal_json : string → option (list (option MetricData))).
Context (unsnappy : option string → option string).
Context (decode_msg : string → option (list (option MetricData))).

Abbreviation handle := (Metrics Burst WaitN publisher unmarshal_json unsnappy decode_msg).
Abbreviation batch := (ingest_batch Burst WaitN publisher).

(** What a request brings, by its content type. *)
Inductive content := Unknown | NoBody | Unreadable | Undecodable | Batch (l : list (option MetricData)).

Definition content_by (rq : metrics_req) (text : option string)
    (decode : string → option (list (option MetricData))) : content :=
  if negb (rq_body rq) then NoBody else
  match text with
  | None => Unreadable
  | Some b => match decode b with None => Undecodable | Some l => Batch l end
  end.

Definition content_of (rq : metrics_req) : content :=
  if bool_decide (rq_type rq = "rt-metric-binary") then content_by rq (rq_read rq) decode_msg
  else if bool_decide (rq_type rq = "rt-metric-binary-snappy") then content_by rq (unsnappy (rq_read rq)) decode_msg
  else if bool_decide (rq_type rq = "application/json") then content_by rq (rq_read rq) unmarshal_json
  else Unknown.

(** The limiter's answer for [n] metrics of the user: the status of a refusal. A
    client that is gone is not told. *)
Definition refusal (user : User) (n : Z) (gone : bool) (lims : gmap Z L) : option Z :=
  lim ← lims !! ID user;
  if gone then None
  else if bool_decide (Burst lim < n)%Z then Some 413%Z
  else if (WaitN lim n).2 then None else Some 429%Z.

(** What the limiter was asked for. *)
Definition charged (user : User) (n : Z) (lims : gmap Z L) : gmap Z L :=
  match lims !! ID user with
  | Some lim => if bool_decide (Burst lim < n)%Z then lims else <[ID user := (WaitN lim n).1]> lims
  | None => lims
  end.

(** The batch of the metrics that were accepted, handed to the publisher. *)
Definition handed (user : User) (ms : list MetricData) (g : gw (L:=L) (S:=S)) :=
  Publish publisher (omap (accepted user) ms) (g_pub g).

Definition batch_reply (user : User) (d : ctx_done) (ms : list MetricData) (g g' : gw (L:=L) (S:=S))
    (r : reply jbody) : Prop :=
  let n := Z.of_nat (length (omap (accepted user) ms)) in
  g_limits g' = charged user n (g_limits g) ∧
  match refusal user n (done_limit d) (g_limits g) with
  | Some code => status r = code ∧ g_pub g' = g_pub g
  | None =>
      if done_publish d then status r = 499%Z ∧ g_pub g' = g_pub g else
      g_pub g' = (handed user ms g).1.1 ∧
      match (handed user ms g).2 with
      | Some _ => status r = 500%Z
      | None => status r = 200%Z ∧ ∃ x, body r = Response x ∧ Published x = n ∧
          (Invalid x + Published x = Z.of_nat (length ms))%Z
      end
  end.

Definition reply_for (c : content) (user : User) (d : ctx_done) (g g' : gw (L:=L) (S:=S)) (r : reply jbody) : Prop :=
  match c with
  | Unknown | NoBody | Undecodable => status r = 400%Z ∧ g' = g
  | Unreadable => status r = (if done_read d then 499%Z else 500%Z) ∧ g' = g
  | Batch l => ∃ ms, l = Some <$> ms ∧ batch_reply user d ms g g' r
  end.

Definition reply_ok (user : User) (rq : metrics_req) : gw (L:=L) (S:=S) → gw (L:=L) (S:=S) → reply jbody → Prop :=
  reply_for (content_of rq) user (rq_done rq).

Lemma limit_batch_spec user n d (g : gw (S:=S)) :
  let '(g', r) := limit_batch Burst WaitN user n d g in
  g_pub g' = g_pub g ∧ g_limits g' = charged user n (g_limits g) ∧
  status <$> r = refusal user n (done_limit d) (g_limits g).
Proof.
  unfold limit_batch, UseRateLimit, refusal, charged, rateLimit.
  destruct (g_limits g !! ID user) as [lim|] eqn:El; cbn [mbind option_bind].
  - rewrite bool_decide_eq_true_2.
    2:{ assert (size (g_limits g) ≠ 0); [|lia]. apply map_size_ne_0_lookup. eauto. }
    destruct (bool_decide (Burst lim < n)%Z); [by destruct (done_limit d)|].
    destruct (WaitN lim n) as [lim' []]; cbn; by destruct (done_limit d).
  - by destruct (bool_decide _).
Qed.

Lemma batch_ok user d l g :
  match batch user d l g with
  | Ok (g', r) => ∃ ms, l = Some <$> ms ∧ batch_reply user d ms g g' r
  | Err _ => False
  | Panic => None ∈ l
  end.
Proof.
  unfold ingest_batch. pose proof (prepareIngest_cases user l) as Ep.
  destruct (prepareIngest user l) as [p| |]; cbn [mbind outcome_bind]; [|done|done].
  destruct Ep as (ms & -> & Hinv). rewrite (pi_pub _ _ _ Hinv) in *.
  set (n := Z.of_nat (length (omap (accepted user) ms))) in *.
  pose proof (limit_batch_spec user n d g) as Hl.
  destruct (limit_batch Burst WaitN user n d g) as [g1 r1]. destruct Hl as (H1 & H2 & H3).
  destruct r1 as [x|]; cbn [fmap option_fmap option_map] in H3.
  { exists ms. split; [done|]. unfold batch_reply. fold n. by rewrite <- H3. }
  assert (Hlim : g_limits g1 = charged user n (g_limits g)) by done.
  destruct (done_publish d) eqn:Ed.
  { exists ms. split; [done|]. unfold batch_reply. fold n. by rewrite <- H3, Ed. }
  pose proof (rejections_accepted user ms) as Hcount. pose proof (pi_invalid _ _ _ Hinv) as Hi.
  rewrite H1. destruct (Publish publisher _ (g_pub g)) as [[s ms'] [e|]] eqn:EP;
    (exists ms; split; [done|]; unfold batch_reply, handed; fold n; rewrite <- H3, Ed, EP; split; [done|]; split; [done|]).
  - done.
  - split; [done|]. eexists. split; [done|]. split; [done|]. cbn. lia.
Qed.

Lemma content_ok user rq g text decode :
  match (if negb (rq_body rq) then Ok (g, mkReply 400 (Text "no data included in request.")) else
    match text with
    | None => Ok (g, read_failed (rq_done rq))
    | Some b =>
        match decode b with None => Ok (g, mkReply 400 ErrText) | Some l => batch user (rq_done rq) l g end
    end) with
  | Ok (g', r) => reply_for (content_by rq text decode) user (rq_done rq) g g' r
  | Err _ => False
  | Panic => ∃ l, content_by rq text decode = Batch l ∧ None ∈ l
  end.
Proof.
  unfold content_by, read_failed, reply_for. destruct (rq_body rq); cbn [negb]; [|done].
  destruct text as [b|]; [|by destruct (done_read (rq_done rq))].
  destruct (decode b) as [l|]; [|done]. pose proof (batch_ok user (rq_done rq) l g) as Hb.
  destruct (batch user (rq_done rq) l g) as [[g' r]| |]; [done|done|by exists l].
Qed.

Lemma metrics_ok user rq g :
  match handle user rq g with
  | Ok (g', r) => reply_ok user rq g g' r
  | Err _ => False
  | Panic => ∃ l, content_of rq = Batch l ∧ None ∈ l
  end.
Proof.
  unfold reply_ok, content_of, Metrics. case_bool_decide; [apply content_ok|].
  case_bool_decide; [apply content_ok|]. case_bool_decide; [apply content_ok|done].
Qed.
End handlers.


Definition ex_req (b : string) : metrics_req :=
  mkReq "application/json" true (Some b) (mkDone false false false).
Definition ex_decode (s : string) : option (list (option MetricData)) :=
  if bool_decide (s = "") then None else Some [Some ex_foreign; Some (with_Interval 0 ex_foreign)].
Definition ex_gw : gw (L:=Z) (S:=unit) := mkGw (mkPState tt ∅) {[7%Z := 1%Z]}.
Definition ex_handle (b : string) : outcome unit (gw (L:=Z) (S:=unit) * reply jbody) :=
  Metrics (λ l, l) (λ l n, (l, true)) (nullPublisher (E:=unit)) ex_decode id ex_decode ex_user
    (ex_req b) ex_gw.


(** A batch larger than the burst of the org's limiter is refused with 413
    and nothing of it is published; an org without a limiter is never limited. *)
Theorem oversized_batch_is_refused {L S E} (Burst : L → Z) (WaitN : L → Z → L * bool)
    (publisher : Publisher S E) user d ms p g lim :
  prepareIngest user (Some <$> ms) = Ok p → done_limit d = false →
  (g_limits g !! ID user = Some lim → (Burst lim < Z.of_nat (length (toPublish p)))%Z →
   ingest_batch Burst WaitN publisher user d (Some <$> ms) g =
     Ok (g, mkReply 413 (Text "batch is larger than limit"))) ∧
  (g_limits g !! ID user = None →
   limit_batch Burst WaitN user (Z.of_nat (length (toPublish p))) d g = (g, None)).
Proof.
  intros Hp Hd. split.
  - intros Hl Hb. unfold ingest_batch. rewrite Hp. cbn [mbind outcome_bind]. unfold limit_batch.
    assert (UseRateLimit (g_limits g) = true) as ->.
    { unfold UseRateLimit. apply bool_decide_eq_true_2.
      assert (size (g_limits g) ≠ 0); [|lia]. apply map_size_ne_0_lookup. eauto. }
    unfold rateLimit. rewrite Hl, bool_decide_eq_true_2 by done. rewrite Hd.
    rewrite bool_decide_eq_true_2 by done. by destruct g.
  - intros Hl. unfold limit_batch, rateLimit. rewrite Hl. destruct (UseRateLimit _); by destruct g.
Qed.

Lemma oversized_batch_is_refused_witness :
  match prepareIngest ex_user (Some <$> [ex_foreign; ex_foreign]) with
  | Ok p => ingest_batch (λ l : Z, l) (λ l n, (l, true)) (nullPublisher (E:=unit)) ex_user
              (mkDone false false false) (Some <$> [ex_foreign; ex_foreign]) ex_gw
            = Ok (ex_gw, mkReply 413 (Text "batch is larger than limit"))
  | _ => False
  end.
Proof.
  destruct (prepareIngest ex_user (Some <$> [ex_foreign; ex_foreign])) as [p| |] eqn:E;
    [|discriminate|discriminate].
  apply (proj1 (oversized_batch_is_refused (λ l : Z, l) (λ l n, (l, true)) (nullPublisher (E:=unit))
    ex_user (mkDone false false false) [ex_foreign; ex_foreign] p ex_gw 1%Z E eq_refl)).
  - vm_compute. reflexivity.
  - vm_compute in E. injection E as <-. vm_compute. reflexivity.
Defined.
