(* ===== verification/Gcom.v ===== *)
(** * auth/gcom

    Authentication against grafana.com: the two caches of cache.go (their code
    is the same up to the type of the cached answer, so they are two instances
    of one model), the validation of tokens and instances of auth.go, and
    [Auth] and [CheckInstance] on top of both. What grafana.com answers and the
    JSON decoder are parameters; a time is a number of nanoseconds. *)

From S2P Require Import Prelude GoStrings Strconv Http.
From Stdlib Require Import Ascii.

(** ** The caches *)

Module TTL.
Section ttl.
Context {V : Type}.

Record Resp := mkResp { value : V; retrieved : Z; lastRead : Z }.

Record Cache := mkCache { items : gmap string Resp; cacheTTL : Z }.

(** [time.Time.Unix] *)
Definition Unix (t : Z) : Z := (t / 1000000000)%Z.

Definition with_items (m : gmap string Resp) (c : Cache) : Cache := mkCache m (cacheTTL c).

(** [dflt] is the answer for a missing key. *)
Definition Get (dflt : V) (key : string) (now : Z) (c : Cache) : Cache * (V * bool) :=
  match items c !! key with
  | Some i => (with_items (<[key := mkResp (value i) (retrieved i) (Unix now)]> (items c)) c,
               (value i, true))
  | None => (c, (dflt, false))
  end.

Definition Set_ (key : string) (v : V) (now : Z) (c : Cache) : Cache :=
  with_items (<[key := mkResp v now (Unix now)]> (items c)) c.

Definition Clear (c : Cache) : Cache := with_items ∅ c.

(** The keys collected under the read lock. *)
Definition expired (now : Z) (c : Cache) : list string :=
  (map_to_list (filter (λ x, (retrieved x.2 < now - cacheTTL c)%Z) (items c))).*1.

(** One round of the loop of [validate]. [fresh] is the answer of the
    revalidation, [None] when it failed and the entry is to be kept. *)
Definition validate_key (now : Z) (fresh : option V) (k : string) (c : Cache) : Cache :=
  match fresh with
  | None => c
  | Some v =>
      match items c !! k with
      | None => c
      | Some r =>
          if bool_decide (lastRead r < Unix (retrieved r))%Z then with_items (delete k (items c)) c
          else with_items (<[k := mkResp v now (lastRead r)]> (items c)) c
      end
  end.

Definition validate (now : Z) (fresh : string → option V) (c : Cache) : Cache :=
  foldl (λ c k, validate_key now (fresh k) k c) c (expired now c).

Definition new (ttl : Z) : Cache := mkCache ∅ ttl.
End ttl.
Arguments Resp : clear implicits.
Arguments Cache : clear implicits.
End TTL.

(** ** Data *)

Inductive gcom_error :=
| ErrInvalidApiKey | ErrInvalidOrgId | ErrInvalidInstanceID | ErrInvalidInstanceType
| ErrInvalidCluster | ErrOther.

#[export] Instance gcom_error_eq_dec : EqDecision gcom_error.
Proof. solve_decision. Defined.

Record SignedInUser := mkSignedInUser {
  su_Id : Z; su_OrgName : string; su_OrgId : Z; su_OrgSlug : string; su_Name : string;
  su_Role : RoleType; su_CreatedAt : Z; su_IsAdmin : bool; su_key : string }.

Record Instance_ := mkInstance {
  i_ID : Z; i_OrgID : Z; i_ClusterName : string; i_ClusterID : Z; i_InstanceType : string }.

(** The flags of the package. *)
Record gcom_flags := mkGcomFlags {
  validOrgIds : list Z; validInstanceType : string; validClusterID : Z; validationDryRun : bool }.

Definition TokenCache : Type := TTL.Cache (option SignedInUser).
Definition InstanceCache : Type := TTL.Cache bool.

(** The package's state: the caches and the counter [validationFailed], as the
    labels it was incremented with, the latest first. *)
Record gcom_state := mkGcom {
  tokenCache : TokenCache; instanceCache : InstanceCache; failed : list string }.

Definition set_tokens (t : TokenCache) (s : gcom_state) : gcom_state :=
  mkGcom t (instanceCache s) (failed s).
Definition set_instances (i : InstanceCache) (s : gcom_state) : gcom_state :=
  mkGcom (tokenCache s) i (failed s).
Definition inc_failed (l : string) (s : gcom_state) : gcom_state :=
  mkGcom (tokenCache s) (instanceCache s) (l :: failed s).

Definition TokenCache_Get (key : string) (now : Z) (c : TokenCache) :
    TokenCache * (option SignedInUser * bool) := TTL.Get None key now c.
Definition TokenCache_Set (key : string) (u : option SignedInUser) (now : Z) (c : TokenCache) :
    TokenCache := TTL.Set_ key u now c.
Definition InstanceCache_Get (key : string) (now : Z) (c : InstanceCache) :
    InstanceCache * (bool * bool) := TTL.Get false key now c.
Definition InstanceCache_Set (key : string) (valid : bool) (now : Z) (c : InstanceCache) :
    InstanceCache := TTL.Set_ key valid now c.

Section gcom.
Context (flags : gcom_flags).

(** What the HTTP client returns: [None] for a transport error, otherwise the
    status, the bytes of the body that were read and whether the reading ended
    without an error. *)
Definition http_result : Type := option (Z * string * bool).

(** [json.Unmarshal] of the body over a user that holds its key. *)
Context (decode_user : string → SignedInUser → option SignedInUser).
Context (decode_instance : string → option Instance_).
(** grafana.com: the token check, and the instance lookup with a token. *)
Context (check_token : string → http_result) (get_instance : string → string → http_result).

(** ** validateToken *)

Definition new_user (key : string) : SignedInUser := mkSignedInUser 0 "" 0 "" "" "" 0 false key.

Definition validateToken (keyString : string) : outcome gcom_error SignedInUser :=
  match check_token keyString with
  | None => Err ErrOther
  | Some (_, _, false) => Err ErrOther
  | Some (status, body, true) =>
      if bool_decide (500 ≤ status)%Z then Err ErrOther
      else if bool_decide (status ≠ 200%Z) then Err ErrInvalidApiKey
      else match decode_user body (new_user keyString) with
           | None => Err ErrOther
           | Some user =>
               if bool_decide (length (validOrgIds flags) = 0) ||
                  bool_decide (su_OrgId user ∈ validOrgIds flags)
               then Ok user else Err ErrInvalidOrgId
           end
  end.

(** Concurrent calls for one key share one; a call alone is [validateToken]. *)
Definition ValidateToken (keyString : string) : outcome gcom_error SignedInUser :=
  validateToken keyString.

(** ** Auth *)

Definition admin_user (key : string) : SignedInUser :=
  mkSignedInUser 0 "Admin" 1 "admin" "" ROLE_ADMIN 0 true key.

(** [now] is the time of the cache accesses. *)
Definition Auth (adminKey keyString : string) (now : Z) (s : gcom_state) :
    gcom_state * outcome gcom_error SignedInUser :=
  if bool_decide (keyString = adminKey) then (s, Ok (admin_user keyString)) else
  let '(tc, (user, cached)) := TokenCache_Get keyString now (tokenCache s) in
  let s := set_tokens tc s in
  if cached : bool then
    (s, match user with Some u => Ok u | None => Err ErrInvalidApiKey end)
  else
    match ValidateToken keyString with
    | Ok u => (set_tokens (TokenCache_Set keyString (Some u) now (tokenCache s)) s, Ok u)
    | Err e =>
        if bool_decide (e ≠ ErrInvalidApiKey ∧ e ≠ ErrInvalidOrgId) then (s, Err e)
        else (set_tokens (TokenCache_Set keyString None now (tokenCache s)) s, Err e)
    | Panic => (s, Panic)
    end.

(** ** Instances *)

Definition inc_if (b : bool) (l : string) (s : gcom_state) : gcom_state :=
  if b then inc_failed l s else s.

Definition type_mismatch (i : Instance_) : bool :=
  bool_decide (validInstanceType flags ≠ "" ∧ validInstanceType flags ≠ i_InstanceType i).
Definition cluster_mismatch (i : Instance_) : bool :=
  bool_decide (validClusterID flags ≠ 0%Z ∧ validClusterID flags ≠ i_ClusterID i).

(** The checks of an instance that was found. *)
Definition check_instance_attrs (i : Instance_) (s : gcom_state) :
    gcom_state * outcome gcom_error unit :=
  let s := inc_if (type_mismatch i) "instance" s in
  if type_mismatch i && negb (validationDryRun flags) then (s, Err ErrInvalidInstanceType) else
  let s := inc_if (cluster_mismatch i) "cluster" s in
  if cluster_mismatch i && negb (validationDryRun flags) then (s, Err ErrInvalidCluster)
  else (s, Ok tt).

(** A status of 500 or more returns the error of reading the body. *)
Definition validateInstance (instanceID token : string) (s : gcom_state) :
    gcom_state * outcome gcom_error unit :=
  match get_instance instanceID token with
  | None => (s, Err ErrOther)
  | Some (status, body, read_ok) =>
      if bool_decide (500 ≤ status)%Z then (s, if (read_ok : bool) then Ok tt else Err ErrOther)
      else if bool_decide (status ≠ 200%Z) then (s, Err ErrInvalidInstanceID)
      else match decode_instance body with
           | None => (s, Err ErrOther)
           | Some i =>
               if bool_decide (Itoa (i_ID i) ≠ instanceID) then (s, Err ErrInvalidInstanceID)
               else check_instance_attrs i s
           end
  end.

Definition ValidateInstance (cacheKey : string) (s : gcom_state) :
    gcom_state * outcome gcom_error unit :=
  let idKey := SplitN2 ":" cacheKey in
  match idKey !! 0, idKey !! 1 with
  | Some instanceID, Some token => validateInstance instanceID token s
  | _, _ => (s, Panic)
  end.

Definition CheckInstance (u : SignedInUser) (instanceID : string) (now : Z) (s : gcom_state) :
    gcom_state * outcome gcom_error unit :=
  let cachekey := instanceID +:+ ":" +:+ su_key u in
  let '(ic, (valid, cached)) := InstanceCache_Get cachekey now (instanceCache s) in
  let s := set_instances ic s in
  if cached : bool then (s, if (valid : bool) then Ok tt else Err ErrInvalidInstanceID)
  else
    let '(s, r) := ValidateInstance cachekey s in
    match r with
    | Ok _ => (set_instances (InstanceCache_Set cachekey true now (instanceCache s)) s, Ok tt)
    | Err e =>
        if bool_decide (e = ErrInvalidInstanceID)
        then (set_instances (InstanceCache_Set cachekey false now (instanceCache s)) s, Err e)
        else (s, Err e)
    | Panic => (s, Panic)
    end.

(** ** The background validation *)

(** For a token: [ErrInvalidApiKey] is an answer, any other error keeps the
    entry. *)
Definition fresh_token (k : string) : option (option SignedInUser) :=
  match ValidateToken k with
  | Ok u => Some (Some u)
  | Err e => if bool_decide (e = ErrInvalidApiKey) then Some None else None
  | Panic => None
  end.

Definition TokenCache_validate (now : Z) (c : TokenCache) : TokenCache :=
  TTL.validate now fresh_token c.

Definition fresh_answer (r : outcome gcom_error unit) : option bool :=
  match r with
  | Ok _ => Some true
  | Err e => if bool_decide (e = ErrInvalidInstanceID) then Some false else None
  | Panic => None
  end.

Definition instance_round (now : Z) (s : gcom_state) (k : string) : gcom_state :=
  let '(s, r) := ValidateInstance k s in
  set_instances (TTL.validate_key now (fresh_answer r) k (instanceCache s)) s.

Definition InstanceCache_validate (now : Z) (s : gcom_state) : gcom_state :=
  foldl (instance_round now) s (TTL.expired now (instanceCache s)).
End gcom.
