(* ===== verification/GcomSpec.v ===== *)
(** * The theorems of the grafana.com authentication

    Who is admitted, what the caches may answer and for how long. *)

From S2P Require Import Prelude GoStrings Strconv Http Gcom.
From Stdlib Require Import Ascii.

(** ** The caches *)

Section ttl.
Context {V : Type}.
Implicit Types c : TTL.Cache V.

Lemma validate_key_other now fresh k k' c :
  k ≠ k' → TTL.items (TTL.validate_key now fresh k c) !! k' = TTL.items c !! k'.
Proof.
  intros Hne. unfold TTL.validate_key. destruct fresh as [v|]; [|done].
  destruct (TTL.items c !! k) as [r|]; [|done].
  case_bool_decide; simpl; [by rewrite lookup_delete_ne|by rewrite lookup_insert_ne].
Qed.

Lemma validate_key_ttl now fresh k c : TTL.cacheTTL (TTL.validate_key now fresh k c) = TTL.cacheTTL c.
Proof. unfold TTL.validate_key. solve_cases. Qed.

Lemma validate_list_other now fresh l k c :
  k ∉ l →
  TTL.items (foldl (λ c k, TTL.validate_key now (fresh k) k c) c l) !! k = TTL.items c !! k.
Proof.
  revert c. induction l as [|x l IH]; intros c; [done|]. intros [? ?]%not_elem_of_cons. simpl.
  rewrite IH by done. by apply validate_key_other.
Qed.

Lemma validate_list_in now (fresh : string → option V) l k c :
  NoDup l → k ∈ l →
  TTL.items (foldl (λ c k, TTL.validate_key now (fresh k) k c) c l) !! k =
    TTL.items (TTL.validate_key now (fresh k) k c) !! k.
Proof.
  intros Hnd. revert c. induction Hnd as [|x l Hx Hnd IH]; intros c Hk; [by apply elem_of_nil in Hk|].
  simpl. apply elem_of_cons in Hk as [<-|Hk]; [by rewrite validate_list_other|].
  rewrite IH by done. assert (Hne : x ≠ k) by set_solver.
  unfold TTL.validate_key at 1 3. destruct (fresh k) as [v|]; [|by apply validate_key_other].
  rewrite validate_key_other by done. destruct (TTL.items c !! k); [|by apply validate_key_other].
  case_bool_decide; simpl; [by rewrite !lookup_delete_eq|by rewrite !lookup_insert_eq].
Qed.

Lemma expired_spec now c k :
  k ∈ TTL.expired now c ↔
  ∃ r, TTL.items c !! k = Some r ∧ (TTL.retrieved r < now - TTL.cacheTTL c)%Z.
Proof.
  unfold TTL.expired. rewrite list_elem_of_fmap. split.
  - intros ([k' r] & -> & Hin%elem_of_map_to_list). apply map_lookup_filter_Some in Hin.
    exists r. naive_solver.
  - intros (r & Hr & Hlt). exists (k, r). split; [done|]. apply elem_of_map_to_list.
    by apply map_lookup_filter_Some.
Qed.

(** What a run of [validate] makes of each entry. *)
Lemma validate_lookup now fresh c k :
  TTL.items (TTL.validate now fresh c) !! k =
    match TTL.items c !! k with
    | None => None
    | Some r =>
        if bool_decide (TTL.retrieved r < now - TTL.cacheTTL c)%Z then
          match fresh k with
          | None => Some r
          | Some v =>
              if bool_decide (TTL.lastRead r < TTL.Unix (TTL.retrieved r))%Z then None
              else Some (TTL.mkResp v now (TTL.lastRead r))
          end
        else Some r
    end.
Proof.
  unfold TTL.validate. destruct (decide (k ∈ TTL.expired now c)) as [Hin|Hni].
  - rewrite validate_list_in by (done || apply NoDup_fst_map_to_list).
    apply expired_spec in Hin as (r & Hr & Hlt). rewrite Hr, bool_decide_eq_true_2 by done.
    unfold TTL.validate_key. destruct (fresh k); [|done]. rewrite Hr.
    case_bool_decide; simpl; [by rewrite lookup_delete_eq|by rewrite lookup_insert_eq].
  - rewrite validate_list_other by done. destruct (TTL.items c !! k) as [r|] eqn:Hr; [|done].
    rewrite bool_decide_eq_false_2; [done|]. intros Hlt. apply Hni, expired_spec. eauto.
Qed.

Lemma validate_ttl now fresh c : TTL.cacheTTL (TTL.validate now fresh c) = TTL.cacheTTL c.
Proof.
  unfold TTL.validate. generalize (TTL.expired now c). intros l. revert c.
  induction l as [|k l IH]; intros c; [done|]. simpl. rewrite IH. apply validate_key_ttl.
Qed.
End ttl.

(** ** Who is admitted *)

Section gcom.
Context (flags : gcom_flags).
Context (decode_user : string → SignedInUser → option SignedInUser).
Context (decode_instance : string → option Instance_).

(** encoding/json sets neither the unexported field [key] nor [IsAdmin], whose
    tag is "-". *)
Definition decode_keeps : Prop :=
  ∀ body u u', decode_user body u = Some u' → su_key u' = su_key u ∧ su_IsAdmin u' = su_IsAdmin u.

Definition org_allowed (u : SignedInUser) : Prop :=
  validOrgIds flags = [] ∨ su_OrgId u ∈ validOrgIds flags.

(** grafana.com vouches for the user of a key. *)
Definition vouched (check_token : string → http_result) (k : string) (u : SignedInUser) : Prop :=
  ∃ body, check_token k = Some (200%Z, body, true) ∧ decode_user body (new_user k) = Some u ∧
    org_allowed u.

Lemma validateToken_Ok check_token k u :
  validateToken flags decode_user check_token k = Ok u ↔ vouched check_token k u.
Proof.
  unfold validateToken, vouched, org_allowed. split.
  - destruct (check_token k) as [[[status body] [|]]|]; [|done|done].
    case_bool_decide; [done|]. case_bool_decide as H2; [done|].
    destruct (decode_user body (new_user k)) as [u'|] eqn:Ed; [|done].
    destruct (_ || _) eqn:Eo; [|done]. intros [= ->]. exists body.
    split_and!; [|done|].
    + destruct (decide (status = 200%Z)) as [->|]; [done|]. by destruct H2.
    + apply orb_true_iff in Eo as [E%bool_decide_eq_true|E%bool_decide_eq_true]; [|by right].
      left. by apply nil_length_inv.
  - intros (body & -> & -> & Ho). simpl.
    assert (bool_decide (length (validOrgIds flags) = 0) ||
            bool_decide (su_OrgId u ∈ validOrgIds flags) = true) as ->; [|done].
    destruct Ho as [-> | Ho]; [done|]. rewrite (bool_decide_eq_true_2 _ Ho). apply orb_true_r.
Qed.

(** One of the answers of grafana.com, each a function of the key that was sent,
    vouched for the user of the key. *)
Definition was_vouched (asked : list (string → http_result)) (k : string) (u : SignedInUser) : Prop :=
  ∃ check_token, check_token ∈ asked ∧ vouched check_token k u.

(** Every user in the token cache is one grafana.com vouched for once. *)
Definition wf_tokens (asked : list (string → http_result)) (c : TokenCache) : Prop :=
  map_Forall (λ k r, ∀ u, TTL.value r = Some u → was_vouched asked k u) (TTL.items c).

Lemma was_vouched_now check_token asked k u :
  vouched check_token k u → was_vouched (check_token :: asked) k u.
Proof. exists check_token. split; [apply list_elem_of_here|done]. Qed.

Lemma wf_tokens_later check_token asked c : wf_tokens asked c → wf_tokens (check_token :: asked) c.
Proof.
  intros Hw k r Hr u Hu. destruct (Hw k r Hr u Hu) as (ct & Hin & Hv). exists ct. split; [|done].
  by apply list_elem_of_further.
Qed.

Lemma vouched_user check_token k u :
  decode_keeps → vouched check_token k u → su_key u = k ∧ su_IsAdmin u = false ∧ org_allowed u.
Proof. intros Hd (body & _ & Hdec & Ho). apply Hd in Hdec as [-> ->]. done. Qed.

Lemma Get_items {V} (dflt : V) k now c :
  TTL.Get dflt k now c =
    match TTL.items c !! k with
    | Some i => (TTL.with_items (<[k := TTL.mkResp (TTL.value i) (TTL.retrieved i) (TTL.Unix now)]>
                   (TTL.items c)) c, (TTL.value i, true))
    | None => (c, (dflt, false))
    end.
Proof. done. Qed.

Lemma Auth_spec check_token asked adminKey k now s s' r :
  wf_tokens asked (tokenCache s) → k ≠ adminKey →
  Auth flags decode_user check_token adminKey k now s = (s', r) →
  wf_tokens (check_token :: asked) (tokenCache s') ∧
  (∀ u, r = Ok u → was_vouched (check_token :: asked) k u).
Proof.
  intros Hw Hk. apply (wf_tokens_later check_token) in Hw. unfold Auth. rewrite bool_decide_eq_false_2 by done.
  unfold TokenCache_Get. rewrite Get_items.
  destruct (TTL.items (tokenCache s) !! k) as [i|] eqn:Ei.
  - intros [= <- <-]. pose proof (Hw _ _ Ei) as Hi. split.
    + cbn. apply map_Forall_insert_2; [|done]. intros u Hu. by apply Hi.
    + intros u Hu. destruct (TTL.value i) as [u'|] eqn:Eu; [|done]. injection Hu as ->. by apply Hi.
  - destruct (ValidateToken flags decode_user check_token k) as [u|e|] eqn:Ev.
    + apply validateToken_Ok, (was_vouched_now _ asked) in Ev. intros [= <- <-]. split.
      * cbn. apply map_Forall_insert_2; [|done]. by intros u' [= <-].
      * by intros u' [= <-].
    + case_bool_decide; intros [= <- <-]; (split; [|done]); cbn; [done|].
      apply map_Forall_insert_2; [done|done].
    + by intros [= <- <-].
Qed.

Lemma validate_wf check_token asked now c :
  wf_tokens asked c → wf_tokens (check_token :: asked) (TokenCache_validate flags decode_user check_token now c).
Proof.
  intros Hw k r. apply (wf_tokens_later check_token) in Hw. unfold TokenCache_validate. rewrite validate_lookup.
  destruct (TTL.items c !! k) as [r0|] eqn:E; [|done]. specialize (Hw _ _ E).
  case_bool_decide; [|intros [= <-]; exact Hw]. unfold fresh_token.
  destruct (ValidateToken flags decode_user check_token k) as [u|e|] eqn:Ev.
  - case_bool_decide; [done|]. intros [= <-] u' [= <-].
    apply validateToken_Ok in Ev. by apply was_vouched_now.
  - case_bool_decide; [case_bool_decide; [done|by intros [= <-]]|intros [= <-]; exact Hw].
  - intros [= <-]. exact Hw.
Qed.

(** *** The state over time: grafana.com's answers change between the steps *)

(** A step of the package while [check_token] is what grafana.com answers. *)
Inductive gstep (adminKey : string) (check_token : string → http_result) : gcom_state → gcom_state → Prop :=
| GAuth k now s :
    gstep adminKey check_token s (Auth flags decode_user check_token adminKey k now s).1
| GCheck get_instance u i now s :
    gstep adminKey check_token s (CheckInstance flags decode_instance get_instance u i now s).1
| GValidateTokens now s :
    gstep adminKey check_token s (set_tokens (TokenCache_validate flags decode_user check_token now (tokenCache s)) s)
| GValidateInstances get_instance now s :
    gstep adminKey check_token s (InstanceCache_validate flags decode_instance get_instance now s)
| GClear s :
    gstep adminKey check_token s
      (set_instances (TTL.Clear (instanceCache s)) (set_tokens (TTL.Clear (tokenCache s)) s)).

(** The states the package can reach, with the answers grafana.com had on the
    way, the latest first. *)
Inductive reached (adminKey : string) (ttl : Z) : list (string → http_result) → gcom_state → Prop :=
| reached_init : reached adminKey ttl [] (mkGcom (TTL.new ttl) (TTL.new ttl) [])
| reached_step check_token asked s s' :
    reached adminKey ttl asked s → gstep adminKey check_token s s' → reached adminKey ttl (check_token :: asked) s'.

Lemma check_attrs_tokens i s : tokenCache (check_instance_attrs flags i s).1 = tokenCache s.
Proof.
  unfold check_instance_attrs, inc_if.
  destruct (type_mismatch flags i), (cluster_mismatch flags i), (validationDryRun flags); done.
Qed.

Lemma validateInstance_tokens get_instance i t s :
  tokenCache (validateInstance flags decode_instance get_instance i t s).1 = tokenCache s.
Proof.
  unfold validateInstance. destruct (get_instance i t) as [[[st b] ok]|]; [|done].
  repeat (case_bool_decide; [done|]). destruct (decode_instance b); [|done].
  case_bool_decide; [done|]. apply check_attrs_tokens.
Qed.

Lemma ValidateInstance_tokens get_instance k s :
  tokenCache (ValidateInstance flags decode_instance get_instance k s).1 = tokenCache s.
Proof. unfold ValidateInstance. repeat case_goal; try done. apply validateInstance_tokens. Qed.

Lemma CheckInstance_tokens get_instance u i now s :
  tokenCache (CheckInstance flags decode_instance get_instance u i now s).1 = tokenCache s.
Proof.
  unfold CheckInstance, InstanceCache_Get. rewrite Get_items.
  destruct (TTL.items (instanceCache s) !! _) as [x|]; [done|]. cbn [set_instances].
  match goal with |- context [ValidateInstance ?a ?b ?c ?d ?e] =>
    pose proof (ValidateInstance_tokens c d e) as H; destruct (ValidateInstance a b c d e) as [s1 [[]|e1|]] end;
    cbn in *; [done| |done]. by case_bool_decide.
Qed.

Lemma instance_validate_tokens get_instance now s :
  tokenCache (InstanceCache_validate flags decode_instance get_instance now s) = tokenCache s.
Proof.
  unfold InstanceCache_validate. generalize (TTL.expired now (instanceCache s)). intros l.
  revert s. induction l as [|k l IH]; intros s; [done|]. simpl. rewrite IH. unfold instance_round.
  pose proof (ValidateInstance_tokens get_instance k s) as H.
  by destruct (ValidateInstance _ _ _ k s).
Qed.

Lemma gstep_wf adminKey check_token asked s s' :
  gstep adminKey check_token s s' → wf_tokens asked (tokenCache s) → wf_tokens (check_token :: asked) (tokenCache s').
Proof.
  intros [k now s0|get u i now s0|now s0|get now s0|s0] Hw.
  - destruct (decide (k = adminKey)) as [->|Hk].
    + unfold Auth. rewrite bool_decide_eq_true_2 by done. by apply wf_tokens_later.
    + destruct (Auth _ _ _ _ _ _ _) as [s1 r] eqn:E. by eapply Auth_spec in E as [? _].
  - rewrite CheckInstance_tokens. by apply wf_tokens_later.
  - by apply validate_wf.
  - rewrite instance_validate_tokens. by apply wf_tokens_later.
  - apply map_Forall_empty.
Qed.

Lemma reached_wf adminKey ttl asked s : reached adminKey ttl asked s → wf_tokens asked (tokenCache s).
Proof. induction 1 as [|check_token asked s s' _ IH Hs]; [apply map_Forall_empty|]. by eapply gstep_wf. Qed.
End gcom.

(** ** Properties *)

(** C19. Only the admin key makes an admin. In every state the package can reach,
    whatever grafana.com answers over time: the admin key is admitted as the
    admin; and whoever is admitted with another key is no admin, and
    grafana.com has answered a validation of this very key, now or before, with
    status 200 and the description of this user, whose org is among the permitted
    ones. *)
Theorem only_the_admin_key_is_admin flags decode_user decode_instance check_token adminKey ttl asked s s' k now u :
  decode_keeps decode_user →
  reached flags decode_user decode_instance adminKey ttl asked s →
  Auth flags decode_user check_token adminKey k now s = (s', Ok u) →
  su_key u = k ∧
  if bool_decide (k = adminKey) then u = admin_user k
  else su_IsAdmin u = false ∧ org_allowed flags u ∧
    ∃ check body, check ∈ check_token :: asked ∧ check k = Some (200%Z, body, true) ∧
      decode_user body (new_user k) = Some u.
Proof.
  intros Hd Hr HA. apply reached_wf in Hr. case_bool_decide as Hk.
  - subst k. unfold Auth in HA. rewrite bool_decide_eq_true_2 in HA by done. by injection HA as <- <-.
  - eapply Auth_spec in HA as [_ Hu]; [|done|done]. destruct (Hu u eq_refl) as (ct & Hin & Hv).
    destruct (vouched_user _ _ _ _ _ Hd Hv) as (H1 & H2 & H3). split_and!; [done..|].
    destruct Hv as (body & Hb & Hdec & _). by exists ct, body.
Qed.

Definition ex_flags : gcom_flags := mkGcomFlags [10%Z] "" 0 true.
Definition ex_decode_user (body : string) (u : SignedInUser) : option SignedInUser :=
  Some (mkSignedInUser 5 "org" 10 "org" body ROLE_VIEWER 0 (su_IsAdmin u) (su_key u)).
Definition ex_check (k : string) : http_result := Some (200%Z, "body", true).
Definition ex_gcom : gcom_state := mkGcom (TTL.new 3600) (TTL.new 3600) [].

Lemma ex_decode_keeps : decode_keeps ex_decode_user.
Proof. by intros body u u' [= <-]. Qed.

Lemma only_the_admin_key_is_admin_witness :
  match (Auth ex_flags ex_decode_user ex_check "secret" "key" 5 ex_gcom).2 with
  | Ok u => su_IsAdmin u = false ∧ ∃ check body, check ∈ [ex_check] ∧ check "key" = Some (200%Z, body, true) ∧
      ex_decode_user body (new_user "key") = Some u
  | _ => False
  end.
Proof.
  destruct (Auth ex_flags ex_decode_user ex_check "secret" "key" 5 ex_gcom) as [s' [u|e|]] eqn:E;
    [|discriminate E|discriminate E].
  destruct (only_the_admin_key_is_admin ex_flags ex_decode_user (λ _, None) ex_check "secret" 3600 []
    ex_gcom s' "key" 5 u ex_decode_keeps (reached_init _ _ _ _ _) E) as (_ & H).
  rewrite bool_decide_eq_false_2 in H by discriminate. destruct H as (H1 & _ & H3). exact (conj H1 H3).
Defined.

(** A cached answer is final until it is revalidated: once a key was
    accepted or rejected as an invalid key, the next request with it gets the
    same answer, whatever grafana.com would answer then. *)
Theorem cached_answer_is_repeated flags decode_user check_token check_token' adminKey k t1 t2 s s1 r :
  k ≠ adminKey →
  Auth flags decode_user check_token adminKey k t1 s = (s1, r) →
  (∃ u, r = Ok u) ∨ r = Err ErrInvalidApiKey →
  (Auth flags decode_user check_token' adminKey k t2 s1).2 = r.
Proof.
  intros Hk HA Hr. unfold Auth in HA. rewrite bool_decide_eq_false_2 in HA by done.
  assert (Hc : ∃ i, TTL.items (tokenCache s1) !! k = Some i ∧
            match TTL.value i with Some u => Ok u | None => Err ErrInvalidApiKey end = r).
  { unfold TokenCache_Get in HA. rewrite Get_items in HA.
    destruct (TTL.items (tokenCache s) !! k) as [i|] eqn:Ei.
    - injection HA as <- <-. cbn. rewrite lookup_insert_eq. eauto.
    - destruct (ValidateToken flags decode_user check_token k) as [u|e|] eqn:Ev.
      + injection HA as <- <-. cbn. rewrite lookup_insert_eq. eauto.
      + case_bool_decide as He; injection HA as <- <-.
        * destruct Hr as [[u ?]|?]; [done|]. simplify_eq. naive_solver.
        * destruct Hr as [[u ?]|?]; [done|]. simplify_eq. cbn. rewrite lookup_insert_eq. eauto.
      + injection HA as <- <-. destruct Hr as [[u ?]|?]; done. }
  destruct Hc as (i & Hi & Hv). unfold Auth. rewrite bool_decide_eq_false_2 by done.
  unfold TokenCache_Get. by rewrite Get_items, Hi.
Qed.

Lemma cached_answer_is_repeated_witness :
  (Auth ex_flags ex_decode_user (λ _, None) "secret" "key" 6
     (Auth ex_flags ex_decode_user ex_check "secret" "key" 5 ex_gcom).1).2 =
  (Auth ex_flags ex_decode_user ex_check "secret" "key" 5 ex_gcom).2.
Proof.
  apply (cached_answer_is_repeated ex_flags ex_decode_user ex_check (λ _, None) "secret" "key" 5 6 ex_gcom).
  - discriminate.
  - apply surjective_pairing.
  - left. eexists. vm_compute. reflexivity.
Defined.

(** A revalidation leaves no stale answer but those it could not refresh:
    after [validate], an entry older than the lifetime is one whose token check
    failed with an error other than "invalid key"; in particular an entry whose
    org is no longer permitted is among them, keeps its user and goes on
    admitting the key at every later revalidation. *)
Theorem revoked_org_stays_cached flags decode_user check_token now c k r :
  TTL.items c !! k = Some r →
  (TTL.items (TokenCache_validate flags decode_user check_token now c) !! k = Some r →
   (TTL.retrieved r < now - TTL.cacheTTL c)%Z → (now ≠ TTL.retrieved r) →
   ∃ e, ValidateToken flags decode_user check_token k = Err e ∧ e ≠ ErrInvalidApiKey) ∧
  (validateToken flags decode_user check_token k = Err ErrInvalidOrgId →
   TTL.items (TokenCache_validate flags decode_user check_token now c) !! k = Some r).
Proof.
  intros Hk. unfold TokenCache_validate. rewrite validate_lookup, Hk. unfold fresh_token. split.
  - intros Hv Hold Hne. rewrite bool_decide_eq_true_2 in Hv by done.
    unfold ValidateToken in *.
    destruct (validateToken flags decode_user check_token k) as [u|e|] eqn:Ev.
    + case_bool_decide; [done|]. injection Hv as Hv. rewrite <- Hv in Hne. done.
    + exists e. split; [done|]. intros ->. rewrite bool_decide_eq_true_2 in Hv by done.
      case_bool_decide; [done|]. injection Hv as Hv. rewrite <- Hv in Hne. done.
    + exfalso. revert Ev. unfold validateToken. solve_cases.
  - intros Ev. unfold ValidateToken. rewrite Ev. by case_bool_decide.
Qed.

Definition ex_entry : TTL.Resp (option SignedInUser) :=
  TTL.mkResp (Some (mkSignedInUser 5 "org" 11 "org" "" ROLE_EDITOR 0 false "key")) 0 1000.
Definition ex_cache : TokenCache := TTL.mkCache {["key" := ex_entry]} 3600.
Definition ex_moved (body : string) (u : SignedInUser) : option SignedInUser :=
  Some (mkSignedInUser 5 "org" 11 "org" body ROLE_EDITOR 0 (su_IsAdmin u) (su_key u)).

Lemma revoked_org_stays_cached_witness :
  TTL.items (TokenCache_validate ex_flags ex_moved ex_check 1000000 ex_cache) !! "key" = Some ex_entry.
Proof.
  apply (revoked_org_stays_cached ex_flags ex_moved ex_check 1000000 ex_cache "key" ex_entry).
  - vm_compute. reflexivity.
  - vm_compute. reflexivity.
Defined.

(** An org that is not permitted is reported as such only once: the answer
    is cached as "no user", and the next request with the same key is answered
    "invalid key". *)
Theorem invalid_org_becomes_invalid_key flags decode_user check_token check_token' adminKey k t1 t2 s :
  k ≠ adminKey → TTL.items (tokenCache s) !! k = None →
  validateToken flags decode_user check_token k = Err ErrInvalidOrgId →
  let '(s1, r1) := Auth flags decode_user check_token adminKey k t1 s in
  r1 = Err ErrInvalidOrgId ∧
  (Auth flags decode_user check_token' adminKey k t2 s1).2 = Err ErrInvalidApiKey.
Proof.
  intros Hk Hn Hv. unfold Auth at 1. rewrite bool_decide_eq_false_2 by done.
  unfold TokenCache_Get. rewrite Get_items, Hn. unfold ValidateToken. rewrite Hv.
  rewrite bool_decide_eq_false_2 by naive_solver. split; [done|].
  unfold Auth. rewrite bool_decide_eq_false_2 by done. unfold TokenCache_Get.
  rewrite Get_items. cbn. by rewrite lookup_insert_eq.
Qed.

Lemma invalid_org_becomes_invalid_key_witness :
  (Auth ex_flags ex_moved ex_check "secret" "key" 6
     (Auth ex_flags ex_moved ex_check "secret" "key" 5 ex_gcom).1).2 = Err ErrInvalidApiKey.
Proof.
  pose proof (invalid_org_becomes_invalid_key ex_flags ex_moved ex_check ex_check "secret" "key" 5 6
    ex_gcom ltac:(discriminate) eq_refl eq_refl) as H.
  destruct (Auth ex_flags ex_moved ex_check "secret" "key" 5 ex_gcom) as [s1 r1]. exact (proj2 H).
Defined.

(** *** Unused entries *)

(** An entry nobody reads is dropped: after it was stored, the second
    revalidation that gets an answer for it removes it, if a second has passed
    in between. *)
Theorem unused_entry_is_dropped {V} (c : TTL.Cache V) k v t0 t1 t2 fresh1 fresh2 :
  (t0 + TTL.cacheTTL c < t1)%Z → (t1 + TTL.cacheTTL c < t2)%Z →
  (TTL.Unix t0 < TTL.Unix t1)%Z →
  is_Some (fresh1 k) → is_Some (fresh2 k) →
  TTL.items (TTL.validate t2 fresh2 (TTL.validate t1 fresh1 (TTL.Set_ k v t0 c))) !! k = None.
Proof.
  intros H1 H2 Hu [v1 Hv1] [v2 Hv2].
  rewrite validate_lookup, validate_lookup, validate_ttl.
  cbn [TTL.items TTL.Set_ TTL.with_items TTL.cacheTTL]. rewrite lookup_insert_eq.
  cbn [TTL.retrieved TTL.lastRead]. rewrite bool_decide_eq_true_2 by lia. rewrite Hv1.
  rewrite bool_decide_eq_false_2 by lia. cbn [TTL.retrieved TTL.lastRead].
  rewrite bool_decide_eq_true_2 by lia. rewrite Hv2. by rewrite bool_decide_eq_true_2 by lia.
Qed.

Lemma unused_entry_is_dropped_witness :
  TTL.items (TTL.validate 9000000000 (λ _, Some true)
    (TTL.validate 5000000000 (λ _, Some true)
       (TTL.Set_ "k" true 0 (TTL.new 1000000000)))) !! "k" = None.
Proof.
  apply (unused_entry_is_dropped (TTL.new 1000000000) "k" true 0 5000000000 9000000000
           (λ _, Some true) (λ _, Some true));
    [reflexivity|reflexivity|vm_compute; reflexivity|eexists; reflexivity|eexists; reflexivity].
Defined.

(** ** Instances *)

Section instances.
Context (flags : gcom_flags) (decode_instance : string → option Instance_).

Definition attrs_ok (i : Instance_) : Prop :=
  validationDryRun flags = true ∨ (type_mismatch flags i = false ∧ cluster_mismatch flags i = false).

Lemma check_attrs_Ok i s : (check_instance_attrs flags i s).2 = Ok tt ↔ attrs_ok i.
Proof.
  unfold check_instance_attrs, attrs_ok, inc_if.
  destruct (type_mismatch flags i), (cluster_mismatch flags i), (validationDryRun flags);
    simpl; naive_solver.
Qed.

Lemma validateInstance_Ok get_instance iid token s status b ok :
  get_instance iid token = Some (status, b, ok) → (status < 500)%Z →
  (validateInstance flags decode_instance get_instance iid token s).2 = Ok tt ↔
  status = 200%Z ∧ ∃ i, decode_instance b = Some i ∧ Itoa (i_ID i) = iid ∧ attrs_ok i.
Proof.
  intros Hg Hs. unfold validateInstance. rewrite Hg, bool_decide_eq_false_2 by lia.
  case_bool_decide as H2; [naive_solver|].
  assert (status = 200%Z) as -> by (destruct (decide (status = 200%Z)); naive_solver).
  destruct (decode_instance b) as [i|]; [|naive_solver].
  case_bool_decide as Hi; [naive_solver|]. rewrite check_attrs_Ok. split; [|naive_solver].
  intros Ha. split; [done|]. exists i. split_and!; [done| |done].
  destruct (decide (Itoa (i_ID i) = iid)); naive_solver.
Qed.

Lemma ValidateInstance_split get_instance iid key s :
  has_byte ":" iid = false →
  ValidateInstance flags decode_instance get_instance (iid +:+ ":" +:+ key) s =
    validateInstance flags decode_instance get_instance iid key s.
Proof.
  intros H. unfold ValidateInstance. change (":" +:+ key) with (String ":" key).
  by rewrite SplitN2_app.
Qed.
End instances.

(** C21. Access to an instance: for an id that is not cached and an answer below
    500, a user is admitted exactly when grafana.com returns that very instance
    for the user's token and the type and cluster are the configured ones (or
    the check is a dry run); the lookup is made with the id and the token the
    cache key was built from. *)
Theorem CheckInstance_admits flags decode_instance get_instance u iid now s status b ok :
  has_byte ":" iid = false →
  TTL.items (instanceCache s) !! (iid +:+ ":" +:+ su_key u) = None →
  get_instance iid (su_key u) = Some (status, b, ok) → (status < 500)%Z →
  (CheckInstance flags decode_instance get_instance u iid now s).2 = Ok tt ↔
  status = 200%Z ∧ ∃ i, decode_instance b = Some i ∧ Itoa (i_ID i) = iid ∧ attrs_ok flags i.
Proof.
  intros Hc Hn Hg Hs. unfold CheckInstance, InstanceCache_Get. rewrite Get_items, Hn.
  cbn zeta. rewrite ValidateInstance_split by done.
  set (s0 := set_instances (instanceCache s) s).
  pose proof (validateInstance_Ok flags decode_instance get_instance iid (su_key u) s0 _ _ _ Hg Hs) as H.
  rewrite <- H. destruct (validateInstance _ _ _ _ _ s0) as [s1 [[]|e|]]; cbn; [done| |done].
  by case_bool_decide.
Qed.

Definition ex_instance : Instance_ := mkInstance 42 10 "c" 3 "graphite".
Definition ex_su : SignedInUser := mkSignedInUser 5 "org" 10 "org" "" ROLE_EDITOR 0 false "key".

Lemma CheckInstance_admits_witness :
  (CheckInstance ex_flags (λ _, Some ex_instance) (λ _ _, Some (200%Z, "", true)) ex_su "42" 0
     ex_gcom).2 = Ok tt.
Proof.
  apply (CheckInstance_admits ex_flags (λ _, Some ex_instance) (λ _ _, Some (200%Z, "", true)) ex_su
           "42" 0 ex_gcom 200 "" true); [reflexivity|reflexivity|reflexivity|reflexivity|].
  split; [reflexivity|]. exists ex_instance. split; [reflexivity|]. split; [reflexivity|].
  left. reflexivity.
Defined.

(** When grafana.com answers an instance lookup with a server error whose
    body can be read, [validateInstance] returns the nil error of the read: the
    user is admitted to the instance, and the admission is cached. *)
Theorem instance_5xx_admits_and_is_cached flags decode_instance get_instance get_later u iid now later s status b :
  has_byte ":" iid = false →
  TTL.items (instanceCache s) !! (iid +:+ ":" +:+ su_key u) = None →
  get_instance iid (su_key u) = Some (status, b, true) → (500 ≤ status)%Z →
  let '(s1, r1) := CheckInstance flags decode_instance get_instance u iid now s in
  r1 = Ok tt ∧ (CheckInstance flags decode_instance get_later u iid later s1).2 = Ok tt.
Proof.
  intros Hc Hn Hg Hs. unfold CheckInstance at 1. unfold InstanceCache_Get. rewrite Get_items, Hn.
  cbn zeta. rewrite ValidateInstance_split by done.
  unfold validateInstance. rewrite Hg, bool_decide_eq_true_2 by done. split; [done|].
  unfold CheckInstance, InstanceCache_Get. rewrite Get_items. cbn. by rewrite lookup_insert_eq.
Qed.

Lemma instance_5xx_admits_and_is_cached_witness :
  (CheckInstance ex_flags (λ _, None) (λ _ _, Some (404%Z, "", true)) ex_su "99" 1
    (CheckInstance ex_flags (λ _, None) (λ _ _, Some (503%Z, "unavailable", true)) ex_su "99" 0
       ex_gcom).1).2 = Ok tt.
Proof.
  pose proof (instance_5xx_admits_and_is_cached ex_flags (λ _, None)
    (λ _ _, Some (503%Z, "unavailable", true)) (λ _ _, Some (404%Z, "", true)) ex_su "99" 0 1 ex_gcom
    503 "unavailable" eq_refl eq_refl eq_refl ltac:(discriminate)) as H.
  destruct (CheckInstance ex_flags _ _ ex_su "99" 0 ex_gcom) as [s1 r1]. exact (proj2 H).
Defined.
