(* ===== verification/Singleflight.v ===== *)
(** * auth/gcom, concurrently: one validation for many callers

    [ValidateToken] and [ValidateInstance] of auth.go go through one
    [singleflight.Group] (src/vendor/golang.org/x/sync/singleflight): callers
    with a key that is being validated wait for that validation and get its
    result. A step is what happens under the group's mutex, or the end of a
    validation; grafana.com answers as it likes. Gcom.v has what a call does when
    it is alone. *)

From S2P Require Import Prelude GoStrings.
From Stdlib Require Import Ascii.

Section singleflight.
(** The users and the errors of a validation. *)
Context {U E : Type}.

Inductive kind := KToken | KInstance.

(** What the function of a call returns, as an [interface{}] and an error: a
    token's gives a user or an error, an instance's [nil] or an error. *)
Inductive result := RUser (u : U) | RNil | RErr (e : E).

Definition fits (k : kind) (r : result) : Prop :=
  match k, r with KToken, RNil | KInstance, RUser _ => False | _, _ => True end.

Record call := mkCall { c_key : string; c_kind : kind; c_res : option result }.

(** A goroutine in [Do]: whether it runs the function itself, the call it waits
    for, and what [ValidateToken] or [ValidateInstance] has returned. *)
Record caller := mkCaller {
  g_key : string; g_kind : kind; g_leader : bool; g_call : nat;
  g_out : option (outcome E (option U)) }.

(** The type assertion [user.( *SignedInUser)] panics on [nil]; an instance's
    value is ignored. *)
Definition finish (k : kind) (r : result) : outcome E (option U) :=
  match r with
  | RErr e => Err e
  | RUser u => match k with KToken => Ok (Some u) | KInstance => Ok None end
  | RNil => match k with KToken => Panic | KInstance => Ok None end
  end.

(** [Group.m], the calls ever made, and the goroutines. *)
Record sf := mkSf { group : gmap string nat; calls : list call; callers : list caller }.

Definition sf_init : sf := mkSf ∅ [] [].

(** [Do] up to the point where it runs the function or waits. *)
Definition Enter (key : string) (k : kind) (s : sf) : sf :=
  match group s !! key with
  | Some c => mkSf (group s) (calls s) (callers s ++ [mkCaller key k false c None])
  | None =>
      let c := length (calls s) in
      mkSf (<[key := c]> (group s)) (calls s ++ [mkCall key k None])
        (callers s ++ [mkCaller key k true c None])
  end.

Inductive sstep : sf → sf → Prop :=
| step_enter key k s : sstep s (Enter key k s)
(* the function returns, [c.wg.Done()] *)
| step_finish c key k r s :
    calls s !! c = Some (mkCall key k None) → fits k r →
    sstep s (mkSf (group s) (<[c := mkCall key k (Some r)]> (calls s)) (callers s))
(* [delete(g.m, key)] *)
| step_forget c key k r s :
    calls s !! c = Some (mkCall key k (Some r)) → group s !! key = Some c →
    sstep s (mkSf (delete key (group s)) (calls s) (callers s))
(* a waiting goroutine goes on, the leader after the deletion *)
| step_return g key k lead c cl r s :
    callers s !! g = Some (mkCaller key k lead c None) → calls s !! c = Some cl →
    c_res cl = Some r → (lead = true → group s !! key ≠ Some c) →
    sstep s (mkSf (group s) (calls s) (<[g := mkCaller key k lead c (Some (finish k r))]> (callers s))).

Definition reached (s : sf) : Prop := rtc sstep sf_init s.

(** ** The invariant *)

Record sf_inv (s : sf) : Prop := {
  sv_group key c : group s !! key = Some c → ∃ cl, calls s !! c = Some cl ∧ c_key cl = key;
  sv_flying c cl : calls s !! c = Some cl → c_res cl = None → group s !! c_key cl = Some c;
  sv_fits c cl r : calls s !! c = Some cl → c_res cl = Some r → fits (c_kind cl) r;
  sv_call g x : callers s !! g = Some x → ∃ cl, calls s !! g_call x = Some cl ∧ c_key cl = g_key x;
  sv_out g x o : callers s !! g = Some x → g_out x = Some o →
    ∃ cl r, calls s !! g_call x = Some cl ∧ c_res cl = Some r ∧ o = finish (g_kind x) r;
  (* the kind of a call is that of the goroutine that leads it *)
  sv_lead c cl : calls s !! c = Some cl →
    ∃ g x, callers s !! g = Some x ∧ g_key x = c_key cl ∧ g_kind x = c_kind cl }.

Lemma inv_enter key k s : sf_inv s → sf_inv (Enter key k s).
Proof.
  intros [Hg Hf Ht Hc Ho Hl]. unfold Enter. destruct (group s !! key) as [c|] eqn:Eg; split; cbn.
  - done.
  - done.
  - done.
  - intros g x [Hx|[? Hx]]%lookup_app_Some; [by eapply Hc|].
    apply list_lookup_singleton_Some in Hx as [_ <-]. by apply Hg.
  - intros g x o [Hx|[? Hx]]%lookup_app_Some; [by eapply Ho|].
    by apply list_lookup_singleton_Some in Hx as [_ <-].
  - intros c' cl Hcl. destruct (Hl c' cl Hcl) as (g & x & Hx & R). exists g, x.
    split; [by apply lookup_app_l_Some|done].
  - intros key' c. destruct (decide (key' = key)) as [->|Hne].
    + rewrite lookup_insert_eq. intros [= <-]. eexists. by rewrite list_lookup_middle.
    + rewrite lookup_insert_ne by done. intros (cl & Hcl & Hk)%Hg. exists cl.
      split; [by apply lookup_app_l_Some|done].
  - intros c cl [Hcl|[Hge Hcl]]%lookup_app_Some Hn.
    + pose proof (Hf c cl Hcl Hn) as Hgr. rewrite lookup_insert_ne; [done|]. intros ->. congruence.
    + apply list_lookup_singleton_Some in Hcl as [Hz <-]. cbn. rewrite lookup_insert_eq. f_equal. lia.
  - intros c cl r [Hcl|[? Hcl]]%lookup_app_Some; [by eapply Ht|].
    by apply list_lookup_singleton_Some in Hcl as [_ <-].
  - intros g x [Hx|[? Hx]]%lookup_app_Some.
    + destruct (Hc g x Hx) as (cl & Hcl & Hk). exists cl. split; [by apply lookup_app_l_Some|done].
    + apply list_lookup_singleton_Some in Hx as [_ <-]. cbn. eexists. by rewrite list_lookup_middle.
  - intros g x o [Hx|[? Hx]]%lookup_app_Some.
    + intros Hout. destruct (Ho g x o Hx Hout) as (cl & r & Hcl & R). exists cl, r.
      split; [by apply lookup_app_l_Some|done].
    + by apply list_lookup_singleton_Some in Hx as [_ <-].
  - intros c cl [Hcl|[? Hcl]]%lookup_app_Some.
    + destruct (Hl c cl Hcl) as (g & x & Hx & R). exists g, x. split; [by apply lookup_app_l_Some|done].
    + apply list_lookup_singleton_Some in Hcl as [_ <-]. exists (length (callers s)). eexists.
      by rewrite list_lookup_middle.
Qed.

(** A call keeps its key and its kind when it gets its result. *)
Lemma finished_call c key k r (cs : list call) c' cl :
  cs !! c = Some (mkCall key k None) → <[c := mkCall key k (Some r)]> cs !! c' = Some cl →
  (c' = c ∧ cl = mkCall key k (Some r)) ∨ (c' ≠ c ∧ cs !! c' = Some cl).
Proof. intros Hc [(-> & <- & _)|[? ?]]%list_lookup_insert_Some; auto. Qed.

Lemma call_survives c key k r (cs : list call) c' cl :
  cs !! c = Some (mkCall key k None) → cs !! c' = Some cl →
  ∃ cl', <[c := mkCall key k (Some r)]> cs !! c' = Some cl' ∧ c_key cl' = c_key cl ∧
    c_kind cl' = c_kind cl ∧ (c_res cl ≠ None → cl' = cl).
Proof.
  intros Hc Hc'. destruct (decide (c' = c)) as [->|Hne].
  - rewrite Hc in Hc'. injection Hc' as <-.
    eexists. by rewrite list_lookup_insert_eq by (by eapply lookup_lt_Some).
  - exists cl. by rewrite list_lookup_insert_ne by done.
Qed.

Lemma inv_finish c key k r s :
  calls s !! c = Some (mkCall key k None) → fits k r → sf_inv s →
  sf_inv (mkSf (group s) (<[c := mkCall key k (Some r)]> (calls s)) (callers s)).
Proof.
  intros Hcl Hr [Hg Hf Ht Hc Ho Hl].
  pose proof (λ c' cl, call_survives c key k r _ c' cl Hcl) as Hs.
  pose proof (λ c' cl, finished_call c key k r _ c' cl Hcl) as Hb.
  split; cbn.
  - intros key' c' (cl & H & <-)%Hg. destruct (Hs c' cl H) as (cl' & ? & ? & _). eauto.
  - intros c' cl [[-> ->]|[_ H]]%Hb; [done|by apply Hf].
  - intros c' cl r' [[-> ->]|[_ H]]%Hb; [by intros [= <-]|by eapply Ht].
  - intros g x (cl & H & Hk)%Hc. destruct (Hs _ cl H) as (cl' & ? & ? & _). exists cl'. by rewrite <- Hk.
  - intros g x o Hx (cl & r' & H & Hr' & R)%(Ho g x o Hx).
    destruct (Hs _ cl H) as (cl' & Hi & _ & _ & E1). rewrite E1 in Hi by congruence. eauto.
  - intros c' cl [[-> ->]|[_ H]]%Hb; [exact (Hl _ _ Hcl)|exact (Hl _ _ H)].
Qed.

Lemma inv_forget c key k r s :
  calls s !! c = Some (mkCall key k (Some r)) → group s !! key = Some c → sf_inv s →
  sf_inv (mkSf (delete key (group s)) (calls s) (callers s)).
Proof.
  intros Hcl Hk [Hg Hf Ht Hc Ho Hl]. split; cbn; [| |done..].
  - intros key' c' [_ H]%lookup_delete_Some. by apply Hg.
  - intros c' cl H Hn. apply lookup_delete_Some. split; [|by apply Hf].
    intros ->. pose proof (Hf c' cl H Hn). assert (c' = c) as -> by congruence.
    rewrite Hcl in H. apply (inj Some) in H. by rewrite <- H in Hn.
Qed.

(** A goroutine that returns keeps everything else about it. *)
Lemma answered_caller g key k lead c o (xs : list caller) g' x :
  xs !! g = Some (mkCaller key k lead c None) →
  <[g := mkCaller key k lead c (Some o)]> xs !! g' = Some x →
  (g' = g ∧ x = mkCaller key k lead c (Some o)) ∨ (g' ≠ g ∧ xs !! g' = Some x).
Proof. intros Hg [(-> & <- & _)|[? ?]]%list_lookup_insert_Some; auto. Qed.

Lemma inv_return g key k lead c cl r s :
  callers s !! g = Some (mkCaller key k lead c None) → calls s !! c = Some cl →
  c_res cl = Some r → sf_inv s →
  sf_inv (mkSf (group s) (calls s) (<[g := mkCaller key k lead c (Some (finish k r))]> (callers s))).
Proof.
  intros Hx Hcl Hr [Hg Hf Ht Hc Ho Hl].
  pose proof (λ g' x, answered_caller g key k lead c (finish k r) _ g' x Hx) as Hb.
  split; cbn; [done..| | |].
  - intros g' x [[-> ->]|[_ H]]%Hb; [exact (Hc _ _ Hx)|exact (Hc _ _ H)].
  - intros g' x o [[-> ->]|[_ H]]%Hb; [intros [= <-]; by exists cl, r|by apply (Ho g')].
  - intros c' cl' (g' & x & H & R)%Hl. destruct (decide (g' = g)) as [->|Hne].
    + rewrite Hx in H. injection H as <-. exists g. eexists.
      by rewrite list_lookup_insert_eq by (by eapply lookup_lt_Some).
    + exists g', x. by rewrite list_lookup_insert_ne by done.
Qed.

Lemma reached_inv s : reached s → sf_inv s.
Proof.
  intros H. apply (rtc_ind_r (R:=sstep) sf_inv sf_init); [by split| |done].
  clear s H. intros s s' _ Hs IH. destruct Hs.
  - by apply inv_enter.
  - by apply inv_finish.
  - by eapply inv_forget.
  - by eapply inv_return.
Qed.

(** ** What callers get *)

(** The keys of tokens and those of instances, which are an id, a colon and a
    token, are told apart by [is_instance]. *)
Definition separate (is_instance : string → bool) (s : sf) : Prop :=
  ∀ g x, callers s !! g = Some x → is_instance (g_key x) = true ↔ g_kind x = KInstance.

(** C22. Concurrent validations share one call to grafana.com per key and get
    its result: at any moment a key has at most one call that has not finished,
    and an answer that has been returned is what a call with the caller's own
    key returned. As long as no token has the form of an instance's key, no
    caller panics, an answer to a token is a user or an error of a token's
    validation, and one to an instance says no more than whether it failed. *)
Theorem validations_are_shared is_instance s :
  reached s → separate is_instance s →
  (∀ c1 c2 cl1 cl2, calls s !! c1 = Some cl1 → calls s !! c2 = Some cl2 →
    c_key cl1 = c_key cl2 → c_res cl1 = None → c_res cl2 = None → c1 = c2) ∧
  (∀ g x o, callers s !! g = Some x → g_out x = Some o →
    ∃ cl r, calls s !! g_call x = Some cl ∧ c_key cl = g_key x ∧ c_kind cl = g_kind x ∧
      c_res cl = Some r ∧
      match g_kind x, r with
      | KToken, RUser u => o = Ok (Some u)
      | KInstance, RNil => o = Ok None
      | _, RErr e => o = Err e
      | _, _ => False
      end).
Proof.
  intros [Hg Hf Ht Hc Ho Hl]%reached_inv Hsep. split.
  - intros c1 c2 cl1 cl2 H1 H2 Hk N1 N2. pose proof (Hf _ _ H1 N1). pose proof (Hf _ _ H2 N2). congruence.
  - intros g x o Hx Hout. destruct (Ho g x o Hx Hout) as (cl & r & Hcl & Hr & ->).
    destruct (Hc g x Hx) as (cl' & Hcl' & Hkey). simplify_eq.
    assert (Hkind : c_kind cl = g_kind x).
    { destruct (Hl _ _ Hcl) as (g' & y & Hy & Hky & <-).
      pose proof (Hsep g x Hx). pose proof (Hsep g' y Hy). rewrite Hky, Hkey in *.
      destruct (g_kind x), (g_kind y); intuition congruence. }
    exists cl, r. split_and!; try done.
    pose proof (Ht _ _ _ Hcl Hr) as Hfit. rewrite Hkind in Hfit. destruct (g_kind x), r; done.
Qed.

(** ** Nobody waits for ever *)

(** A caller that waits can be answered, whatever the other goroutines do
    not do: from every reachable state, the end of its call with any answer
    [r] grafana.com can give (when the call has not finished), the leader's
    deletion and its own return lead to a state where the caller has returned. *)
Theorem every_caller_can_return s g x r :
  reached s → callers s !! g = Some x → g_out x = None →
  (∀ cl, calls s !! g_call x = Some cl → fits (c_kind cl) r) →
  ∃ s' o, rtc sstep s s' ∧
    callers s' !! g = Some (mkCaller (g_key x) (g_kind x) (g_leader x) (g_call x) (Some o)).
Proof.
  intros Hs%reached_inv Hx Hout Hfit. destruct x as [key k lead c out]. cbn in *. subst out.
  (* the call finishes *)
  assert (H1 : ∃ s1 k1 r1, rtc sstep s s1 ∧ sf_inv s1 ∧ callers s1 = callers s ∧
    calls s1 !! c = Some (mkCall key k1 (Some r1))).
  { destruct (sv_call s Hs g _ Hx) as ([key' k' [r'|]] & Hcl & Hk); cbn in *; subst key'.
    - exists s, k', r'. split_and!; [apply rtc_refl|done..].
    - eexists (mkSf _ (<[c := mkCall key k' (Some r)]> (calls s)) _), k', r.
      pose proof (Hfit _ Hcl) as Hr. cbn in Hr.
      split_and!; [by apply rtc_once, step_finish|by apply inv_finish|done|].
      cbn. by rewrite list_lookup_insert_eq by (by eapply lookup_lt_Some). }
  destruct H1 as (s1 & k1 & r1 & R1 & I1 & C1 & Hcl1).
  (* the leader forgets it *)
  assert (H2 : ∃ s2, rtc sstep s1 s2 ∧ callers s2 = callers s ∧ calls s2 = calls s1 ∧
    group s2 !! key ≠ Some c).
  { destruct (decide (group s1 !! key = Some c)) as [Hk|Hk]; [|by exists s1].
    exists (mkSf (delete key (group s1)) (calls s1) (callers s1)). cbn.
    split_and!; [by eapply rtc_once, step_forget|done|done|].
    rewrite lookup_delete_eq. done. }
  destruct H2 as (s2 & R2 & C2 & L2 & G2).
  eexists (mkSf _ _ (<[g := mkCaller key k lead c (Some (finish k r1))]> (callers s2))), _. split.
  - etrans; [exact R1|]. etrans; [exact R2|]. apply rtc_once. eapply step_return; [|by rewrite L2| |].
    + by rewrite C2.
    + done.
    + done.
  - cbn. rewrite C2, list_lookup_insert_eq; [done|by eapply lookup_lt_Some].
Qed.
End singleflight.
Arguments result : clear implicits.
Arguments sf : clear implicits.

(** ** A token that reads like an instance's key

    The group of [ValidateToken] and [ValidateInstance] is the same one. A
    token "1:abc" that arrives while instance "1" is validated for token "abc"
    gets the instance's [nil], and the type assertion panics. *)
#[local] Abbreviation one_colon_abc := ("1:abc"%string).
Definition joined : sf nat nat :=
  mkSf ∅ [mkCall one_colon_abc KInstance (Some RNil)]
    [mkCaller one_colon_abc KInstance true 0 None; mkCaller one_colon_abc KToken false 0 (Some Panic)].

Lemma token_joins_an_instance : reached joined.
Proof.
  unfold reached, joined.
  eapply rtc_l; [apply (step_enter one_colon_abc KInstance)|].
  eapply rtc_l; [apply (step_enter one_colon_abc KToken)|].
  eapply rtc_l; [by eapply (step_finish 0 one_colon_abc KInstance RNil)|].
  eapply rtc_l; [by eapply (step_forget 0 one_colon_abc KInstance RNil)|].
  eapply rtc_l; [by eapply (step_return 1 one_colon_abc KToken false 0)|].
  cbn. replace (delete one_colon_abc _) with (∅ : gmap string nat); [apply rtc_refl|].
  by vm_compute.
Qed.

(** ** Witnesses *)

Definition has_colon (key : string) : bool := bool_decide (is_Some (IndexByte ":" key)).

(** Two callers with token "abc" beside one with an instance of it; the second
    has its answer before the leader has deleted the call. *)
Definition shared_call : sf nat nat :=
  mkSf (<[one_colon_abc := 1]> {["abc"%string := 0]})
    [mkCall "abc" KToken (Some (RUser 7)); mkCall one_colon_abc KInstance None]
    [mkCaller "abc" KToken true 0 None; mkCaller one_colon_abc KInstance true 1 None;
     mkCaller "abc" KToken false 0 (Some (Ok (Some 7)))].

Lemma shared_call_reached : reached shared_call.
Proof.
  unfold reached, shared_call.
  eapply rtc_l; [apply (step_enter "abc" KToken)|].
  eapply rtc_l; [apply (step_enter one_colon_abc KInstance)|].
  eapply rtc_l; [apply (step_enter "abc" KToken)|].
  eapply rtc_l; [by eapply (step_finish 0 "abc" KToken (RUser 7))|].
  eapply rtc_l; [by eapply (step_return 2 "abc" KToken false 0)|].
  apply rtc_refl.
Qed.

Lemma shared_call_separate : separate has_colon shared_call.
Proof. intros [|[|[|g]]] x Hx; inversion Hx; by vm_compute. Qed.

Lemma validations_are_shared_witness :
  reached shared_call ∧ separate has_colon shared_call ∧
  ∃ cl r, calls shared_call !! 0 = Some cl ∧ c_key cl = "abc"%string ∧ c_kind cl = KToken ∧
    c_res cl = Some r ∧
    match r with RUser u => Ok (Some 7) = Ok (E:=nat) (Some u) | RNil => False | RErr e => Ok (Some 7) = Err e end.
Proof.
  split; [apply shared_call_reached|split; [apply shared_call_separate|]].
  pose proof (validations_are_shared has_colon shared_call shared_call_reached shared_call_separate) as [_ H].
  exact (H 2 _ _ eq_refl eq_refl).
Defined.

Lemma every_caller_can_return_witness :
  ∃ s' o, rtc sstep shared_call s' ∧
    callers s' !! 1 = Some (mkCaller one_colon_abc KInstance true 1 (Some o)).
Proof.
  apply (every_caller_can_return shared_call 1 _ (RErr 3) shared_call_reached eq_refl eq_refl).
  intros cl Hcl. vm_compute in Hcl. injection Hcl as <-. exact I.
Defined.
