(* ===== verification/GcomConc.v ===== *)
(** * auth/gcom, concurrently: the token cache

    [Auth] runs in the goroutines of the requests while [backgroundValidation]
    validates the cache's old entries, and [Clear] may come at any time. A step is
    what happens under one lock of the cache ([Get], [Set], the collection of the
    old keys, the update of one of them, [Clear]) or the end of a validation.
    What grafana.com answers is free; [log] records its answers by key, the
    latest first. The group that lets concurrent validations share one request
    is not part of this: Singleflight.v has it, and the one case in which a token
    gets the answer of another key. The operations on the cache are those of Gcom.v. *)

From S2P Require Import Prelude GoStrings Strconv Http Gcom GcomSpec.
From Stdlib Require Import Ascii.

(** An answer of [ValidateToken]. *)
Abbreviation answer := (outcome gcom_error SignedInUser).

(** A call of [Auth]: before [Get], in [ValidateToken], before [Set], returned. *)
Inductive call :=
| Looking (key : string)
| Validating (key : string)
| Storing (key : string) (a : answer)
| Done (key : string) (r : answer).

(** [backgroundValidation]: between two ticks; in [validate] with the tick's time
    and the keys that are left; before the lock with an answer for the first. *)
Inductive background :=
| Idle
| Round (now : Z) (keys : list string)
| Updating (now : Z) (key : string) (u : option SignedInUser) (keys : list string).

Record config := mkConfig {
  cache : TokenCache; calls : list call; bg : background; log : list (string * answer) }.

Definition init (ttl : Z) : config := mkConfig (TTL.new ttl) [] Idle [].

(** What [Auth] caches of an answer, and what [validate] makes of it; [None]:
    neither does anything with it. *)
Definition cached_of (a : answer) : option (option SignedInUser) :=
  match a with
  | Ok u => Some (Some u)
  | Err e => if bool_decide (e ≠ ErrInvalidApiKey ∧ e ≠ ErrInvalidOrgId) then None else Some None
  | Panic => None
  end.
Definition fresh_of (a : answer) : option (option SignedInUser) :=
  match a with
  | Ok u => Some (Some u)
  | Err e => if bool_decide (e = ErrInvalidApiKey) then Some None else None
  | Panic => None
  end.

Definition set_call (i : nat) (x : call) (c : config) : config :=
  mkConfig (cache c) (<[i := x]> (calls c)) (bg c) (log c).
Definition set_cache (t : TokenCache) (c : config) : config := mkConfig t (calls c) (bg c) (log c).
Definition set_bg (b : background) (c : config) : config := mkConfig (cache c) (calls c) b (log c).
Definition record (k : string) (a : answer) (c : config) : config :=
  mkConfig (cache c) (calls c) (bg c) ((k, a) :: log c).

Section steps.
Context (adminKey : string).

(** A call with the lock that [Get] takes. *)
Definition look (i : nat) (key : string) (now : Z) (c : config) : config :=
  let '(t, (user, cached)) := TokenCache_Get key now (cache c) in
  if cached : bool
  then set_call i (Done key (match user with Some u => Ok u | None => Err ErrInvalidApiKey end)) (set_cache t c)
  else set_call i (Validating key) (set_cache t c).

(** A call whose validation ends with [a]. *)
Definition answered (i : nat) (key : string) (a : answer) (c : config) : config :=
  set_call i (match cached_of a with None => Done key a | Some _ => Storing key a end) (record key a c).

(** A call that sets the cache. *)
Definition store (i : nat) (key : string) (a : answer) (now : Z) (c : config) : config :=
  set_call i (Done key a) (set_cache (TokenCache_Set key (default None (cached_of a)) now (cache c)) c).

Inductive step : config → config → Prop :=
| step_call key c :
    step c (mkConfig (cache c)
      (calls c ++ [if bool_decide (key = adminKey) then Done key (Ok (admin_user key)) else Looking key])
      (bg c) (log c))
| step_look i key now c : calls c !! i = Some (Looking key) → step c (look i key now c)
| step_answer i key a c : calls c !! i = Some (Validating key) → a ≠ Panic → step c (answered i key a c)
| step_store i key a now c : calls c !! i = Some (Storing key a) → step c (store i key a now c)
(* the background: a tick with the keys that are old, in the order of the map *)
| step_tick now keys c :
    bg c = Idle → keys ≡ₚ TTL.expired now (cache c) → step c (set_bg (Round now keys) c)
| step_validate now k keys a c :
    bg c = Round now (k :: keys) → a ≠ Panic →
    step c (set_bg (match fresh_of a with Some u => Updating now k u keys | None => Round now keys end)
              (record k a c))
| step_update now k u keys c :
    bg c = Updating now k u keys →
    step c (set_bg (Round now keys) (set_cache (TTL.validate_key now (Some u) k (cache c)) c))
| step_round_ends now c : bg c = Round now [] → step c (set_bg Idle c)
| step_clear c : step c (set_cache (TTL.Clear (cache c)) c).

Definition reachable (ttl : Z) (c : config) : Prop := rtc step (init ttl) c.

(** ** What an answer may be based on *)

(** grafana.com has given [k] this cached answer. *)
Definition given (l : list (string * answer)) (k : string) (u : option SignedInUser) : Prop :=
  ∃ a, (k, a) ∈ l ∧ cached_of a = Some u.

(** The result of a call: the admin's; an answer of grafana.com to the key; or
    [ErrInvalidApiKey], standing for a cached refusal. *)
Definition justified (l : list (string * answer)) (k : string) (r : answer) : Prop :=
  (k = adminKey ∧ r = Ok (admin_user k)) ∨
  (k ≠ adminKey ∧ ((k, r) ∈ l ∨ (r = Err ErrInvalidApiKey ∧ given l k None))).

Record cinv (c : config) : Prop := {
  ci_cache k r : TTL.items (cache c) !! k = Some r → k ≠ adminKey ∧ given (log c) k (TTL.value r);
  ci_calls i x : calls c !! i = Some x →
    match x with
    | Looking k | Validating k => k ≠ adminKey
    | Storing k a => k ≠ adminKey ∧ (k, a) ∈ log c ∧ is_Some (cached_of a)
    | Done k r => justified (log c) k r
    end;
  ci_bg : match bg c with
    | Idle => True
    | Round _ keys => adminKey ∉ keys
    | Updating _ k u keys => k ≠ adminKey ∧ given (log c) k u ∧ adminKey ∉ keys
    end }.

Lemma given_mono l x k u : given l k u → given (x :: l) k u.
Proof. intros (a & H & R). exists a. split; [by right|done]. Qed.

Lemma justified_mono l x k r : justified l k r → justified (x :: l) k r.
Proof.
  intros [?|[Hk [?|[Hr Hg]]]]; [by left|right; split; [done|]; left; by right|].
  right. split; [done|]. right. split; [done|]. by apply given_mono.
Qed.

Lemma fresh_cached a u : fresh_of a = Some u → cached_of a = Some u.
Proof. destruct a as [v|e|]; cbn; [done| |done]. by destruct e. Qed.

(** The invariant survives what only adds to the log. *)
Lemma cinv_record k a c : cinv c → cinv (record k a c).
Proof.
  intros [Hc Ht Hb]. split; cbn.
  - intros k' r Hr. destruct (Hc k' r Hr) as [? ?]. split; [done|by apply given_mono].
  - intros i x Hx. specialize (Ht i x Hx). destruct x as [?|?|? ?|? ?]; try done.
    + destruct Ht as (? & ? & ?). split_and!; [done|by right|done].
    + by apply justified_mono.
  - destruct (bg c); try done. destruct Hb as (? & ? & ?). split_and!; [done|by apply given_mono|done].
Qed.

Lemma cinv_set_call i x c :
  match x with
  | Looking k | Validating k => k ≠ adminKey
  | Storing k a => k ≠ adminKey ∧ (k, a) ∈ log c ∧ is_Some (cached_of a)
  | Done k r => justified (log c) k r
  end → cinv c → cinv (set_call i x c).
Proof.
  intros Hx [Hc Ht Hb]. split; cbn; [done| |done].
  intros j y [(-> & <- & _)|[_ Hy]]%list_lookup_insert_Some; [done|by eapply Ht].
Qed.

Lemma cinv_set_cache t c :
  (∀ k r, TTL.items t !! k = Some r → k ≠ adminKey ∧ given (log c) k (TTL.value r)) →
  cinv c → cinv (set_cache t c).
Proof. intros Hi [Hc Ht Hb]. by split. Qed.

Lemma Get_values key now t t' u b :
  TokenCache_Get key now t = (t', (u, b)) →
  (∀ k r, TTL.items t' !! k = Some r → ∃ r', TTL.items t !! k = Some r' ∧ TTL.value r = TTL.value r') ∧
  (b = true → ∃ r, TTL.items t !! key = Some r ∧ TTL.value r = u).
Proof.
  unfold TokenCache_Get, TTL.Get. destruct (TTL.items t !! key) as [i|] eqn:Ei.
  - intros [= <- <- <-]. split; [|by eauto]. cbn. intros k r [[<- <-]|[_ Hk]]%lookup_insert_Some; eauto.
  - intros [= <- <- <-]. split; [eauto|done].
Qed.

Lemma validate_key_values now (u : option SignedInUser) k t k' r :
  TTL.items (TTL.validate_key now (Some u) k t) !! k' = Some r →
  (k' = k ∧ TTL.value r = u ∧ is_Some (TTL.items t !! k)) ∨ TTL.items t !! k' = Some r.
Proof.
  unfold TTL.validate_key. destruct (TTL.items t !! k) as [v|] eqn:Ev; [|by right].
  case_bool_decide; cbn; [intros [_ ?]%lookup_delete_Some; by right|].
  intros [[<- <-]|[_ ?]]%lookup_insert_Some; [left; by eauto|by right].
Qed.

Lemma cinv_step c c' : step c c' → cinv c → cinv c'.
Proof.
  intros Hs I. pose proof I as [Hc Ht Hb].
  destruct Hs as [key c|i key now c Hi|i key a c Hi Ha|i key a now c Hi|now keys c Hbg Hk
    |now k keys a c Hbg Ha|now k u keys c Hbg|now c Hbg|c].
  - split; cbn; [done| |done]. intros i x [Hx|[_ Hx]]%lookup_app_Some; [by eapply Ht|].
    apply list_lookup_singleton_Some in Hx as [_ <-]. case_bool_decide; [by left|done].
  - specialize (Ht i _ Hi). cbn in Ht. unfold look.
    destruct (TokenCache_Get key now (cache c)) as [t [u b]] eqn:Eg.
    apply Get_values in Eg as [Hv Hu].
    assert (cinv (set_cache t c)) as I'.
    { apply cinv_set_cache; [|done]. intros k r (r' & Hr' & ->)%Hv. by apply Hc. }
    destruct b; apply cinv_set_call; try done. cbn.
    destruct (Hu eq_refl) as (r & Hr & <-). destruct (Hc _ _ Hr) as [_ Hg]. right. split; [done|].
    revert Hg. destruct (TTL.value r) as [u|]; [intros Hg; left|by right].
    destruct Hg as (a & Hin & Hca). destruct a as [v|e|]; cbn in Hca; [|by case_bool_decide|done].
    by injection Hca as <-.
  - specialize (Ht i _ Hi). apply cinv_set_call; [|by apply cinv_record]. cbn.
    destruct (cached_of a) eqn:Ea.
    + split_and!; [done|by left|by rewrite Ea].
    + right. split; [done|]. left. by left.
  - specialize (Ht i _ Hi) as (Hk & Hin & [u Hu]). apply cinv_set_call.
    + cbn. right. split; [done|by left].
    + apply cinv_set_cache; [|done]. intros k' r. unfold TokenCache_Set, TTL.Set_. cbn.
      intros [[<- <-]|[_ Hr]]%lookup_insert_Some; [|by apply Hc]. split; [done|]. cbn.
      exists a. by rewrite Hu.
  - split; cbn; [done..|]. intros Hin. rewrite Hk in Hin. unfold TTL.expired in Hin.
    apply list_elem_of_fmap in Hin as ([k r] & Hkr & Hin). cbn in Hkr. subst k.
    apply elem_of_map_to_list, map_lookup_filter_Some in Hin as [Hin _]. by destruct (Hc _ _ Hin).
  - rewrite Hbg in Hb. apply (cinv_record k a) in I as [Hc' Ht' _].
    apply not_elem_of_cons in Hb as [Hk Hkeys]. split; cbn; [done..|].
    destruct (fresh_of a) as [u|] eqn:Ef; [|done]. split_and!; [done| |done].
    exists a. split; [by left|by apply fresh_cached].
  - rewrite Hbg in Hb. destruct Hb as (Hk & Hg & Hkeys). split; cbn; [|done..].
    intros k' r [(-> & <- & _)|Hr]%validate_key_values; [done|by apply Hc].
  - by split.
  - apply cinv_set_cache; [|done]. intros k r. cbn. by rewrite lookup_empty.
Qed.

Lemma reachable_cinv ttl c : reachable ttl c → cinv c.
Proof.
  intros H. apply (rtc_ind_r (R:=step) cinv (init ttl)); [| |done].
  - split; cbn; [intros k r; by rewrite lookup_empty|done..].
  - clear. intros c c' _ Hs I. by eapply cinv_step.
Qed.

(** ** Properties *)

(** C20. Whatever requests, background validations and clearings come at the same
    time, [Auth] answers a key only with what grafana.com said of that very key:
    a user it returned for it, an error it returned for it, or
    [ErrInvalidApiKey] for a key it refused as invalid or for its org; and only
    the admin key gets the admin's user. *)
Theorem concurrent_answers_were_given ttl c i k r :
  reachable ttl c → calls c !! i = Some (Done k r) →
  (k = adminKey ∧ r = Ok (admin_user k)) ∨
  (k ≠ adminKey ∧
    ((k, r) ∈ log c ∨
     (r = Err ErrInvalidApiKey ∧ ((k, Err ErrInvalidApiKey) ∈ log c ∨ (k, Err ErrInvalidOrgId) ∈ log c)))).
Proof.
  intros Hr%reachable_cinv Hi. apply (ci_calls c Hr) in Hi as [H|[Hk [H|[-> (a & Ha & Hn)]]]]; [by left|auto|].
  right. split; [done|]. right. split; [done|].
  destruct a as [u|e|]; cbn in Hn; [done| |done]. by destruct e; auto.
Qed.

(** A call that nothing comes between is the [Auth] of Gcom.v. *)
Lemma Auth_alone flags decode_user check_token i k now s c :
  k ≠ adminKey → calls c !! i = Some (Looking k) → tokenCache s = cache c →
  ∃ c', rtc step c c' ∧
    let '(s', r) := Auth flags decode_user check_token adminKey k now s in
    cache c' = tokenCache s' ∧ calls c' !! i = Some (Done k r).
Proof.
  intros Hk Hi Hs. pose proof (lookup_lt_Some _ _ _ Hi) as Hlt.
  unfold Auth. rewrite bool_decide_eq_false_2, Hs by done.
  pose proof (step_look i k now c Hi) as H1. unfold look in H1.
  destruct (TokenCache_Get k now (cache c)) as [t [u []]].
  { eexists. split; [by apply rtc_once|]. cbn. by rewrite list_lookup_insert_eq. }
  set (c1 := set_call i (Validating k) (set_cache t c)) in *.
  assert (Hi1 : calls c1 !! i = Some (Validating k)) by (by cbn; rewrite list_lookup_insert_eq).
  destruct (ValidateToken flags decode_user check_token k) as [v|e|] eqn:Ev.
  - set (c2 := answered i k (Ok v) c1).
    assert (Hi2 : calls c2 !! i = Some (Storing k (Ok v)))
      by (by cbn; rewrite list_lookup_insert_eq by (by rewrite length_insert)).
    exists (store i k (Ok v) now c2). split.
    + eapply rtc_l; [exact H1|]. eapply rtc_l; [by apply (step_answer i k (Ok v))|]. by apply rtc_once, step_store.
    + cbn. by rewrite list_lookup_insert_eq by (by rewrite !length_insert).
  - case_bool_decide as He.
    + exists (answered i k (Err e) c1). split.
      * eapply rtc_l; [exact H1|]. by apply rtc_once, (step_answer i k (Err e)).
      * cbn. rewrite bool_decide_eq_true_2 by done. cbn.
        by rewrite list_lookup_insert_eq by (by rewrite length_insert).
    + set (c2 := answered i k (Err e) c1).
      assert (Hi2 : calls c2 !! i = Some (Storing k (Err e))).
      { cbn. rewrite bool_decide_eq_false_2 by done. by rewrite list_lookup_insert_eq by (by rewrite length_insert). }
      exists (store i k (Err e) now c2). split.
      * eapply rtc_l; [exact H1|]. eapply rtc_l; [by apply (step_answer i k (Err e))|]. by apply rtc_once, step_store.
      * cbn. rewrite bool_decide_eq_false_2 by done. cbn.
        by rewrite list_lookup_insert_eq by (by rewrite !length_insert).
  - exfalso. revert Ev. unfold ValidateToken, validateToken.
    destruct (check_token k) as [[[st b] []]|]; [|done..].
    destruct (bool_decide _); [done|]. destruct (bool_decide _); [done|].
    destruct (decode_user b (new_user k)); [|done]. by destruct (_ || _).
Qed.
End steps.

(** ** Two requests of one token

    A token is revoked between the validations of two requests. The first one is
    slow to take the lock, so its older answer replaces the refusal: the token
    is admitted until the cache validates it again. *)
Definition ex_token_user : SignedInUser := mkSignedInUser 5 "org" 10 "org" "" ROLE_EDITOR 0 false "k".

Lemma older_answer_replaces_refusal :
  ∃ c, reachable "admin" 3600 c ∧
    log c = [("k", Err ErrInvalidApiKey); ("k", Ok ex_token_user)] ∧
    calls c = [Done "k" (Ok ex_token_user); Done "k" (Err ErrInvalidApiKey)] ∧
    TTL.value <$> TTL.items (cache c) !! "k" = Some (Some ex_token_user).
Proof.
  eexists. split; [|split; [|split]].
  - unfold reachable.
    eapply rtc_l; [apply (step_call "admin" "k")|].
    eapply rtc_l; [apply (step_call "admin" "k")|].
    eapply rtc_l; [by apply (step_look "admin" 0 "k" 1)|].
    eapply rtc_l; [by apply (step_look "admin" 1 "k" 2)|].
    eapply rtc_l; [by apply (step_answer "admin" 0 "k" (Ok ex_token_user))|].
    eapply rtc_l; [by apply (step_answer "admin" 1 "k" (Err ErrInvalidApiKey))|].
    eapply rtc_l; [by apply (step_store "admin" 1 "k" (Err ErrInvalidApiKey) 3)|].
    eapply rtc_l; [by apply (step_store "admin" 0 "k" (Ok ex_token_user) 4)|].
    apply rtc_refl.
  - done.
  - done.
  - by vm_compute.
Qed.

(** ** Witness *)

(** A refusal that is cached, and read by a second call. *)
Lemma refusal_reached :
  ∃ c, reachable "admin" 3600 c ∧ calls c = [Done "k" (Err ErrInvalidOrgId); Done "k" (Err ErrInvalidApiKey)] ∧
    log c = [("k", Err ErrInvalidOrgId)].
Proof.
  eexists. split; [|split].
  - unfold reachable.
    eapply rtc_l; [apply (step_call "admin" "k")|].
    eapply rtc_l; [by apply (step_look "admin" 0 "k" 1)|].
    eapply rtc_l; [by apply (step_answer "admin" 0 "k" (Err ErrInvalidOrgId))|].
    eapply rtc_l; [by apply (step_store "admin" 0 "k" (Err ErrInvalidOrgId) 2)|].
    eapply rtc_l; [apply (step_call "admin" "k")|].
    eapply rtc_l; [by apply (step_look "admin" 1 "k" 3)|].
    apply rtc_refl.
  - by vm_compute.
  - done.
Defined.

Lemma concurrent_answers_were_given_witness :
  ∃ c, reachable "admin" 3600 c ∧ calls c !! 1 = Some (Done "k" (Err ErrInvalidApiKey)) ∧
    (("k", Err ErrInvalidApiKey) ∈ log c ∨ ("k", Err ErrInvalidOrgId) ∈ log c).
Proof.
  destruct refusal_reached as (c & Hr & Hc & Hl). exists c.
  assert (Hi : calls c !! 1 = Some (Done "k" (Err ErrInvalidApiKey))) by (rewrite Hc; reflexivity).
  split; [exact Hr|split; [exact Hi|]].
  destruct (concurrent_answers_were_given "admin" 3600 c 1 "k" (Err ErrInvalidApiKey) Hr Hi)
    as [[Hk _]|[_ [H|[_ H]]]]; [discriminate Hk|left; exact H|exact H].
Defined.
