(* ===== verification/AuthPlugins.v ===== *)
(** * auth: the plugins

    auth.go, file.go, grafana-com.go and grafana_com_instance.go. The plugins
    return pointers to users, and the middleware writes through them, so the
    users live in a store: location 0 is the package variable [AdminUser], the
    users of the auth file are allocated when it is loaded, the grafana.com
    plugins allocate one per request. The class [AuthPlugin] is the Go
    interface; [AuthPluginLaws] is what the middleware relies on. *)

From S2P Require Import Prelude GoStrings Strconv Http Gcom.
From Stdlib Require Import Ascii.

Inductive auth_error :=
| ErrInvalidCredentials | ErrInvalidOrgId_ | ErrInvalidInstanceID_ | ErrGcom (e : gcom_error).

#[export] Instance auth_error_eq_dec : EqDecision auth_error.
Proof. solve_decision. Defined.

(** ** The store of users *)

Record astate := mkAstate { users : list User; gcom_st : gcom_state }.

Definition set_gcom (g : gcom_state) (s : astate) : astate := mkAstate (users s) g.
Definition set_user (l : nat) (u : User) (s : astate) : astate :=
  mkAstate (<[l := u]> (users s)) (gcom_st s).
Definition alloc (u : User) (s : astate) : astate * nat :=
  (mkAstate (users s ++ [u]) (gcom_st s), length (users s)).

Definition AdminUser : User := mkUser 1 true ROLE_ADMIN.
Definition admin_loc : nat := 0.

(** ** The interface *)

Class AuthPlugin (P : Type) := plugin_Auth :
  P → string → string → Z → astate → astate * outcome auth_error nat.

(** A user that is returned is in the store; no other user is touched. *)
Class AuthPluginLaws (P : Type) `{!AuthPlugin P} (valid : P → astate → Prop) : Prop := {
  plugin_ok p username password now s s' l :
    valid p s → plugin_Auth p username password now s = (s', Ok l) →
    is_Some (users s' !! l) ∧ ∀ l' u, users s !! l' = Some u → users s' !! l' = Some u }.

(** ** FileAuth *)

(** A section of the ini file: its name and [GetKey]. *)
Record section := mkSection { sec_name : string; sec_key : string → option string }.

Record FileAuth := mkFileAuth { keys : gmap string nat; instanceMap : gmap string Z }.

(** ini's [parseBool]; [MustBool(false)] takes anything else as false. *)
Definition MustBool_false (s : string) : bool :=
  bool_decide (s ∈ ["1"; "t"; "T"; "true"; "TRUE"; "True"; "YES"; "yes"; "Yes"; "y"; "ON"; "on"; "On"]).

(** ini's [Strings]. *)
Definition key_Strings (s : string) : list string :=
  if bool_decide (s = "") then [] else TrimSpace <$> Split "," s.

Definition load_section (sec : section) (a : FileAuth) (s : astate) : FileAuth * astate :=
  if bool_decide (sec_name sec = "" ∨ sec_name sec = "DEFAULT") then (a, s) else
  match sec_key sec "orgId" with
  | None => (a, s)
  | Some v =>
      match Atoi v with
      | None => (a, s)
      | Some orgID =>
          let isAdmin := match sec_key sec "isadmin" with
                         | Some b => MustBool_false b | None => false end in
          let '(s, l) := alloc (mkUser orgID isAdmin ROLE_ADMIN) s in
          let a := mkFileAuth (<[sec_name sec := l]> (keys a)) (instanceMap a) in
          match sec_key sec "instances" with
          | None => (a, s)
          | Some i =>
              (mkFileAuth (keys a)
                 (foldl (λ m x, <[x := orgID]> m) (instanceMap a) (key_Strings i)), s)
          end
      end
  end.

Definition load_sections (l : list section) (a : FileAuth) (s : astate) : FileAuth * astate :=
  foldl (λ r sec, load_section sec r.1 r.2) (a, s) l.

(** [None] as the file: it cannot be loaded; both that and a file without a
    usable key end the process. *)
Definition NewFileAuth (conf : option (list section)) (s : astate) :
    outcome unit (FileAuth * astate) :=
  match conf with
  | None => Err tt
  | Some sections =>
      let '(a, s) := load_sections sections (mkFileAuth ∅ ∅) s in
      if bool_decide (size (keys a) = 0) then Err tt else Ok (a, s)
  end.

Section plugins.
Context (AdminKey : string).

Definition FileAuth_Auth (a : FileAuth) (instanceID password : string) (now : Z) (s : astate) :
    astate * outcome auth_error nat :=
  if bool_decide (password = AdminKey) then (s, Ok admin_loc) else
  match keys a !! password with
  | None => (s, Err ErrInvalidCredentials)
  | Some l =>
      match users s !! l with
      | None => (s, Panic)
      | Some user =>
          if IsAdmin user then (s, Ok l)
          else if bool_decide (instanceID = "api_key") then (s, Ok l)
          else match instanceMap a !! instanceID with
               | None => (s, Err ErrInvalidInstanceID_)
               | Some i => if bool_decide (i ≠ ID user) then (s, Err ErrInvalidInstanceID_)
                           else (s, Ok l)
               end
      end
  end.

(** ** The grafana.com plugins *)

Context (flags : gcom_flags).
Context (decode_user : string → SignedInUser → option SignedInUser).
Context (decode_instance : string → option Instance_).
Context (check_token : string → http_result) (get_instance : string → string → http_result).

Definition map_gcom_error (e : gcom_error) : auth_error :=
  match e with
  | ErrInvalidApiKey => ErrInvalidCredentials
  | ErrInvalidOrgId => ErrInvalidOrgId_
  | e => ErrGcom e
  end.

Inductive GrafanaComAuth := NewGrafanaComAuth.
Inductive GrafanaComInstanceAuth := NewGrafanaComInstanceAuth.

(** [int(u.OrgId)]: an [int] is 64 bits wide. *)
Definition GrafanaComAuth_Auth (a : GrafanaComAuth) (username password : string) (now : Z) (s : astate) :
    astate * outcome auth_error nat :=
  if bool_decide (username ≠ "api_key") then (s, Err ErrInvalidCredentials) else
  let '(g, r) := Auth flags decode_user check_token AdminKey password now (gcom_st s) in
  let s := set_gcom g s in
  match r with
  | Err e => (s, Err (map_gcom_error e))
  | Panic => (s, Panic)
  | Ok u =>
      let '(s, l) := alloc (mkUser (su_OrgId u) (su_IsAdmin u) (su_Role u)) s in (s, Ok l)
  end.

Definition GrafanaComInstanceAuth_Auth (a : GrafanaComInstanceAuth) (username password : string)
    (now : Z) (s : astate) : astate * outcome auth_error nat :=
  match ParseInt username 64 with
  | None => (s, Err ErrInvalidCredentials)
  | Some instanceID =>
      let '(g, r) := Auth flags decode_user check_token AdminKey password now (gcom_st s) in
      let s := set_gcom g s in
      match r with
      | Err e => (s, Err (map_gcom_error e))
      | Panic => (s, Panic)
      | Ok u =>
          let '(s, checked) :=
            if bool_decide (password ≠ AdminKey) then
              let '(g, c) := CheckInstance flags decode_instance get_instance u username now (gcom_st s) in
              (set_gcom g s, c)
            else (s, Ok tt) in
          match checked with
          | Err _ => (s, Err ErrInvalidCredentials)
          | Panic => (s, Panic)
          | Ok _ =>
              let '(s, l) := alloc (mkUser instanceID (su_IsAdmin u) (su_Role u)) s in (s, Ok l)
          end
      end
  end.

#[export] Instance FileAuth_plugin : AuthPlugin FileAuth := FileAuth_Auth.
#[export] Instance GrafanaComAuth_plugin : AuthPlugin GrafanaComAuth := GrafanaComAuth_Auth.
#[export] Instance GrafanaComInstanceAuth_plugin : AuthPlugin GrafanaComInstanceAuth :=
  GrafanaComInstanceAuth_Auth.
End plugins.

(** ** GetAuthPlugin *)

Inductive plugin_kind := KGrafana | KGrafanaInstance | KFile.

(** Any other name ends the process. *)
Definition GetAuthPlugin (name : string) : outcome unit plugin_kind :=
  if bool_decide (name = "grafana") then Ok KGrafana
  else if bool_decide (name = "grafana-instance") then Ok KGrafanaInstance
  else if bool_decide (name = "file") then Ok KFile
  else Err tt.

(** ** Lemmas *)

(** The store only grows: old users stay, and the file's keys point into it. *)
Definition extends (s s' : astate) : Prop :=
  ∀ l u, users s !! l = Some u → users s' !! l = Some u.

Lemma extends_refl s : extends s s.
Proof. by intros l u. Qed.

Lemma extends_alloc u s : extends s (alloc u s).1.
Proof. intros l x H. cbn. by apply lookup_app_l_Some. Qed.

Lemma alloc_lookup u s : users (alloc u s).1 !! (alloc u s).2 = Some u.
Proof. cbn. by rewrite list_lookup_middle. Qed.

(** The user a key of the file stands for. *)
Definition file_wf (a : FileAuth) (s : astate) : Prop :=
  users s !! admin_loc ≠ None ∧ map_Forall (λ _ l, l ≠ admin_loc ∧ is_Some (users s !! l)) (keys a).

Lemma FileAuth_Auth_state AdminKey a i p now s : (FileAuth_Auth AdminKey a i p now s).1 = s.
Proof. unfold FileAuth_Auth. solve_cases. Qed.

#[export] Instance FileAuth_laws AdminKey :
  AuthPluginLaws FileAuth (AuthPlugin0 := FileAuth_plugin AdminKey) file_wf.
Proof.
  split. intros a i p now s s' l [Ha Hk] H.
  change (FileAuth_Auth AdminKey a i p now s = (s', Ok l)) in H.
  assert (s' = s) as ->.
  { change s' with (s', Ok l : outcome auth_error nat).1. rewrite <- H. apply FileAuth_Auth_state. }
  split; [|done]. revert H. unfold FileAuth_Auth.
  case_bool_decide; [intros [= <-]; by apply not_eq_None_Some|].
  destruct (keys a !! p) as [l'|] eqn:E; [|done].
  destruct (users s !! l') as [u|] eqn:Eu; [|done]. intros Hr.
  assert (l = l') as -> by (split_hyp Hr; congruence). eauto.
Qed.

#[export] Instance GrafanaComAuth_laws AdminKey flags decode_user check_token :
  AuthPluginLaws GrafanaComAuth
    (AuthPlugin0 := GrafanaComAuth_plugin AdminKey flags decode_user check_token) (λ _ _, True).
Proof.
  split. intros a i p now s s' l _ H.
  change (GrafanaComAuth_Auth AdminKey flags decode_user check_token a i p now s = (s', Ok l)) in H.
  revert H. unfold GrafanaComAuth_Auth. case_bool_decide; [done|].
  destruct (Auth _ _ _ _ _ _ _) as [g [u|e|]]; [|done|done]. intros [= <- <-].
  split; [cbn; rewrite list_lookup_middle by done; eauto|]. intros l' x Hx. cbn.
  by apply lookup_app_l_Some.
Qed.

#[export] Instance GrafanaComInstanceAuth_laws AdminKey flags du di ct gi :
  AuthPluginLaws GrafanaComInstanceAuth
    (AuthPlugin0 := GrafanaComInstanceAuth_plugin AdminKey flags du di ct gi) (λ _ _, True).
Proof.
  split. intros a i p now s s' l _ H.
  change (GrafanaComInstanceAuth_Auth AdminKey flags du di ct gi a i p now s = (s', Ok l)) in H.
  revert H. unfold GrafanaComInstanceAuth_Auth. destruct (ParseInt i 64); [|done].
  destruct (Auth _ _ _ _ _ _ _) as [g [u|e|]]; [|done|done].
  destruct (if bool_decide _ then _ else _) as [s1 [[]|e|]] eqn:E; [|done|done].
  assert (users s1 = users s) as Hu.
  { destruct (bool_decide _); [|by injection E as <-].
    destruct (CheckInstance _ _ _ _ _ _ _). by injection E as <- _. }
  intros [= <- <-]. split; [cbn; rewrite list_lookup_middle by done; eauto|].
  intros l' x Hx. cbn. rewrite Hu. by apply lookup_app_l_Some.
Qed.
