(* ===== verification/Api.v ===== *)
(** * api/middleware.go

    The credentials a request carries, the authentication and role handlers,
    the chain [GenerateHandlers] builds and how macaron runs it, the request
    statistics. The authentication plugin is the class of AuthPlugins.v. *)

From S2P Require Import Prelude GoStrings Strconv Http AuthPlugins Ingest.
From Stdlib Require Import Ascii.

(** ** Credentials *)

(** net/http's [BasicAuth] on the header Authorization: the scheme in any case,
    the credentials in standard base64, split at the first colon. *)
Definition BasicAuth (header : string) : option (string * string) :=
  if bool_decide (lower_str (take_str 6 header) = "basic ") then
    c ← b64_decode (drop_str 6 header);
    match SplitN2 ":" c with [u; k] => Some (u, k) | _ => None end
  else None.

(** net/http's [SetBasicAuth]. *)
Definition SetBasicAuth (username password : string) : string :=
  "Basic " +:+ b64_encode (username +:+ ":" +:+ password).

Definition getAuthCreds (header : string) : string * string :=
  match BasicAuth header with
  | Some creds => creds
  | None =>
      match SplitN2 " " header with
      | [scheme; rest] =>
          if bool_decide (scheme = "Bearer") then
            match SplitN2 ":" rest with
            | [k] => ("api_key", k)
            | [u; k] => (u, k)
            | _ => ("", "")
            end
          else ("", "")
      | _ => ("", "")
      end
  end.

(** The key of a Datadog client: "key" or "user:key". *)
Definition getDDCreds (header : string) : string * string :=
  match SplitN2 ":" header with
  | [k] => ("api_key", k)
  | [u; k] => if bool_decide (k = "") then ("api_key", k) else (u, k)
  | _ => ("", "")
  end.

(** ** The handlers *)

(** The headers the handlers read, and the time. *)
Record request := mkRequest {
  h_Authorization : string; h_DdApiKey : string; h_XTsdbOrg : string; rq_now : Z }.

Section api.
Context {L X : Type}.

(** The store of users, the user of the context, the replies, the limiters, and
    the rest of the gateway. *)
Record hstate := mkH {
  h_auth : astate; h_user : nat; h_replies : list (reply string);
  h_limits : gmap Z L; h_rest : X }.

Definition set_auth (a : astate) (s : hstate) : hstate :=
  mkH a (h_user s) (h_replies s) (h_limits s) (h_rest s).
Definition set_ctx_user (l : nat) (s : hstate) : hstate :=
  mkH (h_auth s) l (h_replies s) (h_limits s) (h_rest s).
Definition JSON (code : Z) (b : string) (s : hstate) : hstate :=
  mkH (h_auth s) (h_user s) (h_replies s ++ [mkReply code b]) (h_limits s) (h_rest s).

Definition handler : Type := request → hstate → hstate.

Definition ctx_user (s : hstate) : User := default zero_user (users (h_auth s) !! h_user s).

(** [GetContextHandler]: a new context with a zero user. *)
Definition GetContextHandler : handler := λ _ s,
  let '(a, l) := alloc zero_user (h_auth s) in set_ctx_user l (set_auth a s).

Definition written (s : hstate) : bool := bool_decide (h_replies s ≠ []).

(** macaron calls the handlers in order until one has written a reply. *)
Fixpoint run_chain (hs : list handler) (rq : request) (s : hstate) : hstate :=
  match hs with
  | [] => s
  | h :: hs' => let s' := h rq s in if written s' then s' else run_chain hs' rq s'
  end.

Definition RequireAdmin : handler := λ _ s,
  if IsAdmin (ctx_user s) then s else JSON 403 "Permision denied" s.
Definition RequirePublisher : handler := λ _ s,
  if IsPublisher (Role (ctx_user s)) then s else JSON 401 "Unauthorized to publish" s.
Definition RequireViewer : handler := λ _ s,
  if IsViewer (Role (ctx_user s)) then s else JSON 403 "Unauthorized to view" s.

Context (Allow : L → L * bool).

Definition IngestRateLimiter : handler := λ _ s,
  let '(lim, ok) := IsRateBudgetAvailable Allow (ID (ctx_user s)) (h_limits s) in
  let s := mkH (h_auth s) (h_user s) (h_replies s) lim (h_rest s) in
  if ok : bool then s else JSON 429 "Rate limit is exhausted" s.

(** *** Auth and DDAuth *)

Context {P : Type} `{!AuthPlugin P} (authPlugin : P).

Definition error_text (e : auth_error) : string :=
  match e with
  | ErrInvalidCredentials => "invalid authentication credentials"
  | ErrInvalidOrgId_ => "invalid orgId"
  | ErrInvalidInstanceID_ => "invalid instanceID"
  | ErrGcom _ => "auth server error"
  end.

Definition auth_status (e : auth_error) : Z :=
  match e with
  | ErrInvalidCredentials | ErrInvalidOrgId_ | ErrInvalidInstanceID_ => 401
  | ErrGcom _ => 500
  end.

(** The org an admin asks to act for. *)
Definition impersonated (header : string) : option Z :=
  if bool_decide (header = "") then None else
  match ParseInt header 64 with
  | Some o => if bool_decide (o = 0%Z) then None else Some o
  | None => None
  end.

(** [user.ID = int(orgId)], through the pointer the plugin returned. *)
Definition impersonate (header : string) (l : nat) (a : astate) : astate :=
  match users a !! l with
  | Some user =>
      if IsAdmin user then
        match impersonated header with Some o => set_user l (with_ID o user) a | None => a end
      else a
  | None => a
  end.

(** What both handlers do with the credentials; a panic of the plugin is left
    to the recovery middleware, which replies 500. *)
Definition auth_with (creds : string * string) (rq : request) (s : hstate) : hstate :=
  let '(username, key) := creds in
  if bool_decide (key = "") then JSON 401 "Unauthorized" s else
  let '(a, r) := plugin_Auth authPlugin username key (rq_now rq) (h_auth s) in
  let s := set_auth a s in
  match r with
  | Err e => JSON (auth_status e) (error_text e) s
  | Panic => JSON 500 "panic" s
  | Ok l => set_ctx_user l (set_auth (impersonate (h_XTsdbOrg rq) l (h_auth s)) s)
  end.

Definition Auth : handler := λ rq s, auth_with (getAuthCreds (h_Authorization rq)) rq s.
Definition DDAuth : handler := λ rq s, auth_with (getDDCreds (h_DdApiKey rq)) rq s.

(** [use_limits]: whether rate limits are configured when the routes are built. *)
Definition GenerateHandlers (kind : string) (enforceRoles datadog use_limits rateLimit : bool)
    (handlers : list handler) : list handler :=
  (if bool_decide (kind = "write") then
     (if datadog then [DDAuth] else [Auth]) ++ (if enforceRoles then [RequirePublisher] else [])
   else
     [Auth] ++ (if enforceRoles then [RequirePublisher] else [])) ++
  (if use_limits && rateLimit then [IngestRateLimiter] else []) ++ handlers.

(** *** CaptureBody *)

(** The body as both fields get it; a failed read replies and goes on with what
    was read. *)
Definition CaptureBody (body : string) (read_ok : bool) (s : hstate) : hstate * (string * string) :=
  let s := if read_ok then s
           else JSON 500 "internal error: failed to read request body for proxying" s in
  (s, (body, body)).
End api.

(** ** Request statistics *)

Definition replace_byte (c d : string) (s : string) : string := Replace s c d.

(** [path.Clean]: empty and "." elements are dropped, ".." removes the element
    before it; a rooted path does not climb above its root. *)
Fixpoint clean_go (rooted : bool) (stack elems : list string) : list string :=
  match elems with
  | [] => reverse stack
  | e :: es =>
      if bool_decide (e = "" ∨ e = ".") then clean_go rooted stack es
      else if bool_decide (e = "..") then
        match stack with
        | top :: rest => if bool_decide (top = "..") then clean_go rooted (e :: stack) es
                         else clean_go rooted rest es
        | [] => if rooted then clean_go rooted [] es else clean_go rooted [e] es
        end
      else clean_go rooted (e :: stack) es
  end.

Definition Clean (p : string) : string :=
  let rooted := HasPrefix p "/" in
  let out := Join "/" (clean_go rooted [] (Split "/" p)) in
  if rooted then "/" +:+ out else if bool_decide (out = "") then "." else out.

Definition pathSlug (p : string) : string :=
  let slug := TrimPrefix (Clean p) "/" in
  let slug := if bool_decide (slug = "") then "root" else slug in
  replace_byte "." "_" (replace_byte "/" "_" slug).

(** The counters, as the numbers of values they took: by path and status, the
    latencies by path, the sizes by path. *)
Record requestStats := mkStats {
  responseCounts : gmap string (gmap Z nat);
  latencyHistograms : gmap string (list Z);
  sizeMeters : gmap string (list Z) }.

Definition PathStatusCount (path : string) (status : Z) (r : requestStats) : requestStats :=
  let p := default ∅ (responseCounts r !! path) in
  mkStats (<[path := <[status := S (default 0 (p !! status))]> p]> (responseCounts r))
    (latencyHistograms r) (sizeMeters r).
Definition PathLatency (path : string) (dur : Z) (r : requestStats) : requestStats :=
  mkStats (responseCounts r)
    (<[path := dur :: default [] (latencyHistograms r !! path)]> (latencyHistograms r)) (sizeMeters r).
Definition PathSize (path : string) (size : Z) (r : requestStats) : requestStats :=
  mkStats (responseCounts r) (latencyHistograms r)
    (<[path := size :: default [] (sizeMeters r !! path)]> (sizeMeters r)).

(** [RequestStats], after the handlers have run. *)
Definition RequestStats (url_path : string) (status took size : Z) (r : requestStats) : requestStats :=
  let path := pathSlug url_path in
  let r := PathLatency path took (PathStatusCount path status r) in
  if bool_decide (status < 300)%Z then PathSize path size r else r.
