(* ===== verification/ApiSpec.v ===== *)
(** * The theorems of the authentication plugins and of the API

    The credentials that are read, who reaches a handler and as which user, the
    roles, and what impersonation leaves behind. *)

From S2P Require Import Prelude GoStrings Strconv Http Gcom GcomSpec AuthPlugins Ingest Api Util.
From Stdlib Require Import Ascii.

(** ** Credentials *)

(** A client that sets its credentials with [SetBasicAuth] is read with the
    same credentials, for any user name without a colon and any password; a
    bearer token is the user before its colon with the key after it, or the
    user "api_key". *)
Theorem getAuthCreds_reads_what_was_set u k :
  has_byte ":" u = false →
  getAuthCreds (SetBasicAuth u k) = (u, k) ∧
  getAuthCreds ("Bearer " +:+ u +:+ ":" +:+ k) = (u, k) ∧
  getAuthCreds ("Bearer " +:+ u) = ("api_key", u).
Proof.
  intros Hu. unfold getAuthCreds. split_and!.
  - unfold SetBasicAuth, BasicAuth.
    change (take_str 6 ("Basic " +:+ b64_encode (u +:+ ":" +:+ k))) with ("Basic " : string).
    rewrite bool_decide_eq_true_2 by done.
    change (drop_str 6 ("Basic " +:+ b64_encode (u +:+ ":" +:+ k))) with (b64_encode (u +:+ ":" +:+ k)).
    rewrite b64_decode_encode. cbn [mbind option_bind].
    change (u +:+ ":" +:+ k) with (u +:+ String ":" k). by rewrite SplitN2_app.
  - unfold BasicAuth. rewrite bool_decide_eq_false_2 by done.
    change ("Bearer " +:+ u +:+ ":" +:+ k) with ("Bearer" +:+ String " " (u +:+ String ":" k)).
    rewrite SplitN2_app by done. rewrite bool_decide_eq_true_2 by done. by rewrite SplitN2_app.
  - unfold BasicAuth. rewrite bool_decide_eq_false_2 by done.
    change ("Bearer " +:+ u) with ("Bearer" +:+ String " " u).
    rewrite SplitN2_app by done. rewrite bool_decide_eq_true_2 by done. by rewrite SplitN2_none.
Qed.

Lemma getAuthCreds_reads_what_was_set_witness :
  getAuthCreds "Basic MTIzNDpzZWNyZXQ6a2V5" = ("1234", "secret:key").
Proof.
  change "Basic MTIzNDpzZWNyZXQ6a2V5" with (SetBasicAuth "1234" "secret:key").
  apply (getAuthCreds_reads_what_was_set "1234" "secret:key" eq_refl).
Defined.

(** ** FileAuth *)

(** The auth file's plugin admits the admin key, an admin's key, and any
    other key with the user name "api_key" or the name of an instance that the
    file lists for the key's own org; nothing else. *)
Theorem FileAuth_admits AdminKey a i p now s l :
  (FileAuth_Auth AdminKey a i p now s).2 = Ok l ↔
  (p = AdminKey ∧ l = admin_loc) ∨
  (p ≠ AdminKey ∧ keys a !! p = Some l ∧ ∃ user, users s !! l = Some user ∧
     (IsAdmin user = true ∨ i = "api_key" ∨ instanceMap a !! i = Some (ID user))).
Proof.
  unfold FileAuth_Auth. case_bool_decide as Hp; [naive_solver|].
  destruct (keys a !! p) as [l'|]; [|naive_solver].
  assert (Hu : ∀ x, users s !! l' = Some x → l = l' → users s !! l = Some x) by (by intros x ? ->).
  destruct (users s !! l') as [user|] eqn:Eu; [|split; [done|]; naive_solver].
  assert (Hback : ∀ R : outcome auth_error nat, (IsAdmin user = true ∨ i = "api_key" ∨
      instanceMap a !! i = Some (ID user) → R = Ok l') →
    (p = AdminKey ∧ l = admin_loc ∨ p ≠ AdminKey ∧ Some l' = Some l ∧ (∃ user0, users s !! l = Some user0 ∧
      (IsAdmin user0 = true ∨ i = "api_key" ∨ instanceMap a !! i = Some (ID user0)))) → R = Ok l).
  { intros R HR [[? ?]|(_ & [= <-] & u' & Hu' & Hc)]; [done|].
    rewrite Eu in Hu'. injection Hu' as <-. auto. }
  split; [|apply Hback].
  - intros HR. right. split; [done|].
    destruct (IsAdmin user) eqn:Ea; [simplify_eq/=; eauto 6|].
    case_bool_decide as Hi; [simplify_eq/=; eauto 7|].
    destruct (instanceMap a !! i) as [o|]; [|done].
    case_bool_decide as Ho; [done|]. simplify_eq/=. eauto 7.
  - destruct (IsAdmin user) eqn:Ea; [done|]. case_bool_decide; [done|].
    intros [?|[?|Hm]]; [done|done|]. rewrite Hm. by rewrite bool_decide_eq_false_2 by naive_solver.
Qed.

(** The key "isAdmin" that the documentation and the sample file use is not
    the key the loader looks up: a section without "isadmin" gets a user that is
    no admin. *)
Theorem documented_isAdmin_is_ignored sec a s o :
  sec_key sec "orgId" = Some (Itoa o) → is_s 64 o → sec_key sec "isadmin" = None →
  sec_name sec ≠ "" → sec_name sec ≠ "DEFAULT" →
  let '(a', s') := load_section sec a s in
  ∃ l, keys a' !! sec_name sec = Some l ∧ users s' !! l = Some (mkUser o false ROLE_ADMIN).
Proof.
  intros Ho Hs Ha H1 H2. unfold load_section. rewrite bool_decide_eq_false_2 by naive_solver.
  rewrite Ho, Atoi_Itoa, Ha by done. cbn [alloc].
  destruct (sec_key sec "instances"); exists (length (users s)); cbn;
    rewrite lookup_insert_eq, list_lookup_middle by done; done.
Qed.

Definition doc_section : section := mkSection "aaeipgnq" (λ k,
  if bool_decide (k = "orgId") then Some "1" else if bool_decide (k = "isAdmin") then Some "true" else None).
Definition ex_astate : astate := mkAstate [AdminUser] (mkGcom (TTL.new 3600) (TTL.new 3600) []).

Lemma documented_isAdmin_is_ignored_witness :
  users (load_section doc_section (mkFileAuth ∅ ∅) ex_astate).2 !! 1 = Some (mkUser 1 false ROLE_ADMIN).
Proof.
  pose proof (documented_isAdmin_is_ignored doc_section (mkFileAuth ∅ ∅) ex_astate 1 eq_refl
    ltac:(split; vm_compute; [discriminate|reflexivity]) eq_refl ltac:(discriminate) ltac:(discriminate)) as H.
  destruct (load_section doc_section (mkFileAuth ∅ ∅) ex_astate) as [a' s'] eqn:E.
  destruct H as (l & Hl & Hu).
  vm_compute in E. injection E as <- <-. vm_compute in Hl. injection Hl as <-. exact Hu.
Defined.

(** ** The chain *)

Section chain.
Context {L X P : Type} (Allow : L → L * bool) `{!AuthPlugin P} (authPlugin : P).
Abbreviation H := (hstate (L:=L) (X:=X)).

(** The first handler of every chain. *)
Definition first_auth (kind : string) (datadog : bool) : handler (L:=L) (X:=X) :=
  if bool_decide (kind = "write") && datadog then DDAuth authPlugin else Auth authPlugin.

Definition creds (kind : string) (datadog : bool) (rq : request) : string * string :=
  if bool_decide (kind = "write") && datadog then getDDCreds (h_DdApiKey rq)
  else getAuthCreds (h_Authorization rq).

Lemma GenerateHandlers_eq kind enforce dd ul rl hs :
  GenerateHandlers Allow authPlugin kind enforce dd ul rl hs =
    first_auth kind dd :: (if enforce then [RequirePublisher] else []) ++
      (if ul && rl then [IngestRateLimiter Allow] else []) ++ hs.
Proof.
  unfold GenerateHandlers, first_auth. case_bool_decide; destruct dd, enforce; done.
Qed.

Lemma first_auth_eq kind dd rq (s : H) :
  first_auth kind dd rq s = auth_with authPlugin (creds kind dd rq) rq s.
Proof. unfold first_auth, creds. by case_goal. Qed.

(** The replies of [auth_with]: one on failure, none on success. *)
Lemma auth_with_cases c rq (s : H) :
  h_replies s = [] →
  let '(username, key) := c in
  (∃ r, h_replies (auth_with authPlugin c rq s) = [r] ∧ (status r = 401%Z ∨ status r = 500%Z)) ∨
  (key ≠ "" ∧ h_replies (auth_with authPlugin c rq s) = [] ∧
   ∃ a l, plugin_Auth authPlugin username key (rq_now rq) (h_auth s) = (a, Ok l) ∧
     h_user (auth_with authPlugin c rq s) = l ∧
     h_auth (auth_with authPlugin c rq s) = impersonate (h_XTsdbOrg rq) l a ∧
     h_rest (auth_with authPlugin c rq s) = h_rest s).
Proof.
  intros Hs. destruct c as [username key]. unfold auth_with. case_bool_decide as Hk.
  - left. eexists. cbn. rewrite Hs. split; [done|]. by left.
  - destruct (plugin_Auth authPlugin username key (rq_now rq) (h_auth s)) as [a [l|e|]].
    + right. split; [done|]. cbn. split; [done|]. by exists a, l.
    + left. eexists. cbn. rewrite Hs. split; [done|]. destruct e; cbn; auto.
    + left. eexists. cbn. rewrite Hs. split; [done|]. by right.
Qed.

Lemma run_chain_cons h hs rq (s : H) :
  run_chain (h :: hs) rq s = if written (h rq s) then h rq s else run_chain hs rq (h rq s).
Proof. done. Qed.

Lemma written_cons (s : H) r l : h_replies s = r :: l → written s = true.
Proof. intros E. unfold written. by rewrite bool_decide_eq_true_2 by by rewrite E. Qed.

Lemma written_JSON code b (s : H) : written (JSON code b s) = true.
Proof. unfold written. apply bool_decide_eq_true_2. cbn. by destruct (h_replies s). Qed.

Lemma written_nil (s : H) : h_replies s = [] → written s = false.
Proof. intros E. unfold written. rewrite bool_decide_eq_false_2; [done|]. naive_solver. Qed.

(** Whether the plugin admits the credentials of a request. *)
Definition admitted (kind : string) (dd : bool) (rq : request) (s : H) (l : nat) : Prop :=
  let '(username, key) := creds kind dd rq in
  key ≠ "" ∧ ∃ a, plugin_Auth authPlugin username key (rq_now rq) (h_auth s) = (a, Ok l).

Lemma rejected_chain kind enforce dd ul rl rq (s : H) :
  h_replies s = [] → (∀ l, ¬ admitted kind dd rq s l) →
  ∃ r s1, (status r = 401%Z ∨ status r = 500%Z) ∧ h_replies s1 = [r] ∧
    ∀ hs, run_chain (GenerateHandlers Allow authPlugin kind enforce dd ul rl hs) rq s = s1.
Proof.
  intros Hs Hn. pose proof (auth_with_cases (creds kind dd rq) rq s Hs) as Hc.
  unfold admitted in Hn. destruct (creds kind dd rq) as [u k] eqn:Ec.
  destruct Hc as [(r & Hr & Hst)|(Hk & _ & a & l & Hp & _)].
  - exists r, (auth_with authPlugin (u, k) rq s). split; [done|]. split; [done|]. intros hs.
    rewrite GenerateHandlers_eq, run_chain_cons, first_auth_eq, Ec.
    by rewrite (written_cons _ _ _ Hr).
  - destruct (Hn l). split; [done|]. by exists a.
Qed.

Lemma role_chain enforce kind dd ul rl rq (s : H) l :
  h_replies s = [] → admitted kind dd rq s l →
  let s1 := auth_with authPlugin (creds kind dd rq) rq s in
  h_user s1 = l ∧
  ∀ hs, run_chain (GenerateHandlers Allow authPlugin kind enforce dd ul rl hs) rq s =
    if enforce && negb (IsPublisher (Role (ctx_user s1))) then JSON 401 "Unauthorized to publish" s1
    else run_chain ((if ul && rl then [IngestRateLimiter Allow] else []) ++ hs) rq s1.
Proof.
  intros Hs Ha. pose proof (auth_with_cases (creds kind dd rq) rq s Hs) as Hc.
  unfold admitted in Ha. cbn zeta.
  assert (Hfirst : ∀ hs, run_chain (GenerateHandlers Allow authPlugin kind enforce dd ul rl hs) rq s =
    let s1 := auth_with authPlugin (creds kind dd rq) rq s in
    if written s1 then s1 else run_chain ((if enforce then [RequirePublisher] else []) ++
      (if ul && rl then [IngestRateLimiter Allow] else []) ++ hs) rq s1).
  { intros hs. by rewrite GenerateHandlers_eq, run_chain_cons, first_auth_eq. }
  destruct (creds kind dd rq) as [u k] eqn:Ec. destruct Ha as (Hk & a & Hp).
  destruct Hc as [(r & Hr & Hst)|(_ & Hr & a' & l' & Hp' & Hu & _)].
  - exfalso. revert Hr. unfold auth_with. rewrite bool_decide_eq_false_2 by done. rewrite Hp.
    cbn. by rewrite Hs.
  - rewrite Hp in Hp'. injection Hp' as <- <-. split; [done|]. intros hs.
    rewrite Hfirst. cbn zeta. rewrite (written_nil _ Hr). destruct enforce; [|done]. cbn [app].
    rewrite run_chain_cons. unfold RequirePublisher at 1 2.
    destruct (IsPublisher (Role (ctx_user (auth_with authPlugin (u, k) rq s)))) eqn:Er; cbn [andb negb].
    + unfold RequirePublisher at 1. rewrite Er. by rewrite (written_nil _ Hr).
    + by rewrite written_JSON.
Qed.
End chain.

(** ** Properties of the chain *)

(** No data route is reached without credentials the plugin admits: whatever
    handlers follow, a request without a key or with a key the plugin refuses is
    answered once, with 401 or 500, and none of them runs. *)
Theorem unauthenticated_requests_reach_no_handler {L X P} (Allow : L → L * bool) `{!AuthPlugin P}
    (authPlugin : P) kind enforce dd ul rl rq (s : hstate (L:=L) (X:=X)) :
  h_replies s = [] → (∀ l, ¬ admitted authPlugin kind dd rq s l) →
  ∃ r s1, (status r = 401%Z ∨ status r = 500%Z) ∧ h_replies s1 = [r] ∧
    ∀ hs, run_chain (GenerateHandlers Allow authPlugin kind enforce dd ul rl hs) rq s = s1.
Proof. apply rejected_chain. Qed.

Definition ex_file : FileAuth := mkFileAuth {["k" := 1]} {["10" := 7%Z]}.
Definition ex_state : hstate (L:=Z) (X:=nat) :=
  mkH (mkAstate [AdminUser; mkUser 7 false ROLE_VIEWER; zero_user]
         (mkGcom (TTL.new 3600) (TTL.new 3600) [])) 2 [] ∅ 0.
Definition ex_rq (key org : string) : request := mkRequest (SetBasicAuth "api_key" key) "" org 0.
Definition ex_plugin : AuthPlugin FileAuth := FileAuth_plugin "secret".
Definition ex_allow (l : Z) : Z * bool := (l, true).
Definition count_call : handler (L:=Z) (X:=nat) := λ _ s,
  mkH (h_auth s) (h_user s) (h_replies s) (h_limits s) (S (h_rest s)).

Lemma unauthenticated_requests_reach_no_handler_witness :
  ∃ r s1, (status r = 401%Z ∨ status r = 500%Z) ∧ h_replies s1 = [r] ∧
    ∀ hs, run_chain (GenerateHandlers (AuthPlugin0 := ex_plugin) ex_allow ex_file "write" true false
            false false hs) (ex_rq "wrong" "") ex_state = s1.
Proof.
  apply (unauthenticated_requests_reach_no_handler (AuthPlugin0 := ex_plugin) ex_allow ex_file
           "write" true false false false (ex_rq "wrong" "") ex_state eq_refl).
  intros l. vm_compute. intros [_ [a Ha]]. discriminate Ha.
Defined.

(** C23. With roles enforced, a request reaches the handlers behind a route only
    if the user's role may publish; otherwise it is answered with 401. *)
Theorem enforced_roles_gate_the_handlers {L X P} (Allow : L → L * bool) `{!AuthPlugin P}
    (authPlugin : P) kind dd ul rl rq (s : hstate (L:=L) (X:=X)) l :
  h_replies s = [] → admitted authPlugin kind dd rq s l →
  let s1 := auth_with authPlugin (creds kind dd rq) rq s in
  h_user s1 = l ∧
  ∀ hs, run_chain (GenerateHandlers Allow authPlugin kind true dd ul rl hs) rq s =
    if IsPublisher (Role (ctx_user s1))
    then run_chain ((if ul && rl then [IngestRateLimiter Allow] else []) ++ hs) rq s1
    else JSON 401 "Unauthorized to publish" s1.
Proof.
  intros Hs Ha. destruct (role_chain Allow authPlugin true kind dd ul rl rq s l Hs Ha) as [Hl Hc].
  split; [done|]. intros hs. rewrite Hc. by destruct (IsPublisher _).
Qed.

Lemma enforced_roles_gate_the_handlers_witness :
  run_chain (GenerateHandlers (AuthPlugin0 := ex_plugin) ex_allow ex_file "write" true false
     false false [count_call]) (ex_rq "secret" "") ex_state =
  run_chain [count_call] (ex_rq "secret" "")
     (auth_with (AuthPlugin0 := ex_plugin) ex_file ("api_key", "secret") (ex_rq "secret" "") ex_state).
Proof.
  assert (Ha : admitted (AuthPlugin0 := ex_plugin) ex_file "write" false (ex_rq "secret" "") ex_state 0).
  { vm_compute. split; [discriminate|]. eexists. reflexivity. }
  rewrite (proj2 (enforced_roles_gate_the_handlers (AuthPlugin0 := ex_plugin) ex_allow ex_file "write"
    false false false (ex_rq "secret" "") ex_state 0 eq_refl Ha) [count_call]).
  vm_compute. reflexivity.
Defined.

(** [GenerateHandlers] asks for a publisher on the read routes too, and
    [RequireViewer] is used by none: with roles enforced, a viewer is refused
    every read route as "Unauthorized to publish", while a role that may only
    publish is let through. *)
Theorem viewers_cannot_read {L X P} (Allow : L → L * bool) `{!AuthPlugin P}
    (authPlugin : P) ul rl rq (s : hstate (L:=L) (X:=X)) l hs :
  h_replies s = [] → admitted authPlugin "read" false rq s l →
  let s1 := auth_with authPlugin (creds "read" false rq) rq s in
  let run := run_chain (GenerateHandlers Allow authPlugin "read" true false ul rl hs) rq s in
  (Role (ctx_user s1) = ROLE_VIEWER → run = JSON 401 "Unauthorized to publish" s1) ∧
  (Role (ctx_user s1) = ROLE_METRICS_PUBLISHER → IsViewer (Role (ctx_user s1)) = false ∧
     run = run_chain ((if ul && rl then [IngestRateLimiter Allow] else []) ++ hs) rq s1).
Proof.
  intros Hs Ha s1 run. destruct (role_chain Allow authPlugin true "read" false ul rl rq s l Hs Ha) as [_ Hc].
  unfold run. rewrite Hc. fold s1. split; by intros ->.
Qed.

Definition ex_viewer_rq : request := mkRequest (SetBasicAuth "api_key" "k") "" "" 0.

Lemma viewers_cannot_read_witness :
  run_chain (GenerateHandlers (AuthPlugin0 := ex_plugin) ex_allow ex_file "read" true false
     false false [count_call]) ex_viewer_rq ex_state =
  JSON 401 "Unauthorized to publish"
    (auth_with (AuthPlugin0 := ex_plugin) ex_file ("api_key", "k") ex_viewer_rq ex_state).
Proof.
  assert (Ha : admitted (AuthPlugin0 := ex_plugin) ex_file "read" false ex_viewer_rq ex_state 1).
  { vm_compute. split; [discriminate|]. eexists. reflexivity. }
  apply (viewers_cannot_read (AuthPlugin0 := ex_plugin) ex_allow ex_file false false ex_viewer_rq
           ex_state 1 [count_call] eq_refl Ha).
  vm_compute. reflexivity.
Defined.

(** ** Impersonation *)

(** With a plugin that returns a new user for every request, the org of a
    request is decided by the request alone: the plugin's org, or for an admin
    the org of the X-Tsdb-Org header if it is a non-zero number; the users of
    other requests are untouched. *)
Theorem grafana_impersonation_is_per_request {L X} AdminKey flags decode_user check_token
    username key rq (s : hstate (L:=L) (X:=X)) u g :
  username = "api_key" → key ≠ "" →
  Gcom.Auth flags decode_user check_token AdminKey key (rq_now rq) (gcom_st (h_auth s)) = (g, Ok u) →
  let s1 := auth_with (AuthPlugin0 := GrafanaComAuth_plugin AdminKey flags decode_user check_token)
              NewGrafanaComAuth (username, key) rq s in
  ctx_user s1 = mkUser (if su_IsAdmin u then default (su_OrgId u) (impersonated (h_XTsdbOrg rq))
                        else su_OrgId u) (su_IsAdmin u) (su_Role u) ∧
  ∀ l x, users (h_auth s) !! l = Some x → users (h_auth s1) !! l = Some x.
Proof.
  intros -> Hk HA s1.
  assert (Hs1 : s1 = set_ctx_user (length (users (h_auth s)))
    (set_auth (impersonate (h_XTsdbOrg rq) (length (users (h_auth s)))
      (mkAstate (users (h_auth s) ++ [mkUser (su_OrgId u) (su_IsAdmin u) (su_Role u)]) g)) s)).
  { unfold s1, auth_with. rewrite bool_decide_eq_false_2 by done.
    unfold plugin_Auth, GrafanaComAuth_plugin, GrafanaComAuth_Auth. by rewrite HA. }
  rewrite Hs1. unfold ctx_user, impersonate. cbn [h_auth h_user set_ctx_user set_auth users].
  rewrite list_lookup_middle by done. cbn [IsAdmin].
  destruct (su_IsAdmin u); [destruct (impersonated (h_XTsdbOrg rq)) as [o|]|]; cbn [users set_user];
    (split; [|intros l x Hl]).
  - rewrite list_lookup_insert_eq by (rewrite length_app; simpl; lia). done.
  - pose proof (lookup_lt_Some _ _ _ Hl). rewrite list_lookup_insert_ne by lia.
    by apply lookup_app_l_Some.
  - by rewrite list_lookup_middle.
  - by apply lookup_app_l_Some.
  - by rewrite list_lookup_middle.
  - by apply lookup_app_l_Some.
Qed.

Lemma grafana_impersonation_is_per_request_witness :
  ID (ctx_user (auth_with (AuthPlugin0 := GrafanaComAuth_plugin "secret" ex_flags ex_decode_user ex_check)
       NewGrafanaComAuth ("api_key", "secret") (ex_rq "secret" "42") ex_state)) = 42%Z.
Proof.
  rewrite (proj1 (grafana_impersonation_is_per_request "secret" ex_flags ex_decode_user ex_check
    "api_key" "secret" (ex_rq "secret" "42") ex_state (admin_user "secret") (gcom_st (h_auth ex_state))
    eq_refl ltac:(discriminate) eq_refl)).
  vm_compute. reflexivity.
Defined.

(** C39. With the auth file the middleware writes the impersonated org into the
    shared [AdminUser]: after one request of the admin key for org [o], a later
    request of the admin key without the header still acts for org [o], in every
    store. *)
Theorem file_impersonation_leaks {L X} AdminKey a o u1 u2 rq1 rq2 (s s2 : hstate (L:=L) (X:=X)) user :
  users (h_auth s) !! admin_loc = Some user → IsAdmin user = true →
  AdminKey ≠ "" → impersonated (h_XTsdbOrg rq1) = Some o → impersonated (h_XTsdbOrg rq2) = None →
  let plugin := FileAuth_plugin AdminKey in
  h_auth s2 = h_auth (auth_with (AuthPlugin0 := plugin) a (u1, AdminKey) rq1 s) →
  ctx_user (auth_with (AuthPlugin0 := plugin) a (u2, AdminKey) rq2 s2) = with_ID o user.
Proof.
  intros Hu Hadm Hk H1 H2 plugin Hs2.
  assert (Hpl : ∀ un rq (st : hstate (L:=L) (X:=X)),
    auth_with (AuthPlugin0 := plugin) a (un, AdminKey) rq st =
      set_ctx_user admin_loc (set_auth (impersonate (h_XTsdbOrg rq) admin_loc (h_auth st)) st)).
  { intros un rq st. unfold auth_with. rewrite bool_decide_eq_false_2 by done.
    unfold plugin_Auth, plugin, FileAuth_plugin, FileAuth_Auth. by rewrite bool_decide_eq_true_2. }
  rewrite Hpl in Hs2 |- *. cbn [h_auth set_ctx_user set_auth] in Hs2.
  unfold ctx_user. cbn [h_auth h_user set_ctx_user set_auth]. rewrite Hs2.
  assert (Hi : impersonate (h_XTsdbOrg rq1) admin_loc (h_auth s) =
            set_user admin_loc (with_ID o user) (h_auth s)).
  { unfold impersonate. by rewrite Hu, Hadm, H1. }
  rewrite Hi. unfold impersonate. cbn [users set_user].
  rewrite list_lookup_insert_eq by (by eapply lookup_lt_Some). cbn [IsAdmin with_ID].
  rewrite Hadm, H2. cbn [users set_user].
  by rewrite list_lookup_insert_eq by (by eapply lookup_lt_Some).
Qed.

Lemma file_impersonation_leaks_witness :
  ID (ctx_user (auth_with (AuthPlugin0 := FileAuth_plugin "secret") ex_file ("api_key", "secret")
        (ex_rq "secret" "")
        (auth_with (AuthPlugin0 := FileAuth_plugin "secret") ex_file ("api_key", "secret")
           (ex_rq "secret" "42") ex_state))) = 42%Z.
Proof.
  rewrite (file_impersonation_leaks "secret" ex_file 42 "api_key" "api_key" (ex_rq "secret" "42")
    (ex_rq "secret" "") ex_state _ AdminUser); [reflexivity|reflexivity|reflexivity|discriminate| | |].
  - vm_compute. reflexivity.
  - reflexivity.
  - reflexivity.
Defined.

(** For every plugin that keeps to the interface: an admitted request has a
    user, and authenticating it changes no user but that one. *)
Theorem authentication_touches_only_its_user {L X P} `{!AuthPlugin P} valid
    `{!AuthPluginLaws P valid} (authPlugin : P) kind dd rq (s : hstate (L:=L) (X:=X)) l :
  valid authPlugin (h_auth s) → admitted authPlugin kind dd rq s l →
  let s1 := auth_with authPlugin (creds kind dd rq) rq s in
  h_user s1 = l ∧ is_Some (users (h_auth s1) !! l) ∧
  ∀ l' u, l' ≠ l → users (h_auth s) !! l' = Some u → users (h_auth s1) !! l' = Some u.
Proof.
  intros Hv Ha. unfold admitted in Ha. destruct (creds kind dd rq) as [u k].
  destruct Ha as (Hk & a & Hp). cbn zeta. unfold auth_with. rewrite bool_decide_eq_false_2 by done.
  rewrite Hp. cbn [h_user h_auth set_ctx_user set_auth].
  destruct (plugin_ok _ _ _ _ _ _ _ Hv Hp) as [[x Hx] Hold]. split; [done|].
  unfold impersonate. rewrite Hx. destruct (IsAdmin x); [destruct (impersonated _)|]; cbn [users set_user];
    (split; [|intros l' y Hne Hy]); eauto.
  - rewrite list_lookup_insert_eq by (by eapply lookup_lt_Some). eauto.
  - rewrite list_lookup_insert_ne by done. eauto.
Qed.

Lemma authentication_touches_only_its_user_witness :
  is_Some (users (h_auth (auth_with (AuthPlugin0 := ex_plugin) ex_file
    (creds "write" false (ex_rq "secret" "42")) (ex_rq "secret" "42") ex_state)) !! 0).
Proof.
  assert (Ha : admitted (AuthPlugin0 := ex_plugin) ex_file "write" false (ex_rq "secret" "42") ex_state 0).
  { vm_compute. split; [discriminate|]. eexists. reflexivity. }
  assert (Hv : file_wf ex_file (h_auth ex_state)).
  { split; [discriminate|]. intros k l Hl. unfold ex_file in Hl. cbn [keys] in Hl.
    apply lookup_singleton_Some in Hl as [_ <-]. split; [discriminate|]. eexists. reflexivity. }
  apply (authentication_touches_only_its_user (AuthPlugin0 := ex_plugin) file_wf ex_file "write" false
    (ex_rq "secret" "42") ex_state 0 Hv Ha).
Defined.
