(* ===== verification/Middleware.v ===== *)
(** * api/middleware.go: what watches a response

    The response writer of macaron with the wrapper [TracingResponseWriter], the
    tracer's span, the statistics and the histogram of [PromStats], and the
    recovery from a panic that [api.New] puts in front of them. What the handlers
    of a request write is a list of operations; an operation goes through
    macaron's renderer or through [ctx.Resp]. *)

From S2P Require Import Prelude GoStrings Strconv Http Api.
From Stdlib Require Import Ascii.

(** ** The response writer *)

(** macaron's writer: the last status (0 before the first), the size, and what
    net/http sent: the first status and the bytes. *)
Record writer := mkWriter { w_head : bool; w_status : Z; w_size : Z; w_wire : Z; w_bytes : string }.

Definition new_writer (method : string) : writer := mkWriter (bool_decide (method = "HEAD")) 0 0 0 "".

Definition WriteHeader (s : Z) (w : writer) : writer :=
  mkWriter (w_head w) s (w_size w) (if bool_decide (w_wire w = 0%Z) then s else w_wire w) (w_bytes w).

Definition Written (w : writer) : bool := bool_decide (w_status w ≠ 0%Z).

(** net/http writes no body under 1xx, 204 and 304. *)
Definition body_allowed (s : Z) : bool :=
  negb (bool_decide (100 ≤ s ∧ s < 200)%Z || bool_decide (s = 204%Z) || bool_decide (s = 304%Z)).

Definition Write (b : string) (w : writer) : writer :=
  let w := if Written w then w else WriteHeader 200 w in
  if w_head w || negb (body_allowed (w_wire w)) then w
  else mkWriter (w_head w) (w_status w) (w_size w + Z.of_nat (strlen b)) (w_wire w) (w_bytes w +:+ b).

(** [TracingResponseWriter]: [errBody] is a copy of what was written last under
    an error status. *)
Record tracing_writer := mkTracing { t_w : writer; errBody : string }.

Definition t_WriteHeader (s : Z) (t : tracing_writer) : tracing_writer :=
  mkTracing (WriteHeader s (t_w t)) (errBody t).
Definition t_Write (b : string) (t : tracing_writer) : tracing_writer :=
  mkTracing (Write b (t_w t)) (if bool_decide (400 ≤ w_status (t_w t))%Z then b else errBody t).

(** ** What handlers write

    [macaron.Renderer] comes before [Tracer], so the renderer behind [ctx.JSON]
    and [ctx.PlainText] holds macaron's writer; [Tracer] then puts the wrapper
    into [ctx.Resp], which the proxies write to. *)
Inductive sink := Render | Resp.
Inductive op := OHeader (k : sink) (s : Z) | OWrite (k : sink) (b : string).

Definition t_op (t : tracing_writer) (o : op) : tracing_writer :=
  match o with
  | OHeader Render s => mkTracing (WriteHeader s (t_w t)) (errBody t)
  | OWrite Render b => mkTracing (Write b (t_w t)) (errBody t)
  | OHeader Resp s => t_WriteHeader s t
  | OWrite Resp b => t_Write b t
  end.
Definition op_w (w : writer) (o : op) : writer :=
  match o with OHeader _ s => WriteHeader s w | OWrite _ b => Write b w end.

Definition respond (method : string) (ops : list op) : tracing_writer :=
  foldl t_op (mkTracing (new_writer method) "") ops.

(** A status and the whole body: [ctx.JSON] with the bytes of the value, or
    [ctx.PlainText], by [Render]; a proxied response by [Resp]. *)
Definition reply_ops (k : sink) (r : reply string) : list op := [OHeader k (status r); OWrite k (body r)].

(** The handlers of a request, run to their end or to a panic. *)
Record handled := mkHandled { h_ops : list op; h_panics : bool }.

(** [index]: [ctx.JSON(200, "ok")]. *)
Definition index_run : handled := mkHandled (reply_ops Render (mkReply 200 (bytes_of [34; 111; 107; 34]%Z))) false.

(** ** Recovery

    A panic that reaches it, through every middleware behind it, is answered with
    a 500 and, in development mode, a page. *)
Definition Recovery (dev_page : option string) (method : string) (h : handled) : tracing_writer :=
  let t := respond method (h_ops h) in
  if h_panics h then
    match dev_page with Some p => t_Write p (t_WriteHeader 500 t) | None => t_WriteHeader 500 t end
  else t.

(** ** Tracer *)

Record span := mkSpan {
  operation : string; http_status : Z; http_size : option Z; logged_error : option string;
  is_error : bool; component : string }.

(** The span that is finished; what comes after [Next] is not reached by a
    panic. *)
Definition Tracer (componentName method path : string) (h : handled) : option span :=
  if h_panics h then None else
  let rw := respond method (h_ops h) in
  let status := w_status (t_w rw) in
  Some (mkSpan ("HTTP " +:+ method +:+ " " +:+ pathSlug path) (wrap_u 16 status)
    (if bool_decide (200 ≤ status ∧ status < 300)%Z then Some (w_size (t_w rw)) else None)
    (if bool_decide (400 ≤ status)%Z then Some (errBody rw) else None)
    (bool_decide (400 ≤ status ∧ 500 ≤ status)%Z) (componentName +:+ "/api")).

(** ** The statistics and the histogram of a run *)

(** [RequestStats] of api.Api on what the writer holds at the end. *)
Definition stats_of (method path : string) (took : Z) (h : handled) (r : requestStats) : requestStats :=
  if h_panics h then r else
  let w := t_w (respond method (h_ops h)) in
  RequestStats path (w_status w) took (w_size w) r.

(** The labels and the time of the observation. *)
Definition PromStats (handler method : string) (took : Z) (h : handled) : option (list string * Z) :=
  if h_panics h then None
  else Some ([method; handler; Itoa (w_status (t_w (respond method (h_ops h))))], took).

(** ** Lemmas *)

(** The wrapper changes nothing of the response. *)
Lemma tracing_transparent ops t : t_w (foldl t_op t ops) = foldl op_w (t_w t) ops.
Proof. revert t. induction ops as [|o ops IH]; intros t; [done|]. cbn. rewrite IH. by destruct o as [[]|[]]. Qed.

Lemma respond_transparent method ops : t_w (respond method ops) = foldl op_w (new_writer method) ops.
Proof. apply tracing_transparent. Qed.

(** What goes through the renderer is not copied. *)
Lemma rendered_not_copied ops t :
  Forall (λ o, match o with OHeader k _ | OWrite k _ => k = Render end) ops →
  errBody (foldl t_op t ops) = errBody t.
Proof.
  intros H. revert t. induction H as [|o ops Ho _ IH]; intros t; [done|]. cbn. rewrite IH.
  by destruct o; subst.
Qed.

Definition sent_size (method : string) (r : reply string) : Z :=
  if bool_decide (method = "HEAD") || negb (body_allowed (status r)) then 0 else Z.of_nat (strlen (body r)).

Lemma respond_reply method k r :
  status r ≠ 0%Z →
  let t := respond method (reply_ops k r) in
  w_status (t_w t) = status r ∧ w_size (t_w t) = sent_size method r ∧
  errBody t = (match k with Render => "" | Resp => if bool_decide (400 ≤ status r)%Z then body r else "" end).
Proof.
  intros Hs. unfold respond, reply_ops, sent_size.
  assert (Hw : ∀ w, w_wire w = 0%Z → Write (body r) (WriteHeader (status r) w) =
    if w_head w || negb (body_allowed (status r)) then WriteHeader (status r) w
    else mkWriter (w_head w) (status r) (w_size w + Z.of_nat (strlen (body r))) (status r) (w_bytes w +:+ body r)).
  { intros w H0. unfold Write, Written, WriteHeader. rewrite H0. cbn.
    by rewrite (bool_decide_eq_true_2 (status r ≠ 0%Z)). }
  destruct k; cbn; rewrite Hw by done; cbn;
    by destruct (bool_decide (method = "HEAD") || negb (body_allowed (status r))).
Qed.

(** ** Properties *)

(** The tracer is invisible: what goes out is what the handlers wrote. For a
    handler that replies once and does not panic, the span and the statistics
    tell the reply: its status, the number of bytes that went out (under a 2xx),
    the error flag exactly from 500 on. *)
Theorem span_tells_the_reply app handler method path took k r :
  is_u 16 (status r) → status r ≠ 0%Z →
  (∀ ops, t_w (respond method ops) = foldl op_w (new_writer method) ops) ∧
  let h := mkHandled (reply_ops k r) false in
  (∃ sp, Tracer app method path h = Some sp ∧ http_status sp = status r ∧
    http_size sp = (if bool_decide (200 ≤ status r ∧ status r < 300)%Z
                    then Some (sent_size method r) else None) ∧
    is_error sp = bool_decide (500 ≤ status r)%Z) ∧
  (∀ st, stats_of method path took h st = RequestStats path (status r) took (sent_size method r) st) ∧
  PromStats handler method took h = Some ([method; handler; Itoa (status r)], took).
Proof.
  intros Hu Hs. split; [intros ops; apply respond_transparent|]. cbv zeta.
  destruct (respond_reply method k r Hs) as (H1 & H2 & _).
  unfold Tracer, stats_of, PromStats. cbn [h_panics h_ops]. rewrite H1, H2. split_and!; [|done..].
  eexists. split; [done|]. cbn [http_status http_size is_error]. rewrite wrap_u_id by done.
  split_and!; [done..|]. apply bool_decide_ext. lia.
Qed.

Lemma span_tells_the_reply_witness :
  ∃ sp, Tracer "tsdb-gw" "POST" "/metrics"
    (mkHandled (reply_ops Render (mkReply 413 "batch is larger than limit")) false) = Some sp ∧
    http_status sp = 413%Z ∧ is_error sp = false.
Proof.
  destruct (span_tells_the_reply "tsdb-gw" "" "POST" "/metrics" 7 Render (mkReply 413 "batch is larger than limit"))
    as [_ [(sp & H0 & H1 & _ & H2) _]].
  - split; vm_compute; [discriminate|reflexivity].
  - discriminate.
  - exists sp. split; [exact H0|split; [exact H1|exact H2]].
Defined.

(** The body of an error reaches the span only from a proxy. The renderer
    behind [ctx.JSON] and [ctx.PlainText] holds the writer from before [Tracer]
    replaced it: an error the gateway itself replies, however many operations
    it takes, is logged with an empty text, while the body of a proxied error
    that goes out in one piece is logged. *)
Theorem rendered_errors_are_logged_empty app method path ops r sp sp' :
  Forall (λ o, match o with OHeader k _ | OWrite k _ => k = Render end) ops →
  Tracer app method path (mkHandled ops false) = Some sp →
  (400 ≤ w_status (foldl op_w (new_writer method) ops))%Z →
  (400 ≤ status r)%Z →
  Tracer app method path (mkHandled (reply_ops Resp r) false) = Some sp' →
  logged_error sp = Some "" ∧ logged_error sp' = Some (body r).
Proof.
  intros Hr Hsp H4 Hs Hsp'. unfold Tracer in Hsp, Hsp'. cbn [h_panics h_ops] in Hsp, Hsp'.
  apply (inj Some) in Hsp as <-. apply (inj Some) in Hsp' as <-. cbn [logged_error]. split.
  - rewrite respond_transparent, bool_decide_eq_true_2 by done.
    unfold respond. by rewrite rendered_not_copied.
  - destruct (respond_reply method Resp r) as (E1 & _ & E3); [lia|]. rewrite E1, E3. by rewrite bool_decide_eq_true_2.
Qed.

Lemma rendered_errors_are_logged_empty_witness :
  ∃ sp sp',
    Tracer "tsdb-gw" "GET" "/graphite/render"
      (mkHandled (reply_ops Render (mkReply 401 "Unauthorized")) false) = Some sp ∧
    Tracer "tsdb-gw" "GET" "/graphite/render"
      (mkHandled (reply_ops Resp (mkReply 502 "bad gateway")) false) = Some sp' ∧
    logged_error sp = Some "" ∧ logged_error sp' = Some "bad gateway".
Proof.
  eexists _, _. split; [reflexivity|split; [reflexivity|]].
  apply (rendered_errors_are_logged_empty "tsdb-gw" "GET" "/graphite/render"
    (reply_ops Render (mkReply 401 "Unauthorized")) (mkReply 502 "bad gateway") _ _).
  - repeat constructor.
  - reflexivity.
  - vm_compute. discriminate.
  - vm_compute. discriminate.
  - reflexivity.
Defined.

(** A panic is answered but not observed: the client gets a 500 if nothing was
    written, no span is finished and nothing is counted. *)
Lemma panics_are_not_observed app handler method path took dev_page st :
  let h := mkHandled [] true in
  w_wire (t_w (Recovery dev_page method h)) = 500%Z ∧
  Tracer app method path h = None ∧ PromStats handler method took h = None ∧
  stats_of method path took h st = st.
Proof.
  split_and!; [|done..]. unfold Recovery. cbn. destruct dev_page; cbn; [|done].
  unfold Write, Written, new_writer. cbn. by destruct (bool_decide (method = "HEAD")).
Qed.

(** A handler that goes on after its reply is seen with its last status, though
    the client got the first: the second reply of [DataDogCheck] makes a refused
    request a success for the statistics and the tracer. *)
Lemma second_reply_hides_the_first method b1 b2 :
  let w := t_w (respond method (reply_ops Render (mkReply 400 b1) ++ reply_ops Render (mkReply 200 b2))) in
  w_wire w = 400%Z ∧ w_status w = 200%Z.
Proof.
  unfold respond, new_writer. by destruct (bool_decide (method = "HEAD")).
Qed.
