(* ===== verification/Carbon.v ===== *)
(** * ingest/carbon

    The plain-text carbon input: the line parser of schemas.go, [Dispatch] and
    the channel between the connections and the flushers, and the loop of
    [flush] as a machine over its events (a tick, a packet, the closed channel).
    The packet check of carbon20, [strconv.ParseFloat] and the authentication
    are parameters; the publisher is the interface of Publish.v. *)

From S2P Require Import Prelude GoStrings Strconv Schema Publish Http.
From Stdlib Require Import Ascii.

(** ** parseMetric *)

Inductive parse_error := Err3Fields | ErrBadTag | ErrValue | ErrTimestamp.

#[export] Instance parse_error_eq_dec : EqDecision parse_error.
Proof. solve_decision. Defined.

Definition bad_tag (v : string) : bool :=
  bool_decide (v = "") || negb (has_byte "=" v) || HasPrefix v "=".

Section carbon.
(** The 64-bit pattern of the number. *)
Context (ParseFloat : string → option Z).

Definition parseMetric (buf : string) (orgId : Z) : outcome parse_error MetricData :=
  match Fields (TrimSpace buf) with
  | [e0; e1; e2] =>
      match Split ";" e0 with
      | name :: tags =>
          if existsb bad_tag tags then Err ErrBadTag else
          val ← or_err (ParseFloat e1) ErrValue;
          timestamp ← or_err (ParseUint e2 32) ErrTimestamp;
          mret (SetId (mkMetricData "" orgId name 0 val "unknown" timestamp "gauge" tags))
      | [] => Panic
      end
  | _ => Err Err3Fields
  end.

(** ** The state *)

Context {S E : Type} (publisher : Publisher S E).
(** [m20.ValidatePacket] accepts; the plugin's answer to a key, with the role. *)
Context (ValidatePacket : string → bool) (authenticate : string → option User).
Context (requirePublisher nonBlockingBuffer : bool) (bufferSize : nat).

(** The counters of the package, and the timestamps recorded by org. *)
Record counters := mkCounters {
  received : Z; valid : Z; rejected : Z; failed : Z; droppedFull : Z; droppedAuth : Z;
  tstamps : list (Z * Z) }.

Definition no_counters : counters := mkCounters 0 0 0 0 0 0 [].

(** [chan] and [closed] are the channel [c.buf], [buf] the flusher's own slice. *)
Record state := mkState {
  chan : list string; closed : bool; buf : list MetricData; cpub : pstate S; cnt : counters }.

Definition set_buf (b : list MetricData) (s : state) : state := mkState (chan s) (closed s) b (cpub s) (cnt s).
Definition set_cpub (p : pstate S) (s : state) : state := mkState (chan s) (closed s) (buf s) p (cnt s).
Definition count (f : counters → counters) (s : state) : state :=
  mkState (chan s) (closed s) (buf s) (cpub s) (f (cnt s)).

Definition inc_received (c : counters) : counters :=
  mkCounters (received c + 1) (valid c) (rejected c) (failed c) (droppedFull c) (droppedAuth c) (tstamps c).
Definition add_valid (n : Z) (c : counters) : counters :=
  mkCounters (received c) (valid c + n) (rejected c) (failed c) (droppedFull c) (droppedAuth c) (tstamps c).
Definition inc_rejected (c : counters) : counters :=
  mkCounters (received c) (valid c) (rejected c + 1) (failed c) (droppedFull c) (droppedAuth c) (tstamps c).
Definition add_failed (n : Z) (c : counters) : counters :=
  mkCounters (received c) (valid c) (rejected c) (failed c + n) (droppedFull c) (droppedAuth c) (tstamps c).
Definition inc_full (c : counters) : counters :=
  mkCounters (received c) (valid c) (rejected c) (failed c) (droppedFull c + 1) (droppedAuth c) (tstamps c).
Definition inc_auth (c : counters) : counters :=
  mkCounters (received c) (valid c) (rejected c) (failed c) (droppedFull c) (droppedAuth c + 1) (tstamps c).
Definition add_stamp (o t : Z) (c : counters) : counters :=
  mkCounters (received c) (valid c) (rejected c) (failed c) (droppedFull c) (droppedAuth c)
    (tstamps c ++ [(o, t)]).

Definition set_chan (l : list string) (s : state) : state :=
  mkState l (closed s) (buf s) (cpub s) (cnt s).

(** ** Dispatch

    [Ok None] when the call blocks on the full channel; a send on the closed
    channel panics. *)

Definition Dispatch (b : string) (s : state) : outcome unit (option state) :=
  if bool_decide (strlen b = 0) then Ok (Some s) else
  let s := count inc_received s in
  if closed s then Panic
  else if bool_decide (length (chan s) < bufferSize) then Ok (Some (set_chan (chan s ++ [b]) s))
  else if nonBlockingBuffer then Ok (Some (count inc_full s)) else Ok None.

(** [Stop] once the listener is done: no call of [Dispatch] is left. *)
Definition Stop (s : state) : state := mkState (chan s) true (buf s) (cpub s) (cnt s).

(** ** flush *)

(** A packet from the channel; [Panic] is the index [parts[1]] of a packet
    without a dot whose whole text authenticates. *)
Definition on_packet (b : string) (s : state) : outcome unit state :=
  if negb (ValidatePacket b) then Ok (count inc_rejected s) else
  let parts := SplitN2 "." b in
  key ← index parts 0;
  match authenticate key with
  | None => Ok (count inc_auth s)
  | Some user =>
      if requirePublisher && negb (IsPublisher (Role user)) then Ok (count inc_auth s) else
      line ← index parts 1;
      match parseMetric line (ID user) with
      | Ok md => Ok (set_buf (buf s ++ [md]) (count (add_stamp (ID user) (wrap_u 32 (Time md))) s))
      | Err _ => Ok (count inc_rejected s)
      | Panic => Panic
      end
  end.

(** On a failure the slice is kept, with what its pointers now point to. *)
Definition on_tick (s : state) : state :=
  match Publish publisher (buf s) (cpub s) with
  | (p, ms, Some _) =>
      count (add_failed (Z.of_nat (length (buf s)))) (set_buf ms (set_cpub p s))
  | (p, ms, None) =>
      count (add_valid (Z.of_nat (length (buf s)))) (set_buf [] (set_cpub p s))
  end.

(** The cases of the [select]: [Ok None], the channel is closed and drained and
    the goroutine returns; a receive from the open empty channel waits. *)
Definition on_receive (s : state) : outcome unit (option state) :=
  match chan s with
  | [] => Ok (if closed s then None else Some s)
  | b :: rest => s' ← on_packet b (set_chan rest s); mret (Some s')
  end.

Inductive event := ETick | EReceive | EDispatch (b : string) | EStop.

(** A blocked [Dispatch] is tried again by its goroutine: its packet is not
    counted twice, so its event leaves the state alone. *)
Definition flush_step (e : event) (s : state) : outcome unit (option state) :=
  match e with
  | ETick => Ok (Some (on_tick s))
  | EReceive => on_receive s
  | EDispatch b => r ← Dispatch b s; mret (Some (default s r))
  | EStop => Ok (Some (Stop s))
  end.

(** The events until the goroutine returns: the state, and whether it has. *)
Fixpoint run (es : list event) (s : state) : outcome unit (state * bool) :=
  match es with
  | [] => Ok (s, false)
  | e :: es' =>
      r ← flush_step e s;
      match r with Some s' => run es' s' | None => Ok (s, true) end
  end.

Definition init (p : pstate S) : state := mkState [] false [] p no_counters.
End carbon.
