(* ===== verification/CarbonSpec.v ===== *)
(** * What the carbon input promises

    The line parser against the lines a carbon client writes, the user a line's
    metric belongs to, and the conservation of lines over the runs of the
    flusher. *)

From S2P Require Import Prelude GoStrings Strconv Schema Publish Http Carbon.
From Stdlib Require Import Ascii.

(** ** Lines *)

(** [name;tag;...], the first field of a line, and the line. *)
Definition path_text (name : string) (tags : list string) : string := Join ";" (name :: tags).
Definition line_text (name : string) (tags : list string) (value : string) (ts : Z) : string :=
  path_text name tags +:+ " " +:+ value +:+ " " +:+ FormatUint ts.

(** A word of a line free of the separator of tags. *)
Definition path_word (w : string) : Prop := all_bytes graphic w ∧ has_byte ";" w = false.

#[export] Instance path_word_dec w : Decision (path_word w).
Proof. unfold path_word. apply _. Defined.

Lemma path_text_graphic name tags :
  path_word name → Forall path_word tags → all_bytes graphic (path_text name tags).
Proof.
  unfold path_text. revert name. induction tags as [|t tags IH]; intros name [Hn _] Ht; [done|].
  apply Forall_cons in Ht as [Ht Hts]. cbn [Join].
  apply all_bytes_app; split; [done|]. apply (all_bytes_app graphic ";").
  split; [by vm_compute|]. by apply IH.
Qed.

Lemma Split_path name tags :
  path_word name → Forall path_word tags → Split ";" (path_text name tags) = name :: tags.
Proof.
  intros Hn Ht. apply Split_Join; [done|]. constructor; [apply Hn|].
  eapply Forall_impl; [done|]. by intros t [].
Qed.

Lemma path_text_nonempty name tags : name ≠ "" → path_text name tags ≠ "".
Proof. intros Hn. unfold path_text. destruct name; [done|]. by destruct tags. Qed.

Lemma digits_graphic n : all_bytes graphic (FormatUint n).
Proof. eapply all_bytes_mono; [apply digit_graphic|apply FormatUint_bytes]. Qed.

Lemma Fields_line p v ts :
  p ≠ "" → v ≠ "" → all_bytes graphic p → all_bytes graphic v →
  Fields (TrimSpace (p +:+ " " +:+ v +:+ " " +:+ FormatUint ts)) = [p; v; FormatUint ts].
Proof.
  intros Hp Hv Gp Gv.
  assert (p +:+ " " +:+ v +:+ " " +:+ FormatUint ts = p +:+ (" " +:+ v +:+ " ") +:+ FormatUint ts)
    as -> by by rewrite !str_app_assoc.
  rewrite TrimSpace_words by (done || apply FormatUint_nonempty || apply digits_graphic).
  rewrite !str_app_assoc, Fields_word, Fields_word, Fields_last
    by (done || apply FormatUint_nonempty || apply digits_graphic). done.
Qed.

Section spec.
Context (ParseFloat : string → option Z) {S E : Type} (publisher : Publisher S E).
Context (ValidatePacket : string → bool) (authenticate : string → option User).
Context (requirePublisher nonBlockingBuffer : bool) (bufferSize : nat).

Notation on_packet := (on_packet ParseFloat ValidatePacket authenticate requirePublisher).
Notation on_tick := (on_tick publisher).
Notation flush_step :=
  (flush_step ParseFloat publisher ValidatePacket authenticate requirePublisher nonBlockingBuffer bufferSize).
Notation run :=
  (run ParseFloat publisher ValidatePacket authenticate requirePublisher nonBlockingBuffer bufferSize).

(** The metric a line stands for. *)
Definition line_metric (org : Z) (name : string) (tags : list string) (value ts : Z) : MetricData :=
  SetId (mkMetricData "" org name 0 value "unknown" ts "gauge" tags).

Lemma parseMetric_line org name tags v value ts :
  name ≠ "" → path_word name → Forall path_word tags → existsb bad_tag tags = false →
  v ≠ "" → all_bytes graphic v → ParseFloat v = Some value → is_u 32 ts →
  parseMetric ParseFloat (line_text name tags v ts) org = Ok (line_metric org name tags value ts).
Proof.
  intros Hn Wn Wt Ht Hv Gv Hval Hts. unfold parseMetric, line_text.
  rewrite Fields_line by (done || by apply path_text_nonempty || by apply path_text_graphic).
  rewrite Split_path, Ht, Hval, ParseUint_FormatUint by done. done.
Qed.

(** What a parsed metric is, whatever the line. *)
Lemma parseMetric_Ok line org md :
  parseMetric ParseFloat line org = Ok md → OrgId md = org ∧ id_set md ∧ is_u 32 (Time md).
Proof.
  unfold parseMetric. destruct (Fields (TrimSpace line)) as [|e0 [|e1 [|e2 [|]]]]; try done.
  destruct (Split_cons ";" e0) as (x & xs & ->). destruct (existsb bad_tag xs); [done|].
  destruct (ParseFloat e1); [|done]. cbn. destruct (ParseUint e2 32) as [t|] eqn:Et; [|done]. cbn.
  intros [= <-]. split_and!; [done|apply id_set_SetId|]. cbn. by eapply ParseUint_is_u.
Qed.

Lemma parseMetric_no_panic line org : parseMetric ParseFloat line org ≠ Panic.
Proof.
  unfold parseMetric. destruct (Fields (TrimSpace line)) as [|e0 [|e1 [|e2 [|]]]]; try done.
  destruct (Split_cons ";" e0) as (x & xs & ->). destruct (existsb bad_tag xs); [done|].
  destruct (ParseFloat e1); [|done]. cbn. by destruct (ParseUint e2 32).
Qed.

(** ** Packets *)

(** What a packet does to the state. *)
Inductive packet_effect (b : string) (s : state) : state (S:=S) → Prop :=
| effect_rejected : packet_effect b s (count inc_rejected s)
| effect_auth : packet_effect b s (count inc_auth s)
| effect_buffered key line u md :
    ValidatePacket b = true → b = key +:+ "." +:+ line → has_byte "." key = false →
    authenticate key = Some u → (requirePublisher = true → IsPublisher (Role u) = true) →
    parseMetric ParseFloat line (ID u) = Ok md →
    packet_effect b s (set_buf (buf s ++ [md]) (count (add_stamp (ID u) (Time md)) s)).

Lemma on_packet_effect b s s' : on_packet b s = Ok s' → packet_effect b s s'.
Proof.
  unfold Carbon.on_packet. destruct (ValidatePacket b) eqn:Ev; simpl; [|intros [= <-]; constructor].
  destruct (SplitN2_cases "." b) as [[_ ->]|(key & line & Hk & -> & ->)]; cbn.
  - destruct (authenticate b); [|intros [= <-]; constructor].
    case_match; [intros [= <-]; constructor|done].
  - destruct (authenticate key) as [u|] eqn:Ea; [|intros [= <-]; constructor].
    destruct (requirePublisher && negb (IsPublisher (Role u))) eqn:Er; [intros [= <-]; constructor|].
    destruct (parseMetric ParseFloat line (ID u)) as [md| |] eqn:Em; [|intros [= <-]; constructor|done].
    intros [= <-]. rewrite wrap_u_id by (by eapply parseMetric_Ok). econstructor; eauto.
    intros ->. by destruct (IsPublisher (Role u)).
Qed.

(** ** Conservation *)

(** The lines received that are neither in the channel, nor in the buffer, nor
    counted in one of the final counters. *)
Definition balance (s : state (S:=S)) : Z :=
  (received (cnt s) - valid (cnt s) - rejected (cnt s) - droppedFull (cnt s) - droppedAuth (cnt s)
   - Z.of_nat (length (chan s)) - Z.of_nat (length (buf s)))%Z.

(** A publisher hands the batch back as long as it got it. *)
Definition keeps_length : Prop :=
  ∀ s ms s' ms' e, PublishFn publisher ms s = (s', ms', Some e) → length ms' = length ms.

Lemma on_packet_balance b rest s s' :
  chan s = b :: rest → on_packet b (set_chan rest s) = Ok s' → balance s' = balance s.
Proof.
  intros Hc H. apply on_packet_effect in H. unfold balance. rewrite Hc.
  destruct H; cbn in *; rewrite ?length_app; cbn; lia.
Qed.

Lemma on_tick_balance s : keeps_length → balance (on_tick s) = balance s.
Proof.
  intros Hk. unfold balance, Carbon.on_tick, Publish.Publish. case_bool_decide as H0.
  - apply nil_length_inv in H0 as ->. cbn. lia.
  - destruct (PublishFn publisher (buf s) (pub (cpub s))) as [[p ms] [e|]] eqn:Ep; cbn; [|lia].
    apply Hk in Ep. lia.
Qed.

(** What a [Dispatch] that ends does, and that it leaves the rest alone. *)
Lemma Dispatch_effect b s s' :
  Dispatch nonBlockingBuffer bufferSize b s = Ok (Some s') →
  balance s' = balance s ∧ buf s' = buf s ∧ closed s' = closed s ∧ cpub s' = cpub s ∧
  (closed s = true → s' = s) ∧
  (length (chan s) ≤ bufferSize → length (chan s') ≤ bufferSize).
Proof.
  unfold Dispatch, balance. case_bool_decide; [by intros [= <-]|]. cbn.
  destruct (closed s) eqn:Ec; [done|]. case_bool_decide; [|destruct nonBlockingBuffer; [|done]];
    intros [= <-]; cbn; rewrite ?length_app; cbn; rewrite ?Ec; split_and!; try done; lia.
Qed.

Lemma flush_step_balance e s s' :
  keeps_length → flush_step e s = Ok (Some s') → balance s' = balance s.
Proof.
  intros Hk. destruct e as [| |b|]; cbn.
  - intros [= <-]. by apply on_tick_balance.
  - unfold on_receive. destruct (chan s) as [|b rest] eqn:Ec; [by destruct (closed s); intros [= <-]|].
    destruct (on_packet b (set_chan rest s)) eqn:Eo; try done. intros [= <-].
    by eapply on_packet_balance.
  - destruct (Dispatch nonBlockingBuffer bufferSize b s) as [[s1|]| |] eqn:Ed; try done; intros [= <-];
      [by eapply Dispatch_effect|done].
  - by intros [= <-].
Qed.

Lemma flush_step_returns e s : flush_step e s = Ok None → chan s = [] ∧ closed s = true.
Proof.
  destruct e as [| |b|]; cbn; try done.
  - unfold on_receive. destruct (chan s) as [|b rest]; [by destruct (closed s)|].
    by destruct (on_packet b (set_chan rest s)).
  - by destruct (Dispatch nonBlockingBuffer bufferSize b s) as [[]| |].
Qed.

Lemma run_balance es s s' stopped :
  keeps_length → run es s = Ok (s', stopped) →
  balance s' = balance s ∧ (stopped = true → chan s' = [] ∧ closed s' = true).
Proof.
  intros Hk. revert s. induction es as [|e es IH]; intros s; cbn; [by intros [= <- <-]|].
  destruct (flush_step e s) as [[s1|]| |] eqn:Ee; cbn; try done.
  - intros [Hb Hs]%IH. split; [|done]. rewrite Hb. by eapply flush_step_balance.
  - intros [= <- <-]. split; [done|]. intros _. by eapply flush_step_returns.
Qed.

(** ** Properties *)

(** Conservation. In every run of the flusher, each received line is in the
    channel, in the buffer, published, rejected, or dropped for the full channel
    or for its key. So when [flush] returns on the closed channel, the lines of
    its buffer are in no counter: they were accepted and are never published. *)
Theorem carbon_conserves_lines es p s stopped :
  keeps_length → run es (init p) = Ok (s, stopped) →
  received (cnt s) =
    (Z.of_nat (length (chan s)) + Z.of_nat (length (buf s)) + valid (cnt s) + rejected (cnt s)
     + droppedFull (cnt s) + droppedAuth (cnt s))%Z ∧
  (stopped = true →
   received (cnt s) - valid (cnt s) - rejected (cnt s) - droppedFull (cnt s) - droppedAuth (cnt s) =
     Z.of_nat (length (buf s)))%Z.
Proof.
  intros Hk H. destruct (run_balance es (init p) s stopped Hk H) as [Hc Hr].
  unfold balance in Hc. cbn in Hc. split; [lia|]. intros Hs. destruct (Hr Hs) as [Hn _]. rewrite Hn in Hc.
  simpl in Hc. lia.
Qed.

(** Isolation. The only way a packet adds to the buffer is by starting with
    a key, up to its first dot, that authenticates as a user allowed to publish;
    the one metric added is in that user's org and carries its own id. *)
Theorem carbon_metrics_are_the_users b (s s' : state (S:=S)) :
  on_packet b s = Ok s' →
  buf s' = buf s ∨
  ∃ key line u md, b = key +:+ "." +:+ line ∧ has_byte "." key = false ∧
    authenticate key = Some u ∧ (requirePublisher = true → IsPublisher (Role u) = true) ∧
    buf s' = buf s ++ [md] ∧ OrgId md = ID u ∧ id_set md.
Proof.
  intros H. apply on_packet_effect in H as [| |key line u md Hv -> Hk Ha Hp Hm]; [by left..|right].
  pose proof (parseMetric_Ok _ _ _ Hm) as (? & ? & _). by exists key, line, u, md.
Qed.

(** C31. Round trip. A line [key.name;tag;... value time] of a user allowed to
    publish, with well-formed tags, puts on the buffer the metric with that
    name, those tags and that time, the value the text stands for and the
    user's org. *)
Theorem carbon_line_roundtrip key u name tags v value ts (s : state (S:=S)) :
  let b := key +:+ "." +:+ line_text name tags v ts in
  ValidatePacket b = true → has_byte "." key = false → authenticate key = Some u →
  (requirePublisher = true → IsPublisher (Role u) = true) →
  name ≠ "" → path_word name → Forall path_word tags → existsb bad_tag tags = false →
  v ≠ "" → all_bytes graphic v → ParseFloat v = Some value → is_u 32 ts →
  on_packet b s =
    Ok (set_buf (buf s ++ [line_metric (ID u) name tags value ts])
                (count (add_stamp (ID u) ts) s)).
Proof.
  intros b Hb Hk Ha Hp Hn Wn Wt Ht Hv Gv Hval Hts. unfold Carbon.on_packet.
  rewrite Hb. unfold b. cbn [negb].
  change ("." +:+ line_text name tags v ts) with (String "." (line_text name tags v ts)).
  rewrite SplitN2_app by done. cbn [index lookup list_lookup mbind outcome_bind].
  rewrite Ha.
  assert (requirePublisher && negb (IsPublisher (Role u)) = false) as ->
    by (destruct requirePublisher; [by rewrite Hp|done]).
  rewrite (parseMetric_line (ID u) name tags v value ts) by done. cbn [line_metric SetId Time].
  by rewrite wrap_u_id.
Qed.
End spec.

(** ** Witnesses *)

Definition ex_ParseFloat (s : string) : option Z :=
  if bool_decide (s = "1.5") then Some 0x3FF8000000000000%Z else None.
Definition ex_auth (key : string) : option User :=
  if bool_decide (key = "secret") then Some (mkUser 12 false ROLE_EDITOR) else None.

(** A publisher whose first call fails. *)
Definition ex_publisher : Publisher nat unit :=
  mkPublisherI nat unit (λ ms n, (n + 1, ms, if bool_decide (n = 0) then Some () else None)) "flaky".

Definition ex_line : string := "secret.servers.web1;dc=eu 1.5 1500000000".

Lemma ex_keeps_length : keeps_length ex_publisher.
Proof. intros s ms s' ms' e. simpl. by intros [= _ <- _]. Qed.

(** Two lines are published by the second tick, after a failed first; a third
    is rejected; a fourth, read after the last tick, is lost by the stop. *)
Definition ex_events : list event :=
  [EDispatch ex_line; EDispatch ex_line; EReceive; EReceive; ETick; ETick;
   EDispatch "nokey.a 1 2"; EReceive; EDispatch ex_line; EStop; EReceive; EReceive].

Abbreviation ex_run := (run ex_ParseFloat ex_publisher (λ _, true) ex_auth true false 10 ex_events
  (init (Publish.mkPState 0 ∅))).

Lemma carbon_conserves_lines_witness :
  match ex_run with
  | Ok (s, stopped) => stopped = true ∧
      (received (cnt s), valid (cnt s), failed (cnt s), droppedAuth (cnt s)) = (4, 2, 2, 1)%Z ∧
      length (buf s) = 1 ∧
      (received (cnt s) - valid (cnt s) - rejected (cnt s) - droppedFull (cnt s) - droppedAuth (cnt s)
       = 1)%Z
  | _ => False
  end.
Proof.
  assert (Hb : match ex_run with
    | Ok (s, stopped) => stopped = true ∧
        (received (cnt s), valid (cnt s), failed (cnt s), droppedAuth (cnt s)) = (4, 2, 2, 1)%Z ∧
        length (buf s) = 1
    | _ => False end) by (vm_compute; by split_and!).
  destruct ex_run as [[s stopped]| |] eqn:E; [|done..]. destruct Hb as (H0 & H1 & H2).
  pose proof (carbon_conserves_lines ex_ParseFloat ex_publisher (λ _, true) ex_auth true false 10
    ex_events (Publish.mkPState 0 ∅) s stopped ex_keeps_length E) as [_ H].
  split; [exact H0|]. split; [exact H1|]. split; [exact H2|]. rewrite (H H0), H2. reflexivity.
Defined.

Lemma carbon_metrics_are_the_users_witness :
  ∃ s', on_packet ex_ParseFloat (λ _, true) ex_auth true ex_line
          (init (S:=nat) (Publish.mkPState 0 ∅)) = Ok s' ∧
        (buf s' = [] ∨ ∃ md, buf s' = [md] ∧ OrgId md = 12%Z).
Proof.
  destruct (on_packet ex_ParseFloat (λ _, true) ex_auth true ex_line
              (init (S:=nat) (Publish.mkPState 0 ∅))) as [s'| |] eqn:E.
  - exists s'. split; [done|].
    destruct (carbon_metrics_are_the_users _ _ _ _ _ _ _ E) as [H|H]; [left; exact H|right].
    destruct H as (key & line & u & md & _ & _ & Ha & _ & Hb & Ho & _).
    exists md. split; [exact Hb|]. rewrite Ho. unfold ex_auth in Ha. case_bool_decide; [|done].
    by injection Ha as <-.
  - exfalso. assert (H : match on_packet ex_ParseFloat (λ _, true) ex_auth true ex_line
      (init (S:=nat) (Publish.mkPState 0 ∅)) with Err _ => False | _ => True end) by (vm_compute; exact I).
    by rewrite E in H.
  - exfalso. assert (H : match on_packet ex_ParseFloat (λ _, true) ex_auth true ex_line
      (init (S:=nat) (Publish.mkPState 0 ∅)) with Panic => False | _ => True end) by (vm_compute; exact I).
    by rewrite E in H.
Defined.

Lemma ex_line_text :
  ex_line = "secret" +:+ "." +:+ line_text "servers.web1" ["dc=eu"] "1.5" 1500000000.
Proof. vm_compute. reflexivity. Qed.

Lemma carbon_line_roundtrip_witness :
  let s := init (S:=nat) (Publish.mkPState 0 ∅) in
  on_packet ex_ParseFloat (λ _, true) ex_auth true ex_line s =
    Ok (set_buf (buf s ++ [line_metric 12 "servers.web1" ["dc=eu"] 0x3FF8000000000000 1500000000])
          (count (add_stamp 12 1500000000) s)).
Proof.
  intros s. rewrite ex_line_text.
  apply (carbon_line_roundtrip ex_ParseFloat (λ _, true) ex_auth true "secret"
    (mkUser 12 false ROLE_EDITOR) "servers.web1" ["dc=eu"] "1.5" 0x3FF8000000000000 1500000000 s);
    try reflexivity; try discriminate; apply (bool_decide_unpack _); vm_compute; exact I.
Defined.
