(* ===== verification/CarbonConc.v ===== *)
(** * ingest/carbon, with several flushers

    [InitCarbon] starts -carbon-concurrency goroutines of [flush] over one
    channel, and [Stop] closes the channel and waits for them. A configuration
    holds the shared channel, publisher and counters and each goroutine's own
    slice; a step is one case of one goroutine's [select], one [Dispatch], or
    the close. What a goroutine does in a step is the definition of Carbon.v on
    its view of the configuration. *)

From S2P Require Import Prelude GoStrings Strconv Schema Publish Http Carbon CarbonSpec.
From Stdlib Require Import Ascii.

(** A goroutine of [flush]: its slice, and whether it has returned. *)
Record flusher := mkFlusher { f_buf : list MetricData; f_done : bool }.

Inductive cevent := CTick (i : nat) | CReceive (i : nat) | CDispatch (b : string) | CStop.

Section conc.
Context (ParseFloat : string → option Z).
Context {S E : Type} (publisher : Publisher S E).
Context (ValidatePacket : string → bool) (authenticate : string → option User).
Context (requirePublisher nonBlockingBuffer : bool) (bufferSize : nat).

Record config := mkConfig {
  c_chan : list string; c_closed : bool; c_flushers : list flusher;
  c_pub : pstate S; c_cnt : counters }.

(** What goroutine with the slice [b] sees, and the configuration its step leaves. *)
Definition view (b : list MetricData) (c : config) : state (S:=S) :=
  mkState (c_chan c) (c_closed c) b (c_pub c) (c_cnt c).
Definition unview (i : nat) (returned : bool) (s : state (S:=S)) (c : config) : config :=
  mkConfig (chan s) (closed s) (<[i := mkFlusher (buf s) returned]> (c_flushers c)) (cpub s) (cnt s).
Definition shared (s : state (S:=S)) (c : config) : config :=
  mkConfig (chan s) (closed s) (c_flushers c) (cpub s) (cnt s).

Definition InitCarbon (concurrency : nat) (p : pstate S) : config :=
  mkConfig [] false (replicate concurrency (mkFlusher [] false)) p no_counters.

(** [None]: the goroutine of the event waits, or has returned. *)
Definition cstep (e : cevent) (c : config) : outcome unit (option config) :=
  match e with
  | CTick i =>
      match c_flushers c !! i with
      | Some (mkFlusher b false) => Ok (Some (unview i false (on_tick publisher (view b c)) c))
      | _ => Ok None
      end
  | CReceive i =>
      match c_flushers c !! i with
      | Some (mkFlusher b false) =>
          if bool_decide (c_chan c = []) && negb (c_closed c) then Ok None else
          match on_receive ParseFloat ValidatePacket authenticate requirePublisher (view b c) with
          | Ok (Some s) => Ok (Some (unview i false s c))
          | Ok None => Ok (Some (unview i true (view b c) c))
          | Err e => Err e
          | Panic => Panic
          end
      | _ => Ok None
      end
  | CDispatch b =>
      match Dispatch nonBlockingBuffer bufferSize b (view [] c) with
      | Ok (Some s) => Ok (Some (shared s c))
      | Ok None => Ok None
      | Err e => Err e
      | Panic => Panic
      end
  | CStop => if c_closed c then Panic else Ok (Some (shared (Stop (view [] c)) c))
  end.

(** A schedule; [None] when an event of it cannot take place. *)
Fixpoint crun (es : list cevent) (c : config) : outcome unit (option config) :=
  match es with
  | [] => Ok (Some c)
  | e :: es' => match cstep e c with Ok (Some c') => crun es' c' | r => r end
  end.

(** [flushWg.Wait()] returns. *)
Definition all_returned (c : config) : Prop := Forall (λ f, f_done f = true) (c_flushers c).
End conc.
Arguments config : clear implicits.

Section spec.
Context (ParseFloat : string → option Z).
Context {S E : Type} (publisher : Publisher S E).
Context (ValidatePacket : string → bool) (authenticate : string → option User).
Context (requirePublisher nonBlockingBuffer : bool) (bufferSize : nat).

#[local] Abbreviation cstep :=
  (cstep ParseFloat publisher ValidatePacket authenticate requirePublisher nonBlockingBuffer bufferSize).
#[local] Abbreviation crun :=
  (crun ParseFloat publisher ValidatePacket authenticate requirePublisher nonBlockingBuffer bufferSize).
#[local] Abbreviation on_packet :=
  (on_packet (S:=S) ParseFloat ValidatePacket authenticate requirePublisher).
Implicit Types c : config S.

(** ** Taking a schedule apart *)

Lemma crun_cons e es c c' :
  crun (e :: es) c = Ok (Some c') → ∃ c1, cstep e c = Ok (Some c1) ∧ crun es c1 = Ok (Some c').
Proof. cbn. destruct (cstep e c) as [[c1|]| |]; cbn; [eauto|done..]. Qed.

(** What a step can be, with the view the definitions of Carbon.v work on. *)
Inductive step_case c : cevent → config S → Prop :=
| case_tick i b :
    c_flushers c !! i = Some (mkFlusher b false) →
    step_case c (CTick i) (unview i false (on_tick publisher (view b c)) c)
| case_packet i b x rest s :
    c_flushers c !! i = Some (mkFlusher b false) → c_chan c = x :: rest →
    on_packet x (set_chan rest (view b c)) = Ok s →
    step_case c (CReceive i) (unview i false s c)
| case_return i b :
    c_flushers c !! i = Some (mkFlusher b false) → c_chan c = [] → c_closed c = true →
    step_case c (CReceive i) (unview i true (view b c) c)
| case_dispatch b s :
    Dispatch nonBlockingBuffer bufferSize b (view [] c) = Ok (Some s) →
    step_case c (CDispatch b) (shared s c)
| case_stop :
    c_closed c = false → step_case c CStop (shared (Stop (view [] c)) c).

Lemma cstep_case e c c' : cstep e c = Ok (Some c') → step_case c e c'.
Proof.
  destruct e as [i|i|b|]; cbn.
  - destruct (c_flushers c !! i) as [[b []]|] eqn:Ei; try done. intros [= <-]. by apply case_tick.
  - destruct (c_flushers c !! i) as [[b []]|] eqn:Ei; try done.
    unfold on_receive. cbn. destruct (c_chan c) as [|x rest] eqn:Ec; cbn.
    + destruct (c_closed c) eqn:El; cbn; [|done]. intros [= <-]. by apply case_return.
    + destruct (on_packet x (set_chan rest (view b c))) as [s| |] eqn:Eo; cbn; try done.
      intros [= <-]. by eapply case_packet.
  - destruct (Dispatch nonBlockingBuffer bufferSize b (view [] c)) as [[s|]| |] eqn:Ed; try done.
    intros [= <-]. by apply case_dispatch.
  - destruct (c_closed c) eqn:El; [done|]. intros [= <-]. by apply case_stop.
Qed.

(** An invariant of the steps is one of the schedules. *)
Lemma crun_inv (I : config S → Prop) es c c' :
  (∀ e c c', I c → step_case c e c' → I c') → I c → crun es c = Ok (Some c') → I c'.
Proof.
  intros Hstep. revert c. induction es as [|e es IH]; intros c Hc; [by intros [= <-]|].
  intros (c1 & H1 & H2)%crun_cons. eapply IH; [|exact H2]. by eapply Hstep, cstep_case.
Qed.

(** ** The lines *)

Definition buffered c : nat := sum_list (length ∘ f_buf <$> c_flushers c).

(** The balance of Carbon.v, over the slices of all goroutines. *)
Definition lines c : Z := balance (view [] c) - Z.of_nat (buffered c).

(** A goroutine changes only its own slice. *)
Lemma lines_unview c i b d s :
  c_flushers c !! i = Some (mkFlusher b false) → balance s = balance (view b c) →
  lines (unview i d s c) = lines c.
Proof.
  intros Hi Hb. unfold lines, buffered, unview, balance in *. cbn in *.
  pose proof (sum_list_insert (length ∘ f_buf) _ _ _ (mkFlusher (buf s) d) Hi) as Hs.
  cbn in Hs. lia.
Qed.

Lemma lines_shared c s : balance s = balance (view [] c) → buf s = [] → lines (shared s c) = lines c.
Proof. intros Hb Hs. unfold lines, buffered, shared, balance in *. rewrite Hs in Hb. cbn in *. lia. Qed.

Lemma step_lines e c c' : keeps_length publisher → step_case c e c' → lines c' = lines c.
Proof.
  intros Hk. destruct 1 as [i b Hi|i b x rest s Hi Hc Ho|i b Hi _ _|b s Hd|_].
  - eapply lines_unview; [done|]. by apply on_tick_balance.
  - eapply lines_unview; [done|]. by eapply on_packet_balance.
  - by eapply lines_unview.
  - apply Dispatch_effect in Hd as (Hb & Hs & _). by apply lines_shared.
  - by apply lines_shared.
Qed.

(** ** Returning *)

Definition running c : nat := sum_list ((λ f, if f_done f then 0 else 1) <$> c_flushers c).

(** The receives that are left once the channel is closed. *)
Definition pending c : nat := length (c_chan c) + running c.

Definition is_receive (e : cevent) : nat := match e with CReceive _ => 1 | _ => 0 end.
Definition receives (es : list cevent) : nat := sum_list (is_receive <$> es).

Lemma running_unview c i b d s :
  c_flushers c !! i = Some (mkFlusher b false) →
  running (unview i d s c) + 1 = running c + if d then 0 else 1.
Proof.
  intros Hi. unfold running, unview. cbn.
  by apply (sum_list_insert (λ f, if f_done f then 0 else 1) _ _ _ (mkFlusher (buf s) d)) in Hi.
Qed.

Lemma packet_shared x rest s s' :
  on_packet x (set_chan rest s) = Ok s' → chan s' = rest ∧ closed s' = closed s ∧ cpub s' = cpub s.
Proof. intros H. apply on_packet_effect in H. by destruct H. Qed.

Lemma tick_shared s : chan (on_tick publisher s) = chan s ∧ closed (on_tick publisher s) = closed s.
Proof. unfold on_tick. by destruct (Publish.Publish publisher (buf s) (cpub s)) as [[p ms] [e|]]. Qed.

Lemma step_pending e c c' :
  c_closed c = true → step_case c e c' →
  c_closed c' = true ∧ is_receive e + pending c' = pending c.
Proof.
  intros Hc. unfold pending.
  destruct 1 as [i b Hi|i b x rest s Hi Hx Ho|i b Hi Hx _|b s Hd|Hn]; [| | | |congruence].
  - destruct (tick_shared (view b c)) as [Hch Hcl].
    pose proof (running_unview c i b false (on_tick publisher (view b c)) Hi) as Hr. cbn iota in Hr.
    cbn [unview c_chan c_closed is_receive]. rewrite Hch, Hcl. split; [done|]. cbn [view chan]. lia.
  - apply packet_shared in Ho as (Hch & Hcl & _).
    pose proof (running_unview c i b false s Hi) as Hr. cbn iota in Hr.
    cbn [unview c_chan c_closed is_receive]. rewrite Hch, Hcl, Hx. split; [done|]. cbn [length]. lia.
  - pose proof (running_unview c i b true (view b c) Hi) as Hr. cbn iota in Hr.
    cbn [unview c_chan c_closed is_receive view chan closed]. rewrite Hx, Hc. split; [done|].
    cbn [length]. lia.
  - apply Dispatch_effect in Hd as (_ & _ & Hcl & _ & Hsame & _). cbn in Hsame. rewrite (Hsame Hc). done.
Qed.

Lemma run_pending es c c' :
  c_closed c = true → crun es c = Ok (Some c') →
  c_closed c' = true ∧ receives es + pending c' = pending c.
Proof.
  revert c. induction es as [|e es IH]; intros c Hc; [by intros [= <-]|].
  intros (c1 & H1 & H2)%crun_cons. apply cstep_case, step_pending in H1 as [Hc1 H1]; [|done].
  destruct (IH c1 Hc1 H2) as [Hc' H']. split; [done|]. unfold receives in *. cbn. lia.
Qed.

Lemma running_returned c : running c = 0 ↔ all_returned c.
Proof.
  unfold running, all_returned. induction (c_flushers c) as [|f l IH]; cbn; [done|].
  rewrite Forall_cons, <- IH. destruct (f_done f); cbn; split; (lia || naive_solver lia).
Qed.

(** A goroutine that has not returned can receive from the closed channel. *)
Lemma closed_receive c i b :
  c_closed c = true → c_flushers c !! i = Some (mkFlusher b false) → cstep (CReceive i) c ≠ Ok None.
Proof.
  intros Hc Hi. cbn. rewrite Hi, Hc, andb_false_r. unfold on_receive. cbn. rewrite Hc.
  destruct (c_chan c) as [|x rest]; [done|]. by destruct (on_packet x _).
Qed.

(** ** Properties *)

(** Conservation with any number of flushers. In every schedule, each received
    line is in the channel, in the slice of a flusher, published, rejected, or
    dropped for the full channel or for its key. So when all flushers have
    returned, the lines of their slices are accounted for nowhere else: they were
    accepted and are never published. *)
Theorem flushers_conserve_lines n p es c :
  keeps_length publisher → crun es (InitCarbon n p) = Ok (Some c) →
  (received (c_cnt c) =
     Z.of_nat (length (c_chan c)) + Z.of_nat (buffered c) + valid (c_cnt c) + rejected (c_cnt c)
     + droppedFull (c_cnt c) + droppedAuth (c_cnt c))%Z.
Proof.
  intros Hk H. apply (crun_inv (λ c', lines c' = lines (InitCarbon n p))) in H; [| |done].
  - assert (Hb : buffered (InitCarbon n p) = 0) by (clear H; induction n as [|n IH]; [done|exact IH]).
    unfold lines in H. rewrite Hb in H. unfold balance in H. cbn in H. lia.
  - intros e c1 c2 <- Hs. by eapply step_lines.
Qed.

(** [Stop] returns. Once the channel is closed, every receive of a flusher takes
    one of the [pending] ones (a line of the channel, or a flusher's return), no
    other event adds any, and a flusher that has not returned can always
    receive: whatever the schedule, all flushers have returned after exactly
    the lines of the channel plus the number of flushers. *)
Theorem Stop_drains es c c' :
  c_closed c = true → crun es c = Ok (Some c') →
  receives es + pending c' = pending c ∧
  (∀ i b, c_flushers c' !! i = Some (mkFlusher b false) → cstep (CReceive i) c' ≠ Ok None) ∧
  (receives es = pending c → all_returned c').
Proof.
  intros Hc H. destruct (run_pending es c c' Hc H) as [Hc' Hp]. split_and!; [done| |].
  - intros i b. by apply closed_receive.
  - intros Hr. apply running_returned. unfold pending in *. lia.
Qed.

(** The channel never holds more than -carbon-buffer-size lines, and with the
    non-blocking buffer no connection waits: a line that does not fit is counted
    as dropped. *)
Theorem channel_is_bounded n p es c b :
  crun es (InitCarbon n p) = Ok (Some c) →
  length (c_chan c) ≤ bufferSize ∧
  (nonBlockingBuffer = true → cstep (CDispatch b) c ≠ Ok None).
Proof.
  intros H. split.
  - apply (crun_inv (λ c', length (c_chan c') ≤ bufferSize)) in H; [done| |cbn; lia].
    clear. intros e c c' Hc. destruct 1 as [i b Hi|i b x rest s Hi Hx Ho|i b Hi Hx _|b s Hd|Hn]; cbn.
    + by destruct (tick_shared (view b c)) as [-> _].
    + apply packet_shared in Ho as (-> & _ & _). rewrite Hx in Hc. cbn in Hc. lia.
    + done.
    + apply Dispatch_effect in Hd as (_ & _ & _ & _ & _ & Hl). by apply Hl.
    + done.
  - intros Hb. cbn. unfold Dispatch. rewrite Hb. case_bool_decide; [done|]. cbn.
    destruct (c_closed c); [done|]. by case_bool_decide.
Qed.

(** *** One flusher *)

Definition seq_event (e : cevent) : event :=
  match e with CTick _ => ETick | CReceive _ => EReceive | CDispatch b => EDispatch b | CStop => EStop end.

#[local] Abbreviation run :=
  (run ParseFloat publisher ValidatePacket authenticate requirePublisher nonBlockingBuffer bufferSize).
#[local] Abbreviation flush_step :=
  (flush_step ParseFloat publisher ValidatePacket authenticate requirePublisher nonBlockingBuffer bufferSize).

Definition single (c : config S) (b : list MetricData) (d : bool) : Prop :=
  c_flushers c = [mkFlusher b d].

Lemma single_step e c c' b :
  single c b false → step_case c e c' →
  (∃ b', single c' b' false ∧ flush_step (seq_event e) (view b c) = Ok (Some (view b' c'))) ∨
  (single c' b true ∧ c_closed c' = true ∧ view b c' = view b c ∧
   flush_step (seq_event e) (view b c) = Ok None).
Proof.
  unfold single. intros Hs.
  destruct 1 as [i b0 Hi|i b0 x rest s Hi Hx Ho|i b0 Hi Hx Hc|x s Hd|Hn];
    try (rewrite Hs in Hi; apply list_lookup_singleton_Some in Hi as [-> [= <-]]);
    cbn [seq_event Carbon.flush_step unview shared c_flushers]; rewrite ?Hs; cbn [insert list_insert].
  - left. eexists. split; [done|]. by destruct (on_tick publisher (view b c)).
  - left. eexists. split; [done|]. unfold on_receive. cbn [view chan].
    change (mkState (c_chan c) (c_closed c) b (c_pub c) (c_cnt c)) with (view b c).
    rewrite Hx, Ho. by destruct s.
  - right. split_and!; try done. unfold on_receive. cbn. by rewrite Hx, Hc.
  - left. exists b. split; [done|].
    revert Hd. unfold Dispatch, view. cbn. case_bool_decide; [by intros [= <-]; destruct c|]. cbn.
    destruct (c_closed c); [done|]. case_bool_decide; [by intros [= <-]|].
    destruct nonBlockingBuffer; [by intros [= <-]|done].
  - left. by exists b.
Qed.

(** Once the flusher has returned nothing happens any more. *)
Lemma single_returned e c c' b : single c b true → c_closed c = true → step_case c e c' → c' = c.
Proof.
  unfold single. intros Hs Hc.
  destruct 1 as [i b0 Hi|i b0 x rest s Hi _ _|i b0 Hi _ _|x s Hd|Hn]; [| | | |congruence];
    try (by rewrite Hs in Hi; apply list_lookup_singleton_Some in Hi as [-> [=]]).
  apply Dispatch_effect in Hd as (_ & _ & _ & _ & Hd & _). rewrite (Hd Hc). by destruct c.
Qed.

(** With one flusher (the default), a schedule of the goroutines is a run of the
    sequential machine of Carbon.v over the corresponding events, and leaves
    what that run leaves. *)
Theorem one_flusher_is_the_loop es p c :
  crun es (InitCarbon 1 p) = Ok (Some c) →
  ∃ s stopped, run (seq_event <$> es) (init p) = Ok (s, stopped) ∧
    c = mkConfig (chan s) (closed s) [mkFlusher (buf s) stopped] (cpub s) (cnt s).
Proof.
  cut (∀ c0 b, single c0 b false → crun es c0 = Ok (Some c) →
    ∃ s stopped, run (seq_event <$> es) (view b c0) = Ok (s, stopped) ∧
      c = mkConfig (chan s) (closed s) [mkFlusher (buf s) stopped] (cpub s) (cnt s)).
  { intros H Hr. by apply (H (InitCarbon 1 p) []). }
  induction es as [|e es IH]; intros c0 b Hs.
  - intros [= <-]. eexists _, _. split; [done|]. cbn. unfold single in Hs. rewrite <- Hs. by destruct c0.
  - intros (c1 & H1 & H2)%crun_cons. apply cstep_case in H1.
    cbn [fmap list_fmap Carbon.run].
    destruct (single_step e c0 c1 b Hs H1) as [(b1 & Hs1 & ->)|(Hs1 & Hc1 & Hv & ->)];
      cbn [mbind outcome_bind]; [by apply IH|].
    eexists _, _. split; [done|].
    apply (crun_inv (λ c', c' = c1)) in H2 as ->; [| |done].
    + rewrite <- Hv. cbn. unfold single in Hs1. rewrite <- Hs1. by destruct c1.
    + intros e' c2 c3 ->. by apply (single_returned e' c1 c3 b).
Qed.

(** *** A broker that is down *)

(** A line arrives, is received, and the flush fails. *)
Definition failing_round (b : string) : list cevent := [CDispatch b; CReceive 0; CTick 0].

(** The flag -carbon-buffer-size does not bound what is held: it bounds the
    channel, and the flusher empties the channel into its slice also while every
    flush fails. For any number of lines there is a schedule that drops none of
    them, with all of them in the slice. *)
Theorem lines_pile_up_while_the_broker_is_down n p b o ts md :
  0 < bufferSize → b ≠ "" →
  (∀ s : state, on_packet b s = Ok (set_buf (buf s ++ [md]) (count (add_stamp o ts) s))) →
  (∀ ms s, ∃ s' e, PublishFn publisher ms s = (s', ms, Some e)) →
  ∃ c, crun (mjoin (replicate n (failing_round b))) (InitCarbon 1 p) = Ok (Some c) ∧
    buffered c = n ∧ c_chan c = [] ∧ droppedFull (c_cnt c) = 0%Z.
Proof.
  intros Hb Hne Hp Hf.
  cut (∀ c0 l, single c0 l false → c_chan c0 = [] → c_closed c0 = false → droppedFull (c_cnt c0) = 0%Z →
    ∃ c l', crun (mjoin (replicate n (failing_round b))) c0 = Ok (Some c) ∧ single c l' false ∧
      length l' = length l + n ∧ c_chan c = [] ∧ droppedFull (c_cnt c) = 0%Z).
  { intros H. destruct (H (InitCarbon 1 p) []) as (c & l' & Hr & Hs & Hl & Hc & Hd); [done..|].
    exists c. split_and!; try done. unfold buffered, single in *. rewrite Hs. cbn. rewrite Hl. cbn. lia. }
  induction n as [|n IH]; intros c0 l Hs Hc Ho Hd.
  { exists c0, l. split_and!; done || lia. }
  destruct c0 as [ch cl fl pb cn]. unfold single in Hs. cbn in Hs, Hc, Ho, Hd. subst ch cl fl.
  set (c0 := mkConfig [] false [mkFlusher l false] pb cn).
  set (s1 := on_tick publisher (set_buf (l ++ [md]) (count (add_stamp o ts)
               (count inc_received (view l c0))))).
  assert (Ht : buf s1 = l ++ [md] ∧ chan s1 = [] ∧ closed s1 = false ∧ droppedFull (cnt s1) = 0%Z).
  { unfold s1, on_tick, Publish.Publish. cbn. rewrite bool_decide_eq_false_2
      by (rewrite length_app; cbn; lia).
    by destruct (Hf (l ++ [md]) (pub pb)) as (s' & e & ->). }
  destruct Ht as (Hb1 & Hc1 & Ho1 & Hd1).
  assert (Hround : ∀ es, crun (failing_round b ++ es) c0 = crun es (unview 0 false s1 c0)).
  { intros es. unfold failing_round. cbn [app CarbonConc.crun CarbonConc.cstep]. unfold Dispatch.
    rewrite bool_decide_eq_false_2 by (intros E0; by apply strlen_0 in E0).
    cbn. rewrite bool_decide_eq_true_2 by (cbn; lia). cbn.
    change (Carbon.on_packet ParseFloat ValidatePacket authenticate requirePublisher b ?s)
      with (on_packet b s). rewrite Hp. done. }
  cbn [replicate mjoin list_join]. rewrite Hround.
  destruct (IH (unview 0 false s1 c0) (l ++ [md])) as (c & l' & Hr & Hs' & Hl & Hcc & Hdd).
  - unfold single. cbn. by rewrite Hb1.
  - done.
  - done.
  - done.
  - exists c, l'. split_and!; try done. rewrite Hl, length_app. cbn. lia.
Qed.
End spec.

(** ** Witnesses *)

(** Two flushers: each takes a line, the first publishes after a failure, the
    second loses its line when the input stops. *)
Definition ex_schedule : list cevent :=
  [CDispatch ex_line; CDispatch ex_line; CReceive 0; CReceive 1; CTick 0; CTick 0; CStop;
   CReceive 1; CReceive 0].

Abbreviation ex_crun n es := (crun ex_ParseFloat ex_publisher (λ _, true) ex_auth true false 10 es
  (InitCarbon n (Publish.mkPState 0 ∅))).

Lemma flushers_conserve_lines_witness :
  match ex_crun 2 ex_schedule with
  | Ok (Some c) => buffered c = 1 ∧
      (received (c_cnt c) = Z.of_nat (length (c_chan c)) + Z.of_nat (buffered c) + valid (c_cnt c) +
         rejected (c_cnt c) + droppedFull (c_cnt c) + droppedAuth (c_cnt c))%Z ∧
      (received (c_cnt c), valid (c_cnt c)) = (2, 1)%Z
  | _ => False
  end.
Proof.
  assert (H : match ex_crun 2 ex_schedule with
    | Ok (Some c) => buffered c = 1 ∧ (received (c_cnt c), valid (c_cnt c)) = (2, 1)%Z
    | _ => False end) by (vm_compute; by split).
  destruct (ex_crun 2 ex_schedule) as [[c|]| |] eqn:E; [|done..]. destruct H as [H1 H2].
  split; [exact H1|]. split; [|exact H2].
  exact (flushers_conserve_lines ex_ParseFloat ex_publisher (λ _, true) ex_auth true false 10 2
    (Publish.mkPState 0 ∅) ex_schedule c ex_keeps_length E).
Defined.

Lemma Stop_drains_witness :
  match ex_crun 2 (take 7 ex_schedule) with
  | Ok (Some c) => pending c = 2 ∧
      match crun ex_ParseFloat ex_publisher (λ _, true) ex_auth true false 10 (drop 7 ex_schedule) c with
      | Ok (Some c') => all_returned c'
      | _ => False
      end
  | _ => False
  end.
Proof.
  assert (H : match ex_crun 2 (take 7 ex_schedule) with
    | Ok (Some c) => c_closed c = true ∧ pending c = 2 ∧
        match crun ex_ParseFloat ex_publisher (λ _, true) ex_auth true false 10 (drop 7 ex_schedule) c with
        | Ok (Some c') => True | _ => False end
    | _ => False end) by (vm_compute; by split).
  destruct (ex_crun 2 (take 7 ex_schedule)) as [[c|]| |]; [|done..]. destruct H as (H1 & H2 & H3).
  split; [exact H2|].
  destruct (crun ex_ParseFloat ex_publisher (λ _, true) ex_auth true false 10 (drop 7 ex_schedule) c)
    as [[c'|]| |] eqn:E; [|done..].
  apply (Stop_drains ex_ParseFloat ex_publisher (λ _, true) ex_auth true false 10
    (drop 7 ex_schedule) c c' H1 E). rewrite H2. reflexivity.
Defined.

Lemma channel_is_bounded_witness :
  match ex_crun 1 [CDispatch ex_line; CDispatch ex_line] with
  | Ok (Some c) => length (c_chan c) = 2 ∧ length (c_chan c) ≤ 10
  | _ => False
  end.
Proof.
  assert (H : match ex_crun 1 [CDispatch ex_line; CDispatch ex_line] with
    | Ok (Some c) => length (c_chan c) = 2 | _ => False end) by (vm_compute; reflexivity).
  destruct (ex_crun 1 [CDispatch ex_line; CDispatch ex_line]) as [[c|]| |] eqn:E; [|done..].
  split; [exact H|].
  apply (channel_is_bounded ex_ParseFloat ex_publisher (λ _, true) ex_auth true false 10 1
    (Publish.mkPState 0 ∅) [CDispatch ex_line; CDispatch ex_line] c "" E).
Defined.

Definition ex_one_schedule : list cevent :=
  [CDispatch ex_line; CReceive 0; CTick 0; CDispatch "nokey.a 1 2"; CStop; CReceive 0; CReceive 0].

Lemma one_flusher_is_the_loop_witness :
  match run ex_ParseFloat ex_publisher (λ _, true) ex_auth true false 10 (seq_event <$> ex_one_schedule)
          (init (Publish.mkPState 0 ∅)) with
  | Ok (s, stopped) => match ex_crun 1 ex_one_schedule with
      | Ok (Some c) => c = mkConfig (chan s) (closed s) [mkFlusher (buf s) stopped] (cpub s) (cnt s)
      | _ => False
      end
  | _ => False
  end.
Proof.
  assert (H : match ex_crun 1 ex_one_schedule with Ok (Some c) => True | _ => False end)
    by (vm_compute; exact I).
  destruct (ex_crun 1 ex_one_schedule) as [[c|]| |] eqn:E; [|done..].
  destruct (one_flusher_is_the_loop ex_ParseFloat ex_publisher (λ _, true) ex_auth true false 10
    ex_one_schedule (Publish.mkPState 0 ∅) c E) as (s & stopped & H1 & H2).
  rewrite H1. exact H2.
Defined.

(** A publisher that never succeeds. *)
Definition ex_down : Publisher unit unit := mkPublisherI unit unit (λ ms s, (s, ms, Some ())) "down".

Lemma lines_pile_up_while_the_broker_is_down_witness :
  ∃ c, crun ex_ParseFloat ex_down (λ _, true) ex_auth true false 1
         (mjoin (replicate 1000 (failing_round ex_line))) (InitCarbon 1 (Publish.mkPState tt ∅)) =
         Ok (Some c) ∧
    buffered c = 1000 ∧ c_chan c = [] ∧ droppedFull (c_cnt c) = 0%Z.
Proof.
  apply (lines_pile_up_while_the_broker_is_down ex_ParseFloat ex_down (λ _, true) ex_auth true false 1
    1000 (Publish.mkPState tt ∅) ex_line 12 1500000000
    (line_metric 12 "servers.web1" ["dc=eu"] 0x3FF8000000000000 1500000000)).
  - lia.
  - discriminate.
  - intros s. vm_compute. reflexivity.
  - intros ms s. exists s, tt. reflexivity.
Defined.
