(* ===== verification/CarbonListener.v ===== *)
(** * ingest/carbon: the connections

    What stands in front of [Dispatch]: the plain handler of carbon-relay-ng
    (src/vendor/github.com/graphite-ng/carbon-relay-ng/input), which reads a
    stream line by line with a [bufio.Scanner], the [handleConn] of listener.go,
    and the life of the listener with its connections up to [Carbon.Stop]: what
    [listen] does when accepting or reading fails before the shutdown (it opens
    the socket again, which the shutdown does not close), and the shutdown. The
    flushers and the channel behind are the configuration of CarbonConc.v. *)

From S2P Require Import Prelude GoStrings Strconv Schema Publish Http Carbon CarbonSpec CarbonConc.
From Stdlib Require Import Ascii.

(** ** Plain.Handle

    [bufio.ScanLines] and the limit of the scanner's buffer: a line of 65536
    bytes or more ends the reading with [ErrTooLong]. A read that fails, by the
    timeout or because the connection was closed, ends the stream like its
    end does. *)

Definition newline : ascii := byte_of 10.
Definition CR : string := bytes_of [13]%Z.

Definition too_long (p : string) : bool := bool_decide (65536 ≤ Z.of_nat (strlen p))%Z.
Definition dropCR (p : string) : string := TrimSuffix p CR.

(** The lines dispatched, and whether the end was reached. *)
Fixpoint scan (pieces : list string) : list string * bool :=
  match pieces with
  | [] => ([], true)
  | p :: rest =>
      if bool_decide (rest = []) && bool_decide (p = "") then ([], true) else
      if too_long p then ([], false) else
      let '(ls, ok) := scan rest in (dropCR p :: ls, ok)
  end.

Definition Handle (stream : string) : list string * bool := scan (Split newline stream).

(** ** The listener *)

(** A goroutine that calls [Dispatch]: it reads, it is in [Dispatch] with a line,
    or it is gone. *)
Inductive reader := Reading | Sending (b : string) | Gone.
Inductive stop_phase := Serving | Waiting | Stopped.

(** The socket a [run] goroutine reads from: the one [Start] opened, which the
    shutdown closes; none, after a failed [AcceptTCP] or [ReadFrom], which closes
    it; a new one, which [listen] put in the place of the first and which the
    shutdown does not know: [run] got the first as its argument [listener]. *)
Inductive socket := SFirst | SDown | SReopened.

#[export] Instance reader_eq_dec : EqDecision reader.
Proof. solve_decision. Defined.
#[export] Instance stop_phase_eq_dec : EqDecision stop_phase.
Proof. solve_decision. Defined.
#[export] Instance socket_eq_dec : EqDecision socket.
Proof. solve_decision. Defined.

Section listener.
Context (ParseFloat : string → option Z).
Context {S E : Type} (publisher : Publisher S E).
Context (ValidatePacket : string → bool) (authenticate : string → option User).
Context (requirePublisher nonBlockingBuffer : bool) (bufferSize : nat).

#[local] Abbreviation cstep :=
  (cstep ParseFloat publisher ValidatePacket authenticate requirePublisher nonBlockingBuffer bufferSize).

(** The [run] of TCP has not returned, and its socket; that of UDP, which handles
    its datagrams itself, and its socket; the connections; the gauge
    [carbonConnections]; where [Carbon.Stop] is. *)
Record listening := mkListening {
  behind : config S; accepting : bool; tcp_sock : socket; udp : reader; udp_sock : socket;
  conns : list reader; carbonConnections : Z; stop : stop_phase }.

Definition Start (concurrency : nat) (p : pstate S) : listening :=
  mkListening (InitCarbon concurrency p) true SFirst Reading SFirst [] 0 Serving.

(** [l.wg] *)
Definition alive (r : reader) : nat := match r with Gone => 0 | _ => 1 end.
Definition wg (l : listening) : nat :=
  (if accepting l then 1 else 0) + alive (udp l) + sum_list (alive <$> conns l).

Inductive levent :=
| LAccept                    (* a connection *)
| LLine (i : nat) (b : string) | LSend (i : nat) | LHangup (i : nat)
| LDatagram (b : string) | LUdpSend
| LTcpFails | LUdpFails      (* [AcceptTCP] and [ReadFrom] fail on their own *)
| LTcpReopens | LUdpReopens  (* [listen] succeeds; before, it may fail any number of times *)
| LTcpEnds | LUdpEnds        (* after the shutdown: the first socket is closed, or [listen] fails *)
| LFlush (e : cevent)        (* a flusher *)
| LStop                      (* [close(l.shutdown)] *)
| LClose.                    (* [l.wg.Wait()] returns, [close(c.buf)] *)

Definition with_behind (l : listening) (c : config S) : listening :=
  mkListening c (accepting l) (tcp_sock l) (udp l) (udp_sock l) (conns l) (carbonConnections l) (stop l).
Definition with_conns (l : listening) (ks : list reader) : listening :=
  mkListening (behind l) (accepting l) (tcp_sock l) (udp l) (udp_sock l) ks (carbonConnections l) (stop l).
Definition with_tcp (l : listening) (a : bool) (s : socket) : listening :=
  mkListening (behind l) a s (udp l) (udp_sock l) (conns l) (carbonConnections l) (stop l).
Definition with_udp (l : listening) (r : reader) (s : socket) : listening :=
  mkListening (behind l) (accepting l) (tcp_sock l) r s (conns l) (carbonConnections l) (stop l).
Definition with_gauge (l : listening) (n : Z) : listening :=
  mkListening (behind l) (accepting l) (tcp_sock l) (udp l) (udp_sock l) (conns l) n (stop l).
Definition with_stop (l : listening) (s : stop_phase) : listening :=
  mkListening (behind l) (accepting l) (tcp_sock l) (udp l) (udp_sock l) (conns l) (carbonConnections l) s.
Definition through (r : outcome unit (option (config S))) (l : listening) : outcome unit (option listening) :=
  match r with
  | Ok (Some c) => Ok (Some (with_behind l c)) | Ok None => Ok None | Err e => Err e | Panic => Panic
  end.
Definition when (b : bool) (l : listening) : outcome unit (option listening) := Ok (if b then Some l else None).

Definition serving (l : listening) : bool := bool_decide (stop l = Serving).
Definition opened (s : socket) : bool := negb (bool_decide (s = SDown)).

(** [None]: the goroutine of the event waits, or is not there. *)
Definition lstep (e : levent) (l : listening) : outcome unit (option listening) :=
  match e with
  | LAccept =>
      when (accepting l && opened (tcp_sock l))
        (with_gauge (with_conns l (conns l ++ [Reading])) (carbonConnections l + 1))
  | LLine i b => when (bool_decide (conns l !! i = Some Reading)) (with_conns l (<[i := Sending b]> (conns l)))
  | LSend i =>
      match conns l !! i with
      | Some (Sending b) => through (cstep (CDispatch b) (behind l)) (with_conns l (<[i := Reading]> (conns l)))
      | _ => Ok None
      end
  | LHangup i =>
      when (bool_decide (conns l !! i = Some Reading))
        (with_gauge (with_conns l (<[i := Gone]> (conns l))) (carbonConnections l - 1))
  | LDatagram b =>
      when (bool_decide (udp l = Reading) && opened (udp_sock l)) (with_udp l (Sending b) (udp_sock l))
  | LUdpSend =>
      match udp l with
      | Sending b => through (cstep (CDispatch b) (behind l)) (with_udp l Reading (udp_sock l))
      | _ => Ok None
      end
  (* the socket is closed; [run] reopens it, or returns when the shutdown has begun *)
  | LTcpFails =>
      when (accepting l && opened (tcp_sock l)) (with_tcp l (serving l) (if serving l then SDown else tcp_sock l))
  | LUdpFails =>
      when (bool_decide (udp l = Reading) && opened (udp_sock l))
        (if serving l then with_udp l Reading SDown else with_udp l Gone (udp_sock l))
  | LTcpReopens => when (accepting l && negb (opened (tcp_sock l))) (with_tcp l true SReopened)
  | LUdpReopens =>
      when (bool_decide (udp l = Reading) && negb (opened (udp_sock l))) (with_udp l Reading SReopened)
  | LTcpEnds =>
      when (accepting l && negb (serving l) && negb (bool_decide (tcp_sock l = SReopened)))
        (with_tcp l false (tcp_sock l))
  | LUdpEnds =>
      when (bool_decide (udp l = Reading) && negb (serving l) && negb (bool_decide (udp_sock l = SReopened)))
        (with_udp l Gone (udp_sock l))
  | LFlush (CTick i) => through (cstep (CTick i) (behind l)) l
  | LFlush (CReceive i) => through (cstep (CReceive i) (behind l)) l
  | LFlush _ => Ok None
  | LStop => match stop l with Serving => Ok (Some (with_stop l Waiting)) | _ => Panic end
  | LClose =>
      if bool_decide (stop l = Waiting) && bool_decide (wg l = 0)
      then through (cstep CStop (behind l)) (with_stop l Stopped) else Ok None
  end.

Fixpoint lrun (es : list levent) (l : listening) : outcome unit (option listening) :=
  match es with
  | [] => Ok (Some l)
  | e :: es' => match lstep e l with Ok (Some l') => lrun es' l' | r => r end
  end.
End listener.
Arguments listening : clear implicits.

(** ** Reading lines *)

Definition endings (cr : bool) : string := if cr then CR else "".

(** Lines and their endings, with a newline after each. *)
Definition text (l : list (string * bool)) (rest : string) : string :=
  foldr (λ '(p, cr) t, (p +:+ endings cr) +:+ String newline t) rest l.

(** A line the scanner gives back: it holds no newline, is below the limit, and
    ends in a carriage return only as part of its ending. *)
Definition readable '((p, cr) : string * bool) : Prop :=
  has_byte newline p = false ∧ too_long (p +:+ endings cr) = false ∧
  (cr = false → HasSuffix p CR = false).

Lemma dropCR_ending p cr : (cr = false → HasSuffix p CR = false) → dropCR (p +:+ endings cr) = p.
Proof.
  intros Hp. unfold dropCR, TrimSuffix, endings. destruct cr.
  - assert (HasSuffix (p +:+ CR) CR = true) as -> by (apply HasSuffix_spec; by exists p).
    rewrite strlen_app, Nat.add_sub. apply take_str_app.
  - rewrite str_app_nil_r. by rewrite Hp.
Qed.

Lemma has_newline_ending p cr : has_byte newline p = false → has_byte newline (p +:+ endings cr) = false.
Proof. intros Hp. rewrite has_byte_app, Hp. by destruct cr. Qed.

Lemma scan_line p rest :
  rest ≠ [] → too_long p = false → scan (p :: rest) = (dropCR p :: (scan rest).1, (scan rest).2).
Proof.
  intros Hr Hl. cbn [scan]. rewrite (bool_decide_eq_false_2 (rest = [])) by done. cbn [andb].
  rewrite Hl. by destruct (scan rest).
Qed.

Lemma Handle_text l s :
  Forall readable l → Handle (text l s) = (l.*1 ++ (Handle s).1, (Handle s).2).
Proof.
  unfold Handle. induction 1 as [|[p cr] l (Hp & Hl & Hc) _ IH]; [by destruct (scan _)|].
  cbn [text foldr]. fold (text l s). rewrite Split_app by (by apply has_newline_ending).
  rewrite scan_line; [|destruct (Split_cons newline (text l s)) as (? & ? & ->); done|done].
  by rewrite IH, dropCR_ending.
Qed.

(** C32. The handler dispatches the lines of a stream, in order: each line that
    ends in a newline, or in a carriage return and a newline, as it is. What is
    left when the stream ends or breaks off is dispatched like a line too, unless
    it is empty. A line of 65536 bytes or more is dropped, and so is all of the
    stream behind it. *)
Theorem Handle_dispatches_the_lines l rest :
  Forall readable l → has_byte newline rest = false →
  (too_long rest = false →
    Handle (text l rest) = (l.*1 ++ (if bool_decide (rest = "") then [] else [dropCR rest]), true)) ∧
  (too_long rest = true → ∀ more, Handle (text l (rest +:+ String newline more)) = (l.*1, false)).
Proof.
  intros Hl Hn. split.
  - intros Hs. rewrite Handle_text by done. unfold Handle. rewrite Split_none by done.
    cbn [scan]. rewrite (bool_decide_eq_true_2 ([] = [])) by done. cbn [andb].
    case_bool_decide; cbn; [by rewrite app_nil_r|]. by rewrite Hs.
  - intros Hs more. rewrite Handle_text by done. unfold Handle. rewrite Split_app by done.
    destruct (Split_cons newline more) as (x & xs & ->).
    cbn [scan]. rewrite (bool_decide_eq_false_2 (x :: xs = [])) by done. cbn [andb]. rewrite Hs.
    cbn. by rewrite app_nil_r.
Qed.

(** ** The life of the listener *)

Section spec.
Context (ParseFloat : string → option Z).
Context {S E : Type} (publisher : Publisher S E).
Context (ValidatePacket : string → bool) (authenticate : string → option User).
Context (requirePublisher nonBlockingBuffer : bool) (bufferSize : nat).

#[local] Abbreviation cstep :=
  (cstep ParseFloat publisher ValidatePacket authenticate requirePublisher nonBlockingBuffer bufferSize).
#[local] Abbreviation lstep :=
  (lstep ParseFloat publisher ValidatePacket authenticate requirePublisher nonBlockingBuffer bufferSize).
#[local] Abbreviation lrun :=
  (lrun ParseFloat publisher ValidatePacket authenticate requirePublisher nonBlockingBuffer bufferSize).
Implicit Types l : listening S.

Lemma cstep_closed e c c' :
  cstep e c = Ok (Some c') → c_closed c' = (match e with CStop => true | _ => c_closed c end).
Proof.
  intros H. apply cstep_case in H. destruct H as [i b Hi|i b x rest s Hi Hx Ho|i b Hi Hx Hc|x s Hd|Hn]; cbn.
  - by destruct (tick_shared publisher (view b c)).
  - by apply packet_shared in Ho as (_ & ? & _).
  - done.
  - by apply Dispatch_effect in Hd as (_ & _ & ? & _).
  - done.
Qed.

Lemma through_Ok r l l' : through r l = Ok (Some l') ↔ ∃ c, r = Ok (Some c) ∧ l' = with_behind l c.
Proof. destruct r as [[c|]| |]; cbn; naive_solver. Qed.

Lemma when_Ok b l l' : when b l = Ok (Some l') ↔ b = true ∧ l' = l.
Proof. destruct b; cbn; split; [by intros [= ->]|by intros [_ ->]|done|by intros [? _]]. Qed.

Definition handlers (ks : list reader) : nat := sum_list (alive <$> ks).

Record linv l : Prop := {
  li_closed : c_closed (behind l) = true → stop l = Stopped;
  li_stopped : stop l = Stopped → wg l = 0;
  li_gauge : carbonConnections l = Z.of_nat (handlers (conns l)) }.

Lemma handlers_insert ks i r r' :
  ks !! i = Some r → handlers (<[i := r']> ks) + alive r = handlers ks + alive r'.
Proof. apply (sum_list_insert alive). Qed.

Lemma handlers_snoc ks r : handlers (ks ++ [r]) = handlers ks + alive r.
Proof. unfold handlers. rewrite fmap_app, sum_list_with_app. cbn. lia. Qed.

(** A step that leaves the goroutines of the listener as many as they are, and
    the channel open or closed. *)
Lemma linv_same l l' :
  c_closed (behind l') = c_closed (behind l) → stop l' = stop l →
  alive (udp l') = alive (udp l) → accepting l' = accepting l →
  handlers (conns l') = handlers (conns l) → carbonConnections l' = carbonConnections l →
  linv l → linv l'.
Proof.
  intros H1 H2 H3 H4 H5 H6 [Hc Hs Hg]. unfold wg in Hs. fold (handlers (conns l)) in Hs.
  split; [|unfold wg; fold (handlers (conns l'))|]; by rewrite ?H1, ?H2, ?H3, ?H4, ?H5, ?H6.
Qed.

(** Goroutines that have gone. *)
Lemma linv_less l l' :
  behind l' = behind l → stop l' = stop l → conns l' = conns l → carbonConnections l' = carbonConnections l →
  wg l' ≤ wg l → linv l → linv l'.
Proof.
  intros H1 H2 H3 H4 H5 [Hc Hs Hg]. split; rewrite ?H1, ?H2, ?H3, ?H4; [done| |done].
  intros Hst. specialize (Hs Hst). lia.
Qed.

Ltac less Hb I :=
  eapply linv_less, I; repeat match goal with |- context [serving ?x] => destruct (serving x) end; try done;
  unfold wg; cbn [accepting udp conns with_tcp with_udp alive]; rewrite ?Hb; cbn [alive]; lia.

Lemma linv_step e l l' : lstep e l = Ok (Some l') → linv l → linv l'.
Proof.
  intros H I. pose proof I as [Hc Hs Hg]. unfold wg in Hs. fold (handlers (conns l)) in Hs.
  destruct e as [|i b|i|i|b| | | | | | | |e| |]; cbn [CarbonListener.lstep] in H;
    try (apply when_Ok in H as [Hb ->]; repeat (apply andb_prop in Hb as [Hb ?]);
      repeat match goal with Hd : bool_decide _ = true |- _ => apply bool_decide_eq_true in Hd end).
  - split; [done|cbn; intros Hst; specialize (Hs Hst); rewrite Hb in Hs; lia|].
    cbn [carbonConnections conns with_gauge with_conns]. rewrite handlers_snoc. cbn [alive]. lia.
  - apply (handlers_insert _ _ _ (Sending b)) in Hb. cbn [alive] in Hb.
    eapply linv_same, I; try done. cbn [conns with_conns with_behind]. lia.
  - destruct (conns l !! i) as [[|b|]|] eqn:Ei; try done.
    apply through_Ok in H as (c & Hd & ->). apply cstep_closed in Hd.
    apply (handlers_insert _ _ _ Reading) in Ei. cbn [alive] in Ei.
    eapply linv_same, I; try done. cbn [conns with_conns with_behind]. lia.
  - apply (handlers_insert _ _ _ Gone) in Hb. cbn [alive] in Hb.
    split; [done| |cbn [carbonConnections conns with_gauge with_conns]; lia]. intros Hst. specialize (Hs Hst).
    unfold wg. cbn [accepting udp conns with_gauge with_conns].
    fold (handlers (<[i := Gone]> (conns l))). lia.
  - eapply linv_same, I; try done. by rewrite Hb.
  - destruct (udp l) as [|b|] eqn:Eu; try done.
    apply through_Ok in H as (c & Hd & ->). apply cstep_closed in Hd.
    eapply linv_same, I; try done. by rewrite Eu.
  - less Hb I.
  - less Hb I.
  - less Hb I.
  - less Hb I.
  - less Hb I.
  - less Hb I.
  - destruct e as [i|i|b|]; try done; apply through_Ok in H as (c & Hd & ->);
      apply cstep_closed in Hd; by eapply linv_same, I.
  - destruct (stop l) eqn:Est; try done. injection H as <-. split; cbn; try done.
    intros Hcl. by apply Hc in Hcl.
  - destruct (bool_decide (stop l = Waiting) && _) eqn:Ew; [|done].
    apply andb_prop in Ew as [_ Ew]. apply bool_decide_eq_true in Ew.
    apply through_Ok in H as (c & Hd & ->). by split.
Qed.

Lemma linv_run es l l' : linv l → lrun es l = Ok (Some l') → linv l'.
Proof.
  revert l. induction es as [|e es IH]; intros l Hl; [by intros [= <-]|]. cbn.
  destruct (lstep e l) as [[l1|]| |] eqn:Hst; try done. by apply IH, (linv_step e l).
Qed.

Lemma alive_gone ks i : handlers ks = 0 → ∀ r, ks !! i = Some r → r = Gone.
Proof.
  intros Hz r Hi. apply (handlers_insert _ _ _ Gone) in Hi.
  destruct r; cbn [alive] in Hi; [lia|lia|done].
Qed.

(** C30. Nothing is sent on the closed channel. [Carbon.Stop] closes it only
    when no goroutine of the listener is left, so in no schedule of connections,
    datagrams, flushers and a shutdown does a [Dispatch] or the close panic; and
    the gauge of connections is the number of handlers that run. *)
Theorem Stop_waits_for_the_connections n p es l :
  lrun es (Start n p) = Ok (Some l) →
  (c_closed (behind l) = true → stop l = Stopped ∧ wg l = 0) ∧
  (∀ i, lstep (LSend i) l ≠ Panic) ∧ lstep LUdpSend l ≠ Panic ∧ lstep LClose l ≠ Panic ∧
  carbonConnections l = Z.of_nat (handlers (conns l)).
Proof.
  intros H. apply linv_run in H as [Hc Hs Hg]; [|by split].
  assert (Hopen : ∀ b, c_closed (behind l) = false → cstep (CDispatch b) (behind l) ≠ Panic).
  { intros b Ho. cbn. unfold Dispatch. case_bool_decide; [done|]. cbn. rewrite Ho.
    case_bool_decide; [done|]. by destruct nonBlockingBuffer. }
  assert (Hthrough : ∀ r l1, r ≠ Panic → through r l1 ≠ Panic) by (by intros [[]| |] l1).
  assert (Hwg : c_closed (behind l) = true → wg l = 0) by auto.
  unfold wg in Hwg. fold (handlers (conns l)) in Hwg.
  split_and!; [by auto| | | |done]; cbn [CarbonListener.lstep].
  - intros i. destruct (conns l !! i) as [[|b|]|] eqn:Ei; try done. apply Hthrough, Hopen.
    destruct (c_closed (behind l)); [|done]. assert (Hz : handlers (conns l) = 0) by (specialize (Hwg eq_refl); lia).
    by apply (alive_gone _ i Hz) in Ei.
  - destruct (udp l) as [|b|] eqn:Eu; try done. apply Hthrough, Hopen.
    destruct (c_closed (behind l)); [|done]. specialize (Hwg eq_refl). cbn in Hwg. lia.
  - destruct (bool_decide (stop l = Waiting) && _) eqn:Ew; [|done]. apply andb_prop in Ew as [Ew _].
    apply bool_decide_eq_true in Ew. apply Hthrough. cbn.
    destruct (c_closed (behind l)); [|done]. by rewrite Hc in Ew.
Qed.
End spec.

(** ** Witnesses *)

(** A stream that breaks off inside its second line: the first 5 digits of the
    timestamp 1500000000 make a line that parses, with another timestamp. *)
Definition ex_cut : string := text [(ex_line, false)] "secret.servers.web1;dc=eu 1.5 15000".

Lemma cut_line_is_dispatched :
  Handle ex_cut = ([ex_line; "secret.servers.web1;dc=eu 1.5 15000"], true) ∧
  match parseMetric ex_ParseFloat "servers.web1;dc=eu 1.5 15000" 12 with
  | Ok md => Time md = 15000%Z | _ => False
  end.
Proof. by vm_compute. Qed.

Lemma Handle_dispatches_the_lines_witness :
  Handle (text [(ex_line, true)] "cut") = ([ex_line; "cut"], true).
Proof.
  destruct (Handle_dispatches_the_lines [(ex_line, true)] "cut") as [H _].
  - repeat constructor.
  - reflexivity.
  - exact (H eq_refl).
Defined.

(** A connection waits in [Dispatch] for the full channel when the shutdown
    begins; the channel is closed after it is gone. *)
Definition ex_levents : list levent :=
  [LAccept; LLine 0 ex_line; LSend 0; LLine 0 ex_line; LStop; LTcpEnds; LUdpEnds;
   LFlush (CReceive 0); LSend 0; LHangup 0; LClose].

Abbreviation ex_lrun es :=
  (lrun ex_ParseFloat ex_publisher (λ _, true) ex_auth true false 1 es (Start 1 (Publish.mkPState 0 ∅))).

Lemma Stop_waits_for_the_connections_witness :
  match ex_lrun ex_levents with
  | Ok (Some l) => c_closed (behind l) = true ∧ stop l = Stopped ∧ wg l = 0
  | _ => False
  end.
Proof.
  assert (H : match ex_lrun ex_levents with
    | Ok (Some l) => c_closed (behind l) = true | _ => False end) by (vm_compute; reflexivity).
  destruct (ex_lrun ex_levents) as [[l|]| |] eqn:Hr; [|done..]. split; [exact H|].
  exact (proj1 (Stop_waits_for_the_connections ex_ParseFloat ex_publisher (λ _, true) ex_auth true false 1
    1 (Publish.mkPState 0 ∅) ex_levents l Hr) H).
Defined.
