(* ===== verification/CarbonStop.v ===== *)
(** * ingest/carbon: whether [Stop] gets to its end

    CarbonConc.v bounds the receives that are left once the channel is closed;
    CarbonListener.v shows that it is closed only after the connections are gone.
    Here: while the listener reads from the sockets it started with, however many
    connections wait in [Dispatch] for the full channel, there is a way on that
    ends with [Stop] returned: the flushers make room, the connections hang up,
    the channel is closed and drained. Once a socket was opened again, [Stop] does
    not return whatever happens, unless that socket fails too. *)

From S2P Require Import Prelude GoStrings Strconv Schema Publish Http Carbon CarbonSpec CarbonConc CarbonListener.
From Stdlib Require Import Ascii.

(** ** A socket that was opened again *)

Section reopened.
Context (ParseFloat : string → option Z).
Context {S E : Type} (publisher : Publisher S E).
Context (ValidatePacket : string → bool) (authenticate : string → option User).
Context (requirePublisher nonBlockingBuffer : bool) (bufferSize : nat).
#[local] Abbreviation lstep :=
  (lstep ParseFloat publisher ValidatePacket authenticate requirePublisher nonBlockingBuffer bufferSize).
#[local] Abbreviation lrun :=
  (lrun ParseFloat publisher ValidatePacket authenticate requirePublisher nonBlockingBuffer bufferSize).
Implicit Types l : listening S.

(** A goroutine of the listener reads from a socket [run] has opened again. The
    shutdown closes the socket [run] started with, so only an error of its own
    gets the goroutine off the new one. *)
Definition hung l : Prop :=
  accepting l = true ∧ tcp_sock l = SReopened ∨ udp l ≠ Gone ∧ udp_sock l = SReopened.

Definition fails (e : levent) : bool := match e with LTcpFails | LUdpFails => true | _ => false end.

Lemma hung_wg l : hung l → wg l ≠ 0.
Proof. unfold wg. intros [[-> _]|[Hu _]]; [lia|]. destruct (udp l); cbn; (lia || done). Qed.

Lemma hung_step e l l' : fails e = false → lstep e l = Ok (Some l') → hung l → hung l'.
Proof.
  intros He H Hh. unfold hung in *.
  destruct e as [|i b|i|i|b| | | | | | | |[i|i|b|]| |]; try done; cbn [CarbonListener.lstep] in H;
    try (apply when_Ok in H as [Hb ->]); repeat case_match; simplify_eq; try done;
    try (apply through_Ok in H as (c & Hc & ->)); cbn; try done;
    repeat match goal with
    | Hb : _ && _ = true |- _ => apply andb_prop in Hb as [? ?]
    | Hb : negb _ = true |- _ => apply negb_true_iff in Hb
    | Hb : bool_decide _ = true |- _ => apply bool_decide_eq_true in Hb
    | Hb : bool_decide _ = false |- _ => apply bool_decide_eq_false in Hb
    end; intuition (congruence || auto).
Qed.

(** [c.listener.Stop()] does not return then, and the channel stays open. *)
Lemma hung_never_stops es l l' :
  forallb (λ e, negb (fails e)) es = true → lrun es l = Ok (Some l') → hung l → stop l ≠ Stopped → stop l' ≠ Stopped.
Proof.
  revert l. induction es as [|e es IH]; intros l; [by intros _ [= <-]|]. cbn.
  intros [He Hes]%andb_prop. destruct (lstep e l) as [[l1|]| |] eqn:E1; try done.
  intros H Hh Hs. apply negb_true_iff in He. apply (IH l1); [done|done|by eapply hung_step|].
  destruct e as [|i b|i|i|b| | | | | | | |[i|i|b|]| |]; try done; cbn [CarbonListener.lstep] in E1;
    try (rewrite (bool_decide_eq_false_2 (wg l = 0)), andb_false_r in E1 by (by apply hung_wg));
    try (apply when_Ok in E1 as [_ ->]); repeat case_match; simplify_eq; try done;
    apply through_Ok in E1 as (c & Hc & ->); done.
Qed.
End reopened.

Section stop.
Context (ParseFloat : string → option Z).
Context {S E : Type} (publisher : Publisher S E).
Context (ValidatePacket : string → bool) (authenticate : string → option User).
Context (requirePublisher nonBlockingBuffer : bool) (bufferSize : nat).

#[local] Abbreviation cstep :=
  (cstep ParseFloat publisher ValidatePacket authenticate requirePublisher nonBlockingBuffer bufferSize).
#[local] Abbreviation crun :=
  (crun ParseFloat publisher ValidatePacket authenticate requirePublisher nonBlockingBuffer bufferSize).
#[local] Abbreviation lstep :=
  (lstep ParseFloat publisher ValidatePacket authenticate requirePublisher nonBlockingBuffer bufferSize).
#[local] Abbreviation lrun :=
  (lrun ParseFloat publisher ValidatePacket authenticate requirePublisher nonBlockingBuffer bufferSize).
#[local] Abbreviation on_packet :=
  (on_packet (S:=S) ParseFloat ValidatePacket authenticate requirePublisher).
Implicit Types (c : config S) (l : listening S).

(** No line makes a flusher panic. *)
Context (no_panic : ∀ b s, ∃ s', on_packet b s = Ok s').
Context (room : 0 < bufferSize).

(** ** Putting schedules together *)

Lemma lrun_app es1 es2 l l1 : lrun es1 l = Ok (Some l1) → lrun (es1 ++ es2) l = lrun es2 l1.
Proof.
  revert l. induction es1 as [|e es1 IH]; intros l; [by intros [= ->]|]. cbn.
  destruct (lstep e l) as [[l'|]| |]; [apply IH|done..].
Qed.

Lemma lrun_snoc es e l l1 l2 : lrun es l = Ok (Some l1) → lstep e l1 = Ok (Some l2) → lrun (es ++ [e]) l = Ok (Some l2).
Proof. intros H1 H2. rewrite (lrun_app _ _ _ _ H1). cbn. by rewrite H2. Qed.

(** The flushers of the listener are those of its configuration. *)
Lemma lrun_receives ks l c :
  crun (CReceive <$> ks) (behind l) = Ok (Some c) →
  lrun ((λ i, LFlush (CReceive i)) <$> ks) l = Ok (Some (with_behind l c)).
Proof.
  revert l. induction ks as [|i ks IH]; intros l.
  - intros [= <-]. by destruct l.
  - intros (c1 & H1 & H2)%crun_cons. cbn [fmap list_fmap CarbonListener.lrun CarbonListener.lstep]. rewrite H1.
    cbn [through]. by rewrite (IH (with_behind l c1)).
Qed.

(** ** The flushers *)

Lemma receive_ok i b c :
  c_flushers c !! i = Some (mkFlusher b false) → c_chan c ≠ [] ∨ c_closed c = true →
  ∃ c', cstep (CReceive i) c = Ok (Some c').
Proof.
  intros Hi Hc. cbn. rewrite Hi. case_bool_decide as He; cbn [andb].
  - destruct (c_closed c) eqn:El; cbn [negb]; [|by destruct Hc]. unfold on_receive. cbn. rewrite He, El. by eexists.
  - unfold on_receive. cbn. destruct (c_chan c) as [|x rest]; [done|].
    destruct (no_panic x (set_chan rest (view b c))) as [s ->]. by eexists.
Qed.

(** The first flusher empties the channel. *)
Lemma drain b c :
  c_flushers c !! 0 = Some (mkFlusher b false) →
  ∃ n c' b', crun (CReceive <$> replicate n 0) c = Ok (Some c') ∧ c_chan c' = [] ∧ c_closed c' = c_closed c ∧
    c_flushers c' !! 0 = Some (mkFlusher b' false).
Proof.
  remember (c_chan c) as q eqn:Eq. revert b c Eq. induction q as [|x q IH]; intros b c Eq Hi.
  { exists 0, c, b. by split_and!. }
  destruct (no_panic x (set_chan q (view b c))) as [s Es]. set (c1 := unview 0 false s c).
  assert (Hstep : cstep (CReceive 0) c = Ok (Some c1)).
  { cbn. rewrite Hi, <- Eq. unfold on_receive. cbn. rewrite <- Eq. cbn. by rewrite Es. }
  apply packet_shared in Es as (E1 & E2 & _). cbn in E2.
  destruct (IH (buf s) c1) as (n & c' & b' & H1 & H2 & H3 & H4).
  - done.
  - cbn. apply list_lookup_insert_eq. by eapply lookup_lt_Some.
  - exists (Datatypes.S n), c', b'. split_and!; [|done| |done].
    + cbn [replicate fmap list_fmap CarbonConc.crun]. by rewrite Hstep.
    + rewrite H3. exact E2.
Qed.

(** After the close all flushers return. *)
Lemma finish_flushers c :
  c_closed c = true → ∃ ks c', crun (CReceive <$> ks) c = Ok (Some c') ∧ all_returned c' ∧ c_closed c' = true.
Proof.
  remember (pending c) as n eqn:En. revert c En. induction n as [n IH] using lt_wf_ind. intros c En Hc.
  destruct (decide (running c = 0)) as [Hr|Hr]; [exists [], c; split_and!; [done|by apply running_returned|done]|].
  assert (Hex : ∃ i b, c_flushers c !! i = Some (mkFlusher b false)).
  { unfold running in Hr. clear -Hr. induction (c_flushers c) as [|[b [|]] fs IHf]; [done| |by exists 0, b].
    destruct IHf as (i & b' & H); [done|]. by exists (Datatypes.S i), b'. }
  destruct Hex as (i & b & Hi). destruct (receive_ok i b c Hi) as [c1 Hs]; [by right|].
  pose proof Hs as Hcase. apply cstep_case, step_pending in Hcase as [Hc1 Hp]; [|done].
  cbn in Hp. destruct (IH (pending c1)) with (c := c1) as (ks & c' & H1 & H2 & H3); [lia|done|done|].
  exists (i :: ks), c'. split_and!; [|done|done]. cbn [fmap list_fmap CarbonConc.crun]. by rewrite Hs.
Qed.

(** ** The connections *)

(** The listener still reads from the sockets the shutdown closes. *)
Definition undisturbed l : Prop :=
  (accepting l = true → tcp_sock l = SFirst) ∧ (udp l ≠ Gone → udp_sock l = SFirst).

(** The listener is stopping, the channel is open, the first flusher runs. *)
Definition stopping l : Prop :=
  undisturbed l ∧
  stop l = Waiting ∧ c_closed (behind l) = false ∧ ∃ b, c_flushers (behind l) !! 0 = Some (mkFlusher b false).

Lemma stopping_not_serving l : stopping l → serving l = false.
Proof. intros (_ & Hs & _). unfold serving. by rewrite Hs. Qed.

Lemma make_room l :
  stopping l → ∃ es c, lrun es l = Ok (Some (with_behind l c)) ∧ c_chan c = [] ∧ stopping (with_behind l c).
Proof.
  intros (Hu & Hs & Hc & b & Hb). destruct (drain b (behind l) Hb) as (n & c & b' & H1 & H2 & H3 & H4).
  exists ((λ i, LFlush (CReceive i)) <$> replicate n 0), c. split_and!; [by apply lrun_receives|done|].
  repeat split; [apply Hu|apply Hu|done|by rewrite <- Hc|by exists b'].
Qed.

(** With room, [Dispatch] returns. *)
Lemma dispatch_ok b c :
  c_chan c = [] → c_closed c = false →
  ∃ c', cstep (CDispatch b) c = Ok (Some c') ∧ c_closed c' = false ∧ c_flushers c' = c_flushers c.
Proof.
  intros Hq Hc. cbn. unfold Dispatch. case_bool_decide; [by eexists|]. cbn. rewrite Hc, Hq.
  rewrite bool_decide_eq_true_2 by done. by eexists.
Qed.

(** A goroutine in [Dispatch] comes out of it. *)
Lemma hang_up i r l :
  stopping l → conns l !! i = Some r → r ≠ Gone →
  ∃ es l', lrun es l = Ok (Some l') ∧ stopping l' ∧ conns l' = <[i := Gone]> (conns l) ∧ udp l' = udp l ∧
    accepting l' = accepting l.
Proof.
  intros Hl Hi Hr.
  assert (Hread : ∀ l1, stopping l1 → conns l1 !! i = Some Reading →
    ∃ l', lstep (LHangup i) l1 = Ok (Some l') ∧ stopping l' ∧ conns l' = <[i := Gone]> (conns l1) ∧
      udp l' = udp l1 ∧ accepting l' = accepting l1).
  { intros l1 H1 H2. cbn [CarbonListener.lstep]. rewrite bool_decide_eq_true_2 by done. by eexists. }
  destruct r as [|b|]; [|clear Hr|done].
  - destruct (Hread l Hl Hi) as (l' & H1 & H2). exists [LHangup i], l'. split; [|done]. cbn [CarbonListener.lrun]. by rewrite H1.
  - destruct (make_room l Hl) as (es & c & H1 & H2 & (Hu & H3 & H4 & H5)).
    destruct (dispatch_ok b c H2 H4) as (c' & H6 & H7 & H8).
    set (l2 := with_behind (with_conns (with_behind l c) (<[i := Reading]> (conns l))) c').
    assert (Hlt : i < length (conns l)) by (by eapply lookup_lt_Some).
    assert (Hs2 : lstep (LSend i) (with_behind l c) = Ok (Some l2)).
    { cbn [CarbonListener.lstep conns with_behind]. rewrite Hi. cbn [behind with_behind]. by rewrite H6. }
    destruct (Hread l2) as (l' & H9 & H10 & H11 & H12).
    { split_and!; [exact Hu|done|done|]. cbn. by rewrite H8. }
    { cbn. by apply list_lookup_insert_eq. }
    exists (es ++ [LSend i] ++ [LHangup i]), l'. split_and!; [|done| |apply H12|apply H12].
    + rewrite app_assoc. by eapply lrun_snoc; [eapply lrun_snoc|].
    + rewrite H11. cbn. apply list_insert_insert_eq.
Qed.

Lemma all_hang_up l :
  stopping l →
  ∃ es l', lrun es l = Ok (Some l') ∧ stopping l' ∧ handlers (conns l') = 0 ∧ udp l' = udp l ∧ accepting l' = accepting l.
Proof.
  remember (handlers (conns l)) as n eqn:En. revert l En. induction n as [n IH] using lt_wf_ind. intros l En Hl.
  destruct (decide (n = 0)) as [->|Hn]; [by exists [], l|].
  assert (Hex : ∃ i r, conns l !! i = Some r ∧ r ≠ Gone).
  { subst n. unfold handlers in Hn. clear -Hn. induction (conns l) as [|r rs IHr]; [done|].
    destruct (decide (r = Gone)) as [->|Hr]; [|by exists 0, r].
    destruct IHr as (i & r & H); [done|]. by exists (Datatypes.S i), r. }
  destruct Hex as (i & r & Hi & Hr). destruct (hang_up i r l Hl Hi Hr) as (es & l1 & H1 & H2 & H3 & H4 & H5).
  pose proof (handlers_insert _ _ _ Gone Hi) as Hh. rewrite <- H3 in Hh.
  assert (alive r = 1) by (by destruct r). cbn in Hh.
  destruct (IH (handlers (conns l1))) with (l := l1) as (es' & l' & H6 & H7 & H8 & H9 & H10); [lia|done|done|].
  exists (es ++ es'), l'. split_and!; [|done|done|congruence|congruence]. by rewrite (lrun_app _ _ _ _ H1).
Qed.

(** The UDP goroutine, and the accepting one. *)
Lemma udp_ends l :
  stopping l → ∃ es l', lrun es l = Ok (Some l') ∧ stopping l' ∧ udp l' = Gone ∧ conns l' = conns l ∧ accepting l' = accepting l.
Proof.
  intros Hl. assert (Hend : ∀ l1, stopping l1 → udp l1 = Reading → ∃ l',
    lstep LUdpEnds l1 = Ok (Some l') ∧ stopping l' ∧ udp l' = Gone ∧ conns l' = conns l1 ∧ accepting l' = accepting l1).
  { intros l1 H1 H2. exists (with_udp l1 Gone (udp_sock l1)). pose proof H1 as ([Ht Hu] & H3). split_and!; try done.
    cbn [CarbonListener.lstep]. rewrite (stopping_not_serving l1 H1), H2, Hu by (by rewrite H2). done. }
  destruct (udp l) as [|b|] eqn:Eu; [| |by exists [], l].
  - destruct (Hend l Hl Eu) as (l' & H1 & H2). exists [LUdpEnds], l'. split; [|done]. cbn [CarbonListener.lrun]. by rewrite H1.
  - destruct (make_room l Hl) as (es & c & H1 & H2 & (Hu & H3 & H4 & H5)).
    destruct (dispatch_ok b c H2 H4) as (c' & H6 & H7 & H8).
    set (l2 := with_behind (with_udp (with_behind l c) Reading (udp_sock l)) c').
    assert (Hs2 : lstep LUdpSend (with_behind l c) = Ok (Some l2)).
    { cbn [CarbonListener.lstep udp udp_sock with_behind]. rewrite Eu. cbn [behind with_behind]. by rewrite H6. }
    destruct (Hend l2) as (l' & H9 & H10); [|done|].
    { repeat split; [apply Hu|intros _; apply Hu; cbn; by rewrite Eu|done|done|cbn; by rewrite H8]. }
    exists (es ++ [LUdpSend] ++ [LUdpEnds]), l'. split; [|exact H10].
    rewrite app_assoc. by eapply lrun_snoc; [eapply lrun_snoc|].
Qed.

Lemma tcp_ends l :
  stopping l → ∃ es l', lrun es l = Ok (Some l') ∧ stopping l' ∧ accepting l' = false ∧ conns l' = conns l ∧ udp l' = udp l.
Proof.
  intros Hl. destruct (accepting l) eqn:Ea; [|by exists [], l]. exists [LTcpEnds], (with_tcp l false (tcp_sock l)).
  pose proof Hl as ([Ht Hu] & H3). split_and!; try done.
  cbn [CarbonListener.lrun CarbonListener.lstep]. by rewrite (stopping_not_serving l Hl), Ea, Ht.
Qed.

(** All goroutines of the stopping listener go. *)
Lemma all_gone l : stopping l → ∃ es l', lrun es l = Ok (Some l') ∧ stopping l' ∧ wg l' = 0.
Proof.
  intros Hl. destruct (all_hang_up l Hl) as (es1 & l1 & R1 & S1 & H1 & _).
  destruct (udp_ends l1 S1) as (es2 & l2 & R2 & S2 & U2 & C2 & _).
  destruct (tcp_ends l2 S2) as (es3 & l3 & R3 & S3 & A3 & C3 & U3).
  exists (es1 ++ es2 ++ es3), l3. split_and!; [|done|].
  - by rewrite (lrun_app _ _ _ _ R1), (lrun_app _ _ _ _ R2).
  - unfold wg. rewrite A3, U3, U2, C3, C2. unfold handlers in H1. cbn. lia.
Qed.

Lemma close_ok l :
  stopping l → wg l = 0 →
  ∃ l', lstep LClose l = Ok (Some l') ∧ stop l' = Stopped ∧ c_closed (behind l') = true.
Proof.
  intros (_ & Hs & Hc & _) Hw. cbn. rewrite !bool_decide_eq_true_2 by done. cbn. rewrite Hc. by eexists.
Qed.

(** From the stopping listener to the closed channel. *)
Lemma close_reached l :
  stopping l → ∃ es l', lrun es l = Ok (Some l') ∧ stop l' = Stopped ∧ c_closed (behind l') = true.
Proof.
  intros Hl. destruct (all_gone l Hl) as (es & l1 & R1 & S1 & W1).
  destruct (close_ok l1 S1 W1) as (l2 & H & H2). exists (es ++ [LClose]), l2. split; [|done]. by eapply lrun_snoc.
Qed.

(** ** Every reachable state *)

(** While the channel is open no flusher has returned. *)
Definition flushing c : Prop := c_closed c = false → ∃ b, c_flushers c !! 0 = Some (mkFlusher b false).

Lemma flushing_step e c c' : cstep e c = Ok (Some c') → flushing c → flushing c'.
Proof.
  intros H Hf. pose proof H as Hcl. apply cstep_closed in Hcl. apply cstep_case in H.
  assert (Hset : ∀ i d s, c_closed c' = c_closed c → c_flushers c' = <[i := mkFlusher s d]> (c_flushers c) →
    d = false → flushing c').
  { intros i d s E1 E2 -> Ho. rewrite E1 in Ho. destruct (Hf Ho) as [b Hb]. rewrite E2.
    destruct i as [|i]; [exists s; apply list_lookup_insert_eq; by eapply lookup_lt_Some|].
    exists b. by rewrite list_lookup_insert_ne. }
  destruct H as [i b Hi|i b x rest s Hi Hx Ho|i b Hi Hx Hc|x s Hd|Hn].
  - by eapply Hset.
  - by eapply Hset.
  - intros Ho. cbn in *. congruence.
  - intros Ho. apply Hf. congruence.
  - intros Ho. rewrite Hcl in Ho. done.
Qed.

Lemma flushing_lstep e l l' : lstep e l = Ok (Some l') → flushing (behind l) → flushing (behind l').
Proof.
  intros H Hf. destruct e as [|i b|i|i|b| | | | | | | |[i|i|b|]| |]; cbn [CarbonListener.lstep] in H;
    try (apply when_Ok in H as [_ ->]); repeat case_match; simplify_eq; try done;
    apply through_Ok in H as (c & Hc & ->); by apply flushing_step in Hc.
Qed.

Lemma flushing_lrun es l l' : lrun es l = Ok (Some l') → flushing (behind l) → flushing (behind l').
Proof.
  revert l. induction es as [|e es IH]; intros l; [by intros [= <-]|]. cbn.
  destruct (lstep e l) as [[l1|]| |] eqn:E1; try done. intros H Hf. by eapply IH, flushing_lstep.
Qed.

(** [Stop] is past the listener only with the channel closed. *)
Lemma stopped_closed es n p l :
  lrun es (Start n p) = Ok (Some l) → stop l = Stopped → c_closed (behind l) = true.
Proof.
  assert (Hstep : ∀ e l1 l2, lstep e l1 = Ok (Some l2) →
    (stop l1 = Stopped → c_closed (behind l1) = true) → stop l2 = Stopped → c_closed (behind l2) = true).
  { intros e l1 l2 H Hs. destruct e as [|i b|i|i|b| | | | | | | |[i|i|b|]| |]; cbn [CarbonListener.lstep] in H;
      try (apply when_Ok in H as [_ ->]); repeat case_match; simplify_eq; try done;
      apply through_Ok in H as (c & Hc & ->); cbn; apply cstep_closed in Hc; rewrite Hc; done. }
  intros H. assert (H0 : stop (Start n p) = Stopped → c_closed (behind (Start (S:=S) n p)) = true) by done.
  revert H H0. generalize (Start (S:=S) n p). induction es as [|e es IH]; intros l0; [by intros [= <-]|].
  cbn [CarbonListener.lrun]. destruct (lstep e l0) as [[l1|]| |] eqn:E1; try done.
  intros H H0. by eapply IH; [|eapply Hstep].
Qed.

Lemma Start_flushing n p : 0 < n → flushing (behind (Start n p)).
Proof. intros Hn _. exists []. destruct n; [lia|done]. Qed.

(** The end of [Stop] from a closed channel. *)
Lemma stop_returns l :
  c_closed (behind l) = true → ∃ es l', lrun es l = Ok (Some l') ∧ stop l' = stop l ∧ all_returned (behind l').
Proof.
  intros Hc. destruct (finish_flushers (behind l) Hc) as (ks & c & H1 & H2 & _).
  eexists _, _. split; [by eapply lrun_receives|done].
Qed.

(** ** The end of [Stop] *)

(** [Stop] has no deadlock. With a flusher, a channel that has room for a line
    and no line that makes the parser panic: from every state the listener can
    reach in which it reads from its first sockets there is a way on in which [Stop] closes the channel, which nobody
    sends on any more, and returns with all flushers gone, even if every
    connection waits in [Dispatch] for the full channel when the shutdown
    begins. *)
Theorem Stop_has_no_deadlock n p es l :
  0 < n → lrun es (Start n p) = Ok (Some l) → undisturbed l →
  ∃ es' l', lrun es' l = Ok (Some l') ∧ stop l' = Stopped ∧ wg l' = 0 ∧ all_returned (behind l').
Proof.
  intros Hn Hr Hu.
  assert (Hinv : linv l) by (eapply linv_run; [|exact Hr]; by split).
  assert (Hf : flushing (behind l)) by (eapply flushing_lrun; [exact Hr|by apply Start_flushing]).
  assert (Hclose : ∃ es1 l1, lrun es1 l = Ok (Some l1) ∧ stop l1 = Stopped ∧ c_closed (behind l1) = true).
  { destruct (c_closed (behind l)) eqn:Hc; [exists [], l; by split_and!; [|apply Hinv|]|].
    destruct (stop l) eqn:Es.
    - set (l0 := with_stop l Waiting).
      assert (H0 : lstep LStop l = Ok (Some l0)) by (cbn; by rewrite Es).
      destruct (close_reached l0) as (es1 & l1 & H1 & H2); [by split_and!; [apply Hu|done|done|apply Hf]|].
      exists (LStop :: es1), l1. split; [|done]. cbn [CarbonListener.lrun]. by rewrite H0.
    - apply close_reached. by split_and!; [apply Hu|done|done|apply Hf].
    - exfalso. destruct Hinv as [_ _ _]. by apply (stopped_closed es n p l Hr) in Es; congruence. }
  destruct Hclose as (es1 & l1 & R1 & S1 & C1). destruct (stop_returns l1 C1) as (es2 & l2 & R2 & S2 & A2).
  exists (es1 ++ es2), l2. split_and!; [by rewrite (lrun_app _ _ _ _ R1)|congruence| |done].
  eapply li_stopped; [|congruence]. eapply linv_run; [|exact R2]. by eapply linv_run.
Qed.
End stop.

(** ** Witness

    A packet check that asks for a dot. *)
Definition dotted (b : string) : bool := bool_decide (length (SplitN2 "."%char b) = 2).

Lemma dotted_no_panic {S} (Pf : string → option Z) (auth : string → option User) req b (s : state (S:=S)) :
  ∃ s', on_packet Pf dotted auth req b s = Ok s'.
Proof.
  unfold on_packet, dotted. destruct (SplitN2 "."%char b) as [|x [|y [|z l]]]; try by eexists.
  cbn [length]. rewrite bool_decide_eq_true_2 by done. cbn. destruct (auth x) as [u|]; [|by eexists].
  destruct (req && _); [by eexists|]. pose proof (parseMetric_no_panic Pf y (ID u)) as H.
  destruct (parseMetric Pf y (ID u)); [by eexists|by eexists|done].
Qed.

(** The shutdown begins while a connection waits for the full channel. *)
Definition ex_blocked : list levent := [LAccept; LLine 0 ex_line; LSend 0; LLine 0 ex_line; LStop].

Lemma Stop_has_no_deadlock_witness :
  match lrun ex_ParseFloat ex_publisher dotted ex_auth true false 1 ex_blocked (Start 1 (Publish.mkPState 0 ∅)) with
  | Ok (Some l) =>
      lstep ex_ParseFloat ex_publisher dotted ex_auth true false 1 (LSend 0) l = Ok None ∧
      ∃ es' l', lrun ex_ParseFloat ex_publisher dotted ex_auth true false 1 es' l = Ok (Some l') ∧
        stop l' = Stopped ∧ wg l' = 0 ∧ all_returned (behind l')
  | _ => False
  end.
Proof.
  assert (H : match lrun ex_ParseFloat ex_publisher dotted ex_auth true false 1 ex_blocked (Start 1 (Publish.mkPState 0 ∅)) with
    | Ok (Some l) => lstep ex_ParseFloat ex_publisher dotted ex_auth true false 1 (LSend 0) l = Ok None ∧ undisturbed l
    | _ => False end) by (vm_compute; by repeat split).
  destruct (lrun ex_ParseFloat ex_publisher dotted ex_auth true false 1 ex_blocked (Start 1 (Publish.mkPState 0 ∅)))
    as [[l|]| |] eqn:Hr; [|done..]. destruct H as [H Hu]. split; [exact H|].
  apply (Stop_has_no_deadlock ex_ParseFloat ex_publisher dotted ex_auth true false 1
    (dotted_no_panic ex_ParseFloat ex_auth true) (le_n 1) 1 (Publish.mkPState 0 ∅) ex_blocked l (le_n 1) Hr Hu).
Defined.
