(* ===== verification/Write.v ===== *)
(** * ingest: the writers that share the metric pool

    util/metricpool.go, prometheus.go, opentsdb.go and mt_bulk_importer.go. The
    writers take their metrics from [ingest.MetricPool] and put them back, so
    what a metric still points to matters: metrics are objects of a store, and
    the tags of a metric are a slice into an array that other slices may share.
    [append] writes into the array while there is room. The pool may hand out
    any of its metrics or a new one: [pick] chooses. Requests are handled one
    after the other; PoolConc.v interleaves them. *)

From S2P Require Import Prelude GoStrings Strconv Schema Publish Http.
From Stdlib Require Import Ascii.

Definition with_Tags (t : list string) (m : MetricData) : MetricData :=
  mkMetricData (Id m) (OrgId m) (Name m) (Interval m) (Value m) (Unit m) (Time m) (Mtype m) t.

(** ** The store *)

(** A slice from the start of an array; the nil slice is into the array 0,
    which has no room. *)
Record slice := mkSlice { arr : nat; len : nat }.
Definition nil_slice : slice := mkSlice 0 0.

(** A metric object: its fields, [Tags] apart. *)
Record obj := mkObj { fields : MetricData; o_tags : slice }.

(** The arrays at their capacity, the metric objects, the objects in the pool,
    and how often the pool was asked. *)
Record heap := mkHeap {
  arrays : list (list string); objs : list obj; pool : list nat; asked : nat }.

Definition empty_heap : heap := mkHeap [[]] [] [] 0.

Definition set_arrays (a : list (list string)) (h : heap) : heap := mkHeap a (objs h) (pool h) (asked h).
Definition set_obj (l : nat) (o : obj) (h : heap) : heap :=
  mkHeap (arrays h) (<[l := o]> (objs h)) (pool h) (asked h).

Definition array (h : heap) (a : nat) : list string := default [] (arrays h !! a).
Definition elems (h : heap) (s : slice) : list string := take (len s) (array h (arr s)).
Definition object (h : heap) (l : nat) : obj := default (mkObj zero_metric nil_slice) (objs h !! l).
Definition deref (h : heap) (l : nat) : MetricData :=
  let o := object h l in with_Tags (elems h (o_tags o)) (fields o).

Section write.
(** The room [append] leaves beyond the new element when it reallocates. *)
Context (spare : nat → nat).
Context (pick : nat → nat).

Definition append (x : string) (r : heap * slice) : heap * slice :=
  let '(h, s) := r in
  let a := array h (arr s) in
  if bool_decide (len s < length a)
  then (set_arrays (<[arr s := <[len s := x]> a]> (arrays h)) h, mkSlice (arr s) (S (len s)))
  else (set_arrays (arrays h ++ [take (len s) a ++ x :: replicate (spare (len s)) ""]) h,
        mkSlice (length (arrays h)) (S (len s))).

(** [append(s, xs...)], one element after the other. *)
Definition append_all (xs : list string) (h : heap) (s : slice) : heap * slice :=
  foldl (λ r x, append x r) (h, s) xs.

(** [sort.Strings] on a slice. *)
Definition sort_slice (s : slice) (h : heap) : heap :=
  let a := array h (arr s) in
  set_arrays (<[arr s := SortStrings (take (len s) a) ++ drop (len s) a]> (arrays h)) h.

(** [m.SetId()]: sorts the tags where they are. *)
Definition SetId_at (l : nat) (h : heap) : heap :=
  let o := object h l in
  let m := SetId (deref h l) in
  sort_slice (o_tags o) (set_obj l (mkObj (with_Tags [] m) (o_tags o)) h).

(** ** The pool *)

Definition Get (h : heap) : heap * nat :=
  let n := pick (asked h) in
  match pool h !! n with
  | Some l => (mkHeap (arrays h) (objs h) (delete n (pool h)) (S (asked h)), l)
  | None => (mkHeap (arrays h) (objs h ++ [mkObj zero_metric nil_slice]) (pool h) (S (asked h)),
             length (objs h))
  end.

Definition Put (l : nat) (h : heap) : heap := mkHeap (arrays h) (objs h) (pool h ++ [l]) (asked h).

(** [md := Get(); *md = m; md.SetId()], where [tags] makes the tags of [m] from
    the slice of the metric the pool gave. *)
Definition new_metric (m : MetricData) (tags : heap → slice → heap * slice) (h : heap) : heap * nat :=
  let '(h, l) := Get h in
  let '(h, s) := tags h (o_tags (object h l)) in
  (SetId_at l (set_obj l (mkObj (with_Tags [] m) s) h), l).

(** The literal of the writers. *)
Definition literal (org : Z) (name mtype : string) (value time : Z) : MetricData :=
  mkMetricData "" org name 0 value "unknown" time mtype [].

(** Metrics that share the slice [s]: by name, type, value and time. *)
Fixpoint new_metrics (s : slice) (l : list MetricData) (buf : list nat) (h : heap) :
    heap * list nat :=
  match l with
  | [] => (h, buf)
  | m :: l' =>
      let '(h, x) := new_metric m (λ h _, (h, s)) h in
      new_metrics s l' (buf ++ [x]) h
  end.

(** ** Results of a request *)

(** What the handler leaves: the store, the publisher, its replies in order,
    and the batch it handed to the publisher. *)
Record result (S : Type) := mkResult {
  r_heap : heap; r_pub : pstate S; r_replies : list (reply string);
  r_batch : option (list MetricData) }.
Arguments mkResult {S}.
Arguments r_heap {S}.
Arguments r_pub {S}.
Arguments r_replies {S}.
Arguments r_batch {S}.

Context {S E : Type} (publisher : Publisher S E).

Definition reply_only (code : Z) (b : string) (h : heap) (p : pstate S) : result S :=
  mkResult h p [mkReply code b] None.

(** The publication of the metrics [buf] points to; [release] puts them back.
    What the publisher writes to them is lost: the next user of a metric
    overwrites it, and the tags were sorted before. *)
Definition finish (release : list nat → heap → heap) (buf : list nat) (before : list (reply string))
    (h : heap) (p : pstate S) : result S :=
  let batch := deref h <$> buf in
  let '(p, _, err) := Publish publisher batch p in
  mkResult (release buf h) p
    (before ++ [match err with Some _ => mkReply 500 "publish error" | None => mkReply 200 "ok" end])
    (Some batch).

(** ** prometheus.go *)

Record sample := mkSample { s_Value : Z; s_Timestamp : Z }.
Record timeseries := mkSeries { Labels : list (string * string); Samples : list sample }.

Definition MetricNameLabel : string := "__name__".

(** The name, the last label of that name, and the other labels. *)
Definition label_step (r : string * list string) (l : string * string) : string * list string :=
  if bool_decide (l.1 = MetricNameLabel) then (l.2, r.2) else (r.1, r.2 ++ [l.1 +:+ "=" +:+ l.2]).
Definition split_labels (ls : list (string * string)) : string * list string :=
  foldl label_step ("", []) ls.

(** [None]: a series without a name. *)
Fixpoint prom_series (org : Z) (l : list timeseries) (buf : list nat) (h : heap) :
    heap * option (list nat) :=
  match l with
  | [] => (h, Some buf)
  | ts :: l' =>
      let '(name, labels) := split_labels (Labels ts) in
      let '(h, tagSet) := append_all labels h nil_slice in
      if bool_decide (name = "") then (h, None) else
      let '(h, buf) := new_metrics tagSet
        ((λ s, literal org name "gauge" (s_Value s) (s_Timestamp s `quot` 1000)) <$> Samples ts) buf h in
      prom_series org l' buf h
  end.

Definition put_all (buf : list nat) (h : heap) : heap := foldl (λ h l, Put l h) h buf.

(** The body as it is read; snappy and the protobuf decoder. *)
Context (snappy_Decode : string → option string) (proto_Unmarshal : string → option (list timeseries)).

(** [body]: [None], no body; [Some None], it could not be read. *)
Definition PrometheusMTWrite (user : User) (body : option (option string)) (h : heap) (p : pstate S) :
    result S :=
  match body with
  | None => reply_only 400 "no data included in request." h p
  | Some None => reply_only 400 "read error" h p
  | Some (Some compressed) =>
      match snappy_Decode compressed with
      | None => reply_only 400 "decode error" h p
      | Some reqBuf =>
          match proto_Unmarshal reqBuf with
          | None => reply_only 400 "unmarshal error" h p
          | Some series =>
              match prom_series (ID user) series [] h with
              | (h, None) => reply_only 400 "invalid metric received: __name__ label can not equal" h p
              | (h, Some buf) => finish put_all buf [] h p
              end
          end
      end
  end.

(** ** opentsdb.go *)

(** The tags in the order the range over the map takes. *)
Record OpenTSDBMetric := mkTsdb {
  t_Metric : string; t_Timestamp : Z; t_Value : Z; t_Tags : list (string * string) }.

Definition tag_texts (tags : list (string * string)) : list string :=
  (λ t, t.1 +:+ "=" +:+ t.2) <$> tags.

Definition FormatTags (m : OpenTSDBMetric) (h : heap) (tagArray : slice) : heap * slice :=
  append_all (tag_texts (t_Tags m)) h tagArray.

Fixpoint tsdb_metrics (org : Z) (l : list OpenTSDBMetric) (buf : list nat) (h : heap) :
    heap * list nat :=
  match l with
  | [] => (h, buf)
  | ts :: l' =>
      let '(h, x) := new_metric (literal org (t_Metric ts) "gauge" (t_Value ts) (t_Timestamp ts))
                       (FormatTags ts) h in
      tsdb_metrics org l' (buf ++ [x]) h
  end.

(** [m.Tags = m.Tags[:0]; MetricPool.Put(m)] *)
Definition put_emptied (l : nat) (h : heap) : heap :=
  let o := object h l in
  Put l (set_obj l (mkObj (fields o) (mkSlice (arr (o_tags o)) 0)) h).
Definition put_all_emptied (buf : list nat) (h : heap) : heap := foldl (λ h l, put_emptied l h) h buf.

(** gzip's reader on the body: [None], no gzip header. *)
Context (gunzip : option string → option (option string)).
Context (tsdb_Unmarshal : string → option (list OpenTSDBMetric)).

Definition OpenTSDBWrite (user : User) (gzipped : bool) (body : option (option string)) (h : heap)
    (p : pstate S) : result S :=
  match body with
  | None => reply_only 400 "no data included in request." h p
  | Some raw =>
      match (if gzipped then gunzip raw else Some raw) with
      | None | Some None => reply_only 400 "read error" h p
      | Some (Some text) =>
          match tsdb_Unmarshal text with
          | None => reply_only 400 "unmarshal error" h p
          | Some req =>
              let '(h, buf) := tsdb_metrics (ID user) req [] h in
              finish put_all_emptied buf [] h p
          end
      end
  end.
End write.

Arguments mkResult {S}.
Arguments r_heap {S}.
Arguments r_pub {S}.
Arguments r_replies {S}.
Arguments r_batch {S}.
