(* ===== verification/WriteSpec.v ===== *)
(** * What the pooled writers promise

    The invariant of the store of metrics, the effect of [append] and of the
    in-place sort on it, and from these: the Prometheus writer publishes its
    samples whatever the pool holds; the OpenTSDB writer does when the pooled
    metrics hold no tags, and mixes in another request's tags when they do. *)

From S2P Require Import Prelude GoStrings Strconv Schema Publish Http Write.
From Stdlib Require Import Ascii.

(** ** Well-formed stores *)

Definition slice_ok (h : heap) (s : slice) : Prop :=
  arr s < length (arrays h) ∧ len s ≤ length (array h (arr s)).

Record wf (h : heap) : Prop := {
  wf_nil : arrays h !! 0 = Some [];
  wf_pool : NoDup (pool h) ∧ Forall (λ l, l < length (objs h)) (pool h);
  wf_objs l : l < length (objs h) → slice_ok h (o_tags (object h l)) }.

(** The metrics of a request: distinct, in the store, not in the pool. *)
Definition live (h : heap) (buf : list nat) : Prop :=
  NoDup buf ∧ Forall (λ l, l < length (objs h)) buf ∧ ∀ l, l ∈ buf → l ∉ pool h.

Lemma nil_ok h : wf h → slice_ok h nil_slice.
Proof. intros [H _ _]. split; [apply lookup_lt_Some in H; done|apply Nat.le_0_l]. Qed.

Lemma array_0 h : wf h → array h 0 = [].
Proof. intros [H _ _]. unfold array. by rewrite H. Qed.

Lemma elems_nil h : elems h nil_slice = [].
Proof. done. Qed.

Lemma len_0 h s : wf h → slice_ok h s → arr s = 0 → s = nil_slice.
Proof.
  intros Hw [_ Hl] E. rewrite E, array_0 in Hl by done. destruct s as [a n]. simpl in *.
  unfold nil_slice. f_equal; [done|lia].
Qed.

Lemma array_insert h a x b :
  a < length (arrays h) →
  array (set_arrays (<[a := x]> (arrays h)) h) b = if decide (b = a) then x else array h b.
Proof.
  intros Ha. unfold array. cbn. case_decide as E; [subst; by rewrite list_lookup_insert_eq|].
  by rewrite list_lookup_insert_ne.
Qed.

(** A change of arrays that keeps their lengths keeps the slices. *)
Lemma wf_lengths h h' :
  wf h → arrays h' !! 0 = Some [] → objs h' = objs h → pool h' = pool h →
  length (arrays h) ≤ length (arrays h') →
  (∀ a, a < length (arrays h) → length (array h a) ≤ length (array h' a)) → wf h'.
Proof.
  intros [_ Hp Ho] H0 Eo Ep Hl Ha. split; [done|by rewrite Eo, Ep|].
  intros l. unfold object. rewrite Eo. intros H. destruct (Ho l H) as [H1 H2].
  fold (object h l) in *. split; [unfold object in *; lia|]. etrans; [exact H2|]. by apply Ha.
Qed.

(** ** append *)

(** What building on the slice [s] leaves: the slice holds the new elements, and
    no array but that of [s] has changed. *)
Record grown (h : heap) (s : slice) (xs : list string) (h' : heap) (s' : slice) : Prop := {
  g_wf : wf h';
  g_ok : slice_ok h' s';
  g_elems : elems h' s' = elems h s ++ xs;
  g_objs : objs h' = objs h;
  g_pool : pool h' = pool h;
  g_asked : asked h' = asked h;
  g_length : length (arrays h) ≤ length (arrays h');
  g_other a : a < length (arrays h) → a ≠ arr s → array h' a = array h a;
  g_arr : arr s' = arr s ∨ length (arrays h) ≤ arr s' }.

Lemma grown_refl h s : wf h → slice_ok h s → grown h s [] h s.
Proof. intros. split; try done; [by rewrite app_nil_r|by left]. Qed.

Lemma grown_trans h s xs h1 s1 ys h2 s2 :
  grown h s xs h1 s1 → grown h1 s1 ys h2 s2 → grown h s (xs ++ ys) h2 s2.
Proof.
  intros [W1 O1 E1 Eo1 Ep1 Ea1 L1 H1 A1] [W2 O2 E2 Eo2 Ep2 Ea2 L2 H2 A2].
  split; try congruence; try lia; try done.
  - rewrite E2, E1. by rewrite app_assoc.
  - intros a Ha Hne. rewrite H2, H1 by (done || lia || (destruct A1; congruence || lia)). done.
Qed.

Section spec.
Context (spare pick : nat → nat).

Lemma append_grown x h s h' s' :
  wf h → slice_ok h s → append spare x (h, s) = (h', s') → grown h s [x] h' s'.
Proof.
  intros Hw [Ha Hl]. unfold append. case_bool_decide as Hroom; intros [= <- <-].
  - assert (Hnz : arr s ≠ 0) by (intros E; rewrite E, array_0 in Hroom by done; simpl in Hroom; lia).
    assert (Hlen : ∀ b, length (array h b) ≤
      length (array (set_arrays (<[arr s:=<[len s:=x]> (array h (arr s))]> (arrays h)) h) b)).
    { intros b. rewrite array_insert by done. case_decide; [subst; by rewrite length_insert|done]. }
    split; try done.
    + apply (wf_lengths h); try done; cbn; [|by rewrite length_insert].
      rewrite list_lookup_insert_ne by done. apply Hw.
    + split; cbn; [by rewrite length_insert|]. rewrite array_insert, decide_True by done.
      rewrite length_insert. lia.
    + unfold elems. rewrite array_insert, decide_True by done. cbn [arr len].
      erewrite take_S_r by (by apply list_lookup_insert_eq). rewrite take_insert_ge by lia. done.
    + cbn. by rewrite length_insert.
    + intros a _ Hne. rewrite array_insert, decide_False by done. done.
    + by left.
  - assert (Hlen : length (take (len s) (array h (arr s))) = len s) by (apply length_take_le; lia).
    assert (Hold : ∀ b y, b < length (arrays h) → array (set_arrays (arrays h ++ [y]) h) b = array h b).
    { intros b y Hb. unfold array. cbn. by rewrite lookup_app_l. }
    assert (Hnew : ∀ y, array (set_arrays (arrays h ++ [y]) h) (length (arrays h)) = y).
    { intros y. unfold array. cbn. by rewrite list_lookup_middle. }
    split; try done.
    + apply (wf_lengths h); try done; cbn; [|rewrite length_app; lia|by intros a H; rewrite Hold].
      rewrite lookup_app_l by (by apply lookup_lt_Some with [], Hw). apply Hw.
    + split; cbn [arr len]; [cbn; rewrite length_app; simpl; lia|]. rewrite Hnew, length_app, Hlen. simpl. lia.
    + unfold elems. cbn [arr len]. rewrite Hnew. rewrite cons_middle, app_assoc. apply take_app_length'.
      rewrite length_app, Hlen. simpl. lia.
    + cbn. rewrite length_app. lia.
    + intros a Hb _. by apply Hold.
    + by right.
Qed.

Lemma append_all_grown xs h s h' s' :
  wf h → slice_ok h s → append_all spare xs h s = (h', s') → grown h s xs h' s'.
Proof.
  unfold append_all. revert h s. induction xs as [|x xs IH]; intros h s Hw Hs.
  - intros [= <- <-]. by apply grown_refl.
  - cbn [foldl]. destruct (append spare x (h, s)) as [h1 s1] eqn:E. intros H.
    apply append_grown in E; [|done..]. apply (grown_trans h s [x] h1 s1); [done|].
    apply IH; [apply E|apply E|done].
Qed.

(** ** A metric and its id *)

Lemma object_set l o h l' :
  l < length (objs h) → object (set_obj l o h) l' = if decide (l' = l) then o else object h l'.
Proof.
  intros Hl. unfold object. cbn. case_decide as E; [subst; by rewrite list_lookup_insert_eq|].
  by rewrite list_lookup_insert_ne.
Qed.

(** Sorting where the strings are. *)
Lemma sort_slice_spec s h :
  wf h → slice_ok h s →
  let h' := sort_slice s h in
  wf h' ∧ length (arrays h') = length (arrays h) ∧ (∀ b, length (array h' b) = length (array h b)) ∧
  elems h' s = SortStrings (elems h s) ∧ ∀ a, a ≠ arr s → array h' a = array h a.
Proof.
  intros Hw [Ha Hs]. cbv zeta.
  assert (Hins : ∀ b, array (sort_slice s h) b =
    if decide (b = arr s) then SortStrings (elems h s) ++ drop (len s) (array h (arr s)) else array h b).
  { intros b. unfold sort_slice. rewrite array_insert by done. by case_decide. }
  assert (Hsl : length (SortStrings (elems h s)) = len s).
  { rewrite SortStrings_perm. unfold elems. rewrite length_take. lia. }
  assert (Hlen : ∀ b, length (array (sort_slice s h) b) = length (array h b)).
  { intros b. rewrite Hins. case_decide; [subst|done]. rewrite length_app, Hsl, length_drop. lia. }
  assert (Hal : length (arrays (sort_slice s h)) = length (arrays h)).
  { unfold sort_slice. cbn. by rewrite length_insert. }
  split_and!; [|done|done| |].
  - apply (wf_lengths h); [done| |done|done|by rewrite Hal|intros a _; by rewrite Hlen].
    assert (H0 : array (sort_slice s h) 0 = []).
    { apply nil_length_inv. rewrite Hlen. by rewrite array_0. }
    unfold array in H0. assert (Hlt : 0 < length (arrays (sort_slice s h))) by lia.
    apply lookup_lt_is_Some in Hlt as [x Hx0]. rewrite Hx0 in H0. simpl in H0. by rewrite Hx0, H0.
  - unfold elems at 1. rewrite Hins, decide_True by done. by apply take_app_length'.
  - intros a Hne. by rewrite Hins, decide_False.
Qed.

Lemma SetId_Tags m : Tags (SetId m) = SortStrings (Tags m).
Proof. done. Qed.

Lemma with_Tags_Tags m t : with_Tags t (with_Tags [] m) = with_Tags t m.
Proof. done. Qed.

(** Filling the metric [l] and setting its id. *)
Record filled (h : heap) (l : nat) (m : MetricData) (s : slice) (h' : heap) : Prop := {
  f_wf : wf h';
  f_pool : pool h' = pool h;
  f_asked : asked h' = asked h;
  f_objs : length (objs h') = length (objs h);
  f_arrays : length (arrays h') = length (arrays h);
  f_self : object h' l = mkObj (with_Tags [] (SetId (with_Tags (elems h s) m))) s;
  f_others l' : l' ≠ l → object h' l' = object h l';
  f_elems : elems h' s = SortStrings (elems h s);
  f_other a : a ≠ arr s → array h' a = array h a;
  f_ok s' : slice_ok h s' → slice_ok h' s' }.

Lemma SetId_at_filled h l m s :
  wf h → l < length (objs h) → slice_ok h s →
  filled h l m s (SetId_at l (set_obj l (mkObj (with_Tags [] m) s) h)).
Proof.
  intros Hw Hl [Ha Hs]. unfold SetId_at, deref. rewrite !object_set, !decide_True by done.
  cbn [fields o_tags]. rewrite with_Tags_Tags.
  set (o := mkObj _ _). set (h1 := set_obj l o _).
  assert (Hol : length (objs h1) = length (objs h)) by (cbn; by rewrite !length_insert).
  assert (Ho : ∀ l', object h1 l' = if decide (l' = l) then o else object h l').
  { intros l'. unfold h1. rewrite object_set by (cbn; by rewrite length_insert). case_decide; [done|].
    by rewrite object_set, decide_False. }
  assert (Hw1 : wf h1).
  { split; [apply Hw|rewrite Hol; apply Hw|]. rewrite Hol. intros l' Hl'. rewrite Ho.
    case_decide; [by split|]. by apply (wf_objs h Hw). }
  destruct (sort_slice_spec s h1 Hw1 (conj Ha Hs)) as (W & Hal & Hlen & He & Hoth).
  split; try done.
  - change (object (sort_slice s h1) l) with (object h1 l). by rewrite Ho, decide_True.
  - intros l' Hne. change (object (sort_slice s h1) l') with (object h1 l'). by rewrite Ho, decide_False.
  - intros s' [? ?]. split; [by rewrite Hal|by rewrite Hlen].
Qed.

Lemma filled_deref h l m s h' : filled h l m s h' → deref h' l = SetId (with_Tags (elems h s) m).
Proof.
  intros H. unfold deref. rewrite (f_self _ _ _ _ _ H). cbn [o_tags fields].
  rewrite (f_elems _ _ _ _ _ H). done.
Qed.

Lemma SetId_sorted_tags t m : SetId (with_Tags (SortStrings t) m) = SetId (with_Tags t m).
Proof.
  unfold SetId, with_Tags. cbn [Id OrgId Name Interval Value Unit Time Mtype Tags].
  by rewrite SortStrings_idemp.
Qed.

(** ** The pool *)

Record got (h : heap) (h' : heap) (l : nat) : Prop := {
  got_wf : wf h';
  got_arrays : arrays h' = arrays h;
  got_in : l < length (objs h');
  got_out : l ∉ pool h';
  got_pool x : x ∈ pool h' → x ∈ pool h;
  got_objs : length (objs h) ≤ length (objs h');
  got_object l' : object h' l' = object h l';
  got_from : l ∈ pool h ∨ l = length (objs h) ∧ object h l = mkObj zero_metric nil_slice }.

Lemma Get_got h h' l : wf h → Get pick h = (h', l) → got h h' l.
Proof.
  intros Hw. destruct Hw as [H0 [Hn Hp] Ho]. unfold Get.
  assert (Hobj : ∀ p n l', object (mkHeap (arrays h) (objs h) p n) l' = object h l') by done.
  assert (Hobj' : ∀ p n l', object (mkHeap (arrays h) (objs h ++ [mkObj zero_metric nil_slice]) p n) l'
                            = object h l').
  { intros p n l'. unfold object. cbn. destruct (decide (l' < length (objs h))) as [H|H].
    - by rewrite lookup_app_l.
    - rewrite lookup_app_r by lia. rewrite (lookup_ge_None_2 (objs h)) by lia.
      destruct (l' - length (objs h)) as [|k] eqn:Ek; [done|by destruct k]. }
  destruct (pool h !! pick (asked h)) as [x|] eqn:Ex; intros [= <- <-].
  - assert (Hperm := delete_Permutation _ _ _ Ex). rewrite Hperm in Hn, Hp.
    apply NoDup_cons in Hn as [Hx Hn]. apply Forall_cons in Hp as [Hl Hp].
    split; try done; cbn.
    + by apply elem_of_list_delete_subseteq || (intros y Hy; rewrite Hperm; by right).
    + left. by eapply list_elem_of_lookup_2.
  - assert (Hlen : length (objs h ++ [mkObj zero_metric nil_slice]) = S (length (objs h)))
      by (rewrite length_app; simpl; lia).
    split; cbn; try done; try lia.
    + split; cbn; [done| |].
      * split; [done|]. rewrite Hlen. eapply Forall_impl; [exact Hp|]. simpl. lia.
      * intros l' Hl'. rewrite Hobj'. destruct (decide (l' < length (objs h))) as [H|H]; [by apply Ho|].
        unfold object. rewrite lookup_ge_None_2 by lia. apply lookup_lt_Some in H0.
        split; [done|apply Nat.le_0_l].
    + intros H. rewrite Forall_forall in Hp. apply Hp in H. lia.
    + right. split; [done|]. unfold object. by rewrite lookup_ge_None_2.
Qed.

Lemma live_got h h' l buf : got h h' l → live h buf → live h' (buf ++ [l]).
Proof.
  intros G (Hn & Hl & Hp). assert (Hnew : l ∉ buf).
  { intros H. destruct (got_from _ _ _ G) as [H'|[-> _]]; [by eapply Hp|].
    rewrite Forall_forall in Hl. apply Hl in H. lia. }
  split_and!.
  - apply NoDup_app. split_and!; [done|by intros x Hx ->%list_elem_of_singleton|apply NoDup_singleton].
  - apply Forall_app. split; [|apply Forall_singleton, G].
    eapply Forall_impl; [exact Hl|]. intros x Hx. pose proof (got_objs _ _ _ G). simpl in *. lia.
  - intros x [H| ->%list_elem_of_singleton]%elem_of_app; [|apply G].
    intros H'. apply (got_pool _ _ _ G) in H'. by eapply Hp.
Qed.

Lemma live_same h h' buf :
  pool h' = pool h → length (objs h) ≤ length (objs h') → live h buf → live h' buf.
Proof.
  intros Ep Ho (Hn & Hl & Hp). split_and!; [done| |by rewrite Ep].
  eapply Forall_impl; [exact Hl|]. simpl. lia.
Qed.

Lemma put_all_pool buf h :
  pool (put_all buf h) = pool h ++ buf ∧ arrays (put_all buf h) = arrays h ∧ objs (put_all buf h) = objs h.
Proof.
  unfold put_all. revert h. induction buf as [|l buf IH]; intros h; [by rewrite app_nil_r|].
  cbn [foldl]. destruct (IH (Put l h)) as (-> & -> & ->). cbn. by rewrite <- app_assoc.
Qed.

Lemma put_all_wf buf h : wf h → live h buf → wf (put_all buf h).
Proof.
  intros [H0 [Hn Hp] Ho] (Bn & Bl & Bp). destruct (put_all_pool buf h) as (E1 & E2 & E3).
  split; [by rewrite E2| |].
  - rewrite E1, E3. split; [|by apply Forall_app]. apply NoDup_app. split_and!; [done| |done].
    intros x Hx H. by eapply Bp.
  - rewrite E3. intros l Hl. destruct (Ho l Hl) as [A B]. unfold slice_ok, array, object in *.
    by rewrite E2, E3.
Qed.

(** ** Metrics that share their tags *)

(** The metrics of the request on the array of [s] are on [s], which is sorted. *)
Definition compatible (h : heap) (s : slice) (buf : list nat) : Prop :=
  ∀ l, l ∈ buf → arr (o_tags (object h l)) = arr s →
  o_tags (object h l) = s ∧ SortStrings (elems h s) = elems h s.

Lemma new_metrics_spec s ms buf h h' buf' :
  wf h → slice_ok h s → live h buf → compatible h s buf →
  new_metrics pick s ms buf h = (h', buf') →
  wf h' ∧ live h' buf' ∧ (∀ x, x ∈ pool h' → x ∈ pool h) ∧
  deref h' <$> buf' = (deref h <$> buf) ++ ((λ m, SetId (with_Tags (elems h s) m)) <$> ms).
Proof.
  revert buf h. induction ms as [|m ms IH]; intros buf h Hw Hs Hb Hc; cbn [new_metrics].
  - intros [= <- <-]. by rewrite app_nil_r.
  - destruct (new_metric pick m (λ h0 _, (h0, s)) h) as [h1 x] eqn:E. revert E. unfold new_metric.
    destruct (Get pick h) as [hg l] eqn:Eg. intros [= <- <-]. apply Get_got in Eg as G; [|done].
    assert (Hsg : slice_ok hg s) by (unfold slice_ok, array in *; by rewrite (got_arrays _ _ _ G)).
    assert (Eel : elems hg s = elems h s) by (unfold elems, array; by rewrite (got_arrays _ _ _ G)).
    pose proof (SetId_at_filled hg l m s (got_wf _ _ _ G) (got_in _ _ _ G) Hsg) as F.
    set (h1 := SetId_at l _) in *. intros H.
    assert (Hlive : live h1 (buf ++ [l])).
    { eapply live_same; [apply F|rewrite (f_objs _ _ _ _ _ F); done|]. by eapply live_got. }
    assert (Hl : l ∉ buf).
    { destruct Hlive as (Hn & _). apply NoDup_app in Hn as (_ & Hn & _). intros Hl. eapply Hn; [done|left]. }
    assert (Hold : deref h1 <$> buf = deref h <$> buf).
    { apply list_fmap_ext. intros i y Hy%list_elem_of_lookup_2. unfold deref.
      rewrite (f_others _ _ _ _ _ F) by (by intros ->). rewrite (got_object _ _ _ G). f_equal.
      destruct (decide (arr (o_tags (object h y)) = arr s)) as [Ea|Ea].
      - destruct (Hc y Hy Ea) as [-> Hsort]. rewrite (f_elems _ _ _ _ _ F), Eel. done.
      - unfold elems. rewrite (f_other _ _ _ _ _ F) by done. unfold array.
        by rewrite (got_arrays _ _ _ G). }
    apply IH in H as (W & L & A & D); [|apply F|by apply F|done|].
    + split_and!; [done|done|intros y Hy%A; rewrite (f_pool _ _ _ _ _ F) in Hy; by apply (got_pool _ _ _ G)|].
      rewrite D, fmap_app, Hold, <- app_assoc. f_equal. cbn [fmap list_fmap app].
      rewrite (filled_deref _ _ _ _ _ F), Eel. f_equal.
      apply list_fmap_ext. intros i y _. rewrite (f_elems _ _ _ _ _ F), Eel. apply SetId_sorted_tags.
    + intros y Hy Ea. rewrite (f_elems _ _ _ _ _ F), Eel, SortStrings_idemp. split; [|done].
      apply elem_of_app in Hy as [Hy|Hy%list_elem_of_singleton].
      * rewrite (f_others _ _ _ _ _ F), (got_object _ _ _ G) in * by (by intros ->). by apply Hc.
      * subst y. by rewrite (f_self _ _ _ _ _ F).
Qed.

(** ** The Prometheus writer *)

(** The metrics a series stands for. *)
Definition prom_metrics (org : Z) (ts : timeseries) : list MetricData :=
  let '(name, labels) := split_labels (Labels ts) in
  (λ s, SetId (mkMetricData "" org name 0 (s_Value s) "unknown" (s_Timestamp s `quot` 1000) "gauge" labels))
    <$> Samples ts.

Definition named (ts : timeseries) : Prop := (split_labels (Labels ts)).1 ≠ "".

(** Building on the nil slice disturbs no metric. *)
Lemma grown_nil_deref h xs h' s' l :
  wf h → grown h nil_slice xs h' s' → l < length (objs h) → deref h' l = deref h l.
Proof.
  intros Hw G Hl. assert (Eo : object h' l = object h l) by (unfold object; by rewrite (g_objs _ _ _ _ _ G)).
  unfold deref. rewrite Eo. f_equal. destruct (wf_objs h Hw l Hl) as [Ha _].
  unfold elems. destruct (decide (arr (o_tags (object h l)) = 0)) as [E|E].
  - by rewrite E, !array_0 by (done || apply G).
  - by rewrite (g_other _ _ _ _ _ G).
Qed.

(** Metrics on a slice built from the nil slice. *)
Lemma series_spec xs h h1 s ms buf h2 buf2 :
  wf h → live h buf → grown h nil_slice xs h1 s → new_metrics pick s ms buf h1 = (h2, buf2) →
  wf h2 ∧ live h2 buf2 ∧ (∀ x, x ∈ pool h2 → x ∈ pool h) ∧
  deref h2 <$> buf2 = (deref h <$> buf) ++ ((λ m, SetId (with_Tags xs m)) <$> ms).
Proof.
  intros Hw Hb G Em.
  assert (Hb1 : live h1 buf)
    by (eapply live_same; [apply G|by rewrite (g_objs _ _ _ _ _ G)|done]).
  destruct Hb as (_ & Hlt & _). rewrite Forall_forall in Hlt.
  apply new_metrics_spec in Em as (W & L & A & D); [|apply G|apply G|done|].
  - split_and!; [done|done|by intros x Hx%A; rewrite (g_pool _ _ _ _ _ G) in Hx|]. rewrite D, (g_elems _ _ _ _ _ G), elems_nil. f_equal.
    apply list_fmap_ext. intros i y Hy%list_elem_of_lookup_2. eapply grown_nil_deref; eauto.
  - intros y Hy Hay. assert (E : object h1 y = object h y)
      by (unfold object; by rewrite (g_objs _ _ _ _ _ G)).
    rewrite E in Hay |- *. destruct (wf_objs h Hw y (Hlt y Hy)) as [Hay' Hly].
    destruct (g_arr _ _ _ _ _ G) as [Hs|Hs]; [|lia]. cbn in Hs.
    assert (Es : s = nil_slice) by (apply (len_0 h1); [apply G|apply G|done]).
    rewrite Es. split; [|done]. apply (len_0 h); [done|by split|]. by rewrite Hay, Hs.
Qed.

Lemma prom_series_spec org l buf h :
  wf h → live h buf →
  match prom_series spare pick org l buf h with
  | (h', Some buf') => Forall named l ∧ wf h' ∧ live h' buf' ∧
      deref h' <$> buf' = (deref h <$> buf) ++ (l ≫= prom_metrics org)
  | (h', None) => ¬ Forall named l ∧ wf h'
  end.
Proof.
  revert buf h. induction l as [|ts l IH]; intros buf h Hw Hb; cbn [prom_series].
  - split_and!; [constructor|done|done|]. by rewrite app_nil_r.
  - destruct (split_labels (Labels ts)) as [name labels] eqn:El.
    destruct (append_all spare labels h nil_slice) as [h1 s] eqn:Ea.
    apply append_all_grown in Ea as G; [|done|by apply nil_ok].
    case_bool_decide as Hn.
    { split; [|apply G]. intros [H _]%Forall_cons. unfold named in H. by rewrite El in H. }
    destruct (new_metrics pick s _ buf h1) as [h2 buf2] eqn:Em.
    apply (series_spec labels h) in Em as (W & L & _ & D); [|done..].
    specialize (IH buf2 h2 W L). destruct (prom_series spare pick org l buf2 h2) as [h3 [buf3|]].
    + destruct IH as (F & W3 & L3 & D3). split_and!; [|done|done|].
      { constructor; [|done]. unfold named. by rewrite El. }
      rewrite D3, D, bind_cons, app_assoc. f_equal. unfold prom_metrics.
      by rewrite El, <- list_fmap_compose.
    + destruct IH as [F W3]. split; [|done]. by intros [_ ?]%Forall_cons.
Qed.

(** Sorting what was built on the nil slice. *)
Lemma sorted_grown xs h h1 s :
  wf h → append_all spare xs h nil_slice = (h1, s) →
  grown h nil_slice (SortStrings xs) (sort_slice s h1) s.
Proof.
  intros Hw Ea. apply append_all_grown in Ea as G; [|done|by apply nil_ok].
  pose proof (g_elems _ _ _ _ _ G) as Hx.
  rewrite elems_nil in Hx. destruct (g_ok _ _ _ _ _ G) as [Ha Hs].
  destruct (sort_slice_spec s h1 (g_wf _ _ _ _ _ G) (g_ok _ _ _ _ _ G)) as (W & Hal & Hlen & He & Hoth).
  split; try done; try apply G.
  - split; [by rewrite Hal|by rewrite Hlen].
  - by rewrite He, Hx.
  - rewrite Hal. apply G.
  - intros a Hlt Hne. destruct (decide (a = arr s)) as [E|E]; [|rewrite Hoth by done; by apply G].
    destruct (g_arr _ _ _ _ _ G) as [Es|Es]; [by rewrite E, Es in Hne|lia].
Qed.

(** ** The OpenTSDB writer *)

Definition tsdb_metric (org : Z) (ts : OpenTSDBMetric) : MetricData :=
  SetId (mkMetricData "" org (t_Metric ts) 0 (t_Value ts) "unknown" (t_Timestamp ts) "gauge"
           (tag_texts (t_Tags ts))).

(** Distinct metrics of the list do not share an array. *)
Definition apart (h : heap) (ls : list nat) : Prop :=
  ∀ x y, x ∈ ls → y ∈ ls → x ≠ y → arr (o_tags (object h x)) = arr (o_tags (object h y)) →
  arr (o_tags (object h x)) = 0.

(** The pooled metrics hold no tags and share no array. *)
Definition clean (h : heap) (buf : list nat) : Prop :=
  wf h ∧ live h buf ∧ (∀ l, l ∈ pool h → len (o_tags (object h l)) = 0) ∧ apart h (pool h ++ buf).

(** A metric is taken from the pool, its tags are grown, and it is filled. *)
Section made.
Context (h hg h1 h2 : heap) (l : nat) (xs : list string) (m : MetricData) (s : slice) (buf : list nat).
Context (Hw : wf h) (Hb : live h buf) (G : got h hg l).
Context (W : grown hg (o_tags (object hg l)) xs h1 s) (F : filled h1 l m s h2).

Lemma made_live : live h2 (buf ++ [l]).
Proof using Hb G W F.
  apply (live_same h1); [apply F|by rewrite (f_objs _ _ _ _ _ F)|].
  apply (live_same hg); [apply W|by rewrite (g_objs _ _ _ _ _ W)|]. by eapply live_got.
Qed.

Lemma made_ne y : y ∈ pool h2 ++ buf → y ≠ l.
Proof using Hb G W F.
  intros Hy ->. destruct made_live as (Hn & _ & Hout). apply elem_of_app in Hy as [Hy|Hy].
  - eapply Hout; [|done]. apply elem_of_app. right. left.
  - apply NoDup_app in Hn as (_ & Hn & _). eapply Hn; [done|left].
Qed.

Lemma made_pool y : y ∈ pool h2 → y ∈ pool h.
Proof using G W F. rewrite (f_pool _ _ _ _ _ F), (g_pool _ _ _ _ _ W). apply (got_pool _ _ _ G). Qed.

Lemma made_in y : y ∈ pool h2 ++ buf → y ∈ pool h ++ buf ∧ y < length (objs h).
Proof using Hw Hb G W F.
  intros [Hy|Hy]%elem_of_app.
  - apply made_pool in Hy. split; [apply elem_of_app; by left|]. destruct (wf_pool h Hw) as [_ H].
    rewrite Forall_forall in H. by apply H.
  - split; [apply elem_of_app; by right|]. destruct Hb as (_ & H & _).
    rewrite Forall_forall in H. by apply H.
Qed.

Lemma made_object y : y ≠ l → object h2 y = object h y.
Proof using G W F.
  intros Hy. rewrite (f_others _ _ _ _ _ F) by done. unfold object at 1. rewrite (g_objs _ _ _ _ _ W).
  apply (got_object _ _ _ G).
Qed.

Context (Hp : ∀ l, l ∈ pool h → len (o_tags (object h l)) = 0) (Ha : apart h (pool h ++ buf)).

Lemma made_empty : len (o_tags (object hg l)) = 0.
Proof using G Hp. rewrite (got_object _ _ _ G). destruct (got_from _ _ _ G) as [Hl|[_ ->]]; [by apply Hp|done]. Qed.

(** The others do not share the array the metric came with. *)
Lemma made_apart y :
  y ∈ pool h2 ++ buf → arr (o_tags (object h y)) = arr (o_tags (object hg l)) → arr (o_tags (object h y)) = 0.
Proof using Hw Hb G W F Ha.
  intros Hy E. rewrite (got_object _ _ _ G) in E.
  destruct (got_from _ _ _ G) as [Hl|[_ El]]; [|by rewrite El in E].
  apply (Ha y l); [by apply made_in|apply elem_of_app; by left|by apply made_ne|done].
Qed.

Lemma made_arr y :
  y ∈ pool h2 ++ buf → arr (o_tags (object h y)) = arr s → arr (o_tags (object h y)) = 0.
Proof using Hw Hb G W F Ha.
  intros Hy E. destruct (g_arr _ _ _ _ _ W) as [Es|Es]; [apply made_apart; congruence|].
  destruct (made_in y Hy) as [_ Hlt]. destruct (wf_objs h Hw y Hlt) as [Hya _].
  rewrite (got_arrays _ _ _ G) in Es. lia.
Qed.

Lemma made_deref y : y ∈ pool h2 ++ buf → deref h2 y = deref h y.
Proof using Hw Hb G W F Ha.
  intros Hy. unfold deref. rewrite (made_object y) by (by apply made_ne). f_equal. unfold elems.
  destruct (made_in y Hy) as [_ Hlt]. destruct (wf_objs h Hw y Hlt) as [Hya _].
  destruct (decide (arr (o_tags (object h y)) = 0)) as [E0|E0].
  { by rewrite E0, !array_0 by (done || apply F). }
  rewrite (f_other _ _ _ _ _ F) by (intros E; by apply E0, made_arr).
  rewrite (g_other _ _ _ _ _ W); [unfold array; by rewrite (got_arrays _ _ _ G)| |].
  - by rewrite (got_arrays _ _ _ G).
  - intros E. by apply E0, made_apart.
Qed.

Lemma made_clean : clean h2 (buf ++ [l]).
Proof using All.
  split_and!; [apply F|apply made_live| |].
  - intros y Hy. rewrite made_object by (apply made_ne, elem_of_app; by left). by apply Hp, made_pool.
  - intros y z Hy Hz Hyz. rewrite app_assoc in Hy, Hz.
    apply elem_of_app in Hy as [Hy|Hy%list_elem_of_singleton], Hz as [Hz|Hz%list_elem_of_singleton]; subst.
    + rewrite !made_object by (by apply made_ne). apply Ha; [by apply made_in..|done].
    + rewrite made_object by (by apply made_ne). rewrite (f_self _ _ _ _ _ F). by apply made_arr.
    + rewrite (made_object z) by (by apply made_ne). rewrite (f_self _ _ _ _ _ F). cbn. intros E. rewrite E.
      by apply made_arr.
    + done.
Qed.
End made.

Lemma tsdb_step org ts buf h h' x :
  clean h buf →
  new_metric pick (literal org (t_Metric ts) "gauge" (t_Value ts) (t_Timestamp ts))
    (FormatTags spare ts) h = (h', x) →
  clean h' (buf ++ [x]) ∧ deref h' <$> (buf ++ [x]) = (deref h <$> buf) ++ [tsdb_metric org ts].
Proof.
  intros (Hw & Hb & Hp & Ha). unfold new_metric.
  destruct (Get pick h) as [hg l] eqn:Eg. apply Get_got in Eg as G; [|done].
  destruct (FormatTags spare ts hg (o_tags (object hg l))) as [h1 s] eqn:Et. intros [= <- <-].
  unfold FormatTags in Et. apply append_all_grown in Et as W;
    [|apply G|apply (wf_objs hg (got_wf _ _ _ G)), G].
  assert (Hl1 : l < length (objs h1)) by (rewrite (g_objs _ _ _ _ _ W); apply G).
  pose proof (SetId_at_filled h1 l (literal org (t_Metric ts) "gauge" (t_Value ts) (t_Timestamp ts)) s
    (g_wf _ _ _ _ _ W) Hl1 (g_ok _ _ _ _ _ W)) as F.
  split; [by eapply made_clean|]. rewrite fmap_app. f_equal.
  - apply list_fmap_ext. intros i y Hy%list_elem_of_lookup_2.
    eapply made_deref; [done..|]. apply elem_of_app. by right.
  - cbn. rewrite (filled_deref _ _ _ _ _ F), (g_elems _ _ _ _ _ W). unfold elems at 1.
    by rewrite (made_empty h hg l G Hp).
Qed.

Lemma tsdb_metrics_spec org l buf h h' buf' :
  clean h buf → tsdb_metrics spare pick org l buf h = (h', buf') →
  clean h' buf' ∧ deref h' <$> buf' = (deref h <$> buf) ++ (tsdb_metric org <$> l).
Proof.
  revert buf h. induction l as [|ts l IH]; intros buf h Hc; cbn [tsdb_metrics].
  - intros [= <- <-]. by rewrite app_nil_r.
  - destruct (new_metric _ _ _ _) as [h1 x] eqn:E. apply (tsdb_step _ _ buf) in E as [Hc1 D1]; [|done].
    intros H. apply IH in H as [Hc2 D2]; [|done]. split; [done|]. by rewrite D2, D1, <- app_assoc.
Qed.

(** *** Whatever the pool holds

    Without [clean] the tags may be another request's, but the other fields are
    the point's. *)
Lemma new_metric_live m tags buf h h' x :
  wf h → live h buf →
  (∀ h0 s0 h1 s1, wf h0 → slice_ok h0 s0 → tags h0 s0 = (h1, s1) → ∃ xs, grown h0 s0 xs h1 s1) →
  new_metric pick m tags h = (h', x) →
  wf h' ∧ live h' (buf ++ [x]) ∧ OrgId (deref h' x) = OrgId m ∧
  (∀ y, y ∈ buf → OrgId (deref h' y) = OrgId (deref h y)).
Proof.
  intros Hw Hb Ht. unfold new_metric.
  destruct (Get pick h) as [hg l] eqn:Eg. apply Get_got in Eg as G; [|done].
  destruct (tags hg (o_tags (object hg l))) as [h1 s] eqn:Et. intros [= <- <-].
  apply Ht in Et as [xs W]; [|apply G|apply (wf_objs hg (got_wf _ _ _ G)), G].
  assert (Hl1 : l < length (objs h1)) by (rewrite (g_objs _ _ _ _ _ W); apply G).
  pose proof (SetId_at_filled h1 l m s (g_wf _ _ _ _ _ W) Hl1 (g_ok _ _ _ _ _ W)) as F.
  pose proof (made_live _ _ _ _ _ _ _ _ buf Hb G W F) as Hlive.
  split_and!; [apply F|done|by rewrite (filled_deref _ _ _ _ _ F)|].
  intros y Hy. unfold deref. cbn [OrgId with_Tags].
  change (OrgId (fields (object (SetId_at l (set_obj l (mkObj (with_Tags [] m) s) h1)) y)) = OrgId (fields (object h y))).
  rewrite (made_object _ _ _ _ _ _ _ _ G W F); [done|].
  apply (made_ne _ _ _ _ _ _ _ _ buf Hb G W F). apply elem_of_app. by right.
Qed.

Lemma tsdb_metrics_live org l buf h h' buf' :
  wf h → live h buf → tsdb_metrics spare pick org l buf h = (h', buf') →
  Forall (λ m, OrgId m = org) (deref h <$> buf) →
  wf h' ∧ live h' buf' ∧ Forall (λ m, OrgId m = org) (deref h' <$> buf').
Proof.
  revert buf h. induction l as [|ts l IH]; intros buf h Hw Hb; cbn [tsdb_metrics].
  - by intros [= <- <-].
  - destruct (new_metric _ _ _ _) as [h1 x] eqn:E. intros Hr Ho.
    apply (new_metric_live _ _ buf) in E as (W & L & Hx & Hold); [|done..|].
    + apply (IH _ _ W L Hr). rewrite fmap_app. apply Forall_app. split; [|by constructor].
      rewrite Forall_fmap, Forall_forall in *. intros y Hy. change (OrgId (deref h1 y) = org).
      rewrite Hold by done. by apply Ho.
    + intros h0 s0 h2 s2 Hw0 Hs0 Ht. eexists. by eapply append_all_grown.
Qed.

Lemma put_emptied_tags l h y :
  l < length (objs h) →
  o_tags (object (put_emptied l h) y) =
    if decide (y = l) then mkSlice (arr (o_tags (object h l))) 0 else o_tags (object h y).
Proof.
  intros Hl. unfold put_emptied. change (object (Put l ?x) y) with (object x y).
  rewrite object_set by done. by case_decide.
Qed.

Lemma put_emptied_wf l buf h :
  wf h → live h (l :: buf) → wf (put_emptied l h) ∧ live (put_emptied l h) buf.
Proof.
  intros Hw (Hn & Hl & Hout). apply NoDup_cons in Hn as [Hlb Hn].
  apply Forall_cons in Hl as [Hl Hlt].
  assert (Hol : length (objs (put_emptied l h)) = length (objs h)) by (cbn; by rewrite length_insert).
  assert (Hpool : pool (put_emptied l h) = pool h ++ [l]) by done.
  assert (Hlp : l ∉ pool h) by (apply Hout; left).
  split.
  - split; [apply Hw| |].
    + rewrite Hpool, Hol. destruct (wf_pool h Hw) as [A B]. split.
      * apply NoDup_app. split_and!; [done|by intros x Hx ->%list_elem_of_singleton|apply NoDup_singleton].
      * by apply Forall_app; split; [|apply Forall_singleton].
    + intros y Hy. rewrite Hol in Hy. destruct (wf_objs h Hw y Hy) as [A B].
      unfold slice_ok. rewrite put_emptied_tags by done. case_decide as E; [subst y|done].
      split; [done|apply Nat.le_0_l].
  - split_and!; [done|by rewrite Hol|]. intros y Hy. rewrite Hpool.
    intros [H|H%list_elem_of_singleton]%elem_of_app; [|by subst].
    eapply Hout; [by right|done].
Qed.

Lemma put_all_emptied_wf buf h : wf h → live h buf → wf (put_all_emptied buf h).
Proof.
  unfold put_all_emptied. revert h. induction buf as [|l buf IH]; intros h Hw Hb; [done|].
  cbn [foldl]. by apply put_emptied_wf in Hb as [Hw' Hb']; [apply IH|].
Qed.

Lemma put_emptied_clean l buf h : clean h (l :: buf) → clean (put_emptied l h) buf.
Proof.
  intros (Hw & Hb & Hp & Ha). destruct (put_emptied_wf l buf h Hw Hb) as [Hw' Hb'].
  destruct Hb as (_ & [Hl _]%Forall_cons & _).
  assert (Hpool : pool (put_emptied l h) = pool h ++ [l]) by done.
  split_and!; [done|done| |].
  - intros y. rewrite Hpool, put_emptied_tags by done.
    intros [H|H%list_elem_of_singleton]%elem_of_app; case_decide; try done. by apply Hp.
  - assert (Harr : ∀ y, arr (o_tags (object (put_emptied l h) y)) = arr (o_tags (object h y))).
    { intros y. rewrite put_emptied_tags by done. by case_decide; [subst|]. }
    intros y z. rewrite !Harr, Hpool, <- app_assoc. apply Ha.
Qed.

Lemma put_all_emptied_clean buf h : clean h buf → clean (put_all_emptied buf h) [].
Proof.
  unfold put_all_emptied. revert h. induction buf as [|l buf IH]; intros h Hc; [done|].
  cbn [foldl]. by apply IH, put_emptied_clean.
Qed.

(** ** Properties *)

Context {S E : Type} (publisher : Publisher S E).
Context (snappy_Decode : string → option string) (proto_Unmarshal : string → option (list timeseries)).
Context (gunzip : option string → option (option string)).
Context (tsdb_Unmarshal : string → option (list OpenTSDBMetric)).

(** The reply to a batch is what the publisher said of it. *)
Definition publish_reply (batch : list MetricData) (p : pstate S) : list Z :=
  [match (Publish publisher batch p).2 with Some _ => 500 | None => 200 end]%Z.

Lemma finish_spec release buf h p :
  let r := finish publisher release buf [] h p in
  let batch := deref h <$> buf in
  r_batch r = Some batch ∧ r_heap r = release buf h ∧ r_pub r = (Publish publisher batch p).1.1 ∧
  (status <$> r_replies r) = publish_reply batch p.
Proof.
  unfold finish, publish_reply. destruct (Publish publisher _ p) as [[p' ms] err]. cbn.
  by destruct err.
Qed.

(** C25. The Prometheus writer hands the publisher one metric for each sample, in
    order, in the user's org, with the series' name and sorted labels and the
    sample's value and time in seconds, and its id; whatever the pool's metrics
    hold and whichever of them it is given. A series without a name refuses the
    request, with nothing published. *)
Theorem prometheus_publishes_its_samples user compressed text series h p :
  wf h → snappy_Decode compressed = Some text → proto_Unmarshal text = Some series →
  let r := PrometheusMTWrite spare pick publisher snappy_Decode proto_Unmarshal user
             (Some (Some compressed)) h p in
  let batch := series ≫= prom_metrics (ID user) in
  wf (r_heap r) ∧
  (Forall named series → r_batch r = Some batch ∧ r_pub r = (Publish publisher batch p).1.1 ∧
     (status <$> r_replies r) = publish_reply batch p) ∧
  (¬ Forall named series → r_batch r = None ∧ r_pub r = p ∧ (status <$> r_replies r) = [400]%Z).
Proof.
  intros Hw E1 E2. cbv zeta. unfold PrometheusMTWrite. rewrite E1, E2.
  assert (Hb : live h []) by (split_and!; [apply NoDup_nil_2|apply Forall_nil_2|by intros l ?%elem_of_nil]).
  pose proof (prom_series_spec (ID user) series [] h Hw Hb) as H.
  destruct (prom_series spare pick (ID user) series [] h) as [h1 [buf|]].
  - destruct H as (F & W & L & D). destruct (finish_spec put_all buf h1 p) as (B1 & B2 & B3 & B4).
    rewrite D in *. cbn [fmap list_fmap app] in *. split_and!; [|done|done].
    rewrite B2. by apply put_all_wf.
  - destruct H as [F W]. by split_and!.
Qed.

(** C26. The OpenTSDB writer hands the publisher one metric for each data point,
    in order, in the user's org, with the point's tags sorted and its id,
    provided that the pooled metrics hold no tags and share no array, and it
    leaves the pool in that state. *)
Theorem opentsdb_publishes_its_points user (gzipped : bool) raw text req h p :
  clean h [] → (if gzipped then gunzip raw else Some raw) = Some (Some text) →
  tsdb_Unmarshal text = Some req →
  let r := OpenTSDBWrite spare pick publisher gunzip tsdb_Unmarshal user gzipped (Some raw) h p in
  let batch := tsdb_metric (ID user) <$> req in
  clean (r_heap r) [] ∧ r_batch r = Some batch ∧ r_pub r = (Publish publisher batch p).1.1 ∧
  (status <$> r_replies r) = publish_reply batch p.
Proof.
  intros Hc E1 E2. cbv zeta. unfold OpenTSDBWrite. rewrite E1, E2.
  destruct (tsdb_metrics spare pick (ID user) req [] h) as [h1 buf] eqn:Et.
  apply tsdb_metrics_spec in Et as [Hc1 D]; [|exact Hc].
  destruct (finish_spec put_all_emptied buf h1 p) as (B1 & B2 & B3 & B4).
  rewrite D in *. cbn [fmap list_fmap app] in *. split_and!; [|done|done|done].
  rewrite B2. by apply put_all_emptied_clean.
Qed.
End spec.

(** ** Witnesses and the dirty pool *)

(** [append] doubles the array, and the pool hands out its first metric. *)
Definition ex_spare : nat → nat := Nat.pred.
Definition ex_pick : nat → nat := λ _, 0.

Definition ex_null : Publisher unit unit := nullPublisher.
Definition ex_pub0 : pstate unit := Publish.mkPState tt ∅.

Definition ex_series : list timeseries :=
  [mkSeries [("__name__", "up"); ("job", "node"); ("instance", "a"); ("az", "1")]
     [mkSample 1 1500000000123; mkSample 0 1500000010123]].
Definition ex_point (tag : string) : OpenTSDBMetric := mkTsdb "cpu" 1500000000 7 [("zone", tag)].

Definition ex_prom (org : Z) (h : heap) : result unit :=
  PrometheusMTWrite ex_spare ex_pick ex_null Some (λ _, Some ex_series)
    (mkUser org false ROLE_EDITOR) (Some (Some "")) h ex_pub0.
Definition ex_tsdb (org : Z) (req : list OpenTSDBMetric) (h : heap) : result unit :=
  OpenTSDBWrite ex_spare ex_pick ex_null Some (λ _, Some req)
    (mkUser org false ROLE_EDITOR) false (Some (Some "")) h ex_pub0.

(** The tags of what was handed to the publisher. *)
Definition batch_tags (r : result unit) : option (list (list string)) :=
  match r_batch r with Some b => Some (Tags <$> b) | None => None end.

Lemma empty_wf : wf empty_heap.
Proof. split; [done|split; [apply NoDup_nil_2|apply Forall_nil_2]|intros l H; cbn in H; lia]. Qed.

Lemma empty_clean : clean empty_heap [].
Proof.
  split_and!; [apply empty_wf|split_and!; [apply NoDup_nil_2|apply Forall_nil_2|by intros l ?%elem_of_nil]| |].
  - by intros l ?%elem_of_nil.
  - by intros x y ?%elem_of_nil.
Qed.

Lemma prometheus_publishes_its_samples_witness :
  batch_tags (ex_prom 1 empty_heap) =
    Some [["az=1"; "instance=a"; "job=node"]; ["az=1"; "instance=a"; "job=node"]].
Proof.
  destruct (prometheus_publishes_its_samples ex_spare ex_pick ex_null Some (λ _, Some ex_series)
    (mkUser 1 false ROLE_EDITOR) "" "" ex_series empty_heap ex_pub0 empty_wf eq_refl eq_refl) as (_ & H & _).
  destruct H as [H _]; [repeat constructor; discriminate|].
  unfold batch_tags, ex_prom. rewrite H. vm_compute. reflexivity.
Defined.

Lemma opentsdb_publishes_its_points_witness :
  batch_tags (ex_tsdb 2 [ex_point "eu"; ex_point "us"] empty_heap) =
    Some [["zone=eu"]; ["zone=us"]].
Proof.
  destruct (opentsdb_publishes_its_points ex_spare ex_pick ex_null Some
    (λ _, Some [ex_point "eu"; ex_point "us"]) (mkUser 2 false ROLE_EDITOR) false (Some "") ""
    [ex_point "eu"; ex_point "us"] empty_heap ex_pub0 empty_clean eq_refl eq_refl) as (_ & H & _).
  unfold batch_tags, ex_tsdb. rewrite H. vm_compute. reflexivity.
Defined.

(** After a Prometheus request of org 1, whose metrics go back to the pool
    with their tags, an OpenTSDB request of org 2 publishes metrics that carry
    the labels of org 1. As those metrics share one array, the two points of
    the request even end up with the same tags, and the first with an id that
    is not that of its tags. *)
Theorem pooled_tags_leak :
  let h := r_heap (ex_prom 1 empty_heap) in
  let batch := default [] (r_batch (ex_tsdb 2 [ex_point "eu"; ex_point "us"] h)) in
  (OrgId <$> batch) = [2; 2]%Z ∧
  (Tags <$> batch) = [["az=1"; "instance=a"; "job=node"; "zone=us"];
                      ["az=1"; "instance=a"; "job=node"; "zone=us"]] ∧
  ((λ m, bool_decide (SetId m = m)) <$> batch) = [false; true].
Proof. vm_compute. split; [|split]; reflexivity. Qed.
