(* ===== verification/Query.v ===== *)
(** * query/graphite, query/metrictank, ingest/mt_bulk_importer.go

    The proxies to the backends, with what [httputil.ReverseProxy] (Go 1.12, the
    version the repository is built with) makes of a request around their
    directors; the retrying transport of the graphite proxy; the check of the
    time range of a query. *)

From S2P Require Import Prelude GoStrings Strconv Util Http.
From Stdlib Require Import Ascii.

(** ** Headers and requests *)

(** By canonical key; [Get] is the first value. *)
Abbreviation header := (gmap string (list string)).

(** The bytes of a header name. *)
Definition token_byte (c : ascii) : bool :=
  let v := byte_val c in
  bool_decide (48 ≤ v ≤ 57 ∨ 65 ≤ v ≤ 90 ∨ 97 ≤ v ≤ 122)%Z || has_byte c "!#$%&'*+-.^_`|~".

Fixpoint all_token (s : string) : bool :=
  match s with "" => true | String c s' => token_byte c && all_token s' end.

Fixpoint canon_go (up : bool) (s : string) : string :=
  match s with
  | "" => ""
  | String c s' => String (if up then upper c else lower c) (canon_go (bool_decide (c = "-"%char)) s')
  end.

(** [CanonicalHeaderKey]: a name with another byte is left as it is. *)
Definition canonical (s : string) : string := if all_token s then canon_go true s else s.

Definition Del (k : string) (h : header) : header := delete (canonical k) h.
Definition Add (k v : string) (h : header) : header :=
  <[canonical k := default [] (h !! canonical k) ++ [v]]> h.
Definition Get (k : string) (h : header) : string :=
  default "" (head (default [] (h !! canonical k))).

Record URL := mkURL { Scheme : string; Host : string; Path : string }.
Record http_req := mkHttp { url : URL; hdr : header; rq_bytes : option string }.

Definition with_hdr (h : header) (r : http_req) : http_req := mkHttp (url r) h (rq_bytes r).

(** ** httputil.ReverseProxy *)

Definition hopHeaders : list string :=
  ["Connection"; "Proxy-Connection"; "Keep-Alive"; "Proxy-Authenticate"; "Proxy-Authorization";
   "Te"; "Trailer"; "Transfer-Encoding"; "Upgrade"].

Definition upgradeType (h : header) : string :=
  if existsb (λ v, existsb (λ t, bool_decide (lower_str (TrimSpace t) = "upgrade")) (Split "," v))
       (default [] (h !! "Connection"))
  then lower_str (Get "Upgrade" h) else "".

(** The names listed in the first Connection header. *)
Definition connection_names (h : header) : list string :=
  filter (λ f, f ≠ "") (TrimSpace <$> Split "," (Get "Connection" h)).

Definition removeConnectionHeaders (h : header) : header :=
  foldl (λ h f, Del f h) h (connection_names h).

Definition remove_hop (h : header) (k : string) : header :=
  let hv := Get k h in
  if bool_decide (hv = "" ∨ (k = "Te" ∧ hv = "trailers")) then h else Del k h.

Definition add_upgrade (t : string) (h : header) : header :=
  if bool_decide (t = "") then h
  else <["Upgrade" := [t]]> (<["Connection" := ["Upgrade"]]> h).

Definition add_forwarded (clientIP : string) (h : header) : header :=
  let ip := match h !! "X-Forwarded-For" with
            | Some prior => Join ", " prior +:+ ", " +:+ clientIP | None => clientIP end in
  <["X-Forwarded-For" := [ip]]> h.

(** What the proxy sends upstream. *)
Definition ServeHTTP (director : http_req → http_req) (clientIP : string) (req : http_req) : http_req :=
  let out := director req in
  let t := upgradeType (hdr out) in
  let h := foldl remove_hop (removeConnectionHeaders (hdr out)) hopHeaders in
  with_hdr (add_forwarded clientIP (add_upgrade t h)) out.

(** ** The directors *)

Definition set_org (orgId : Z) (h : header) : header := Add "X-Org-Id" (Itoa orgId) (Del "X-Org-Id" h).

Section proxies.
Context (clientIP : string).

(** mt_bulk_importer.go *)
Definition importer_director (importer : URL) (orgId : Z) (req : http_req) : http_req :=
  mkHttp importer (set_org orgId (hdr req)) (rq_bytes req).
Definition MtBulkImporter (importer : URL) (user : User) (req : http_req) : http_req :=
  ServeHTTP (importer_director importer (ID user)) clientIP req.

(** metrictank.go, prometheus.go *)
Definition metrictank_director (metrictank : URL) (orgId : Z) (path : string) (req : http_req) : http_req :=
  mkHttp (mkURL (Scheme metrictank) (Host metrictank) (JoinUrlFragments (Path metrictank) path))
    (set_org orgId (hdr req)) (rq_bytes req).
Definition MetrictankProxy (metrictank : URL) (path : string) (user : User) (req : http_req) : http_req :=
  ServeHTTP (metrictank_director metrictank (ID user) path) clientIP req.
(** [star] is the part of the path the route's * stands for. *)
Definition PrometheusProxy (metrictank : URL) (star : string) (user : User) (req : http_req) : http_req :=
  ServeHTTP (metrictank_director metrictank (ID user) ("/prometheus/" +:+ star)) clientIP req.

(** graphite.go: the request is changed before the proxy gets it; [captured] is
    the body [CaptureBody] kept. *)
Definition graphite_director (graphite : URL) (req : http_req) : http_req :=
  mkHttp (mkURL (Scheme graphite) (Host graphite) (Path (url req))) (hdr req) (rq_bytes req).
Definition graphite_Proxy (graphite : URL) (orgId : Z) (star : string) (req : http_req) : http_req :=
  ServeHTTP (graphite_director graphite) clientIP
    (mkHttp (mkURL (Scheme (url req)) (Host (url req)) (JoinUrlFragments (Path graphite) star))
       (set_org orgId (hdr req)) (rq_bytes req)).
Definition GraphiteProxy (graphite : URL) (captured : option string) (user : User) (star : string)
    (req : http_req) : http_req :=
  graphite_Proxy graphite (ID user) star
    (match captured with Some b => mkHttp (url req) (hdr req) (Some b) | None => req end).
End proxies.

(** ** The retrying transport

    [transport] is the state of the network: a call sees the request, with a
    fresh reader of the body; [inject] adds the headers of the tracer. *)
Section retry.
Context {N R E : Type} (transport : http_req → N → N * (R + E)) (inject : nat → header → header).

(** [None]: out of fuel, which four rounds do not run into
    ([RoundTrip_returns]). The result has the number of attempts. *)
Fixpoint round_trips (fuel attempts : nat) (req : http_req) (n : N) : option (N * nat * (R + E)) :=
  match fuel with
  | 0 => None
  | S fuel' =>
      let attempts := S attempts in
      let req := with_hdr (inject attempts (hdr req)) req in
      match transport req n with
      | (n, inl res) => Some (n, attempts, inl res)
      | (n, inr err) =>
          if bool_decide (attempts ≤ 3) then round_trips fuel' attempts req n
          else Some (n, attempts, inr err)
      end
  end.

(** [body]: [Some None], the body of the incoming request could not be read. *)
Definition RoundTrip (read_error : E) (body : option (option string)) (req : http_req) (n : N) :
    option (N * nat * (R + E)) :=
  match body with
  | Some None => Some (n, 0, inr read_error)
  | Some (Some b) => round_trips 4 0 (mkHttp (url req) (hdr req) (Some b)) n
  | None => round_trips 4 0 req n
  end.
End retry.

(** ** validators.go *)

Record FromTo := mkFromTo { From : string; Until : string; To : string; Tz : string }.

Inductive binding_error := ParseFailed | RangeTooLarge.

Section validate.
(** [dur.ParseDateTime] in the local zone at this time, with the default. *)
Context (ParseDateTime : string → Z → option Z).

Definition getFromTo (ft : FromTo) (defaultFrom defaultTo : Z) : option (Z * Z) :=
  let to := if bool_decide (To ft = "") then Until ft else To ft in
  fromUnix ← ParseDateTime (From ft) defaultFrom;
  toUnix ← ParseDateTime to defaultTo;
  Some (fromUnix, toUnix).

(** [now] in seconds; the difference is of [uint32]s. *)
Definition Validate (timerangeLimit : Z) (path : string) (now : Z) (ft : FromTo)
    (errs : list binding_error) : list binding_error :=
  if negb (HasPrefix path "/graphite/render") then errs else
  let defaultFrom := wrap_u 32 (now - 24 * 3600) in
  let defaultTo := wrap_u 32 now in
  match getFromTo ft defaultFrom defaultTo with
  | None => errs ++ [ParseFailed]
  | Some (fromUnix, toUnix) =>
      if bool_decide (timerangeLimit < wrap_u 32 (toUnix - fromUnix))%Z
      then errs ++ [RangeTooLarge] else errs
  end.
End validate.
