(* ===== verification/QuerySpec.v ===== *)
(** * What the query side promises

    The org header the backends see, the attempts of the retrying transport and
    the bound on the time range of a query. *)

From S2P Require Import Prelude GoStrings Strconv Util Http Query.
From Stdlib Require Import Ascii.

(** ** The org header *)

Definition org_key : string := "X-Org-Id".

(** The client lists the org header as a header of its connection. *)
Definition names_org (h : header) : bool :=
  existsb (λ f, bool_decide (canonical f = org_key)) (connection_names h).

Lemma canonical_org : canonical "X-Org-Id" = org_key.
Proof. vm_compute. reflexivity. Qed.

Lemma set_org_lookup o h : set_org o h !! org_key = Some [Itoa o].
Proof.
  unfold set_org, Add, Del. rewrite canonical_org, lookup_insert_eq, lookup_delete_eq. done.
Qed.

Lemma set_org_other o h k : k ≠ org_key → set_org o h !! k = h !! k.
Proof.
  intros Hk. unfold set_org, Add, Del. rewrite canonical_org.
  by rewrite lookup_insert_ne, lookup_delete_ne by done.
Qed.

Lemma set_org_names o h : connection_names (set_org o h) = connection_names h.
Proof.
  unfold connection_names, Get.
  replace (canonical "Connection") with "Connection" by (vm_compute; reflexivity).
  by rewrite set_org_other.
Qed.

Lemma Del_names_lookup l h :
  foldl (λ h f, Del f h) h l !! org_key =
    if existsb (λ f, bool_decide (canonical f = org_key)) l then None else h !! org_key.
Proof.
  revert h. induction l as [|f l IH]; intros h; [done|]. cbn [foldl existsb]. rewrite IH. unfold Del.
  case_bool_decide as E.
  - rewrite E, lookup_delete_eq. by destruct (existsb _ l).
  - by rewrite lookup_delete_ne.
Qed.

Lemma remove_hops_lookup l h :
  Forall (λ k, canonical k ≠ org_key) l → foldl remove_hop h l !! org_key = h !! org_key.
Proof.
  intros Hl. revert h. induction Hl as [|k l Hk _ IH]; intros h; [done|]. cbn [foldl].
  rewrite IH. unfold remove_hop. case_bool_decide; [done|]. unfold Del. by rewrite lookup_delete_ne.
Qed.

Lemma hop_not_org : Forall (λ k, canonical k ≠ org_key) hopHeaders.
Proof. apply (bool_decide_unpack _). vm_compute. exact I. Qed.

(** The proxy keeps the org header unless the client lists it. *)
Lemma ServeHTTP_org d ip req :
  hdr (ServeHTTP d ip req) !! org_key =
    if names_org (hdr (d req)) then None else hdr (d req) !! org_key.
Proof.
  unfold ServeHTTP. cbn [hdr with_hdr]. unfold add_forwarded. rewrite lookup_insert_ne by done.
  assert (Hu : ∀ t h, add_upgrade t h !! org_key = h !! org_key).
  { intros t h. unfold add_upgrade. case_bool_decide; [done|]. by rewrite !lookup_insert_ne. }
  rewrite Hu, remove_hops_lookup by apply hop_not_org. unfold removeConnectionHeaders.
  apply Del_names_lookup.
Qed.

(** The headers and target a backend sees. *)
Definition org_sent (o : Z) (client up : http_req) : Prop :=
  hdr up !! org_key = if names_org (hdr client) then None else Some [Itoa o].

Lemma set_org_sent o d ip client req :
  hdr (d req) = set_org o (hdr client) → org_sent o client (ServeHTTP d ip req).
Proof.
  intros H. unfold org_sent. rewrite ServeHTTP_org, H, set_org_lookup. unfold names_org.
  by rewrite set_org_names.
Qed.

(** C24. Tenant isolation of the query side. Whatever org headers the client
    sends, each of the four proxies sends its backend exactly one, the org of
    the authenticated user, to the configured host; unless the client lists
    X-Org-Id in its Connection header, when the backend gets none. *)
Theorem proxies_send_the_users_org ip backend path star captured user req :
  let o := ID user in
  let importer := MtBulkImporter ip backend user req in
  let metrictank := MetrictankProxy ip backend path user req in
  let prometheus := PrometheusProxy ip backend star user req in
  let graphite := GraphiteProxy ip backend captured user star req in
  Forall (org_sent o req) [importer; metrictank; prometheus; graphite] ∧
  Forall (λ up, (Scheme (url up), Host (url up)) = (Scheme backend, Host backend))
    [importer; metrictank; prometheus; graphite] ∧
  Path (url metrictank) = JoinUrlFragments (Path backend) path ∧
  Path (url prometheus) = JoinUrlFragments (Path backend) ("/prometheus/" +:+ star) ∧
  Path (url graphite) = JoinUrlFragments (Path backend) star.
Proof.
  cbv zeta. split; [|split; [repeat constructor|repeat split]].
  repeat constructor; apply set_org_sent; try done. by destruct captured.
Qed.

(** ** The retrying transport *)

(** The network as the list of the requests it got; [answer i] is what it says
    to the [i]-th. *)
Definition logging {R E} (answer : nat → R + E) (r : http_req) (log : list http_req) :
    list http_req * (R + E) :=
  (log ++ [r], answer (length log)).

Lemma round_trips_spec {R E} (answer : nat → R + E) inject fuel attempts req log :
  length log = attempts → attempts + fuel = 4 → 0 < fuel →
  ∃ log' r, round_trips (logging answer) inject fuel attempts req (log ++ []) = Some (log', length log', r) ∧
    attempts < length log' ≤ 4 ∧ r = answer (length log' - 1) ∧
    (∀ i, attempts ≤ i → i < length log' - 1 → ∃ e, answer i = inr e) ∧
    ((∃ e, r = inr e) → length log' = 4) ∧
    ∃ new, log' = log ++ new ∧ Forall (λ q, rq_bytes q = rq_bytes req ∧ url q = url req) new.
Proof.
  revert attempts req log. induction fuel as [|fuel IH]; intros attempts req log Hl Hf H0; [lia|].
  rewrite app_nil_r. cbn [round_trips]. cbv zeta. unfold logging at 1.
  set (q := with_hdr (inject (S attempts) (hdr req)) req).
  assert (Hlog : length (log ++ [q]) = S attempts) by (rewrite length_app; simpl; lia).
  assert (Hq : Forall (λ x, rq_bytes x = rq_bytes req ∧ url x = url req) [q]) by (repeat constructor).
  rewrite Hl. destruct (answer attempts) as [res|err] eqn:Ea.
  - exists (log ++ [q]), (inl res). rewrite Hlog. split_and!; try lia; try done.
    + by rewrite Nat.sub_1_r, Nat.pred_succ, Ea.
    + by intros [].
    + eauto.
  - case_bool_decide as Hle.
    + destruct (IH (S attempts) q (log ++ [q]) Hlog ltac:(lia) ltac:(lia))
        as (log' & r & Erun & Hr & -> & Hfail & Herr & new & -> & Hnew).
      rewrite app_nil_r in Erun. eexists _, _. split; [exact Erun|]. split_and!; try lia; try done.
      * intros i Hi. destruct (decide (i = attempts)) as [->|]; [eauto|]. apply Hfail. lia.
      * exists (q :: new). rewrite <- app_assoc. split; [done|]. constructor; [done|exact Hnew].
    + exists (log ++ [q]), (inr err). rewrite Hlog. split_and!; try lia; try done.
      * by rewrite Nat.sub_1_r, Nat.pred_succ, Ea.
      * eauto.
Qed.

(** The graphite transport returns after one to four attempts, with the
    first answer that is not an error or with the error of the fourth; every
    attempt sends the same request with its whole body. *)
Theorem RoundTrip_retries {R E} (answer : nat → R + E) inject (read_error : E) body req :
  body ≠ Some None →
  ∃ log r, RoundTrip (logging answer) inject read_error body req [] = Some (log, length log, r) ∧
    1 ≤ length log ≤ 4 ∧ r = answer (length log - 1) ∧
    (∀ i, i < length log - 1 → ∃ e, answer i = inr e) ∧
    ((∃ e, r = inr e) → length log = 4) ∧
    Forall (λ q, url q = url req ∧
      rq_bytes q = match body with Some (Some b) => Some b | _ => rq_bytes req end) log.
Proof.
  intros Hb.
  destruct (round_trips_spec answer inject 4 0
    (match body with Some (Some b) => mkHttp (url req) (hdr req) (Some b) | _ => req end)
    [] eq_refl eq_refl ltac:(lia)) as (log & r & Erun & Hr & Ha & Hf & He & new & Hn & Hq).
  exists log, r. split_and!; try done; try lia.
  - by destruct body as [[b|]|].
  - intros i. apply Hf. lia.
  - cbn in Hn. subst new. eapply Forall_impl; [exact Hq|]. intros q [H1 H2].
    by destruct body as [[b|]|].
Qed.

Lemma RoundTrip_retries_witness :
  ∃ log r, RoundTrip (logging (λ i, if bool_decide (i < 2) then inr "refused" else inl 200%Z))
      (λ _ h, h) "read" (Some (Some "target=a")) (mkHttp (mkURL "http" "graphite" "/render") ∅ None) []
    = Some (log, length log, r) ∧ 1 ≤ length log ≤ 4.
Proof.
  destruct (RoundTrip_retries (λ i, if bool_decide (i < 2) then inr "refused" else inl 200%Z)
    (λ _ h, h) "read" (Some (Some "target=a")) (mkHttp (mkURL "http" "graphite" "/render") ∅ None))
    as (log & r & H & Hl & _); [discriminate|].
  exists log, r. split; [exact H|exact Hl].
Defined.

(** ** The time range *)

Section range.
Context (ParseDateTime : string → Z → option Z).

(** A render query passes the check exactly when both ends parse and the
    distance from the first to the second, modulo 2^32, is within the limit: a
    reversed range is taken as almost 2^32 seconds long. The end is [to], or
    [until] where [to] is empty. Other paths pass. *)
Theorem Validate_bounds_the_range limit path now ft :
  (∀ s d t, is_u 32 d → ParseDateTime s d = Some t → is_u 32 t) → is_u 32 limit →
  Validate ParseDateTime limit path now ft [] = [] ↔
    HasPrefix path "/graphite/render" = false ∨
    ∃ from to, ParseDateTime (From ft) (wrap_u 32 (now - 86400)) = Some from ∧
      ParseDateTime (if bool_decide (To ft = "") then Until ft else To ft) (wrap_u 32 now) = Some to ∧
      (from ≤ to ∧ to - from ≤ limit ∨ to < from ∧ 2 ^ 32 - (from - to) ≤ limit)%Z.
Proof.
  intros Hp Hlim. unfold Validate, getFromTo. destruct (HasPrefix path _); [|naive_solver]. cbn [negb].
  change (24 * 3600)%Z with 86400%Z.
  assert (H1 : is_u 32 (wrap_u 32 (now - 86400))) by by apply wrap_u_range.
  assert (H2 : is_u 32 (wrap_u 32 now)) by by apply wrap_u_range.
  set (e := if bool_decide (To ft = "") then Until ft else To ft).
  destruct (ParseDateTime (From ft) _) as [from|] eqn:E1; [|naive_solver].
  cbn [mbind option_bind].
  destruct (ParseDateTime e (wrap_u 32 now)) as [to|] eqn:E2; [|naive_solver].
  cbn [mbind option_bind]. apply Hp in E1, E2; [|done..].
  assert (Hw : wrap_u 32 (to - from) = if decide (from ≤ to)%Z then (to - from)%Z else (to - from + 2 ^ 32)%Z).
  { unfold is_u in *. unfold wrap_u. case_decide.
    - apply Z.mod_small. lia.
    - rewrite <- (Z_mod_plus_full _ 1). apply Z.mod_small. lia. }
  rewrite Hw. clear Hw. unfold is_u in *. split.
  - case_bool_decide as Hc; [done|]. intros _. right. exists from, to. split_and!; try done.
    case_decide; lia.
  - intros [|(f & t & [= <-] & [= <-] & H)]; [done|]. rewrite bool_decide_eq_false_2; [done|].
    case_decide; lia.
Qed.
End range.

(** Seconds in decimal; the default where there are none. *)
Definition ex_parse (s : string) (d : Z) : option Z :=
  if bool_decide (s = "") then Some d else ParseUint s 32.

Lemma Validate_bounds_the_range_witness :
  Validate ex_parse 3600 "/graphite/render" 1500000000 (mkFromTo "1499999000" "" "" "") [] = [] ∧
  Validate ex_parse 3600 "/graphite/render" 1500000000 (mkFromTo "1500000000" "1499990000" "" "") [] ≠ [].
Proof.
  assert (Hp : ∀ s d t, is_u 32 d → ex_parse s d = Some t → is_u 32 t).
  { intros s d t Hd. unfold ex_parse. case_bool_decide; [by intros [= <-]|]. apply ParseUint_is_u. }
  assert (Hl : is_u 32 3600) by (split; [done|reflexivity]).
  split.
  - apply (Validate_bounds_the_range ex_parse 3600 _ _ _ Hp Hl). right.
    exists 1499999000%Z, 1500000000%Z. split; [vm_compute; reflexivity|].
    split; [vm_compute; reflexivity|]. left. lia.
  - rewrite (Validate_bounds_the_range ex_parse 3600 _ _ _ Hp Hl).
    intros [H|(f & t & Hf & Ht & H)]; [vm_compute in H; discriminate|].
    vm_compute in Hf, Ht. injection Hf as <-. injection Ht as <-. lia.
Defined.
