(* ===== verification/Datadog.v ===== *)
(** * ingest/datadog

    The Datadog agent's endpoints: util.go, datadog.go, intake.go, and the
    metrics payloads/intake.go makes of an agent's description. The metrics come
    from the pool of Write.v. JSON, zlib and the conversion of a [float64] to an
    [int64] are parameters. *)

From S2P Require Import Prelude GoStrings Strconv Schema Publish Http Write.
From Stdlib Require Import Ascii.

(** ** util.go *)

(** A Datadog tag "key:value" as a metric tag. *)
Definition dd_tag (t : string) : string :=
  match SplitN2 ":" t with
  | [k; v] => if bool_decide (v = "") then k else k +:+ "=" +:+ v
  | k :: _ => k
  | [] => ""
  end.

Definition raw_tag_set (host device : string) (ctags : list string) : list string :=
  (if bool_decide (device = "") then [] else ["device=" +:+ device]) ++
  ["host=" +:+ host] ++ (dd_tag <$> ctags).

Definition createTagSet (spare : nat → nat) (host device : string) (ctags : list string) (h : heap) :
    heap * slice :=
  let '(h, s) := append_all spare (raw_tag_set host device ctags) h nil_slice in
  (sort_slice s h, s).

(** What was read, and whether the reading ended without an error; [zlib] is
    [None] where the header is wrong. *)
Definition decodeJSON (zlib : string * bool → option (string * bool)) (encoded : bool)
    (body : string * bool) : string * bool :=
  if encoded then default ("", false) (zlib body) else body.

(** ** datadog.go *)

Record dd_series := mkDDSeries {
  dd_Name : string; dd_Points : list (Z * Z); dd_Tags : list string; dd_Host : string;
  dd_Mtype : string; dd_Device : string }.

Record dd_check := mkDDCheck {
  ck_Check : string; ck_Host : string; ck_Timestamp : Z; ck_Status : Z; ck_Tags : list string }.

Section datadog.
Context (spare pick : nat → nat).
Context {S E : Type} (publisher : Publisher S E).
Context (zlib : string * bool → option (string * bool)).
Context (int64_of_float : Z → Z).

Fixpoint dd_metrics (org : Z) (l : list dd_series) (buf : list nat) (h : heap) : heap * list nat :=
  match l with
  | [] => (h, buf)
  | ts :: l' =>
      let '(h, tagSet) := createTagSet spare (dd_Host ts) (dd_Device ts) (dd_Tags ts) h in
      let '(h, buf) := new_metrics pick tagSet
        ((λ p, literal org (dd_Name ts) (dd_Mtype ts) p.2 (int64_of_float p.1)) <$> dd_Points ts) buf h in
      dd_metrics org l' buf h
  end.

(** The deferred call got the slice while it was empty: it puts nothing back. *)
Definition put_none (buf : list nat) (h : heap) : heap := h.

Context (unmarshal_series : string → option (list dd_series)).

Definition DataDogSeries (user : User) (deflate : bool) (body : option (string * bool)) (h : heap)
    (p : pstate S) : result S :=
  match body with
  | None => reply_only 400 "no data included in request." h p
  | Some body =>
      match decodeJSON zlib deflate body with
      | (_, false) => reply_only 400 "unable to decode request" h p
      | (data, true) =>
          match unmarshal_series data with
          | None => reply_only 400 "unable to unmarshal request" h p
          | Some series =>
              let '(h, buf) := dd_metrics (ID user) series [] h in
              finish publisher put_none buf [] h p
          end
      end
  end.

Fixpoint check_metrics (org : Z) (l : list dd_check) (buf : list nat) (h : heap) : heap * list nat :=
  match l with
  | [] => (h, buf)
  | c :: l' =>
      let '(h, tagSet) := createTagSet spare (ck_Host c) "" (ck_Tags c) h in
      let '(h, buf) := new_metrics pick tagSet
        [literal org (ck_Check c) "gauge" (ck_Status c) (ck_Timestamp c)] buf h in
      check_metrics org l' buf h
  end.

(** [json.Unmarshal]: what it has filled in, and whether it succeeded. *)
Context (unmarshal_checks : string → list dd_check * bool).

(** Neither error returns. *)
Definition DataDogCheck (user : User) (deflate : bool) (body : option (string * bool)) (h : heap)
    (p : pstate S) : result S :=
  match body with
  | None => reply_only 400 "no data included in request." h p
  | Some body =>
      let '(data, ok) := decodeJSON zlib deflate body in
      let r1 := if ok : bool then [] else [mkReply 400 "unable to decode request"] in
      let '(checks, ok) := unmarshal_checks data in
      let r2 := if ok : bool then [] else [mkReply 400 "unable to unmarshal request"] in
      let '(h, buf) := check_metrics (ID user) checks [] h in
      finish publisher put_none buf (r1 ++ r2) h p
  end.
End datadog.

(** ** payloads/intake.go: the fields the gateway reads *)

Record PersistPayload := mkPersist { pp_OrgID : Z; pp_Hostname : string; pp_Raw : string }.

Record DataDogIntakePayload := mkIntake {
  AgentVersion : string; OS : string; InternalHostname : string;
  Machine : string; Processor : string;
  SocketHostname : string; SocketFqdn : string; Hostname : string; InstanceID : string;
  System : list string; GoogleCloudPlatform : list string;
  Gohai_json : string; OrgID : Z }.

Record Filesystem := mkFs { MountedOn : string; fs_Name : string }.

Record Gohai := mkGohai {
  fss : list Filesystem;
  Ipaddress : string; Ipaddressv6 : string; Macaddress : string;
  GOOARCH : string; GOOS : string; GoV : string; HardwarePlatform : string; KernelName : string;
  KernelRelease : string; KernelVersion : string; g_Machine : string; g_Os : string;
  g_Processor : string; PythonV : string }.

(** [if v != "" { tags = append(tags, k + "=" + v) }] *)
Definition opt_tag (k v : string) : list string :=
  if bool_decide (v = "") then [] else [k +:+ "=" +:+ v].

Definition generateInfoTags (i : DataDogIntakePayload) : list string :=
  SortStrings
    (opt_tag "agentVersion" (AgentVersion i) ++ opt_tag "host" (Hostname i) ++
     opt_tag "hostname" (InternalHostname i) ++ opt_tag "machine" (Machine i) ++
     opt_tag "os" (OS i) ++ opt_tag "processor" (Processor i) ++
     opt_tag "socket_fqdn" (SocketFqdn i) ++ opt_tag "socket_hostname" (SocketHostname i) ++
     opt_tag "instanceID" (InstanceID i) ++
     (dd_tag <$> System i) ++ (dd_tag <$> GoogleCloudPlatform i)).

Definition generatePlatformTags (hostname : string) (g : Gohai) : list string :=
  SortStrings
    (["hostname=" +:+ hostname] ++ opt_tag "GOOARCH" (GOOARCH g) ++ opt_tag "GOOS" (GOOS g) ++
     opt_tag "GoV" (GoV g) ++ opt_tag "HardwarePlatform" (HardwarePlatform g) ++
     opt_tag "kernel_name" (KernelName g) ++ opt_tag "kernel_release" (KernelRelease g) ++
     opt_tag "kernel_version" (KernelVersion g) ++ opt_tag "machine" (g_Machine g) ++
     opt_tag "os" (g_Os g) ++ opt_tag "processor" (g_Processor g) ++ opt_tag "pythonV" (PythonV g)).

(** The metric literals leave the other fields zero; 1 as a [float64]. *)
Definition info_metric (org : Z) (name : string) (tags : list string) : MetricData :=
  mkMetricData "" org name 0 0x3FF0000000000000 "" 0 "" tags.

Definition fs_tags (hostname : string) (f : Filesystem) : list string :=
  ["hostname=" +:+ hostname; "name=" +:+ fs_Name f] ++ opt_tag "mountpoint" (MountedOn f).

(** A quote, and a quote behind a backslash. *)
Definition quote : string := bytes_of [34]%Z.
Definition escaped_quote : string := bytes_of [92; 34]%Z.

Definition GeneratePersistentMetrics (unmarshal_gohai : string → option Gohai)
    (i : DataDogIntakePayload) : list MetricData :=
  let first := info_metric (OrgID i) "system_info" (generateInfoTags i) in
  match unmarshal_gohai (Replace (Gohai_json i) escaped_quote quote) with
  | None => [first]
  | Some g =>
      [first;
       info_metric (OrgID i) "system_platform_info" (generatePlatformTags (InternalHostname i) g);
       info_metric (OrgID i) "system_network_info"
         ["hostname=" +:+ InternalHostname i; "ipaddress=" +:+ Ipaddress g;
          "ipaddressv6=" +:+ Ipaddressv6 g; "macaddress=" +:+ Macaddress g]] ++
      ((λ f, info_metric (OrgID i) "system_filesystem_info" (fs_tags (InternalHostname i) f)) <$> fss g)
  end.

(** ** intake.go

    [marshal] encodes the payload to persist, [persist] is persister/persist. *)
Section intake.
Context {C : Type} (persist : string → C → C * bool) (marshal : PersistPayload → option string).
Context (zlib : string * bool → option (string * bool)).
Context (unmarshal_intake : string → option DataDogIntakePayload).

Definition DataDogIntake (user : User) (deflate : bool) (body : option (string * bool)) (c : C) :
    C * reply string :=
  match body with
  | None => (c, mkReply 400 "no data included in request.")
  | Some body =>
      match decodeJSON zlib deflate body with
      | (_, false) => (c, mkReply 400 "unable to decode request")
      | (data, true) =>
          match unmarshal_intake data with
          | None => (c, mkReply 400 "unable to unmarshal request")
          | Some info =>
              if bool_decide (Gohai_json info = "") then (c, mkReply 200 "ok") else
              match marshal (mkPersist (ID user) (InternalHostname info) data) with
              | None => (c, mkReply 500 "marshal error")
              | Some payload =>
                  let '(c, ok) := persist payload c in
                  (c, if ok : bool then mkReply 200 "ok" else mkReply 500 "persist error")
              end
          end
      end
  end.
End intake.
