(* ===== verification/DatadogSpec.v ===== *)
(** * What the Datadog endpoints promise

    The series endpoint publishes its points whatever the pool holds, and never
    gives a metric back to the pool; the check endpoint goes on after its
    errors; the tags and the persistent metrics of an agent. *)

From S2P Require Import Prelude GoStrings Strconv Schema Publish Http Write WriteSpec Datadog.
From Stdlib Require Import Ascii.

(** ** Tags *)

Lemma createTagSet_grown spare host device ctags h h1 s :
  wf h → createTagSet spare host device ctags h = (h1, s) →
  grown h nil_slice (SortStrings (raw_tag_set host device ctags)) h1 s.
Proof.
  intros Hw. unfold createTagSet.
  destruct (append_all spare (raw_tag_set host device ctags) h nil_slice) as [h0 s0] eqn:E.
  intros [= <- <-]. by apply (sorted_grown spare).
Qed.

(** ** Series *)

Section spec.
Context (spare pick : nat → nat).
Context {S E : Type} (publisher : Publisher S E).
Context (zlib : string * bool → option (string * bool)).
Context (int64_of_float : Z → Z).

(** The metrics a series stands for. *)
Definition series_metrics (org : Z) (ts : dd_series) : list MetricData :=
  (λ p, SetId (mkMetricData "" org (dd_Name ts) 0 p.2 "unknown" (int64_of_float p.1) (dd_Mtype ts)
                 (raw_tag_set (dd_Host ts) (dd_Device ts) (dd_Tags ts)))) <$> dd_Points ts.

(** The steps of both loops: a tag set, then metrics on it. *)
Lemma tag_set_step host device ctags ms buf h h1 s h2 buf2 :
  wf h → live h buf → createTagSet spare host device ctags h = (h1, s) →
  new_metrics pick s ms buf h1 = (h2, buf2) →
  wf h2 ∧ live h2 buf2 ∧ (∀ x, x ∈ pool h2 → x ∈ pool h) ∧
  deref h2 <$> buf2 =
    (deref h <$> buf) ++ ((λ m, SetId (with_Tags (raw_tag_set host device ctags) m)) <$> ms).
Proof.
  intros Hw Hb Ec Em. apply createTagSet_grown in Ec; [|done].
  apply (series_spec pick (SortStrings (raw_tag_set host device ctags)) h) in Em as (W & L & P & D); [|done..].
  split_and!; [done..|]. rewrite D. f_equal. apply list_fmap_ext. intros i m _. apply SetId_sorted_tags.
Qed.

Lemma dd_metrics_spec org l buf h h' buf' :
  wf h → live h buf → dd_metrics spare pick int64_of_float org l buf h = (h', buf') →
  wf h' ∧ live h' buf' ∧ (∀ x, x ∈ pool h' → x ∈ pool h) ∧
  deref h' <$> buf' = (deref h <$> buf) ++ (l ≫= series_metrics org).
Proof.
  revert buf h. induction l as [|ts l IH]; intros buf h Hw Hb; cbn [dd_metrics].
  - intros [= <- <-]. split_and!; [done..|]. by rewrite app_nil_r.
  - destruct (createTagSet _ _ _ _ h) as [h1 s] eqn:Ec.
    destruct (new_metrics pick s _ buf h1) as [h2 buf2] eqn:Em. intros H.
    eapply tag_set_step in Em as (W & L & P & D); [|exact Hw|exact Hb|exact Ec].
    apply IH in H as (W3 & L3 & P3 & D3); [|done..]. split_and!; [done|done|auto|].
    rewrite D3, D, bind_cons, app_assoc. f_equal. unfold series_metrics.
    by rewrite <- list_fmap_compose.
Qed.

Context (unmarshal_series : string → option (list dd_series)).

(** C27. The series endpoint hands the publisher one metric for each point, in
    order, in the user's org, with the series' name and type, its sorted tags
    and its id, whatever the pool holds. It never puts a metric back: the
    deferred call was given the slice while it was empty, so the pool it leaves
    holds no metric it did not hold before. *)
Theorem datadog_publishes_its_points user deflate body data series h p :
  wf h → decodeJSON zlib deflate body = (data, true) → unmarshal_series data = Some series →
  let r := DataDogSeries spare pick publisher zlib int64_of_float unmarshal_series
             user deflate (Some body) h p in
  let batch := series ≫= series_metrics (ID user) in
  wf (r_heap r) ∧ r_batch r = Some batch ∧ r_pub r = (Publish publisher batch p).1.1 ∧
  (status <$> r_replies r) = publish_reply publisher batch p ∧
  ∀ l, l ∈ pool (r_heap r) → l ∈ pool h.
Proof.
  intros Hw E1 E2. cbv zeta. unfold DataDogSeries. rewrite E1, E2.
  destruct (dd_metrics spare pick int64_of_float (ID user) series [] h) as [h1 buf] eqn:Ed.
  assert (Hb : live h []) by (split_and!; [apply NoDup_nil_2|apply Forall_nil_2|by intros l ?%elem_of_nil]).
  apply dd_metrics_spec in Ed as (W & _ & P & D); [|done..].
  destruct (finish_spec publisher put_none buf h1 p) as (B1 & B2 & B3 & B4).
  rewrite D in *. cbn [fmap list_fmap app] in *. rewrite B2. by split_and!.
Qed.

(** ** Checks *)

Context (unmarshal_checks : string → list dd_check * bool).

Definition check_metric (org : Z) (c : dd_check) : MetricData :=
  SetId (mkMetricData "" org (ck_Check c) 0 (ck_Status c) "unknown" (ck_Timestamp c) "gauge"
           (raw_tag_set (ck_Host c) "" (ck_Tags c))).

Lemma check_metrics_spec org l buf h h' buf' :
  wf h → live h buf → check_metrics spare pick org l buf h = (h', buf') →
  wf h' ∧ live h' buf' ∧ deref h' <$> buf' = (deref h <$> buf) ++ (check_metric org <$> l).
Proof.
  revert buf h. induction l as [|c l IH]; intros buf h Hw Hb; cbn [check_metrics].
  - intros [= <- <-]. split_and!; [done..|]. by rewrite app_nil_r.
  - destruct (createTagSet _ _ _ _ h) as [h1 s] eqn:Ec.
    destruct (new_metrics pick s _ buf h1) as [h2 buf2] eqn:Em. intros H.
    eapply tag_set_step in Em as (W & L & P & D); [|exact Hw|exact Hb|exact Ec].
    apply IH in H as (W3 & L3 & D3); [|done..]. split_and!; [done|done|].
    rewrite D3, D, <- app_assoc. done.
Qed.

Lemma finish_replies release buf before h p :
  (status <$> r_replies (finish publisher release buf before h p)) =
    (status <$> before) ++ publish_reply publisher (deref h <$> buf) p ∧
  r_batch (finish publisher release buf before h p) = Some (deref h <$> buf).
Proof.
  unfold finish, publish_reply. destruct (Publish publisher _ p) as [[p' ms] err]. cbn.
  rewrite fmap_app. by destruct err.
Qed.

(** The check endpoint replies 400 for a body it cannot decode or cannot
    unmarshal, and goes on: it publishes the checks the decoder filled in before
    the error and replies again. Only a body without an error gets one reply. *)
Theorem datadog_check_goes_on_after_errors user deflate body h p :
  wf h →
  let r := DataDogCheck spare pick publisher zlib unmarshal_checks user deflate (Some body) h p in
  let d := decodeJSON zlib deflate body in
  let u := unmarshal_checks d.1 in
  let batch := check_metric (ID user) <$> u.1 in
  r_batch r = Some batch ∧
  (status <$> r_replies r) =
    (if d.2 then [] else [400]%Z) ++ (if u.2 then [] else [400]%Z) ++ publish_reply publisher batch p.
Proof.
  intros Hw. cbv zeta. unfold DataDogCheck. destruct (decodeJSON zlib deflate body) as [data ok].
  cbn [fst snd]. destruct (unmarshal_checks data) as [checks ok2]. cbn [fst snd].
  destruct (check_metrics spare pick (ID user) checks [] h) as [h1 buf] eqn:Ec.
  assert (Hb : live h []) by (split_and!; [apply NoDup_nil_2|apply Forall_nil_2|by intros l ?%elem_of_nil]).
  apply check_metrics_spec in Ec as (W & _ & D); [|done..].
  destruct (finish_replies put_none buf
    ((if ok then [] else [mkReply 400 "unable to decode request"]) ++
     (if ok2 then [] else [mkReply 400 "unable to unmarshal request"])) h1 p) as [R B].
  rewrite D in R, B. split; [exact B|]. rewrite R, fmap_app, <- app_assoc. by destruct ok, ok2.
Qed.
End spec.

(** ** Persistent metrics *)

(** Every metric made of an agent's description is in the payload's org and has
    no id, no interval and no type of its own. *)
Lemma GeneratePersistentMetrics_fields um i m :
  m ∈ GeneratePersistentMetrics um i →
  Id m = "" ∧ OrgId m = OrgID i ∧ Interval m = 0%Z ∧ Mtype m = "" ∧ Name m ≠ "".
Proof.
  assert (Hi : ∀ o n t, n ≠ "" → let x := info_metric o n t in
    Id x = "" ∧ OrgId x = o ∧ Interval x = 0%Z ∧ Mtype x = "" ∧ Name x ≠ "") by done.
  unfold GeneratePersistentMetrics. destruct (um _) as [g|].
  - rewrite elem_of_app, !elem_of_cons, elem_of_nil, list_elem_of_fmap.
    intros [[-> |[-> |[-> |[]]]]|(f & -> & _)]; by apply Hi.
  - intros ->%list_elem_of_singleton. by apply Hi.
Qed.

Lemma GeneratePersistentMetrics_first um i :
  head (GeneratePersistentMetrics um i) = Some (info_metric (OrgID i) "system_info" (generateInfoTags i)).
Proof. unfold GeneratePersistentMetrics. by destruct (um _). Qed.

Lemma generateInfoTags_sorted i : StronglySorted String.le (generateInfoTags i).
Proof. apply SortStrings_sorted. Qed.

(** ** Witnesses *)

Definition ex_dd : list dd_series :=
  [mkDDSeries "system.load" [(0x41D65A0BC0000000, 7)%Z; (0x41D65A0BC4000000, 8)%Z] ["env:prod"; "web"; "x:"]
     "h1" "gauge" "eth0"].

(** The two times of the example. *)
Definition ex_int64 (f : Z) : Z := if bool_decide (f = 0x41D65A0BC0000000%Z) then 1500000000 else 1500000016.

Definition ex_dd_result : result unit :=
  DataDogSeries ex_spare ex_pick ex_null Some ex_int64 (λ _, Some ex_dd)
    (mkUser 5 false ROLE_EDITOR) true (Some ("", true)) empty_heap ex_pub0.

Lemma datadog_publishes_its_points_witness :
  batch_tags ex_dd_result =
    Some [["device=eth0"; "env=prod"; "host=h1"; "web"; "x"]; ["device=eth0"; "env=prod"; "host=h1"; "web"; "x"]] ∧
  pool (r_heap ex_dd_result) = [].
Proof.
  destruct (datadog_publishes_its_points ex_spare ex_pick ex_null Some ex_int64 (λ _, Some ex_dd)
    (mkUser 5 false ROLE_EDITOR) true ("", true) "" ex_dd empty_heap ex_pub0 empty_wf eq_refl eq_refl)
    as (_ & H & _).
  unfold batch_tags, ex_dd_result at 1. rewrite H. split; vm_compute; reflexivity.
Defined.

Lemma datadog_check_goes_on_after_errors_witness :
  let r := DataDogCheck ex_spare ex_pick ex_null Some
             (λ _, ([mkDDCheck "ntp.in_sync" "h1" 1500000000 0 []], false))
             (mkUser 5 false ROLE_EDITOR) false (Some ("[{]", true)) empty_heap ex_pub0 in
  (status <$> r_replies r) = [400; 200]%Z ∧ (length (default [] (r_batch r))) = 1.
Proof.
  cbv zeta.
  destruct (datadog_check_goes_on_after_errors ex_spare ex_pick ex_null Some
    (λ _, ([mkDDCheck "ntp.in_sync" "h1" 1500000000 0 []], false))
    (mkUser 5 false ROLE_EDITOR) false ("[{]", true) empty_heap ex_pub0 empty_wf) as [H1 H2].
  rewrite H1, H2. split; vm_compute; reflexivity.
Defined.
