(* ===== verification/PoolOwner.v ===== *)
(** * Who owns the tags of the pooled metrics

    The proof is by ownership: every tag array is owned by a metric (the one that
    may append to it once the pool hands it out), by a goroutine (which builds on
    it), or, once a Prometheus request has put metrics back that share it, by
    nobody. A goroutine writes to its own arrays, to those of its metrics, and to
    those of nobody; so what the others see of theirs does not change. Each
    goroutine then refines its meaning [abs] of PoolConc.v: [steps_ok] for each
    instruction. PoolConcSpec.v puts the goroutines together. *)

From S2P Require Import Prelude GoStrings Strconv Schema Publish Http Write WriteSpec Datadog DatadogSpec PoolConc.

(** ** Ownership *)

Inductive owner := OObj (l : nat) | OThr (i : nat).
#[export] Instance owner_eq_dec : EqDecision owner.
Proof. solve_decision. Defined.
Definition ownership : Type := nat → option owner.

(** The array of [s] is the nil array, [x]'s, or, where allowed, nobody's. *)
Definition owned (own : ownership) (x : owner) (nobody : bool) (s : slice) : Prop :=
  arr s = 0 ∨ own (arr s) = Some x ∨ own (arr s) = None ∧ nobody = true.

Definition tags_of (h : heap) (l : nat) : slice := o_tags (object h l).
Definition objs_of (t : thread) : list nat := option_list (held t) ++ buf t.

(** The tags of a pooled metric are its own; with [dirty], they may be nobody's
    and need not be empty. *)
Definition pool_ok (own : ownership) (dirty : bool) (h : heap) (l : nat) : Prop :=
  owned own (OObj l) dirty (tags_of h l) ∧ (dirty = false → len (tags_of h l) = 0).

(** Whether the goroutine may have built on a tag array of nobody. *)
Definition tainted (dirty : bool) (a : abs) : bool := dirty && a_took a.
Definition done_out (a : abs) : bool := match a_out a with Some _ => true | None => false end.

Definition cur_ok (own : ownership) (dirty : bool) (h : heap) (i : nat) (t : thread) (a : abs) : Prop :=
  ∀ ts, a_cur a = Some ts →
    slice_ok h (cur t) ∧ owned own (OThr i) (tainted dirty a) (cur t) ∧
    (tainted dirty a = false → elems h (cur t) = ts) ∧ (a_sealed a = true → SortStrings ts = ts).

Definition held_ok (own : ownership) (dirty : bool) (h : heap) (t : thread) (a : abs) : Prop :=
  match a_held a, held t with
  | None, None => True
  | Some Stale, Some l => pool_ok own dirty h l
  | Some Taken, Some l => True
  | Some (Filled g d m), Some l =>
      (if g then owned own (OObj l) (tainted dirty a) (tags_of h l)
       else tags_of h l = cur t ∧ is_Some (a_cur a) ∧ a_took a = false ∧ (d = true → a_sealed a = true)) ∧
      (if d then tainted dirty a = false → deref h l = m
       else fields (object h l) = with_Tags [] m ∧
            (tainted dirty a = false → elems h (tags_of h l) = Tags m))
  | _, _ => False
  end.

(** A metric of [buf]. *)
Record entry_ok (own : ownership) (dirty : bool) (h : heap) (i : nat) (t : thread) (a : abs)
    (l : nat) (e : bool * MetricData) : Prop := {
  e_owned : owned own (if e.1 then OObj l else OThr i)
              (if e.1 then tainted dirty a else done_out a && dirty) (tags_of h l);
  e_deref : done_out a = false → tainted dirty a = false → deref h l = e.2;
  e_shared ts : e.1 = false → a_cur a = Some ts → arr (tags_of h l) = arr (cur t) → arr (cur t) ≠ 0 →
    tags_of h l = cur t ∧ a_sealed a = true }.

Definition out_ok (dirty : bool) (t : thread) (a : abs) : Prop :=
  match a_out a, batch t with
  | None, None => True
  | Some o, Some b => tainted dirty a = false → b = o
  | _, _ => False
  end.

Record thr_ok (own : ownership) (dirty : bool) (h : heap) (i : nat) (t : thread) (a : abs) : Prop := {
  t_cur : cur_ok own dirty h i t a;
  t_held : held_ok own dirty h t a;
  t_buf : Forall2 (entry_ok own dirty h i t a) (buf t) (a_buf a);
  t_out : out_ok dirty t a }.

(** One goroutine, with the metrics of the others. *)
Record pre (own : ownership) (dirty : bool) (h : heap) (i : nat) (t : thread) (others : list nat)
    (a : abs) : Prop := {
  p_wf : wf h;
  p_apart : NoDup (pool h ++ objs_of t ++ others);
  p_bound l : l ∈ objs_of t ++ others → l < length (objs h);
  p_pool l : l ∈ pool h → pool_ok own dirty h l;
  p_thr : thr_ok own dirty h i t a }.

(** What a step of goroutine [i], with the metrics [o], leaves alone. *)
Record local (own own' : ownership) (h h' : heap) (i : nat) (o : list nat) : Prop := {
  l_wf : wf h';
  l_objs : length (objs h) ≤ length (objs h');
  l_arrays : length (arrays h) ≤ length (arrays h');
  l_len b : b < length (arrays h) → length (array h b) ≤ length (array h' b);
  l_object l : l ∉ o → object h' l = object h l;
  l_own b x : b < length (arrays h) → b ≠ 0 → own b = Some x → x ≠ OThr i → (∀ l, l ∈ o → x ≠ OObj l) →
    own' b = Some x ∧ array h' b = array h b;
  l_none b : b < length (arrays h) → own b = None → own' b = None }.

(** ** Frames *)

Lemma local_slice_ok own own' h h' i o s : local own own' h h' i o → slice_ok h s → slice_ok h' s.
Proof. intros L [Ha Hl]. split; [pose proof (l_arrays _ _ _ _ _ _ L); lia|]. pose proof (l_len _ _ _ _ _ _ L _ Ha). lia. Qed.

Lemma tags_ok h l : wf h → l < length (objs h) → slice_ok h (tags_of h l).
Proof. intros Hw Hl. by apply (wf_objs h Hw). Qed.

Lemma elems_same h h' s :
  wf h → wf h' → (arr s ≠ 0 → array h' (arr s) = array h (arr s)) → elems h' s = elems h s.
Proof.
  intros Hw Hw' H. unfold elems. destruct (decide (arr s = 0)) as [->|E]; [by rewrite !array_0|by rewrite H].
Qed.

Lemma owned_mono own x n n' s : owned own x n s → (n = true → n' = true) → owned own x n' s.
Proof. unfold owned. naive_solver. Qed.

Lemma local_owned own own' h h' i o x n s :
  local own own' h h' i o → wf h → slice_ok h s → owned own x n s →
  x ≠ OThr i → (∀ l, l ∈ o → x ≠ OObj l) →
  owned own' x n s ∧ (n = false → elems h' s = elems h s).
Proof.
  intros L Hw [Hs _] Ho Hx Hxo. destruct Ho as [H0|[Ho|[Ho ->]]].
  - split; [by left|]. intros _. apply elems_same; [done|apply L|done].
  - destruct (decide (arr s = 0)) as [H0|H0].
    { split; [by left|]. intros _. apply elems_same; [done|apply L|done]. }
    destruct (l_own _ _ _ _ _ _ L _ _ Hs H0 Ho Hx Hxo) as [H1 H2].
    split; [right; by left|]. intros _. by apply elems_same; [|apply L|].
  - split; [|done]. right. right. split; [by apply (l_none _ _ _ _ _ _ L)|done].
Qed.

Lemma local_pool_ok own own' dirty h h' i o l :
  local own own' h h' i o → wf h → l < length (objs h) → l ∉ o →
  pool_ok own dirty h l → pool_ok own' dirty h' l.
Proof.
  intros L Hw Hl Hlo [Ho Hd]. unfold pool_ok, tags_of. rewrite (l_object _ _ _ _ _ _ L) by done.
  split; [|done]. edestruct (local_owned own own' h h' i o (OObj l)) as [H4 _];
    [done|done|by apply tags_ok|exact Ho|done|by intros x Hx [= <-]|exact H4].
Qed.

Lemma local_deref own own' h h' i o l x n :
  local own own' h h' i o → wf h → l < length (objs h) → l ∉ o →
  owned own x n (tags_of h l) → x ≠ OThr i → (∀ l, l ∈ o → x ≠ OObj l) → n = false →
  deref h' l = deref h l.
Proof.
  intros L Hw Hl Hlo Ho Hx Hxo Hn. unfold deref. rewrite (l_object _ _ _ _ _ _ L) by done. f_equal.
  by eapply local_owned; [done|done|by apply tags_ok|done|done|done|].
Qed.

(** The others do not notice the step. *)
Lemma local_thr own own' dirty h h' i o j t a :
  local own own' h h' i o → wf h → i ≠ j → (∀ l, l ∈ objs_of t → l ∉ o ∧ l < length (objs h)) →
  thr_ok own dirty h j t a → thr_ok own' dirty h' j t a.
Proof.
  intros L Hw Hij Ho [Hc Hh Hb Hout].
  assert (Hj : OThr j ≠ OThr i) by congruence.
  assert (Hx : ∀ l, l ∈ objs_of t → ∀ l', l' ∈ o → OObj l ≠ OObj l').
  { intros l Hl l' Hl' [= ->]. by apply (Ho l' Hl). }
  assert (Htag : ∀ l, l ∈ objs_of t → tags_of h' l = tags_of h l).
  { intros l Hl. unfold tags_of. rewrite (l_object _ _ _ _ _ _ L); [done|by apply Ho]. }
  split; [| | |done].
  - intros ts Ets. destruct (Hc ts Ets) as (H1 & H2 & H3 & H4).
    destruct (local_owned _ _ _ _ _ _ _ _ _ L Hw H1 H2) as [H5 H6]; [done|done|].
    split_and!; [by eapply local_slice_ok|done| |done]. intros E. by rewrite H6, H3.
  - unfold held_ok in *. destruct (a_held a) as [d|], (held t) as [l|] eqn:El; try done.
    assert (Hl : l ∈ objs_of t) by (unfold objs_of; rewrite El; left).
    destruct (Ho l Hl) as [Hlo Hlt].
    destruct d as [| |g d m]; [by eapply local_pool_ok|done|].
    destruct Hh as [H1 H2]. rewrite (Htag l Hl).
    assert (He : tainted dirty a = false → elems h' (tags_of h l) = elems h (tags_of h l)).
    { intros E. destruct g.
      - destruct (local_owned own own' h h' i o (OObj l) (tainted dirty a) (tags_of h l)) as [_ H3];
          [done|done|by apply tags_ok|done|done|by apply Hx|auto].
      - destruct H1 as (-> & [ts Ets] & _). destruct (Hc ts Ets) as (H3 & H4 & _).
        destruct (local_owned own own' h h' i o (OThr j) (tainted dirty a) (cur t)) as [_ H5]; auto. }
    split.
    + destruct g; [|done]. destruct (local_owned own own' h h' i o (OObj l) (tainted dirty a) (tags_of h l)) as [H3 _];
        [done|done|by apply tags_ok|done|done|by apply Hx|done].
    + unfold deref. rewrite (l_object _ _ _ _ _ _ L) by done. fold (tags_of h l).
      destruct d.
      * intros E. rewrite He by done. by apply H2.
      * destruct H2 as [H2 H3]. split; [done|]. intros E. rewrite He by done. by apply H3.
  - eapply Forall2_impl_in; [exact Hb|]. intros l e Hl [H1 H2 H3].
    assert (Hin : l ∈ objs_of t) by (apply elem_of_app; by right). destruct (Ho l Hin) as [Hlo Hlt].
    assert (Hxe : (if e.1 then OObj l else OThr j) ≠ OThr i ∧ ∀ l', l' ∈ o → (if e.1 then OObj l else OThr j) ≠ OObj l')
      by (destruct e.1; split; try done; by apply Hx).
    destruct Hxe as [Hx1 Hx2]. split; rewrite ?(Htag l Hin); [| |done].
    + edestruct (local_owned own own' h h' i o) as [H4 _]; [done|done|by apply tags_ok|exact H1|done|done|exact H4].
    + intros E1 E2. rewrite <- H2 by done. eapply local_deref; [done..|]. rewrite E1, E2. by destruct e.1.
Qed.

(** Nothing is lost by not trusting the pool. *)
Lemma thr_dirty own h i t a : thr_ok own false h i t a → thr_ok own true h i t a.
Proof.
  intros [Hc Hh Hb Hout]. assert (Hm : ∀ b, tainted true b = false → tainted false b = false) by done.
  split.
  - intros ts E. destruct (Hc ts E) as (H1 & H2 & H3 & H4). split_and!; [done| |auto|done].
    by eapply owned_mono.
  - unfold held_ok in *. destruct (a_held a) as [[| |g d m]|], (held t) as [l|]; try done.
    + destruct Hh as [H _]. split; [by eapply owned_mono|done].
    + destruct Hh as [H1 H2]. split; [destruct g; [by eapply owned_mono|done]|].
      destruct d; [auto|]. split; [apply H2|intros _; by apply H2].
  - eapply Forall2_impl; [exact Hb|]. intros l e [H1 H2 H3]. split; [|auto|done].
    eapply owned_mono; [exact H1|]. destruct e.1; [done|by rewrite andb_false_r].
  - unfold out_ok in *. destruct (a_out a), (batch t); try done. intros _. by apply Hout.
Qed.

(** ** The steps *)

(** Only what belonged to the goroutine changes hands. *)
Lemma local_same own own' h i o :
  wf h → (∀ b, b ≠ 0 → own' b = own b ∨ own b = Some (OThr i) ∨ ∃ l, l ∈ o ∧ own b = Some (OObj l)) →
  (∀ b, own b = None → own' b = None) → local own own' h h i o.
Proof.
  intros Hw Ho Hn. split; try done; [|by auto].
  intros b x _ Hb E Hx Hxo. split; [|done]. destruct (Ho b Hb) as [->|[E'|(l & Hl & E')]]; [done|congruence|].
  exfalso. apply (Hxo l Hl). congruence.
Qed.

Lemma local_refl own h i o : wf h → local own own h h i o.
Proof. intros Hw. apply local_same; auto. Qed.

Lemma pre_frame own own' dirty h h' i t t' others a a' :
  pre own dirty h i t others a → local own own' h h' i (objs_of t) →
  pool h' = pool h → objs_of t' ≡ₚ objs_of t → thr_ok own' dirty h' i t' a' →
  pre own' dirty h' i t' others a'.
Proof.
  intros [Hw Ha Hb Hp Ht] L Ep Eo Ht'. split; [apply L|by rewrite Ep, Eo| | |done].
  - intros l Hl. pose proof (l_objs _ _ _ _ _ _ L). rewrite Eo in Hl. apply Hb in Hl. lia.
  - rewrite Ep. intros l Hl. destruct (wf_pool h Hw) as [_ Hlt]. rewrite Forall_forall in Hlt.
    eapply local_pool_ok; [done|done|by apply Hlt| |by apply Hp].
    apply NoDup_app in Ha as (_ & Ha & _). intros Hl'. apply (Ha l Hl), elem_of_app. by left.
Qed.

Lemma objs_held t l : held t = Some l → l ∈ objs_of t.
Proof. intros E. unfold objs_of. rewrite E. left. Qed.
Lemma objs_buf t l : l ∈ buf t → l ∈ objs_of t.
Proof. intros H. apply elem_of_app. by right. Qed.

Lemma held_not_buf own dirty h i t others a l l' :
  pre own dirty h i t others a → held t = Some l → l' ∈ buf t → l' ≠ l.
Proof.
  intros [_ Ha _ _ _] E Hl ->. apply NoDup_app in Ha as (_ & _ & Ha).
  apply NoDup_app in Ha as (Ha & _). unfold objs_of in Ha. rewrite E in Ha. by apply NoDup_cons in Ha as [Ha _].
Qed.

(** While the tags are built, no metric of [buf] is on their array. *)
Lemma entry_apart own dirty h i t a ts l e :
  entry_ok own dirty h i t a l e → cur_ok own dirty h i t a → a_cur a = Some ts → a_sealed a = false →
  tainted dirty a = false → arr (tags_of h l) ≠ 0 → arr (tags_of h l) ≠ arr (cur t).
Proof.
  intros [H1 _ H3] Hc Ets Es Et H0 E. destruct (Hc ts Ets) as (_ & Ho & _).
  destruct e as [[|] m]; cbn [fst] in *.
  - rewrite Et in *. unfold owned in *. rewrite E in *. destruct H1 as [?|[?|[_ ?]]]; [done| |done].
    destruct Ho as [?|[?|[_ ?]]]; [done|congruence|done].
  - destruct (H3 ts) as [_ ?]; try done; congruence.
Qed.

Definition steps_ok (spare pick : nat → nat) (x : instr) : Prop :=
  ∀ own dirty h i t others a a', pre own dirty h i t others a → abs_step a x = Some a' →
  (x = IPut → dirty = true) →
  ∃ own', local own own' h (tstep spare pick x h t).1 i (objs_of t) ∧
    pre own' dirty (tstep spare pick x h t).1 i (tstep spare pick x h t).2 others a'.

(** The metric at hand is there when its meaning is. *)
Ltac open_step :=
  intros own dirty h i t others [c s d b o k] a' P Ea Hput;
  pose proof P as [Hw Hapart Hbound Hpool [Hc Hh Hb Ho]]; cbn [abs_step] in Ea; cbn [tstep fst snd].

Section steps.
Context (spare pick : nat → nat).

Lemma step_nil : steps_ok spare pick INil.
Proof.
  open_step. destruct d, o; try done. injection Ea as <-. exists own.
  pose proof (local_refl own h i (objs_of t) Hw) as L. split; [done|].
  apply (pre_frame own own dirty h h i t _ others _ _ P L); [done|done|]. split.
  - intros ts [= <-]. split_and!; [by apply nil_ok|by left|done|done].
  - unfold held_ok in *. cbn [a_held held with_cur] in *. by destruct (held t).
  - eapply Forall2_impl; [exact Hb|]. intros l e [H1 H2 H3]. by split.
  - done.
Qed.

Lemma step_push : steps_ok spare pick IPush.
Proof.
  open_step. destruct d as [[| |g [|] m]|], o; try done. injection Ea as <-. exists own.
  unfold held_ok in Hh. cbn [a_held] in Hh. destruct (held t) as [l|] eqn:El; [|done]. cbn [fst snd].
  pose proof (local_refl own h i (objs_of t) Hw) as L. split; [done|].
  eapply (pre_frame own own dirty h h i t); [done|done|done| |].
  { unfold objs_of. rewrite El. cbn. by rewrite Permutation_app_comm. }
  split; [exact Hc|done| |exact Ho]. cbn [buf a_buf with_held with_buf]. apply Forall2_app.
  - eapply Forall2_impl; [exact Hb|]. intros l' e [H1 H2 H3]. by split.
  - constructor; [|constructor]. destruct Hh as [H1 H2].
    destruct g; split; cbn [fst snd a_cur a_sealed done_out a_out]; try done.
    + destruct H1 as (-> & [ts Ets] & Hk & _). destruct (Hc ts Ets) as (_ & H3 & _).
      eapply owned_mono; [exact H3|]. unfold tainted. cbn in *. by rewrite Hk, andb_false_r.
    + intros ts _ Ets _ _. destruct H1 as (-> & _ & _ & H3). by split; [|apply H3].
Qed.

Lemma step_publish : steps_ok spare pick IPublish.
Proof.
  open_step. destruct d, o; try done. injection Ea as <-. exists own.
  pose proof (local_refl own h i (objs_of t) Hw) as L. split; [done|].
  apply (pre_frame own own dirty h h i t _ others _ _ P L); [done|done|]. split.
  - done.
  - unfold held_ok in *. cbn [a_held held with_batch] in *. by destruct (held t).
  - eapply Forall2_impl; [exact Hb|]. intros l e [H1 H2 H3]. split; [|done|done].
    eapply owned_mono; [exact H1|]. by destruct e.1.
  - unfold out_ok. cbn [a_out batch with_batch snd]. intros E. clear Hh Hc Ho.
    cbn [buf a_buf] in Hb. induction Hb as [|l e ls es [_ H2 _] _ IH]; [done|].
    cbn [fmap list_fmap]. f_equal; [by apply H2|]. apply IH.
Qed.

Lemma step_get : steps_ok spare pick IGet.
Proof.
  open_step. destruct d, o; try done. injection Ea as <-. exists own.
  assert (Eh : held t = None) by (unfold held_ok in Hh; cbn in Hh; by destruct (held t)).
  destruct (Get pick h) as [h' l] eqn:Eg. apply Get_got in Eg as G; [|done]. cbn [fst snd].
  assert (Eo : objs_of t = buf t) by (unfold objs_of; by rewrite Eh).
  assert (Earr : ∀ b, array h' b = array h b) by (intros b'; unfold array; by rewrite (got_arrays _ _ _ G)).
  assert (L : local own own h h' i (objs_of t)).
  { split; [apply G|apply G|by rewrite (got_arrays _ _ _ G)|intros b' _; by rewrite Earr|intros l' _; apply G| |done].
    intros b' x _ _ E _ _. split; [done|apply Earr]. }
  assert (Hfresh : l ∉ buf t ++ others).
  { intros Hl. destruct (got_from _ _ _ G) as [Hp|[-> _]].
    - apply NoDup_app in Hapart as (_ & Hd & _). apply (Hd l Hp). by rewrite Eo.
    - rewrite <- Eo in Hl. apply Hbound in Hl. lia. }
  assert (Hslice : ∀ s', slice_ok h s' → slice_ok h' s')
    by (intros s' [? ?]; split; [by rewrite (got_arrays _ _ _ G)|by rewrite Earr]).
  assert (Hel : ∀ s', elems h' s' = elems h s') by (intros s'; unfold elems; by rewrite Earr).
  split; [done|]. split; [apply G| | | |].
  - destruct (wf_pool h' (got_wf _ _ _ G)) as [Hn _]. unfold objs_of. cbn.
    apply NoDup_app. split_and!; [done| |].
    + intros x Hx [->|Hx']%elem_of_cons; [by apply (got_out _ _ _ G)|].
      apply NoDup_app in Hapart as (_ & Hd & _). apply (got_pool _ _ _ G) in Hx. apply (Hd x Hx). by rewrite Eo.
    + apply NoDup_cons. split; [done|]. rewrite <- Eo. by apply NoDup_app in Hapart as (_ & _ & ?).
  - unfold objs_of. cbn. intros x [->|Hx]%elem_of_cons; [apply G|].
    rewrite <- Eo in Hx. apply Hbound in Hx. pose proof (got_objs _ _ _ G). lia.
  - intros x Hx%(got_pool _ _ _ G). apply Hpool in Hx as [H1 H2].
    unfold pool_ok, tags_of. by rewrite (got_object _ _ _ G).
  - split.
    + intros ts Ets. destruct (Hc ts Ets) as (H1 & H2 & H3 & H4). split_and!; [auto|done|by rewrite Hel|done].
    + unfold held_ok. cbn [a_held held with_held]. unfold pool_ok, tags_of. rewrite (got_object _ _ _ G).
      destruct (got_from _ _ _ G) as [Hp|[_ ->]]; [by apply Hpool|]. by split; [left|].
    + eapply Forall2_impl; [exact Hb|]. intros l' e [H1 H2 H3]. unfold tags_of, deref in *.
      split; unfold tags_of, deref; rewrite !(got_object _ _ _ G), ?Hel; done.
    + exact Ho.
Qed.

(** Taking the tags of the metric at hand. *)
Definition take_own (own : ownership) (x y : owner) (a0 : nat) : ownership :=
  λ b, if decide (b = a0 ∧ own b = Some x) then Some y else own b.

Lemma take_own_other own x y a0 b : b ≠ a0 ∨ own b ≠ Some x → take_own own x y a0 b = own b.
Proof. intros H. unfold take_own. rewrite decide_False; [done|]. intros [? ?]. naive_solver. Qed.

Lemma take_own_owned own x y a0 z n s :
  owned own z n s → (arr s = a0 → z ≠ x) → owned (take_own own x y a0) z n s.
Proof.
  intros [H|[H|[H Hn]]] Hz; [by left| |].
  - right. left. rewrite take_own_other; [done|]. destruct (decide (arr s = a0)) as [E|E]; [|by left].
    right. rewrite H. intros [= E']. by apply Hz.
  - right. right. split; [|done]. rewrite take_own_other; [done|]. right. by rewrite H.
Qed.

Lemma take_own_new own x y n s : owned own x n s → owned (take_own own x y (arr s)) y n s.
Proof.
  intros [H|[H|[H Hn]]]; [by left|right; left; unfold take_own; by rewrite decide_True|].
  right. right. split; [|done]. rewrite take_own_other; [done|]. right. by rewrite H.
Qed.

Lemma take_own_local own h i o x y a0 :
  wf h → x = OThr i ∨ (∃ l, l ∈ o ∧ x = OObj l) → local own (take_own own x y a0) h h i o.
Proof.
  intros Hw Hx. apply local_same; [done| |].
  - intros b _. destruct (decide (own b = Some x)) as [E|E].
    + right. destruct Hx as [->|(l & Hl & ->)]; [by left|right; by exists l].
    + left. apply take_own_other. by right.
  - intros b E. rewrite take_own_other; [done|]. right. by rewrite E.
Qed.

Lemma step_take : steps_ok spare pick ITake.
Proof.
  open_step. destruct d as [[| |g d m]|], o; try done. injection Ea as <-.
  unfold held_ok in Hh. cbn [a_held] in Hh. destruct (held t) as [l|] eqn:El; [|done]. cbn [fst snd].
  destruct Hh as [H1 H2]. set (s0 := tags_of h l) in *.
  assert (Hl : l ∈ objs_of t) by (by apply objs_held).
  assert (L : local own (take_own own (OObj l) (OThr i) (arr s0)) h h i (objs_of t))
    by (apply take_own_local; [done|right; by exists l]).
  exists (take_own own (OObj l) (OThr i) (arr s0)). split; [done|].
  apply (pre_frame own _ dirty h h i t _ others _ _ P L); [done|done|]. split.
  - intros ts [= <-]. cbn [cur with_cur]. change (o_tags (object h l)) with s0. split_and!.
    + apply tags_ok; [done|]. apply Hbound, elem_of_app. by left.
    + apply take_own_new. eapply owned_mono; [exact H1|]. unfold tainted. cbn. by rewrite andb_true_r.
    + unfold tainted. cbn. rewrite andb_true_r. intros ->. unfold elems. by rewrite H2.
    + done.
  - unfold held_ok. cbn [a_held held with_cur]. by rewrite El.
  - eapply Forall2_impl_in; [exact Hb|]. intros l' e Hl' [H3 H4 H5].
    pose proof (held_not_buf _ _ _ _ _ _ _ _ _ P El Hl') as Hne.
    split; cbn [a_cur a_sealed done_out a_out cur with_cur].
    + apply take_own_owned; [|intros _; destruct e.1; congruence].
      eapply owned_mono; [exact H3|]. destruct e.1; [|done]. unfold tainted. cbn. by destruct dirty.
    + intros _. unfold tainted in *. cbn in *. rewrite andb_true_r. intros ->. by apply H4.
    + intros ts Ee _ Ea H0. change (o_tags (object h l)) with s0 in Ea, H0. rewrite Ee in H3. cbn in H3. unfold owned in *. rewrite Ea in H3.
      destruct H1 as [?|[H1|[H1 _]]], H3 as [?|[H3|[_ ?]]]; try done; congruence.
  - exact Ho.
Qed.

(** A metric of the goroutine is overwritten. *)
Lemma set_obj_local own own' h i o l ob :
  l ∈ o → l < length (objs h) → slice_ok h (o_tags ob) → local own own' h h i o →
  local own own' h (set_obj l ob h) i o.
Proof.
  intros Hl Hlt Hs [Hw H1 H2 H3 H4 H5 H6].
  assert (Hlen : length (objs (set_obj l ob h)) = length (objs h)) by (cbn; by rewrite length_insert).
  split; try done.
  - split; [apply Hw|rewrite Hlen; apply Hw|]. intros x. rewrite Hlen. intros Hx.
    rewrite object_set by done. case_decide; [done|]. by apply (wf_objs h Hw).
  - by rewrite Hlen.
  - intros x Hx. rewrite object_set by done. rewrite decide_False; [done|]. by intros ->.
Qed.

Lemma attach_shared own dirty h i t others m ts s b l :
  let a := mkAbs (Some ts) s (Some Stale) b None false in
  pre own dirty h i t others a → held t = Some l →
  let h' := set_obj l (mkObj (with_Tags [] m) (cur t)) h in
  local own own h h' i (objs_of t) ∧
  pre own dirty h' i t others (mkAbs (Some ts) s (Some (Filled false false (with_Tags ts m))) b None false).
Proof.
  intros a P El h'. pose proof P as [Hw Hapart Hbound Hpool [Hc Hh Hb Ho]].
  assert (Hl : l ∈ objs_of t) by (by apply objs_held).
  assert (Hlt : l < length (objs h)) by (apply Hbound, elem_of_app; by left).
  destruct (Hc ts eq_refl) as (Hs & Hcur).
  assert (L : local own own h h' i (objs_of t)) by (apply set_obj_local; [done..|by apply local_refl]).
  assert (Eobj : object h' l = mkObj (with_Tags [] m) (cur t)) by (unfold h'; by rewrite object_set, decide_True).
  split; [done|]. apply (pre_frame own own dirty h h' i t t others _ _ P L); [done|done|]. split; [done| | |done].
  - unfold held_ok. cbn [a_held]. rewrite El. unfold tags_of. rewrite Eobj. cbn [o_tags fields].
    split_and!; try done. intros _. cbn. apply Hcur. unfold tainted. cbn. by rewrite andb_false_r.
  - eapply Forall2_impl_in; [exact Hb|]. intros l' e Hl' [H3 H4 H5].
    pose proof (held_not_buf _ _ _ _ _ _ _ _ _ P El Hl') as Hne.
    assert (Eo : object h' l' = object h l') by (unfold h'; by rewrite object_set, decide_False).
    split; unfold tags_of, deref; rewrite !Eo; [exact H3|exact H4|exact H5].
Qed.

Lemma attach_own own dirty h i t others m ts b l k :
  let a := mkAbs (Some ts) false (Some Taken) b None k in
  pre own dirty h i t others a → held t = Some l →
  let h' := set_obj l (mkObj (with_Tags [] m) (cur t)) h in
  let own' := take_own own (OThr i) (OObj l) (arr (cur t)) in
  local own own' h h' i (objs_of t) ∧
  pre own' dirty h' i t others (mkAbs None false (Some (Filled true false (with_Tags ts m))) b None k).
Proof.
  intros a P El h' own'. pose proof P as [Hw Hapart Hbound Hpool [Hc Hh Hb Ho]].
  assert (Hl : l ∈ objs_of t) by (by apply objs_held).
  assert (Hlt : l < length (objs h)) by (apply Hbound, elem_of_app; by left).
  destruct (Hc ts eq_refl) as (Hs & Hown & Hel & _).
  assert (L : local own own' h h' i (objs_of t))
    by (apply set_obj_local; [done..|]; apply take_own_local; [done|by left]).
  assert (Eobj : object h' l = mkObj (with_Tags [] m) (cur t)) by (unfold h'; by rewrite object_set, decide_True).
  split; [done|]. apply (pre_frame own own' dirty h h' i t t others _ _ P L); [done|done|]. split; [done| | |done].
  - unfold held_ok. cbn [a_held]. rewrite El. unfold tags_of. rewrite Eobj. cbn [o_tags fields].
    split; [by apply take_own_new|done].
  - eapply Forall2_impl_in; [exact Hb|]. intros l' e Hl' He.
    pose proof (held_not_buf _ _ _ _ _ _ _ _ _ P El Hl') as Hne.
    assert (Eo : object h' l' = object h l') by (unfold h'; by rewrite object_set, decide_False).
    destruct He as [H3 H4 H5]. split; unfold tags_of, deref; rewrite !Eo; [|exact H4|done].
    destruct (decide (arr (o_tags (object h l')) = 0)) as [E0|E0]; [by left|].
    apply take_own_owned; [exact H3|]. intros Ea. destruct e as [[|] me]; [done|]. cbn [fst] in *.
    exfalso. destruct (H5 ts eq_refl eq_refl Ea) as [_ ?]; [by rewrite <- Ea|done].
Qed.

Lemma step_attach m : steps_ok spare pick (IAttach m).
Proof.
  open_step. destruct c as [ts|], d as [[| |g d m0]|], o; try done.
  - destruct k; [done|]. injection Ea as <-. unfold held_ok in Hh. cbn [a_held] in Hh.
    destruct (held t) as [l|] eqn:El; [|done]. exists own. by apply attach_shared.
  - destruct s; [done|]. injection Ea as <-. unfold held_ok in Hh. cbn [a_held] in Hh.
    destruct (held t) as [l|] eqn:El; [|done]. eexists. by apply attach_own.
Qed.

(** The id of a metric that was filled. *)
Lemma SetId_at_fields l h m :
  wf h → l < length (objs h) → fields (object h l) = with_Tags [] m →
  filled h l m (tags_of h l) (SetId_at l h).
Proof.
  intros Hw Hl Ef. pose proof (SetId_at_filled h l m (tags_of h l) Hw Hl (tags_ok h l Hw Hl)) as F.
  replace (set_obj l _ h) with h in F; [done|]. destruct h as [A O p k]. unfold set_obj. cbn. f_equal.
  symmetry. apply list_insert_id. unfold tags_of, object in *. cbn in *.
  destruct (O !! l) as [[fo so]|] eqn:E; [|apply lookup_ge_None_1 in E; lia]. cbn in *. by rewrite Ef.
Qed.

Lemma filled_local own h h' i o l m s n :
  wf h → filled h l m s h' → l ∈ o → owned own (OObj l) n s ∨ owned own (OThr i) n s → local own own h h' i o.
Proof.
  intros Hw F Hl Hs. split; try done.
  - apply F.
  - by rewrite (f_objs _ _ _ _ _ F).
  - by rewrite (f_arrays _ _ _ _ _ F).
  - intros b Hb. assert (H : slice_ok h (mkSlice b (length (array h b)))) by (split; [done|cbn; lia]).
    apply (f_ok _ _ _ _ _ F) in H as [_ H]. exact H.
  - intros x Hx. apply F. by intros ->.
  - intros b x _ Hb E Hx Hxo. split; [done|]. apply F. intros ->. unfold owned in Hs.
    destruct Hs as [[?|[?|[? _]]]|[?|[?|[? _]]]]; try done; [|congruence..].
    apply (Hxo l Hl). congruence.
Qed.

Lemma with_own_Tags m ts : ts = Tags m → with_Tags ts m = m.
Proof. intros ->. by destruct m. Qed.

Lemma id_shared own dirty h i t others m ts s b k l :
  let a := mkAbs (Some ts) s (Some (Filled false false m)) b None k in
  pre own dirty h i t others a → held t = Some l →
  local own own h (SetId_at l h) i (objs_of t) ∧
  pre own dirty (SetId_at l h) i t others
    (mkAbs (Some (SortStrings ts)) true (Some (Filled false true (SetId m))) b None k).
Proof.
  intros a P El. subst a. pose proof P as [Hw Hapart Hbound Hpool [Hc Hh Hb Ho]].
  assert (Hl : l ∈ objs_of t) by (by apply objs_held).
  assert (Hlt : l < length (objs h)) by (apply Hbound, elem_of_app; by left).
  destruct (Hc ts eq_refl) as (Hs & Hcur & Hel & Hsort).
  unfold held_ok in Hh. cbn [a_held] in Hh. rewrite El in Hh. destruct Hh as ((Et & _ & Hk & _) & Hf & Hte).
  cbn in Hk. assert (Hut : ∀ c s d b o, tainted dirty (mkAbs c s d b o k) = false)
    by (intros; unfold tainted; cbn; by rewrite Hk, andb_false_r).
  pose proof (SetId_at_fields l h m Hw Hlt Hf) as F. rewrite Et in *. set (h' := SetId_at l h) in *.
  assert (L : local own own h h' i (objs_of t)) by (eapply filled_local; [done|exact F|done|by right]).
  split; [done|]. apply (pre_frame own own dirty h h' i t t others _ _ P L); [apply F|done|]. split.
  - intros ? [= <-]. split_and!; [by apply F|rewrite Hut in Hcur; by rewrite Hut| |intros _; apply SortStrings_idemp].
    intros _. rewrite (f_elems _ _ _ _ _ F), Hel; [done|by apply Hut].
  - unfold held_ok. cbn [a_held]. rewrite El. unfold tags_of. rewrite (f_self _ _ _ _ _ F). cbn [o_tags].
    split_and!; try done. intros _. rewrite (filled_deref _ _ _ _ _ F). f_equal. apply with_own_Tags.
    apply Hte, Hut.
  - eapply Forall2_impl_in; [exact Hb|]. intros l' e Hl' He.
    pose proof (held_not_buf _ _ _ _ _ _ _ _ _ P El Hl') as Hne.
    assert (Eo : object h' l' = object h l') by (by apply F).
    destruct (decide (arr (tags_of h l') ≠ 0 ∧ arr (tags_of h l') = arr (cur t))) as [[E0 Ea]|Hna].
    + destruct s; [|exfalso; by eapply (entry_apart own dirty h i t _ ts l' e He Hc); [..|apply Hut| |]].
      destruct He as [H3 H4 H5]. destruct e as [[|] me]; cbn [fst] in *.
      { exfalso. unfold owned in *. rewrite Ea in *. rewrite Hut in H3, Hcur.
        destruct H3 as [?|[H3|[_ ?]]], Hcur as [?|[Hcur|[_ ?]]]; try done; congruence. }
      destruct (H5 ts eq_refl eq_refl Ea) as [Es _]; [by rewrite <- Ea|].
      split; unfold tags_of, deref; rewrite !Eo; [exact H3| |done].
      intros E1 E2. rewrite <- H4 by done. unfold deref. unfold tags_of in Es. rewrite Es. f_equal.
      rewrite (f_elems _ _ _ _ _ F), Hel by apply Hut. by apply Hsort.
    + destruct He as [H3 H4 H5].
      assert (Hsame : elems h' (tags_of h l') = elems h (tags_of h l')).
      { apply elems_same; [done|apply F|]. intros E0. apply F. intros Ea. by apply Hna. }
      split; unfold tags_of, deref; rewrite !Eo; fold (tags_of h l'); [exact H3| |].
      * intros E1 E2. rewrite Hsame. by apply H4.
      * intros ts' Ee _ Ea E0. exfalso. apply Hna. split; [by rewrite Ea|done].
  - exact Ho.
Qed.

Lemma id_own own dirty h i t others m s b k l :
  let a := mkAbs None s (Some (Filled true false m)) b None k in
  pre own dirty h i t others a → held t = Some l →
  local own own h (SetId_at l h) i (objs_of t) ∧
  pre own dirty (SetId_at l h) i t others (mkAbs None s (Some (Filled true true (SetId m))) b None k).
Proof.
  intros a P El. subst a. pose proof P as [Hw Hapart Hbound Hpool [Hc Hh Hb Ho]].
  assert (Hl : l ∈ objs_of t) by (by apply objs_held).
  assert (Hlt : l < length (objs h)) by (apply Hbound, elem_of_app; by left).
  unfold held_ok in Hh. cbn [a_held] in Hh. rewrite El in Hh. destruct Hh as (Hown & Hf & Hte).
  pose proof (SetId_at_fields l h m Hw Hlt Hf) as F. set (h' := SetId_at l h) in *.
  assert (L : local own own h h' i (objs_of t)) by (eapply filled_local; [done|exact F|done|by left]).
  split; [done|]. apply (pre_frame own own dirty h h' i t t others _ _ P L); [apply F|done|]. split; [done| | |done].
  - unfold held_ok. cbn [a_held]. rewrite El. unfold tags_of at 1. rewrite (f_self _ _ _ _ _ F).
    split; [exact Hown|]. intros E. rewrite (filled_deref _ _ _ _ _ F). f_equal. apply with_own_Tags. by apply Hte.
  - eapply Forall2_impl_in; [exact Hb|]. intros l' e Hl' [H3 H4 H5].
    pose proof (held_not_buf _ _ _ _ _ _ _ _ _ P El Hl') as Hne.
    assert (Eo : object h' l' = object h l') by (by apply F).
    split; unfold tags_of, deref; rewrite !Eo; [exact H3| |done].
    intros E1 E2. rewrite <- H4 by done. unfold deref. f_equal. apply elems_same; [done|apply F|].
    intros E0. apply F. intros Ea. fold (tags_of h l') in Ea, E0. cbn in E2. unfold owned in *. rewrite Ea in *.
    destruct e as [[|] me]; cbn in *; unfold tainted in *; cbn in *; rewrite ?E2 in *.
    + destruct H3 as [?|[H3|[_ ?]]], Hown as [?|[Hown|[_ ?]]]; try done; congruence.
    + destruct H3 as [?|[H3|[_ ?]]], Hown as [?|[Hown|[_ ?]]]; try done; congruence.
Qed.

Lemma step_id : steps_ok spare pick IId.
Proof.
  open_step. destruct c as [ts|], d as [[| |[|] [|] m]|], o; try done; injection Ea as <-;
    unfold held_ok in Hh; cbn [a_held] in Hh; (destruct (held t) as [l|] eqn:El; [|done]); exists own.
  - by eapply id_shared.
  - by eapply id_own.
Qed.

Lemma append_len x h s h' s' b :
  arr s < length (arrays h) → b < length (arrays h) → append spare x (h, s) = (h', s') →
  length (array h b) ≤ length (array h' b).
Proof.
  intros Ha Hb. unfold append. case_bool_decide; intros [= <- <-].
  - rewrite array_insert by done. case_decide; [subst; by rewrite length_insert|done].
  - unfold array. cbn. by rewrite lookup_app_l.
Qed.

(** Building on the slice of tags. *)
Lemma app_own own h i x t others dirty ts d b k h' s' :
  let a := mkAbs (Some ts) false d b None k in
  d = None ∨ d = Some Taken → pre own dirty h i t others a → append spare x (h, cur t) = (h', s') →
  let own' := λ b, if decide (length (arrays h) ≤ b) then Some (OThr i) else own b in
  local own own' h h' i (objs_of t) ∧
  pre own' dirty h' i (with_cur s' t) others (mkAbs (Some (ts ++ [x])) false d b None k).
Proof.
  intros a Hd P Ex own'. subst a. pose proof P as [Hw Hapart Hbound Hpool [Hc Hh Hb Ho]].
  destruct (Hc ts eq_refl) as (Hs & Hown & Hel & _).
  apply append_grown in Ex as G; [|done..].
  assert (Hold : ∀ b, b < length (arrays h) → own' b = own b)
    by (intros b' Hb'; unfold own'; rewrite decide_False by lia; done).
  assert (Hobj : ∀ l, object h' l = object h l) by (intros l; unfold object; by rewrite (g_objs _ _ _ _ _ G)).
  assert (L : local own own' h h' i (objs_of t)).
  { split; [apply G|by rewrite (g_objs _ _ _ _ _ G)|apply G| |by intros; apply Hobj| |].
    - intros b' Hb'. by eapply append_len; [apply Hs|done|].
    - intros b' y Hb' H0 E Hy Hyo. split; [by rewrite Hold|]. apply G; [done|]. intros ->.
      unfold owned in Hown. destruct Hown as [?|[?|[? _]]]; [done|congruence..].
    - intros b' Hb' E. by rewrite Hold. }
  split; [done|]. apply (pre_frame own own' dirty h h' i t _ others _ _ P L); [apply G|done|]. split.
  - intros ? [= <-]. cbn [cur with_cur]. split_and!; [apply G| |intros E; rewrite (g_elems _ _ _ _ _ G), Hel; done|done].
    destruct (g_arr _ _ _ _ _ G) as [Ea|Ea].
    + unfold owned. rewrite Ea, Hold by apply Hs. exact Hown.
    + right. left. unfold own'. by rewrite decide_True.
  - unfold held_ok in *. cbn [a_held held with_cur] in *. by destruct Hd as [-> | ->], (held t).
  - eapply Forall2_impl_in; [exact Hb|]. intros l e Hl He.
    assert (Hlt : l < length (objs h)) by (apply Hbound, elem_of_app; left; by apply objs_buf).
    pose proof (tags_ok h l Hw Hlt) as [Hla _].
    split; unfold tags_of, deref; rewrite !Hobj; fold (tags_of h l); cbn [cur with_cur].
    + destruct He as [H3 _ _]. unfold owned. rewrite Hold by done. exact H3.
    + intros E1 E2. rewrite <- (e_deref _ _ _ _ _ _ _ _ He) by done. unfold deref. f_equal.
      apply elems_same; [done|apply G|]. intros E0. apply G; [done|].
      by eapply (entry_apart own dirty h i t _ ts l e He Hc).
    + intros ? Ee [= <-] Ea E0. exfalso. destruct (g_arr _ _ _ _ _ G) as [Ea'|Ea']; [|lia].
      rewrite Ea' in Ea, E0. by destruct (e_shared _ _ _ _ _ _ _ _ He ts Ee eq_refl Ea E0) as [_ ?].
  - exact Ho.
Qed.

Lemma step_app x : steps_ok spare pick (IApp x).
Proof.
  open_step. destruct c as [ts|]; [|done].
  assert (H : s = false ∧ o = None ∧ (d = None ∨ d = Some Taken) ∧ a' = mkAbs (Some (ts ++ [x])) false d b None k).
  { destruct d as [[| |g d m]|], o, s; try done; injection Ea as <-; split_and!; auto. }
  destruct H as (-> & -> & Hd & ->). destruct (append spare x (h, cur t)) as [h' s'] eqn:Ex.
  eexists. by eapply app_own.
Qed.

Lemma step_sort : steps_ok spare pick ISort.
Proof.
  open_step. destruct c as [ts|], d, o, s; try done. injection Ea as <-. exists own.
  destruct (Hc ts eq_refl) as (Hs & Hown & Hel & _).
  destruct (sort_slice_spec (cur t) h Hw Hs) as (W & Hal & Hlen & He & Hoth).
  set (h' := sort_slice (cur t) h) in *. assert (Hobj : ∀ l, object h' l = object h l) by done.
  assert (L : local own own h h' i (objs_of t)).
  { split; try done; [by rewrite Hal|intros b' _; by rewrite Hlen|]. intros b' y Hb' H0 E Hy Hyo. split; [done|].
    apply Hoth. intros ->. unfold owned in Hown. destruct Hown as [?|[?|[? _]]]; [done|congruence..]. }
  split; [done|]. apply (pre_frame own own dirty h h' i t t others _ _ P L); [done|done|]. split.
  - intros ? [= <-]. split_and!; [by eapply local_slice_ok|done| |done]. intros E. by rewrite He, Hel.
  - exact Hh.
  - eapply Forall2_impl_in; [exact Hb|]. intros l e Hl Hen. pose proof Hen as [H3 H4 H5].
    split; unfold tags_of, deref; rewrite !Hobj; fold (tags_of h l); [exact H3| |intros ? Ee [= <-]; by eapply H5].
    intros E1 E2. rewrite <- H4 by done. unfold deref. f_equal. apply elems_same; [done|done|]. intros E0.
    apply Hoth. by eapply (entry_apart own dirty h i t _ ts l e Hen Hc).
  - exact Ho.
Qed.

(** *** Giving a metric back *)

(** What the pool and the goroutine are after the first metric of [buf] went
    from one to the other. *)
Lemma pre_put own own' dirty h h' i t l r others a a' :
  pre own dirty h i t others a → held t = None → buf t = l :: r → local own own' h h' i (objs_of t) →
  pool h' = pool h ++ [l] → pool_ok own' dirty h' l → thr_ok own' dirty h' i (with_buf r t) a' →
  pre own' dirty h' i (with_buf r t) others a'.
Proof.
  intros [Hw Hapart Hbound Hpool Ht] Eh Eb L Ep Hl Ht'.
  assert (Eo : objs_of t = l :: r) by (unfold objs_of; by rewrite Eh, Eb).
  assert (Eo' : objs_of (with_buf r t) = r) by (unfold objs_of; cbn; by rewrite Eh).
  split; [apply L| | | |done]; rewrite ?Eo', ?Ep.
  - rewrite Eo in Hapart. by rewrite <- app_assoc.
  - intros x Hx. pose proof (l_objs _ _ _ _ _ _ L). assert (x < length (objs h)); [|lia].
    apply Hbound. rewrite Eo. by right.
  - intros x [Hx| ->%list_elem_of_singleton]%elem_of_app; [|done].
    destruct (wf_pool h Hw) as [_ Hlt]. rewrite Forall_forall in Hlt.
    eapply local_pool_ok; [done|done|by apply Hlt| |by apply Hpool].
    apply NoDup_app in Hapart as (_ & Hapart & _). intros Hx'. apply (Hapart x Hx), elem_of_app. by left.
Qed.

Lemma pre_live own dirty h i t others a l r :
  pre own dirty h i t others a → held t = None → buf t = l :: r → live h (l :: r).
Proof.
  intros [Hw Hapart Hbound Hpool Ht] Eh Eb.
  assert (Eo : objs_of t = l :: r) by (unfold objs_of; by rewrite Eh, Eb). rewrite Eo in *.
  apply NoDup_app in Hapart as (_ & Hd & Hn). apply NoDup_app in Hn as (Hn & _). split_and!; [done| |].
  - apply Forall_forall. intros x Hx. apply Hbound, elem_of_app. by left.
  - intros x Hx Hx'. apply (Hd x Hx'), elem_of_app. by left.
Qed.

Lemma step_put : steps_ok spare pick IPut.
Proof.
  open_step. destruct c, d, o as [out|]; try done. destruct b as [|[[|] m] b]; try done. injection Ea as <-.
  specialize (Hput eq_refl). subst dirty. cbn [a_buf] in Hb.
  apply Forall2_cons_inv_r in Hb as (l & r & He & Hb & Eb). rewrite Eb. cbn [fst snd].
  assert (Eh : held t = None) by (unfold held_ok in Hh; cbn in Hh; by destruct (held t)).
  assert (Hlv := pre_live _ _ _ _ _ _ _ _ _ P Eh Eb).
  set (own' := λ b, if decide (b = arr (tags_of h l) ∧ own b = Some (OThr i)) then None else own b).
  assert (Hsame : ∀ b, own b ≠ Some (OThr i) → own' b = own b)
    by (intros b' H; unfold own'; rewrite decide_False; [done|tauto]).
  assert (Hor : ∀ b, own' b = own b ∨ own b = Some (OThr i) ∧ own' b = None)
    by (intros b'; unfold own'; case_decide; [right; tauto|by left]).
  assert (Hwf : wf (Put l h)) by (apply (put_all_wf [l] h Hw); destruct Hlv as (Hn & Hlt & Hp);
    apply NoDup_cons in Hn as [_ _]; apply Forall_cons in Hlt as [Hlt _]; split_and!;
    [apply NoDup_singleton|by apply Forall_singleton|intros x ->%list_elem_of_singleton; apply Hp; left]).
  assert (L : local own own' h (Put l h) i (objs_of t)).
  { split; try done.
    - intros b' x _ _ E Hx _. split; [|done]. rewrite Hsame; congruence.
    - intros b' _ E. rewrite Hsame; congruence. }
  exists own'. split; [done|]. eapply pre_put; [done|done|done|done|done| |].
  - split; [|done]. destruct He as [H _ _]. cbn in H. unfold owned in *. change (tags_of (Put l h) l) with (tags_of h l).
    destruct H as [H|[H|[H _]]]; [by left| |]; right; right; (split; [|done]).
    + unfold own'. by rewrite decide_True.
    + by rewrite Hsame by congruence.
  - split; [done| | |exact Ho].
    + unfold held_ok. cbn. by rewrite Eh.
    + cbn [buf with_buf a_buf]. eapply Forall2_impl; [exact Hb|]. intros l' e [H3 H4 H5]. split; [|done|done].
      change (tags_of (Put l h) l') with (tags_of h l'). cbn in H3 |- *. unfold owned in *.
      destruct H3 as [H3|[H3|[H3 Hx]]]; [by left| |].
      * destruct e as [[|] me]; cbn in *; [rewrite Hsame by congruence; auto|].
        destruct (Hor (arr (tags_of h l'))) as [->|[_ ->]]; [by right; left|by right; right].
      * right. right. split; [|done]. by rewrite Hsame by congruence.
Qed.

Lemma step_put_emptied : steps_ok spare pick IPutEmptied.
Proof.
  open_step. destruct c, d, o as [out|]; try done. destruct b as [|[[|] m] b]; try done. injection Ea as <-.
  cbn [a_buf] in Hb. apply Forall2_cons_inv_r in Hb as (l & r & He & Hb & Eb). rewrite Eb. cbn [fst snd].
  assert (Eh : held t = None) by (unfold held_ok in Hh; cbn in Hh; by destruct (held t)).
  assert (Hlv := pre_live _ _ _ _ _ _ _ _ _ P Eh Eb).
  assert (Hl : l < length (objs h)) by (destruct Hlv as (_ & H & _); by apply Forall_cons in H as [H _]).
  assert (Hin : l ∈ objs_of t) by (apply objs_buf; rewrite Eb; left).
  destruct (put_emptied_wf l r h Hw Hlv) as [Hwf _].
  assert (Etag : ∀ x, x ≠ l → object (put_emptied l h) x = object h x).
  { intros x Hx. unfold put_emptied. change (object (Put l ?y) x) with (object y x).
    by rewrite object_set, decide_False. }
  assert (L : local own own h (put_emptied l h) i (objs_of t)).
  { split; try done; [cbn; by rewrite length_insert|]. intros x Hx. apply Etag. by intros ->. }
  exists own. split; [done|]. eapply pre_put; [done|done|done|done|done| |].
  - unfold pool_ok, tags_of. rewrite put_emptied_tags, decide_True by done. split; [|done].
    destruct He as [H _ _]. cbn in H. unfold owned in *. cbn.
    destruct H as [H|[H|[H Hx]]]; [by left|right; by left|]. right. right. split; [done|].
    unfold tainted in Hx. cbn in Hx. by destruct dirty.
  - split; [done| | |exact Ho].
    + unfold held_ok. cbn. by rewrite Eh.
    + cbn [buf with_buf a_buf]. eapply Forall2_impl_in; [exact Hb|]. intros l' e Hl' [H3 H4 H5]. split; [|done|done].
      unfold tags_of. rewrite Etag; [exact H3|]. intros ->. by destruct Hlv as ([? _]%NoDup_cons & _).
Qed.

Lemma step_all x : steps_ok spare pick x.
Proof.
  destruct x; [apply step_nil|apply step_app|apply step_sort|apply step_get|apply step_take|apply step_attach|
    apply step_id|apply step_push|apply step_publish|apply step_put|apply step_put_emptied].
Qed.
End steps.
