(* ===== verification/PoolConcSpec.v ===== *)
(** * What concurrent requests on the metric pool keep apart

    The ownership of PoolOwner.v for all goroutines at once, along every
    schedule, and from it: no metric is in two hands, and what a request
    publishes is what it means on its own, for Prometheus and Datadog requests
    always, for OpenTSDB requests on a clean pool; the tags of two tenants that
    are mixed on a pool that is not. A request that runs alone is the handler of
    Write.v or Datadog.v. *)

From S2P Require Import Prelude GoStrings Strconv Schema Publish Http Write WriteSpec Datadog DatadogSpec PoolConc PoolOwner.

Section worlds.
Context (spare pick : nat → nat).

(** ** All goroutines *)

Record world_ok (own : ownership) (dirty : bool) (rs : list request) (w : world) : Prop := {
  wo_wf : wf (w_heap w);
  wo_apart : NoDup (pool (w_heap w) ++ (w_threads w ≫= objs_of));
  wo_bound l : l ∈ w_threads w ≫= objs_of → l < length (objs (w_heap w));
  wo_pool l : l ∈ pool (w_heap w) → pool_ok own dirty (w_heap w) l;
  wo_thr i t r : w_threads w !! i = Some t → rs !! i = Some r →
    ∃ a, thr_ok own dirty (w_heap w) i t a ∧ denotes a (todo t) (expected r) (takes r) ∧
      (IPut ∈ todo t → leaks r = true);
  wo_length : length (w_threads w) = length rs }.

(** A Prometheus request has published: it may be giving its metrics back. *)
Definition leaking (rs : list request) (w : world) : bool :=
  existsb (λ p, leaks p.2 && bool_decide (is_Some (batch p.1))) (zip (w_threads w) rs).

Lemma leaking_true rs w :
  leaking rs w = true ↔
  ∃ i t r, w_threads w !! i = Some t ∧ rs !! i = Some r ∧ leaks r = true ∧ is_Some (batch t).
Proof.
  unfold leaking. rewrite existsb_exists. split.
  - intros ([t r] & Hin%list_elem_of_In & [Hl Hb%bool_decide_eq_true]%andb_true_iff).
    apply list_elem_of_lookup in Hin as [i Hi]. apply lookup_zip_Some in Hi as [? ?]. by exists i, t, r.
  - intros (i & t & r & Ht & Hr & Hl & Hb). exists (t, r). split.
    + apply list_elem_of_In, (list_elem_of_lookup_2 _ i). by apply lookup_zip_Some.
    + cbn. rewrite Hl. by apply bool_decide_eq_true.
Qed.

Lemma bind_lookup {A B} (f : A → list B) (l : list A) i x :
  l !! i = Some x → l ≫= f ≡ₚ f x ++ (delete i l ≫= f).
Proof.
  revert i. induction l as [|y l IH]; intros [|i] H; simplify_eq/=; [done|]. rewrite (IH i H).
  by rewrite !app_assoc, (Permutation_app_comm (f x) (f y)).
Qed.

Lemma delete_insert_list {A} (l : list A) i x : delete i (<[i:=x]> l) = delete i l.
Proof. revert i. induction l as [|y l IH]; intros [|i]; cbn; [done..|]. f_equal. apply IH. Qed.

Lemma elem_of_others {A} (l : list thread) (f : thread → list A) i j t y :
  l !! j = Some t → i ≠ j → y ∈ f t → y ∈ delete i l ≫= f.
Proof.
  intros Hj Hij Hy. apply list_elem_of_bind. exists t. split; [done|].
  destruct (decide (j < i)) as [H|H]; [apply (list_elem_of_lookup_2 _ j); by rewrite list_lookup_delete_lt by lia|].
  apply (list_elem_of_lookup_2 _ (pred j)). rewrite list_lookup_delete_ge by lia. by replace (S (pred j)) with j by lia.
Qed.

Lemma tstep_todo x h t : todo (tstep spare pick x h t).2 = todo t.
Proof. destruct x; cbn; repeat case_match; done. Qed.

Lemma tstep_batch x h t :
  batch (tstep spare pick x h t).2 = if decide (x = IPublish) then Some (deref h <$> buf t) else batch t.
Proof. destruct x; cbn; repeat case_match; done. Qed.

Lemma thr_todo own dirty h i t a p : thr_ok own dirty h i t a ↔ thr_ok own dirty h i (with_todo p t) a.
Proof. split; intros [H1 H2 H3 H4]; (split; [exact H1|exact H2| |exact H4]); eapply Forall2_impl; [exact H3| |exact H3|]; intros l e [? ? ?]; by split. Qed.

(** The state of the goroutine that moves, with the metrics of the others. *)
Lemma world_pre own dirty rs w i t p a :
  world_ok own dirty rs w → w_threads w !! i = Some t → thr_ok own dirty (w_heap w) i t a →
  pre own dirty (w_heap w) i (with_todo p t) (delete i (w_threads w) ≫= objs_of) a.
Proof.
  intros [Hw Ha Hb Hp _ _] Ei Ht. rewrite (bind_lookup objs_of _ _ _ Ei) in Ha.
  split; [done|exact Ha| |done|by apply thr_todo].
  intros l Hl. apply Hb. rewrite (bind_lookup objs_of _ _ _ Ei). exact Hl.
Qed.

Lemma world_dirty own rs w : world_ok own false rs w → world_ok own true rs w.
Proof.
  intros [Hw Ha Hb Hp Ht Hl]. split; try done.
  - intros l Hin. destruct (Hp l Hin) as [H _]. split; [by eapply owned_mono|done].
  - intros i t r Ei Er. destruct (Ht i t r Ei Er) as (a & H1 & H2 & H3). exists a.
    split_and!; [by apply thr_dirty|done|done].
Qed.

(** A step of goroutine [i]; to give back a metric the pool must not be trusted. *)
Lemma world_step own dirty rs w i :
  world_ok own dirty rs w → (leaking rs w = true → dirty = true) →
  ∃ own', world_ok own' dirty rs (wstep spare pick i w).
Proof.
  intros W Hd. unfold wstep. destruct (w_threads w !! i) as [t|] eqn:Ei; [|by exists own].
  destruct (todo t) as [|x p] eqn:Et; [by exists own|].
  destruct (lookup_lt_is_Some_2 rs i) as [r Er]; [rewrite <- (wo_length _ _ _ _ W); by eapply lookup_lt_Some|].
  destruct (wo_thr _ _ _ _ W i t r Ei Er) as (a & Ha & (a' & Hrun & Hout & Htook) & Hput).
  rewrite Et in Hrun, Hput. cbn [abs_run] in Hrun. destruct (abs_step a x) as [a1|] eqn:Ea; [|done].
  pose proof (world_pre _ _ _ _ _ _ p _ W Ei Ha) as P.
  assert (Hdp : x = IPut → dirty = true).
  { intros ->. apply Hd, leaking_true. exists i, t, r. split_and!; [done|done|apply Hput; left|].
    pose proof (t_out _ _ _ _ _ _ Ha) as Ho. unfold out_ok in Ho.
    destruct a as [[c|] s [d|] b [o|] k]; try done. by destruct (batch t). }
  destruct (step_all spare pick x own dirty (w_heap w) i (with_todo p t) _ a a1 P Ea Hdp) as (own' & L & P').
  pose proof (tstep_todo x (w_heap w) (with_todo p t)) as Etodo.
  destruct (tstep spare pick x (w_heap w) (with_todo p t)) as [h' t']. cbn [fst snd todo with_todo] in *.
  assert (Hlt : i < length (w_threads w)) by (by eapply lookup_lt_Some).
  assert (Eb : <[i:=t']> (w_threads w) ≫= objs_of ≡ₚ objs_of t' ++ (delete i (w_threads w) ≫= objs_of)).
  { rewrite (bind_lookup objs_of _ i t') by (by apply list_lookup_insert_eq). by rewrite delete_insert_list. }
  exists own'. destruct P' as [Pw Pa Pb Pp Pt]. split; cbn [w_heap w_threads]; [done|by rewrite Eb| |done| |].
  - intros l. rewrite Eb. apply Pb.
  - intros j tj rj Ej Erj. destruct (decide (i = j)) as [<-|Hij].
    + rewrite list_lookup_insert_eq in Ej by done. injection Ej as <-. exists a1. split_and!; [done| |].
      * exists a'. rewrite Etodo. simplify_eq. done.
      * rewrite Etodo. intros Hin. simplify_eq. apply Hput. by right.
    + rewrite list_lookup_insert_ne in Ej by done. destruct (wo_thr _ _ _ _ W j tj rj Ej Erj) as (aj & Hj & Hrest).
      exists aj. split; [|done]. eapply local_thr; [exact L|apply W|done| |done].
      intros l Hl. assert (Hoth := elem_of_others _ _ _ _ _ _ Ej Hij Hl). split.
      * destruct P as [_ Hapart _ _ _]. apply NoDup_app in Hapart as (_ & _ & Hapart).
        apply NoDup_app in Hapart as (_ & Hapart & _). intros Hl'. by apply (Hapart l Hl').
      * apply (p_bound _ _ _ _ _ _ _ P), elem_of_app. by right.
  - by rewrite length_insert, (wo_length _ _ _ _ W).
Qed.

(** What was published stays published. *)
Lemma leaking_mono rs w i : leaking rs w = true → leaking rs (wstep spare pick i w) = true.
Proof.
  rewrite !leaking_true. intros (j & t & r & Ht & Hr & Hl & Hb). unfold wstep.
  destruct (w_threads w !! i) as [u|] eqn:Ei; [|by exists j, t, r]. destruct (todo u) as [|x p]; [by exists j, t, r|].
  pose proof (tstep_batch x (w_heap w) (with_todo p u)) as Eb.
  destruct (tstep spare pick x (w_heap w) (with_todo p u)) as [h' u']. cbn [fst snd batch with_todo] in Eb.
  destruct (decide (i = j)) as [<-|Hij].
  - exists i, u', r. cbn. simplify_eq. split_and!; [apply list_lookup_insert_eq; by eapply lookup_lt_Some|done|done|].
    rewrite Eb. by case_decide.
  - exists j, t, r. cbn. by rewrite list_lookup_insert_ne.
Qed.

Lemma world_run dirty0 rs own w schedule :
  world_ok own (dirty0 || leaking rs w) rs w →
  let w' := wrun spare pick schedule w in ∃ own', world_ok own' (dirty0 || leaking rs w') rs w'.
Proof.
  revert own w. induction schedule as [|i l IH]; intros own w W; [by exists own|]. cbn [wrun foldl].
  destruct (world_step own _ rs w i W) as [own' W']; [intros ->; by rewrite orb_true_r|].
  apply (IH own'). destruct (leaking rs w) eqn:E1.
  - by rewrite (leaking_mono _ _ _ E1).
  - rewrite orb_false_r in W'. destruct (leaking rs (wstep spare pick i w)); [|by rewrite orb_false_r].
    rewrite orb_true_r. destruct dirty0; [done|by apply world_dirty].
Qed.

(** ** From the invariant to the batches *)

Lemma abs_run_mono a p a' :
  abs_run a p = Some a' → (∀ o, a_out a = Some o → a_out a' = Some o) ∧ (a_took a = true → a_took a' = true).
Proof.
  revert a. induction p as [|x p IH]; intros a E; cbn in E; [by injection E as <-|].
  destruct (abs_step a x) as [a1|] eqn:Es; [|done]. apply IH in E as [E1 E2].
  assert (H : (∀ o, a_out a = Some o → a_out a1 = Some o) ∧ (a_took a = true → a_took a1 = true)).
  { clear -Es. destruct a as [c s d b o k]. destruct x; cbn in Es; repeat case_match; simplify_eq; done. }
  destruct H as [H1 H2]. split; auto.
Qed.

Lemma world_batch own dirty rs w i t r b :
  world_ok own dirty rs w → w_threads w !! i = Some t → rs !! i = Some r → batch t = Some b →
  dirty = false ∨ takes r = false → expected r = Some b.
Proof.
  intros W Et Er Eb Hd. destruct (wo_thr _ _ _ _ W i t r Et Er) as (a & Ha & (a' & Hrun & Hout & Htook) & _).
  apply abs_run_mono in Hrun as [H1 H2]. pose proof (t_out _ _ _ _ _ _ Ha) as Ho. unfold out_ok in Ho.
  rewrite Eb in Ho. destruct (a_out a) as [o|]; [|done]. rewrite <- Hout, (H1 o eq_refl). f_equal. symmetry. apply Ho.
  unfold tainted. destruct Hd as [->|Hd]; [done|]. destruct (a_took a); [|by rewrite andb_false_r].
  rewrite Htook in Hd by auto. done.
Qed.

(** *** The start *)

Lemma spawn_ok own dirty h i r : wf h → thr_ok own dirty h i (spawn r) abs0.
Proof.
  intros Hw. split; [|done|constructor|done]. intros ts [= <-]. split_and!; [by apply nil_ok|by left|done|done].
Qed.

Lemma spawn_objs rs : (spawn <$> rs) ≫= objs_of = [].
Proof. induction rs as [|r rs IH]; [done|]. exact IH. Qed.

Lemma apps_no_put (xs : list string) : IPut ∉ IApp <$> xs.
Proof. intros (y & [=] & _)%list_elem_of_fmap. Qed.

Lemma tag_set_no_put tags ms : IPut ∉ tag_set_code tags ms.
Proof.
  unfold tag_set_code, shared_code. rewrite !elem_of_cons, elem_of_app, elem_of_cons, list_elem_of_bind.
  intros [[=]|[H|[[=]|(m & H & _)]]]; [by apply apps_no_put in H|].
  unfold store_code in H. repeat (apply elem_of_cons in H as [[=]|H]). by apply elem_of_nil in H.
Qed.

Lemma tsdb_no_put org ts : IPut ∉ tsdb_point org ts.
Proof.
  unfold tsdb_point. rewrite !elem_of_app. intros [H|[H|H]]; [|by apply apps_no_put in H|];
    repeat (apply elem_of_cons in H as [[=]|H]); by apply elem_of_nil in H.
Qed.

(** Only Prometheus requests give metrics back with their tags. *)
Lemma put_leaks r : IPut ∈ code r → leaks r = true.
Proof.
  destruct r as [org l|org l|f org l|org l]; [done|..]; cbn [code leaks]; intros H; exfalso;
    apply elem_of_app in H as [(x & H & _)%list_elem_of_bind|[[=]|H]%elem_of_cons].
  - by apply tsdb_no_put in H.
  - by apply elem_of_replicate in H as [[=] _].
  - by apply tag_set_no_put in H.
  - by apply elem_of_nil in H.
  - by apply tag_set_no_put in H.
  - by apply elem_of_nil in H.
Qed.

Lemma start_leaking h rs : leaking rs (start h rs) = false.
Proof.
  destruct (leaking rs (start h rs)) eqn:E; [|done]. apply leaking_true in E as (i & t & r & Ht & _ & _ & [b Hb]).
  cbn in Ht. apply list_lookup_fmap_Some in Ht as (r' & -> & _). done.
Qed.

Lemma start_ok own dirty h rs :
  wf h → (∀ l, l ∈ pool h → pool_ok own dirty h l) → world_ok own dirty rs (start h rs).
Proof.
  intros Hw Hp. split; cbn [w_heap w_threads start]; rewrite ?spawn_objs; try done.
  - rewrite app_nil_r. apply Hw.
  - by intros l ?%elem_of_nil.
  - intros i t r Et Er. apply list_lookup_fmap_Some in Et as (r' & -> & Er'). simplify_eq.
    exists abs0. split_and!; [by apply spawn_ok|apply code_denotes|apply put_leaks].
  - by rewrite length_fmap.
Qed.

(** The owner of an array in a clean pool: the metric that has it. *)
Definition pool_owner (h : heap) : ownership :=
  λ b, OObj <$> head (filter (λ l, arr (tags_of h l) = b) (pool h)).

Lemma clean_pool_ok h l : clean h [] → l ∈ pool h → pool_ok (pool_owner h) false h l.
Proof.
  intros (Hw & _ & Hlen & Hap) Hl. split; [|intros _; by apply Hlen].
  destruct (decide (arr (tags_of h l) = 0)) as [E|E]; [by left|]. right. left. unfold pool_owner.
  destruct (filter _ (pool h)) as [|x xs] eqn:Ef.
  { exfalso. assert (Hin : l ∈ filter (λ l', arr (tags_of h l') = arr (tags_of h l)) (pool h))
      by (by apply list_elem_of_filter). by rewrite Ef in Hin; apply elem_of_nil in Hin. }
  cbn. do 2 f_equal. assert (Hin : x ∈ filter (λ l', arr (tags_of h l') = arr (tags_of h l)) (pool h))
    by (rewrite Ef; left). apply list_elem_of_filter in Hin as [Ea Hin].
  destruct (decide (x = l)) as [->|Hne]; [done|]. exfalso. apply E. rewrite <- Ea.
  apply (Hap x l); [by rewrite app_nil_r..|done|exact Ea].
Qed.

Lemma run_any h rs schedule :
  wf h → let w := wrun spare pick schedule (start h rs) in ∃ own, world_ok own true rs w.
Proof.
  intros Hw. apply (world_run true rs (λ _, None)). apply start_ok; [done|].
  intros l _. split; [right; by right|done].
Qed.

Lemma run_clean h rs schedule :
  clean h [] → let w := wrun spare pick schedule (start h rs) in ∃ own, world_ok own (leaking rs w) rs w.
Proof.
  intros Hc. apply (world_run false rs (pool_owner h)). rewrite start_leaking. apply start_ok; [apply Hc|].
  intros l Hl. by apply clean_pool_ok.
Qed.

(** ** Properties *)

(** C8. Whatever the requests that share the pool and however their goroutines
    are interleaved, the store stays well-formed and no metric is in two hands:
    the metrics of the pool, those the goroutines hold and those they have made
    or are giving back are all different. *)
Theorem no_metric_in_two_hands h rs schedule :
  wf h →
  let w := wrun spare pick schedule (start h rs) in
  wf (w_heap w) ∧ NoDup (pool (w_heap w) ++ (w_threads w ≫= objs_of)).
Proof. intros Hw. destruct (run_any h rs schedule Hw) as [own W]. by split; apply W. Qed.

(** C7. Requests do not interfere. Whatever the pool holds and whatever runs
    beside them, what Prometheus and Datadog requests publish is what they mean
    on their own: one metric for each sample, in order, with its own tags. If the
    pool was clean and no Prometheus request has published yet, so that none has
    given metrics back with their tags, the same holds of OpenTSDB requests. *)
Theorem requests_do_not_interfere h rs schedule i t r b :
  wf h →
  let w := wrun spare pick schedule (start h rs) in
  w_threads w !! i = Some t → rs !! i = Some r → batch t = Some b →
  takes r = false ∨ clean h [] ∧ leaking rs w = false →
  expected r = Some b.
Proof.
  intros Hw w Et Er Eb [Hk|[Hc Hl]].
  - destruct (run_any h rs schedule Hw) as [own W]. eapply world_batch; [exact W|done|done|done|by right].
  - destruct (run_clean h rs schedule Hc) as [own W]. eapply world_batch; [exact W|done|done|done|by left].
Qed.

(** ** A goroutine alone *)

Definition exec (p : list instr) (r : heap * thread) : heap * thread :=
  foldl (λ r x, tstep spare pick x r.1 r.2) r p.

Lemma exec_app p q r : exec (p ++ q) r = exec q (exec p r).
Proof. apply foldl_app. Qed.

Lemma exec_cons x p r : exec (x :: p) r = exec p (tstep spare pick x r.1 r.2).
Proof. done. Qed.

Lemma wrun_alone p h t :
  todo t = p →
  wrun spare pick (replicate (length p) 0) (mkWorld h [t]) =
    mkWorld (exec p (h, with_todo [] t)).1 [(exec p (h, with_todo [] t)).2].
Proof.
  revert h t. induction p as [|x p IH]; intros h t Et; [destruct t; cbn in *; by subst|].
  cbn [length replicate wrun foldl exec]. unfold wstep at 2. cbn [w_threads lookup list_lookup]. rewrite Et.
  cbn [w_heap fst snd]. pose proof (tstep_todo x h (with_todo p t)) as E.
  assert (Ex : ∀ q, tstep spare pick x h (with_todo q t) =
    ((tstep spare pick x h t).1, with_todo q (tstep spare pick x h t).2)).
  { intros q. destruct x; cbn; repeat case_match; done. }
  rewrite !Ex. cbn [insert list_insert]. etransitivity; [apply IH; done|]. done.
Qed.

Lemma exec_apps xs h t :
  exec (IApp <$> xs) (h, t) =
    ((append_all spare xs h (cur t)).1, with_cur (append_all spare xs h (cur t)).2 t).
Proof.
  unfold append_all. revert h t. induction xs as [|x xs IH]; intros h t; [by destruct t|].
  cbn [fmap list_fmap exec foldl tstep fst snd]. destruct (append spare x (h, cur t)) as [h1 s1].
  etransitivity; [apply IH|]. done.
Qed.

Lemma exec_shared ms h t :
  held t = None →
  exec (shared_code ms) (h, t) =
    ((new_metrics pick (cur t) ms (buf t) h).1, with_buf (new_metrics pick (cur t) ms (buf t) h).2 t).
Proof.
  revert h t. induction ms as [|m ms IH]; intros h t Eh; [by destruct t|].
  rewrite shared_code_cons, exec_app. cbn [new_metrics]. unfold new_metric.
  cbn [exec store_code foldl tstep fst snd]. destruct (Get pick h) as [h1 l]. cbn [fst snd held with_held].
  etransitivity; [apply IH; done|]. destruct t. cbn in *. by subst.
Qed.

Lemma new_metrics_length s ms b h h' b' :
  new_metrics pick s ms b h = (h', b') → length b' = length b + length ms.
Proof.
  revert b h. induction ms as [|m ms IH]; intros b h; cbn [new_metrics]; [intros [= <- <-]; cbn; lia|].
  destruct (new_metric _ _ _ _) as [h1 x]. intros E%IH. rewrite E, length_app. cbn. lia.
Qed.

Lemma exec_puts h t :
  exec (replicate (length (buf t)) IPut) (h, t) = (put_all (buf t) h, with_buf [] t).
Proof.
  destruct t as [p c d b o]. cbn [buf]. unfold put_all. revert h. induction b as [|l b IH]; intros h; [done|].
  etransitivity; [apply IH|]. done.
Qed.

Lemma exec_puts_emptied n h t :
  length (buf t) = n →
  exec (replicate n IPutEmptied) (h, t) = (put_all_emptied (buf t) h, with_buf [] t).
Proof.
  intros <-. destruct t as [p c d b o]. cbn [buf]. unfold put_all_emptied. revert h.
  induction b as [|l b IH]; intros h; [done|]. etransitivity; [apply IH|]. done.
Qed.

(** What running a request leaves: the store and what it published. *)
Definition left_by (r : heap * thread) : heap * option (list MetricData) := (r.1, batch r.2).

Lemma exec_prom org l n h t :
  held t = None → batch t = None → length (buf t) = n →
  left_by (exec (prom_code org l n) (h, t)) =
    match prom_series spare pick org l (buf t) h with
    | (h', Some b) => (put_all b h', Some (deref h' <$> b))
    | (h', None) => (h', None)
    end.
Proof.
  revert n h t. induction l as [|ts l IH]; intros n h t Eh Eb En; cbn [prom_code prom_series].
  - subst n. rewrite exec_cons. cbn [tstep fst snd].
    by rewrite (exec_puts h (with_batch (deref h <$> buf t) t)).
  - destruct (split_labels (Labels ts)) as [name labels].
    rewrite exec_cons, exec_app. cbn [tstep fst snd]. rewrite exec_apps. cbn [cur with_cur].
    destruct (append_all spare labels h nil_slice) as [h1 s]. cbn [fst snd].
    destruct (decide (name = "")) as [Hn|Hn];
      [rewrite (bool_decide_eq_true_2 (name = "")) by done; by rewrite <- Eb|].
    rewrite (bool_decide_eq_false_2 (name = "")) by done.
    rewrite exec_app, exec_shared by done. cbn [cur with_cur buf].
    destruct (new_metrics pick s _ (buf t) h1) as [h2 b2] eqn:Em. cbn [fst snd].
    rewrite IH; [done|done|done|]. cbn. apply new_metrics_length in Em. rewrite Em.
    unfold prom_samples. rewrite length_fmap. lia.
Qed.

Lemma exec_tsdb_points org l h t :
  held t = None →
  let r := tsdb_metrics spare pick org l (buf t) h in
  ∃ c, exec (l ≫= tsdb_point org) (h, t) = (r.1, with_cur c (with_buf r.2 t)).
Proof.
  revert h t. induction l as [|ts l IH]; intros h t Eh; [exists (cur t); by destruct t|].
  rewrite bind_cons, exec_app. unfold tsdb_point at 2. rewrite !exec_app.
  cbn [tsdb_metrics]. unfold new_metric, FormatTags. rewrite !exec_cons. cbn [tstep fst snd].
  destruct (Get pick h) as [h1 x]. cbn [fst snd held with_held exec foldl].
  fold (exec (IApp <$> tag_texts (t_Tags ts))). 
  rewrite exec_apps. cbn [cur with_cur].
  destruct (append_all spare (tag_texts (t_Tags ts)) h1 (o_tags (object h1 x))) as [h2 s].
  cbn [fst snd held with_cur with_held exec foldl tstep cur buf].
  destruct (IH (SetId_at x (set_obj x (mkObj (with_Tags [] (tsdb_literal org ts)) s) h2))
    (with_held None (with_buf (buf t ++ [x]) (with_cur s t)))) as [c E]; [done|].
  exists c. etransitivity; [exact E|]. destruct t. cbn in *. by subst.
Qed.

Lemma tsdb_metrics_length org l b h h' b' :
  tsdb_metrics spare pick org l b h = (h', b') → length b' = length b + length l.
Proof.
  revert b h. induction l as [|m l IH]; intros b h; cbn [tsdb_metrics]; [intros [= <- <-]; cbn; lia|].
  destruct (new_metric _ _ _ _) as [h1 x]. intros E%IH. rewrite E, length_app. cbn. lia.
Qed.

Lemma exec_tag_set tags ms h t :
  held t = None →
  let '(h1, s) := append_all spare tags h nil_slice in
  let r := new_metrics pick s ms (buf t) (sort_slice s h1) in
  exec (tag_set_code tags ms) (h, t) = (r.1, with_buf r.2 (with_cur s t)).
Proof.
  intros Eh. destruct (append_all spare tags h nil_slice) as [h1 s] eqn:E. unfold tag_set_code.
  rewrite exec_cons, exec_app. cbn [tstep fst snd]. rewrite exec_apps. cbn [cur with_cur]. rewrite E.
  rewrite exec_cons. cbn [tstep fst snd cur with_cur]. by rewrite exec_shared.
Qed.

(** The loops of Datadog.v, which build a tag set and put metrics on it. *)
Lemma exec_tag_sets {A} (tags : A → list string) (ms : A → list MetricData)
    (loop : list A → list nat → heap → heap * list nat) (l : list A) h t :
  (∀ b h, loop [] b h = (h, b)) →
  (∀ x l b h, loop (x :: l) b h =
    let '(h1, s) := append_all spare (tags x) h nil_slice in
    let '(h2, b2) := new_metrics pick s (ms x) b (sort_slice s h1) in loop l b2 h2) →
  held t = None →
  left_by (exec ((l ≫= λ x, tag_set_code (tags x) (ms x)) ++ [IPublish]) (h, t)) =
    ((loop l (buf t) h).1, Some (deref (loop l (buf t) h).1 <$> (loop l (buf t) h).2)).
Proof.
  intros Hnil Hcons. revert h t. induction l as [|x l IH]; intros h t Eh; [by rewrite Hnil|].
  rewrite bind_cons, <- app_assoc, exec_app, Hcons. pose proof (exec_tag_set (tags x) (ms x) h t Eh) as E.
  destruct (append_all spare (tags x) h nil_slice) as [h1 s]. rewrite E.
  destruct (new_metrics pick s (ms x) (buf t) (sort_slice s h1)) as [h2 b2]. cbn [fst snd].
  by rewrite IH.
Qed.

(** The same store and the same batch as of a handler. *)
Definition alone (r : request) (h : heap) : world :=
  wrun spare pick (replicate (length (code r)) 0) (start h [r]).
Definition same_as {S} (w : world) (res : result S) : Prop :=
  w_heap w = r_heap res ∧ batch <$> w_threads w = [r_batch res].

Lemma same_as_intro {S} r h (res : result S) :
  left_by (exec (code r) (h, with_todo [] (spawn r))) = (r_heap res, r_batch res) → same_as (alone r h) res.
Proof.
  intros [= E1 E2]. unfold same_as, alone. change (start h [r]) with (mkWorld h [spawn r]).
  rewrite wrun_alone by done. cbn [w_heap w_threads fmap list_fmap]. by rewrite E1, E2.
Qed.

Lemma finish_same {S E} (publisher : Publisher S E) release b before h p :
  r_heap (finish publisher release b before h p) = release b h ∧
  r_batch (finish publisher release b before h p) = Some (deref h <$> b).
Proof. unfold finish. by destruct (Publish publisher (deref h <$> b) p) as [[p' ms] err]. Qed.

(** C28. The goroutines are the handlers: run alone, the instructions of a
    request leave the store and publish the batch that the handler of Write.v or
    Datadog.v does, on every store, for every body and whatever the publisher
    says. *)
Theorem a_request_alone_is_its_handler {S E} (publisher : Publisher S E) user h p body :
  (∀ series, same_as (alone (RProm (ID user) series) h)
     (PrometheusMTWrite spare pick publisher Some (λ _, Some series) user (Some (Some body)) h p)) ∧
  (∀ points, same_as (alone (RTsdb (ID user) points) h)
     (OpenTSDBWrite spare pick publisher Some (λ _, Some points) user false (Some (Some body)) h p)) ∧
  (∀ f series, same_as (alone (RSeries f (ID user) series) h)
     (DataDogSeries spare pick publisher Some f (λ _, Some series) user false (Some (body, true)) h p)) ∧
  (∀ checks, same_as (alone (RChecks (ID user) checks) h)
     (DataDogCheck spare pick publisher Some (λ _, (checks, true)) user false (Some (body, true)) h p)).
Proof.
  split_and!.
  - intros series. apply same_as_intro. cbn [code]. rewrite exec_prom by done. unfold PrometheusMTWrite. cbn [buf spawn with_todo].
    destruct (prom_series spare pick (ID user) series [] h) as [h' [b|]]; [|done].
    by destruct (finish_same publisher put_all b [] h' p) as [-> ->].
  - intros points. apply same_as_intro. cbn [code]. unfold tsdb_code. rewrite exec_app.
    destruct (exec_tsdb_points (ID user) points h (with_todo [] (spawn (RTsdb (ID user) points))) eq_refl) as [c ->].
    unfold OpenTSDBWrite. cbn [buf spawn with_todo].
    destruct (tsdb_metrics spare pick (ID user) points [] h) as [h' b] eqn:Et. cbn [fst snd].
    destruct (finish_same publisher put_all_emptied b [] h' p) as [-> ->].
    apply tsdb_metrics_length in Et. rewrite exec_cons. cbn [tstep fst snd].
    by rewrite exec_puts_emptied.
  - intros f series. apply same_as_intro. cbn [code]. unfold series_code.
    rewrite (exec_tag_sets _ _ (dd_metrics spare pick f (ID user))); [|done| |done].
    + unfold DataDogSeries. cbn [decodeJSON buf spawn with_todo].
      destruct (dd_metrics spare pick f (ID user) series [] h) as [h' b]. cbn [fst snd].
      by destruct (finish_same publisher put_none b [] h' p) as [-> ->].
    + intros x l b h0. cbn [dd_metrics]. unfold createTagSet. by destruct (append_all _ _ _ _).
  - intros checks. apply same_as_intro. cbn [code]. unfold checks_code.
    rewrite (exec_tag_sets _ _ (check_metrics spare pick (ID user))); [|done| |done].
    + unfold DataDogCheck. cbn [decodeJSON buf spawn with_todo app].
      destruct (check_metrics spare pick (ID user) checks [] h) as [h' b]. cbn [fst snd].
      by destruct (finish_same publisher put_none b [] h' p) as [-> ->].
    + intros x l b h0. cbn [check_metrics]. unfold createTagSet. by destruct (append_all _ _ _ _).
Qed.
End worlds.

(** ** Witnesses, and the tags of two tenants *)

Definition ex_dd : list dd_series :=
  [mkDDSeries "load" [(1500000000, 1); (1500000010, 2)]%Z ["env:prod"] "web1" "gauge" ""].
Definition ex_requests : list request :=
  [RProm 1 ex_series; RSeries (λ z, z) 2 ex_dd; RTsdb 3 [ex_point "eu"; ex_point "us"]].
(** In turns. *)
Definition ex_turns (n : nat) : list nat := mjoin (replicate n [0; 1; 2]).
Abbreviation ex_world sched := (wrun ex_spare ex_pick sched (start empty_heap ex_requests)).

Lemma no_metric_in_two_hands_witness :
  let w := ex_world (ex_turns 9) in
  NoDup (pool (w_heap w) ++ (w_threads w ≫= objs_of)) ∧ length (w_threads w ≫= objs_of) = 6.
Proof.
  split; [|vm_compute; reflexivity].
  apply (no_metric_in_two_hands ex_spare ex_pick empty_heap ex_requests (ex_turns 9) empty_wf).
Defined.

(** The Datadog request, beside the others. *)
Lemma requests_do_not_interfere_witness :
  ∃ t b, w_threads (ex_world (ex_turns 13)) !! 1 = Some t ∧ batch t = Some b ∧ length b = 2 ∧
    expected (RSeries (λ z, z) 2 ex_dd) = Some b.
Proof.
  eexists _, _. split_and!; [vm_compute; reflexivity|vm_compute; reflexivity|reflexivity|].
  eapply (requests_do_not_interfere ex_spare ex_pick empty_heap ex_requests (ex_turns 13) 1 _ _ _ empty_wf);
    [vm_compute; reflexivity|reflexivity|vm_compute; reflexivity|by left].
Defined.

(** Prometheus, org 1, to its end; then OpenTSDB requests of orgs 2 and 3 take
    the two metrics it gave back, and both append a tag before the first of them
    goes on. *)
Definition ex_mixed : list request := [RProm 1 ex_series; RTsdb 2 [ex_point "eu"]; RTsdb 3 [ex_point "us"]].
Definition ex_race : list nat :=
  replicate (length (code (RProm 1 ex_series))) 0 ++ [1; 1; 1; 2; 2; 2] ++ replicate 5 1.

(** After a Prometheus request has given back two metrics that share their
    tag array, two OpenTSDB requests of different tenants, at the same time, can
    append to that array both: the request of org 2 publishes the labels of org
    1 and, in place of its own tag, the tag of org 3. *)
Theorem two_tenants_tags_are_mixed :
  let w := wrun ex_spare ex_pick ex_race (start empty_heap ex_mixed) in
  ∃ t m, w_threads w !! 1 = Some t ∧ batch t = Some [m] ∧ OrgId m = 2%Z ∧
    Tags m = ["az=1"; "instance=a"; "job=node"; "zone=us"] ∧
    Tags <$> default [] (expected (RTsdb 2 [ex_point "eu"])) = [["zone=eu"]].
Proof. eexists _, _. vm_compute. split_and!; reflexivity. Qed.
