(* ===== verification/Persister.v ===== *)
(** * The persister: persister/, metrics_client/

    The service that keeps the metrics of Datadog agents alive: the client that
    pushes metrics to the gateway, the client that pushes payloads to the
    persister, the stored rows, the handlers and the periodic [Send]. An
    operation is [None] where it waits for the mutex for ever. JSON, msgp,
    snappy, HTTP and Bigtable are parameters. *)

From S2P Require Import Prelude GoStrings Strconv Schema Datadog.
From Stdlib Require Import Ascii.

(** ** metrics_client, persister/persist *)

Record push_req := mkPush {
  q_user : string; q_key : string; q_type : string; q_body : string }.

Section client.
(** The network: the status of the response, [None] for an error. *)
Context {N : Type} (http_do : push_req → N → N * option Z).
Context (create_msg : list MetricData → option string) (snappy : string → string).
Context (apiKey : string).

Inductive push_error := NoMetrics | BadMessage | NoResponse | BadStatus.

Definition classify (st : option Z) : outcome push_error Z :=
  match st with
  | None => Err NoResponse
  | Some code => if bool_decide (200 ≤ code ∧ code < 300)%Z then Ok code else Err BadStatus
  end.

Definition push (metrics : list MetricData) (n : N) : N * outcome push_error Z :=
  match metrics with
  | [] => (n, Err NoMetrics)
  | m :: _ =>
      match create_msg metrics with
      | None => (n, Err BadMessage)
      | Some data =>
          let '(n, st) :=
            http_do (mkPush (Itoa (OrgId m)) apiKey "rt-metric-binary-snappy" (snappy data)) n in
          (n, classify st)
      end
  end.

(** [Push]: whether there was no error. *)
Definition client_Push (metrics : list MetricData) (n : N) : N * bool :=
  let '(n, r) := push metrics n in (n, match r with Ok _ => true | _ => false end).

Definition client_PushIntake (payload : string) (n : N) : N * outcome push_error Z :=
  let '(n, st) := http_do (mkPush "" "" "application/json" payload) n in (n, classify st).

(** persist.go: [PushIntake] drops the response and its error. *)
Definition persist_Persist (enabled : bool) (data : string) (n : N) : N * bool :=
  if enabled then ((http_do (mkPush "" "" "application/json" data) n).1, true) else (n, true).
End client.

(** ** storage *)

Definition with_OrgID (o : Z) (i : DataDogIntakePayload) : DataDogIntakePayload :=
  mkIntake (AgentVersion i) (OS i) (InternalHostname i) (Machine i) (Processor i)
    (SocketHostname i) (SocketFqdn i) (Hostname i) (InstanceID i) (System i)
    (GoogleCloudPlatform i) (Gohai_json i) o.

Definition sliceContains (l : list string) (target : string) : bool :=
  existsb (λ s, bool_decide (s = target)) l.

Section persister.
(** Bigtable: a mutation of a row, of several rows, and the rows with the prefix
    in the order of their keys, with the cell of the payload's family. *)
Context {T : Type} (Apply : string → string → T → T * bool).
Context (DeleteRows : list string → T → T * bool).
Context (ReadRows : T → option (list (string * option string))).

Context (marshal_payload : PersistPayload → string).
Context (unmarshal_payload : string → option PersistPayload).
Context (unmarshal_intake : string → DataDogIntakePayload * bool).
Context (unmarshal_gohai : string → option Gohai).

Definition Store (rowKey : string) (data : PersistPayload) (t : T) : T * bool :=
  Apply rowKey (marshal_payload data) t.

(** The callback of [ReadRows]: [false] from it ends the reading without an
    error. *)
Fixpoint retrieve (rows : list (string * option string))
    (intakes : gmap string DataDogIntakePayload) : gmap string DataDogIntakePayload :=
  match rows with
  | [] => intakes
  | (_, None) :: rest => retrieve rest intakes
  | (k, Some value) :: rest =>
      match unmarshal_payload value with
      | None => intakes
      | Some payload =>
          match unmarshal_intake (pp_Raw payload) with
          | (_, false) => intakes
          | (intake, true) => retrieve rest (<[k := with_OrgID (pp_OrgID payload) intake]> intakes)
          end
      end
  end.

Definition Retrieve (t : T) : option (gmap string DataDogIntakePayload) :=
  match ReadRows t with None => None | Some rows => Some (retrieve rows ∅) end.

(** ** persister.go *)

Record Persister := mkPersister {
  locked : bool; metrics : gmap string (list MetricData); store : T }.

Definition set_metrics (m : gmap string (list MetricData)) (p : Persister) : Persister :=
  mkPersister (locked p) m (store p).
Definition set_store (t : T) (p : Persister) : Persister := mkPersister (locked p) (metrics p) t.
Definition set_locked (b : bool) (p : Persister) : Persister := mkPersister b (metrics p) (store p).

Definition Persist (rowKey : string) (ms : list MetricData) (p : Persister) : option Persister :=
  if locked p then None else Some (set_metrics (<[rowKey := ms]> (metrics p)) p).

(** [load]: the order in which it takes the payloads does not matter. *)
Definition load (p : Persister) : option (Persister * bool) :=
  match Retrieve (store p) with
  | None => Some (p, false)
  | Some payloads =>
      p' ← foldr (λ kv r, p ← r; Persist kv.1 (GeneratePersistentMetrics unmarshal_gohai kv.2) p)
             (Some p) (map_to_list payloads);
      Some (p', true)
  end.

Definition row_key (org : Z) (host : string) : string := Itoa org +:+ ":" +:+ host.

(** The status of the reply. [body]: [Some None], it could not be read. *)
Definition PersistHandler (body : option (option string)) (p : Persister) : option (Persister * Z) :=
  match body with
  | None | Some None => Some (p, 400%Z)
  | Some (Some data) =>
      match unmarshal_payload data with
      | None => Some (p, 400%Z)
      | Some payload =>
          let rowKey := row_key (pp_OrgID payload) (pp_Hostname payload) in
          let '(t, ok) := Store rowKey payload (store p) in
          let p := set_store t p in
          if negb ok then Some (p, 500%Z) else
          match unmarshal_intake (pp_Raw payload) with
          | (_, false) => Some (p, 400%Z)
          | (info, true) =>
              p ← Persist rowKey
                    (GeneratePersistentMetrics unmarshal_gohai (with_OrgID (pp_OrgID payload) info)) p;
              Some (p, 200%Z)
          end
      end
  end.

(** [unmarshal_keys] is the JSON of [RemoveRowsRequest]. *)
Context (unmarshal_keys : string → option (list string)).

Definition RemoveRowsHandler (body : option (option string)) (p : Persister) : option (Persister * Z) :=
  match body with
  | None | Some None => Some (p, 400%Z)
  | Some (Some data) =>
      match unmarshal_keys data with
      | None => Some (p, 500%Z)
      | Some RowKeys =>
          let '(t, ok) := DeleteRows RowKeys (store p) in
          let p := set_store t p in
          if negb ok then Some (p, 500%Z)
          else if locked p then None
          else Some (set_metrics (foldl (λ m r, delete r m) (metrics p) RowKeys) p, 200%Z)
      end
  end.

(** The index as the map it encodes. *)
Definition IndexHandler (p : Persister) : option (gmap string (list MetricData)) :=
  if locked p then None else Some (metrics p).

(** *** Send *)

Context {N : Type} (Push : list MetricData → N → N * bool).
Context (interval maxBufferSize : Z).

Definition stamp (now : Z) (m : MetricData) : MetricData := with_Interval interval (with_Time now m).

(** A row: the metrics are pointers, so those reached are changed where they
    are. The batch is [None] when a push has failed. *)
Fixpoint send_row (now : Z) (ms batch : list MetricData) (n : N) :
    N * list MetricData * option (list MetricData) :=
  match ms with
  | [] => (n, [], Some batch)
  | m :: ms' =>
      let m := stamp now m in
      let batch := batch ++ [m] in
      if bool_decide (maxBufferSize ≤ Z.of_nat (length batch))%Z then
        match Push batch n with
        | (n, true) => let '(n, r, b) := send_row now ms' [] n in (n, m :: r, b)
        | (n, false) => (n, m :: ms', None)
        end
      else let '(n, r, b) := send_row now ms' batch n in (n, m :: r, b)
  end.

(** The rows in the order the range over the map takes. *)
Fixpoint send_rows (now : Z) (rows : list (string * list MetricData)) (batch : list MetricData)
    (table : gmap string (list MetricData)) (n : N) :
    N * gmap string (list MetricData) * option (list MetricData) :=
  match rows with
  | [] => (n, table, Some batch)
  | (k, row) :: rows' =>
      let '(n, row', b) := send_row now row batch n in
      let table := <[k := row']> table in
      match b with
      | Some batch => send_rows now rows' batch table n
      | None => (n, table, None)
      end
  end.

(** The result: the error or none. A push that fails inside the loop returns
    with the mutex held. *)
Definition Send (now : Z) (rows : list (string * list MetricData)) (p : Persister) (n : N) :
    option (Persister * N * bool) :=
  if locked p then None else
  match send_rows now rows [] (metrics p) n with
  | (n, table, None) => Some (set_locked true (set_metrics table p), n, false)
  | (n, table, Some batch) =>
      let p := set_metrics table p in
      if bool_decide (0 < length batch)
      then let '(n, ok) := Push batch n in Some (p, n, ok)
      else Some (p, n, true)
  end.
End persister.
Arguments Persister : clear implicits.
