(* ===== verification/PersisterSpec.v ===== *)
(** * What the persister promises

    [Send] delivers every metric once in batches of the configured size while
    the gateway answers, and never gives the mutex back when a full batch fails;
    a payload the persister has refused stays stored and hides the rows behind
    it; and the metrics it sends are refused by a gateway that publishes the
    optimised format, for they carry no id. *)

From S2P Require Import Prelude GoStrings Strconv Schema KeyCache Kafka KafkaSpec Publish Http Ingest IngestSpec Datadog DatadogSpec Persister.
From Stdlib Require Import Ascii.

(** ** Send *)

Section send.
Context {T N : Type} (Push : list MetricData → N → N * bool) (interval maxBufferSize : Z).

(** The metrics of some rows, as they are sent. *)
Definition stamped (now : Z) (rows : list (string * list MetricData)) : list MetricData :=
  stamp interval now <$> concat rows.*2.

(** A batch of the configured size. *)
Definition full (b : list MetricData) : Prop := Z.of_nat (length b) = maxBufferSize.

(** *** While every push succeeds *)

Context (log_push : list (list MetricData) → N).

(** [Push] succeeds and the network remembers the batches. *)
Definition accepting : Prop :=
  ∀ b log, Push b (log_push log) = (log_push (log ++ [b]), true).

Lemma send_row_accepted now ms batch log :
  accepting → (Z.of_nat (length batch) < maxBufferSize)%Z →
  ∃ new batch', send_row Push interval maxBufferSize now ms batch (log_push log) =
      (log_push (log ++ new), stamp interval now <$> ms, Some batch') ∧
    concat new ++ batch' = batch ++ (stamp interval now <$> ms) ∧ Forall full new ∧
    (Z.of_nat (length batch') < maxBufferSize)%Z.
Proof.
  intros Ha. revert batch log. induction ms as [|m ms IH]; intros batch log Hb; cbn [send_row].
  - exists [], batch. by rewrite !app_nil_r.
  - cbv zeta. case_bool_decide as Hfull; rewrite length_app in Hfull; simpl in Hfull.
    + rewrite Ha. destruct (IH [] (log ++ [batch ++ [stamp interval now m]])) as (new & b' & -> & Hc & Hf & Hl);
        [simpl; lia|].
      exists ((batch ++ [stamp interval now m]) :: new), b'. split_and!; [by rewrite <- app_assoc| | |done].
      * cbn [concat fmap list_fmap]. rewrite <- !app_assoc, Hc. done.
      * constructor; [|done]. unfold full. rewrite length_app. simpl. lia.
    + destruct (IH (batch ++ [stamp interval now m]) log) as (new & b' & -> & Hc & Hf & Hl);
        [rewrite length_app; simpl; lia|].
      exists new, b'. split_and!; [done| |done|done]. rewrite Hc. cbn [fmap list_fmap]. by rewrite <- app_assoc.
Qed.

Lemma send_rows_accepted now rows batch table log :
  accepting → (Z.of_nat (length batch) < maxBufferSize)%Z → NoDup rows.*1 →
  ∃ new batch' table', send_rows Push interval maxBufferSize now rows batch table (log_push log) =
      (log_push (log ++ new), table', Some batch') ∧
    concat new ++ batch' = batch ++ stamped now rows ∧ Forall full new ∧
    (Z.of_nat (length batch') < maxBufferSize)%Z ∧
    ∀ k, table' !! k = match (list_to_map rows : gmap string (list MetricData)) !! k with
                       | Some row => Some (stamp interval now <$> row) | None => table !! k end.
Proof.
  intros Ha. unfold stamped. revert batch table log.
  induction rows as [|[k row] rows IH]; intros batch table log Hb Hn; cbn [send_rows].
  - exists [], batch, table. by rewrite !app_nil_r.
  - apply NoDup_cons in Hn as [Hk Hn].
    destruct (send_row_accepted now row batch log Ha Hb) as (new1 & b1 & -> & Hc1 & Hf1 & Hl1).
    destruct (IH b1 (<[k := stamp interval now <$> row]> table) (log ++ new1) Hl1 Hn)
      as (new2 & b2 & t2 & E & Hc2 & Hf2 & Hl2 & Ht).
    exists (new1 ++ new2), b2, t2. rewrite E. split_and!.
    + by rewrite app_assoc.
    + rewrite concat_app, <- app_assoc, Hc2, app_assoc, Hc1. cbn [fmap list_fmap concat snd].
      by rewrite fmap_app, <- app_assoc.
    + by apply Forall_app.
    + done.
    + intros k'. rewrite Ht. cbn [list_to_map foldr fst snd]. destruct (decide (k = k')) as [<-|Hne].
      * rewrite not_elem_of_list_to_map_1 by done. by rewrite !lookup_insert_eq.
      * by rewrite !lookup_insert_ne.
Qed.

(** *** A refused batch

    What [Send] pushes does not depend on where the rows end: the batches are cut
    from the metrics of all of them. *)
Fixpoint push_full (l batch : list MetricData) (n : N) : N * option (list MetricData) :=
  match l with
  | [] => (n, Some batch)
  | m :: l' =>
      let batch := batch ++ [m] in
      if bool_decide (maxBufferSize ≤ Z.of_nat (length batch))%Z then
        match Push batch n with (n, true) => push_full l' [] n | (n, false) => (n, None) end
      else push_full l' batch n
  end.

Lemma push_full_app l1 l2 batch n :
  push_full (l1 ++ l2) batch n =
    match push_full l1 batch n with (n, Some b) => push_full l2 b n | r => r end.
Proof.
  revert batch n. induction l1 as [|m l1 IH]; intros batch n; [done|]. cbn [app push_full]. cbv zeta.
  case_bool_decide; [|apply IH]. destruct (Push _ n) as [n' []]; [apply IH|done].
Qed.

Lemma send_row_flat now ms batch n :
  let '(n', _, r) := send_row Push interval maxBufferSize now ms batch n in
  push_full (stamp interval now <$> ms) batch n = (n', r).
Proof.
  revert batch n. induction ms as [|m ms IH]; intros batch n; [done|].
  cbn [send_row fmap list_fmap push_full]. cbv zeta. case_bool_decide.
  - destruct (Push _ n) as [n1 []]; [|done]. specialize (IH [] n1).
    by destruct (send_row _ _ _ now ms [] n1) as [[n2 r] b].
  - specialize (IH (batch ++ [stamp interval now m]) n). by destruct (send_row _ _ _ now ms _ n) as [[n2 r] b].
Qed.

Lemma send_rows_flat now rows batch table n :
  let '(n', _, r) := send_rows Push interval maxBufferSize now rows batch table n in
  push_full (stamped now rows) batch n = (n', r).
Proof.
  unfold stamped. revert batch table n. induction rows as [|[k row] rows IH]; intros batch table n; [done|].
  cbn [send_rows fmap list_fmap concat snd]. rewrite fmap_app, push_full_app.
  pose proof (send_row_flat now row batch n) as Hr.
  destruct (send_row _ _ _ now row batch n) as [[n1 row'] [b|]]; rewrite Hr; [|done].
  apply (IH b (<[k := row']> table) n1).
Qed.

(** The number of metrics of a full batch. *)
Definition batch_size : nat := Z.to_nat maxBufferSize.

(** Of the full batches cut from [l], the one with the number [j] is refused,
    the ones before having been pushed. *)
Fixpoint refuses (j : nat) (l : list MetricData) (n : N) : Prop :=
  batch_size ≤ length l ∧
  let '(n', ok) := Push (take batch_size l) n in
  match j with O => ok = false | S j' => refuses j' (drop batch_size l) n' end.

Lemma push_full_batch l batch n :
  length batch < batch_size → batch_size ≤ length batch + length l →
  push_full l batch n =
    match Push (batch ++ take (batch_size - length batch) l) n with
    | (n', true) => push_full (drop (batch_size - length batch) l) [] n' | (n', false) => (n', None)
    end.
Proof.
  revert batch. induction l as [|m l IH]; intros batch Hb Hl; [simpl in Hl; lia|].
  cbn [push_full]. cbv zeta. destruct (batch_size - length batch) as [|k] eqn:Ek; [lia|]. cbn [take drop].
  case_bool_decide as Hf; rewrite length_app in Hf; simpl in Hf, Hl; unfold batch_size in *.
  - assert (k = 0) as -> by lia. by rewrite take_0, drop_0.
  - rewrite IH by (rewrite length_app; simpl; lia).
    rewrite length_app. cbn [length]. replace (Z.to_nat maxBufferSize - (length batch + 1)) with k by lia.
    by rewrite <- app_assoc.
Qed.

Lemma push_full_refused j l n : (1 ≤ maxBufferSize)%Z → refuses j l n → (push_full l [] n).2 = None.
Proof.
  intros Hmax. revert l n. induction j as [|j IH]; intros l n; cbn [refuses]; intros [Hl Hr];
    rewrite push_full_batch by (cbn; unfold batch_size in *; lia); cbn [app length]; rewrite Nat.sub_0_r;
    destruct (Push (take batch_size l) n) as [n' ok].
  - by subst ok.
  - destruct ok; [by apply IH|done].
Qed.

Lemma Send_accepted now rows (p : Persister T) log0 :
  accepting → (1 ≤ maxBufferSize)%Z → locked p = false →
  rows ≡ₚ map_to_list (metrics p) →
  ∃ log p', Send Push interval maxBufferSize now rows p (log_push log0) =
      Some (p', log_push (log0 ++ log), true) ∧
    concat log = stamped now rows ∧
    Forall (λ b, 1 ≤ Z.of_nat (length b) ≤ maxBufferSize)%Z log ∧
    locked p' = false ∧ store p' = store p ∧
    metrics p' = (λ row : list MetricData, stamp interval now <$> row) <$> metrics p.
Proof.
  intros Ha Hmax Hl Hrows. unfold Send. rewrite Hl.
  assert (Hn : NoDup rows.*1) by (rewrite Hrows; apply NoDup_fst_map_to_list).
  destruct (send_rows_accepted now rows [] (metrics p) log0 Ha) as (new & b & t & -> & Hc & Hf & Hb & Ht);
    [simpl; lia|done|]. cbn [app] in *.
  assert (Hfull : Forall (λ b, 1 ≤ Z.of_nat (length b) ≤ maxBufferSize)%Z new).
  { eapply Forall_impl; [exact Hf|]. unfold full. simpl. lia. }
  assert (Htab : t = (λ row : list MetricData, stamp interval now <$> row) <$> metrics p).
  { apply map_eq. intros k. rewrite Ht, lookup_fmap.
    rewrite (list_to_map_proper rows (map_to_list (metrics p))), list_to_map_to_list by done.
    by destruct (metrics p !! k). }
  case_bool_decide as Hne.
  - rewrite Ha. exists (new ++ [b]), (set_metrics t p). split_and!; try done.
    + by rewrite app_assoc.
    + by rewrite concat_app, <- Hc, (app_nil_r b : concat [b] = b).
    + apply Forall_app. split; [done|]. apply Forall_singleton. lia.
  - destruct b; [|simpl in Hne; lia]. exists new, (set_metrics t p). split_and!; try done.
    by rewrite <- Hc, app_nil_r.
Qed.

(** While the gateway accepts every batch, [Send] delivers every persisted
    metric exactly once, stamped with the time and the interval, in batches of
    one to the configured number of metrics, and gives the mutex back; the
    metrics it keeps are the stamped ones. *)
Theorem Send_delivers_every_metric now rows (p : Persister T) :
  accepting → (1 ≤ maxBufferSize)%Z → locked p = false →
  rows ≡ₚ map_to_list (metrics p) →
  ∃ log p', Send Push interval maxBufferSize now rows p (log_push []) = Some (p', log_push log, true) ∧
    concat log = stamped now rows ∧
    Forall (λ b, 1 ≤ Z.of_nat (length b) ≤ maxBufferSize)%Z log ∧
    locked p' = false ∧ metrics p' = (λ row : list MetricData, stamp interval now <$> row) <$> metrics p.
Proof.
  intros Ha Hmax Hl Hrows.
  destruct (Send_accepted now rows p [] Ha Hmax Hl Hrows) as (log & p' & Hs & Hc & Hf & Hl' & _ & Hm).
  by exists log, p'.
Qed.

Lemma Send_refused j now rows (p : Persister T) n :
  (1 ≤ maxBufferSize)%Z → locked p = false → refuses j (stamped now rows) n →
  ∃ p' n', Send Push interval maxBufferSize now rows p n = Some (p', n', false) ∧ locked p' = true.
Proof.
  intros Hmax Hl Hr. apply push_full_refused in Hr; [|done]. unfold Send. rewrite Hl.
  pose proof (send_rows_flat now rows [] (metrics p) n) as Hf.
  destruct (send_rows _ _ _ now rows [] (metrics p) n) as [[n' t] b]. rewrite Hf in Hr. cbn in Hr. subst b.
  by exists (set_locked true (set_metrics t p)), n'.
Qed.

(** C40. One refused batch blocks the persister. When the gateway refuses a full
    batch of the metrics [Send] goes over, [Send] returns its error with the mutex
    held, and from then on every operation that needs the mutex waits for ever:
    [Send] itself, [Persist], the index, the deletion of rows after they were
    deleted from the storage, and the handler of a payload after it was stored.
    So no request to store a payload or to delete rows is answered with a 200
    again. *)
Theorem failed_Send_blocks_the_persister {j now rows} {p : Persister T} {n}
    (Apply : string → string → T → T * bool) (DeleteRows : list string → T → T * bool)
    marshal_payload unmarshal_payload unmarshal_intake unmarshal_gohai unmarshal_keys :
  (1 ≤ maxBufferSize)%Z → locked p = false → refuses j (stamped now rows) n →
  let handler := PersistHandler Apply marshal_payload unmarshal_payload unmarshal_intake unmarshal_gohai in
  let remove := RemoveRowsHandler DeleteRows unmarshal_keys in
  ∃ p' n', Send Push interval maxBufferSize now rows p n = Some (p', n', false) ∧
    (∀ now' rows' m, Send Push interval maxBufferSize now' rows' p' m = None) ∧
    (∀ rowKey ms, Persist rowKey ms p' = None) ∧ IndexHandler p' = None ∧
    (∀ data keys, unmarshal_keys data = Some keys → (DeleteRows keys (store p')).2 = true →
       remove (Some (Some data)) p' = None) ∧
    (∀ data payload, unmarshal_payload data = Some payload →
       (Store Apply marshal_payload (row_key (pp_OrgID payload) (pp_Hostname payload)) payload (store p')).2 = true →
       (unmarshal_intake (pp_Raw payload)).2 = true → handler (Some (Some data)) p' = None) ∧
    (∀ body p'' code, remove body p' = Some (p'', code) ∨ handler body p' = Some (p'', code) →
       code ≠ 200%Z ∧ locked p'' = true).
Proof.
  intros Hmax Hl Hr. destruct (Send_refused j now rows p n Hmax Hl Hr) as (p' & n' & Hs & Hlock).
  cbv zeta. exists p', n'. split; [done|]. unfold Send, Persist, IndexHandler, RemoveRowsHandler, PersistHandler, Persist.
  split_and!; try (by intros; rewrite Hlock).
  - intros data keys -> Hd. destruct (DeleteRows keys (store p')) as [t ok]. cbn in Hd. subst ok. cbn. by rewrite Hlock.
  - intros data payload -> Hst Hi. destruct (Store _ _ _ payload (store p')) as [t ok]. cbn in Hst. subst ok. cbn [negb].
    destruct (unmarshal_intake _) as [info ok]. cbn in Hi. subst ok. cbn. by rewrite Hlock.
  - intros body p'' code [H|H]; repeat case_match; simplify_eq; try done.
    all: try (cbn in H; rewrite ?Hlock in H; done).
    all: cbn in *; simplify_eq; try congruence; try done.
Qed.
End send.

(** ** The stored rows *)

(** A row key names one org and one host: an org's number has no colon. *)
Lemma row_key_inj o h o' h' :
  is_s 64 o → is_s 64 o' → row_key o h = row_key o' h' → o = o' ∧ h = h'.
Proof.
  intros Ho Ho' E. unfold row_key in E. apply (f_equal (SplitN2 ":")) in E.
  change (":" +:+ h) with (String ":" h) in E. change (":" +:+ h') with (String ":" h') in E.
  assert (Hc : ∀ z, has_byte ":" (Itoa z) = false).
  { intros z. apply has_byte_all. eapply all_bytes_mono; [|apply Itoa_num].
    intros c [Hd| ->]; [intros ->|done]. unfold is_digit in Hd. vm_compute in Hd. by destruct Hd. }
  rewrite !SplitN2_app in E by apply Hc. injection E as E1 E2. split; [|done]. by apply Itoa_inj.
Qed.

Section rows.
Context (marshal_payload : PersistPayload → string).
Context (unmarshal_payload : string → option PersistPayload).
Context (unmarshal_intake : string → DataDogIntakePayload * bool).
Context (unmarshal_gohai : string → option Gohai).

(** A table that takes every mutation and is read in the order of its keys. *)
Abbreviation table := (gmap string string).
Definition table_Apply (k v : string) (t : table) : table * bool := (<[k := v]> t, true).
Definition table_keys (t : table) : list string := SortStrings (map_to_list t).*1.
Definition table_ReadRows (t : table) : option (list (string * option string)) :=
  Some ((λ k, (k, t !! k)) <$> table_keys t).

(** The decoding of a row. *)
Definition decodes (v : string) : bool :=
  match unmarshal_payload v with
  | Some p => (unmarshal_intake (pp_Raw p)).2
  | None => false
  end.

Lemma retrieve_before rows1 k v rows2 acc x :
  decodes v = false →
  is_Some (retrieve unmarshal_payload unmarshal_intake (rows1 ++ (k, Some v) :: rows2) acc !! x) →
  x ∈ rows1.*1 ∨ is_Some (acc !! x).
Proof.
  intros Hv. unfold decodes in Hv. revert acc.
  induction rows1 as [|[k1 [v1|]] rows1 IH]; intros acc; cbn [retrieve app].
  - destruct (unmarshal_payload v) as [p|]; [|auto]. destruct (unmarshal_intake (pp_Raw p)). simpl in Hv.
    subst. auto.
  - cbn [fmap list_fmap fst]. destruct (unmarshal_payload v1) as [p|]; [|auto].
    destruct (unmarshal_intake (pp_Raw p)) as [i []]; [|auto].
    intros [H|H]%IH; [by left; right|]. destruct (decide (k1 = x)) as [<-|Hne]; [left; left|].
    rewrite lookup_insert_ne in H by done. auto.
  - cbn [fmap list_fmap fst]. intros [H|H]%IH; [by left; right|auto].
Qed.

(** A payload whose raw part is not an agent's description is refused with a
    400, but after it has been stored; and since the reading of the rows ends at
    the first row that does not decode, without an error, a restarted persister
    loads no row from that key on. *)
Theorem refused_payload_hides_the_rows_behind_it data payload (p : Persister table) :
  unmarshal_payload data = Some payload →
  (unmarshal_intake (pp_Raw payload)).2 = false →
  unmarshal_payload (marshal_payload payload) = Some payload →
  let key := row_key (pp_OrgID payload) (pp_Hostname payload) in
  ∃ p', PersistHandler table_Apply marshal_payload unmarshal_payload unmarshal_intake unmarshal_gohai
          (Some (Some data)) p = Some (p', 400%Z) ∧
    store p' !! key = Some (marshal_payload payload) ∧
    ∃ intakes, Retrieve table_ReadRows unmarshal_payload unmarshal_intake (store p') = Some intakes ∧
      ∀ k, is_Some (intakes !! k) → k ≠ key ∧ String.le k key.
Proof.
  intros Hd Hbad Hm key. set (t := <[key := marshal_payload payload]> (store p)).
  exists (set_store t p). unfold PersistHandler, Store, table_Apply, Retrieve, table_ReadRows.
  rewrite Hd. destruct (unmarshal_intake (pp_Raw payload)) as [i ok] eqn:Ei. simpl in Hbad. subst ok.
  split; [done|]. split; [apply lookup_insert_eq|]. eexists. split; [done|]. cbn [store set_store].
  assert (Hkey : t !! key = Some (marshal_payload payload)) by apply lookup_insert_eq.
  assert (Hin : key ∈ table_keys t).
  { unfold table_keys. rewrite SortStrings_perm. apply list_elem_of_fmap.
    exists (key, marshal_payload payload). split; [done|]. by apply elem_of_map_to_list. }
  apply list_elem_of_split in Hin as (l1 & l2 & El).
  assert (Hnd : NoDup (table_keys t)).
  { unfold table_keys. rewrite SortStrings_perm. apply NoDup_fst_map_to_list. }
  pose proof (SortStrings_sorted (map_to_list t).*1) as Hs. fold (table_keys t) in Hs.
  rewrite El in Hnd, Hs |- *. intros k Hk. rewrite fmap_app, fmap_cons, Hkey in Hk.
  apply retrieve_before in Hk as [Hk|[? Hk]].
  - rewrite <- list_fmap_compose in Hk. unfold compose in Hk. cbn in Hk. rewrite list_fmap_id in Hk.
    apply NoDup_app in Hnd as (_ & Hnd & _). split.
    + intros ->. eapply Hnd; [done|left].
    + apply StronglySorted_app in Hs as (Hle & _ & _). apply (Hle k key); [done|left].
  - by rewrite lookup_empty in Hk.
  - unfold decodes. by rewrite Hm, Ei.
Qed.
End rows.

(** ** From the persister to Kafka *)

Section end_to_end.
Context (MarshalMsg : MetricData → option string).
Context (PartitionID : PartitionByMethod → MetricData → Z → option Z).
Context (auto_interval : string → Z) (cfg : pub_cfg).

(** A metric without an id that the first topic takes as it is. *)
Definition without_id (t : topicSettings) (m : MetricData) : Prop :=
  Id m = "" ∧ Interval m ≠ 0%Z ∧ topic_takes t m = true ∧ OrgId m ≠ rw_source t.

Lemma publish_metric_without_id m t ts metric s :
  v2 cfg = true → topics m = t :: ts → without_id t metric →
  ∃ s' e, publish_metric MarshalMsg PartitionID auto_interval cfg m (set_metric metric s) = (s', Err e).
Proof.
  intros Hv Ht (Hid & Hi & Htake & Hrw). unfold publish_metric, deduce_interval. rewrite Ht.
  unfold publish_topic, rewrite_org, buffer_for, dataFromMetricData, key_from_id. rewrite Hv.
  cbv [mbind ST_bind mret ST_ret gets modify]. cbn [p_metric set_metric for_each].
  rewrite bool_decide_eq_false_2 by done. cbv [mbind ST_bind mret ST_ret gets modify].
  cbn [p_metric set_metric set_cache]. rewrite Htake. cbn [negb].
  cbn [p_metric set_metric set_cache p_cache]. rewrite bool_decide_eq_false_2 by done.
  rewrite lookup_empty, Hid. eauto.
Qed.

Lemma publish_metrics_without_id m t ts metric metrics s :
  v2 cfg = true → topics m = t :: ts → metric ∈ metrics → without_id t metric →
  (publish_metrics MarshalMsg PartitionID auto_interval cfg m metrics s).2 ≠ Ok tt.
Proof.
  intros Hv Ht Hin Hw. revert s. induction metrics as [|x l IH]; intros s; [by apply elem_of_nil in Hin|].
  cbn [publish_metrics]. apply elem_of_cons in Hin as [->|Hin].
  - by destruct (publish_metric_without_id m t ts x s Hv Ht Hw) as (s' & e & ->).
  - destruct (publish_metric _ _ _ _ _ _) as [s' [[]|e|]]; [|done|done].
    specialize (IH Hin s'). by destruct (publish_metrics _ _ _ _ _ l s') as [[s'' rest'] r].
Qed.

Lemma kafka_refuses_without_id send m t ts metric metrics keys :
  has_producer cfg = true → v2 cfg = true → topics m = t :: ts → metric ∈ metrics → without_id t metric →
  ∃ keys' ms e, PublishFn (kafka_publisher MarshalMsg PartitionID auto_interval cfg send m) metrics keys =
    (keys', ms, Some e).
Proof.
  intros Hp Hv Ht Hin Hw. unfold kafka_publisher. cbn [PublishFn].
  assert (H : r_out (Kafka.Publish MarshalMsg PartitionID auto_interval cfg send m metrics keys) ≠ Ok tt).
  { unfold Kafka.Publish. rewrite Hp, Ht. cbn [negb].
    rewrite (bool_decide_eq_false_2 (length metrics = 0))
      by (intros E%nil_length_inv; subst; by apply elem_of_nil in Hin).
    rewrite (bool_decide_eq_false_2 (length (t :: ts) = 0)) by done.
    pose proof (publish_metrics_without_id m t ts metric metrics (init_state zero_metric keys) Hv Ht Hin Hw) as H.
    destruct (publish_metrics _ _ _ _ _ _ _) as [[s ms] [[]|e|]]; done. }
  destruct (r_out _) as [[]|e|]; [done|eauto|eauto].
Qed.

(** An admin's batch: the metric is kept with its fields. *)
Lemma info_accepted user um i interval now :
  IsAdmin user = true → OrgID i ≠ 0%Z → interval ≠ 0%Z → ValidateTags (generateInfoTags i) = true →
  let m := stamp interval now (info_metric (OrgID i) "system_info" (generateInfoTags i)) in
  m ∈ stamp interval now <$> GeneratePersistentMetrics um i ∧ accepted user m = Some (with_Mtype "gauge" m).
Proof.
  intros Ha Ho Hi Ht m. split.
  - apply list_elem_of_fmap. eexists. split; [reflexivity|].
    pose proof (GeneratePersistentMetrics_first um i) as H.
    destruct (GeneratePersistentMetrics um i); [done|]. injection H as ->. left.
  - unfold accepted, validated, normalise. rewrite Ha.
    assert (Hv : Validate (with_Mtype "gauge" m) = (with_Mtype "gauge" m, None)).
    { unfold Validate, m, stamp, info_metric. cbn [with_Mtype with_Interval with_Time OrgId Interval].
      rewrite decide_False, decide_False by done.
      cbn -[ValidateTags generateInfoTags]. by rewrite Ht. }
    change (Mtype m) with "". cbn [bool_decide decide_rel]. rewrite bool_decide_eq_true_2 by done.
    by rewrite Hv.
Qed.

(** The persister's metrics do not get through its own gateway: they carry
    no id, an admin's metrics (whose orgs are kept) are not given one, and the
    optimised format is keyed by it. So with v2 on, the batch of any description
    with well-formed tags gets a 500 and nothing is sent. *)
Theorem persisted_metrics_are_refused {L} (Burst : L → Z) (WaitN : L → Z → L * bool) send m t ts user um i
    interval now d (g : gw (L:=L) (S:=KeyCache)) :
  has_producer cfg = true → v2 cfg = true → topics m = t :: ts →
  discardPrefixes t = [] → onlyOrgId t = 0%Z → rw_source t ≠ OrgID i →
  IsAdmin user = true → OrgID i ≠ 0%Z → interval ≠ 0%Z → ValidateTags (generateInfoTags i) = true →
  g_limits g = ∅ → done_publish d = false →
  ∃ g', ingest_batch Burst WaitN (kafka_publisher MarshalMsg PartitionID auto_interval cfg send m) user d
          (Some <$> (stamp interval now <$> GeneratePersistentMetrics um i)) g = Ok (g', mkReply 500 ErrText).
Proof.
  intros Hp Hv Ht Hd Ho Hrw Ha Hoi Hi Htags Hlim Hdone. unfold ingest_batch.
  destruct (prepareIngest_inv user (stamp interval now <$> GeneratePersistentMetrics um i)) as (p & -> & Hinv).
  cbn [mbind outcome_bind].
  destruct (info_accepted user um i interval now Ha Hoi Hi Htags) as [Hin Hacc].
  set (x := stamp interval now (info_metric (OrgID i) "system_info" (generateInfoTags i))) in *.
  assert (Hpub : with_Mtype "gauge" x ∈ toPublish p).
  { rewrite (pi_pub _ _ _ Hinv). apply list_elem_of_omap. by exists x. }
  unfold limit_batch, UseRateLimit. rewrite Hlim, bool_decide_eq_false_2 by (rewrite map_size_empty; lia).
  rewrite Hdone. unfold Publish.Publish.
  rewrite bool_decide_eq_false_2 by (intros E%nil_length_inv; rewrite E in Hpub; by apply elem_of_nil in Hpub).
  destruct (kafka_refuses_without_id send m t ts (with_Mtype "gauge" x) (toPublish p) (pub (g_pub g)) Hp Hv Ht Hpub)
    as (keys' & ms & e & ->).
  - split_and!; [done|done| |by intros E; apply Hrw; rewrite <- E].
    unfold topic_takes. by rewrite Hd, Ho.
  - eauto.
Qed.
End end_to_end.

(** ** Witnesses *)

Definition ex_intake : DataDogIntakePayload :=
  mkIntake "6.8" "linux" "web1" "amd64" "" "web1" "" "web1.eu" "" ["role:db"] [] "{}" 7.

Definition ex_gohai : Gohai :=
  mkGohai [mkFs "/" "sda1"; mkFs "" "tmpfs"] "10.0.0.1" "" "aa:bb" "amd64" "linux" "" "" "Linux" "" "" "" "" "" "".

Definition ex_rows : list (string * list MetricData) :=
  map_to_list (<["7:web1" := GeneratePersistentMetrics (λ _, Some ex_gohai) ex_intake]> (∅ : gmap string (list MetricData))).

Definition ex_persister : Persister unit :=
  mkPersister false (<["7:web1" := GeneratePersistentMetrics (λ _, Some ex_gohai) ex_intake]> ∅) tt.

Definition ex_log_push (b : list MetricData) (log : list (list MetricData)) :
    list (list MetricData) * bool := (log ++ [b], true).

Lemma Send_delivers_every_metric_witness :
  ∃ log p', Send ex_log_push 60 2 1500000000 ex_rows ex_persister [] = Some (p', log, true) ∧
    length (concat log) = 5 ∧ locked p' = false.
Proof.
  destruct (Send_delivers_every_metric ex_log_push 60 2 (λ l, l) 1500000000 ex_rows ex_persister)
    as (log & p' & H & Hc & _ & Hl & _).
  - intros b log. reflexivity.
  - lia.
  - reflexivity.
  - reflexivity.
  - exists log, p'. split; [exact H|]. split; [rewrite Hc; vm_compute; reflexivity|exact Hl].
Defined.

(** Two batches of two metrics: the second is refused. *)
Definition ex_second_refused (b : list MetricData) (n : nat) : nat * bool := (S n, bool_decide (n ≠ 1)).

Lemma failed_Send_blocks_the_persister_witness :
  ∃ p', Send ex_second_refused 60 2 1500000000 ex_rows ex_persister 0 = Some (p', 2, false) ∧
    IndexHandler p' = None ∧
    RemoveRowsHandler (λ _ t, (t, true)) (λ _, Some ["7:web1"]) (Some (Some "keys")) p' = None.
Proof.
  destruct (failed_Send_blocks_the_persister (j:=1) (now:=1500000000%Z) (rows:=ex_rows) (p:=ex_persister) (n:=0)
    ex_second_refused 60 2 (λ _ _ t, (t, true)) (λ _ t, (t, true)) (λ _, "") (λ _, None) (λ _, (ex_intake, true))
    (λ _, None) (λ _, Some ["7:web1"])) as (p' & n' & H & _ & _ & Hi & Hr & _).
  - lia.
  - reflexivity.
  - vm_compute. repeat split; lia.
  - exists p'. split; [|split; [exact Hi|by apply (Hr "keys" ["7:web1"])]].
    assert (Hn : (λ r, r.1.2) <$> Send ex_second_refused 60 2 1500000000 ex_rows ex_persister 0 = Some 2)
      by (vm_compute; reflexivity).
    rewrite H in Hn |- *. injection Hn as ->. reflexivity.
Defined.

(** A payload of org 7 whose raw part is text. *)
Definition ex_payload : PersistPayload := mkPersist 7 "web1" "hello".
Definition ex_unmarshal (s : string) : option PersistPayload :=
  if bool_decide (s = "row") then Some ex_payload else None.

Lemma refused_payload_hides_the_rows_behind_it_witness :
  ∃ p', PersistHandler table_Apply (λ _, "row") ex_unmarshal (λ _, (ex_intake, false)) (λ _, None)
          (Some (Some "row")) (mkPersister false ∅ ∅) = Some (p', 400%Z) ∧
    store p' !! "7:web1" = Some "row".
Proof.
  destruct (refused_payload_hides_the_rows_behind_it (λ _, "row") ex_unmarshal (λ _, (ex_intake, false))
    (λ _, None) "row" ex_payload (mkPersister false ∅ ∅)) as (p' & H & Hs & _).
  - reflexivity.
  - reflexivity.
  - reflexivity.
  - exists p'. split; [exact H|exact Hs].
Defined.

Lemma persisted_metrics_are_refused_witness :
  ∃ g', ingest_batch (L:=unit) (λ _, 0%Z) (λ l _, (l, true))
          (kafka_publisher ex_marshal ex_partition ex_auto (mkPubCfg true true true) (λ _, true)
             (Kafka.mkPublisher false [mkTopic "mdm" PartitionBySeries 8 0 [] 0 0]))
          (mkUser 1 true ROLE_ADMIN) (mkDone false false false)
          (Some <$> (stamp 60 1500000000 <$> GeneratePersistentMetrics (λ _, Some ex_gohai) ex_intake))
          (mkGw (Publish.mkPState (NewKeyCache 0) ∅) ∅) = Ok (g', mkReply 500 ErrText).
Proof.
  apply (persisted_metrics_are_refused ex_marshal ex_partition ex_auto (mkPubCfg true true true)
    (λ _, 0%Z) (λ l _, (l, true)) (λ _, true)
    (Kafka.mkPublisher false [mkTopic "mdm" PartitionBySeries 8 0 [] 0 0])
    (mkTopic "mdm" PartitionBySeries 8 0 [] 0 0) []); try reflexivity; discriminate.
Defined.
