(* ===== verification/PersisterSvc.v ===== *)
(** * The persister service

    persister/storage/storage.go beyond the rows ([New], [Remove]),
    metrics_client and persister [New], the loop [Push] of persister.go and the
    process of cmd/persister-gw: a service that loads the stored payloads,
    answers requests and sends at every tick. Bigtable is the class
    [BigtableAdmin] with its laws, and the parameters of Persister.v. *)

From S2P Require Import Prelude GoStrings Strconv Schema Datadog Persister PersisterSpec.
From Stdlib Require Import Ascii.

(** ** storage.New *)

Definition bigtableFamily : string := "intakePayload".

(** The administration of tables and column families: each call may fail. *)
Class BigtableAdmin (T : Type) := {
  admin_Tables : T → option (list string);
  admin_CreateTable : string → T → T * bool;
  admin_Families : string → T → option (list string);
  admin_CreateColumnFamily : string → string → T → T * bool }.

(** What the service documents of calls that succeed, with [tables] the
    families by table. *)
Class BigtableAdminLaws (T : Type) `{!BigtableAdmin T} (tables : T → gmap string (list string)) : Prop := {
  Tables_lists t l x : admin_Tables t = Some l → x ∈ l ↔ is_Some (tables t !! x);
  CreateTable_creates name t t' :
    admin_CreateTable name t = (t', true) → tables t' = <[name := []]> (tables t);
  Families_lists name t l : admin_Families name t = Some l → tables t !! name = Some l;
  CreateColumnFamily_creates name fam t t' :
    admin_CreateColumnFamily name fam t = (t', true) →
    tables t' = alter (λ l, l ++ [fam]) name (tables t) }.

Inductive storage_error := NoAdminClient | NoTableList | NoTable | NoTableInfo | NoFamily | NoDataClient.

Record storage_cfg := mkStorageCfg { c_TableName : string; c_Prefix : string }.

Section storage.
Context {T : Type} `{!BigtableAdmin T}.

(** [if !sliceContains(tables, name) { CreateTable(name) }] and the same for the
    family. [admin_ok], [client_ok]: the two clients can be made. *)
Definition ensure_table (cfg : storage_cfg) (tables : list string) (t : T) : T * bool :=
  if sliceContains tables (c_TableName cfg) then (t, true)
  else admin_CreateTable (c_TableName cfg) t.
Definition ensure_family (cfg : storage_cfg) (families : list string) (t : T) : T * bool :=
  if sliceContains families bigtableFamily then (t, true)
  else admin_CreateColumnFamily (c_TableName cfg) bigtableFamily t.

Definition storage_New (admin_ok client_ok : bool) (cfg : storage_cfg) (t : T) :
    T * outcome storage_error unit :=
  if negb admin_ok then (t, Err NoAdminClient) else
  match admin_Tables t with
  | None => (t, Err NoTableList)
  | Some tables =>
      let '(t, ok) := ensure_table cfg tables t in
      if negb ok then (t, Err NoTable) else
      match admin_Families (c_TableName cfg) t with
      | None => (t, Err NoTableInfo)
      | Some families =>
          let '(t, ok) := ensure_family cfg families t in
          if negb ok then (t, Err NoFamily)
          else if client_ok then (t, Ok tt) else (t, Err NoDataClient)
      end
  end.
End storage.

Lemma sliceContains_elem l x : sliceContains l x = true ↔ x ∈ l.
Proof.
  unfold sliceContains. rewrite existsb_exists. split.
  - intros (y & Hy & Hb). apply bool_decide_eq_true in Hb as ->. by apply list_elem_of_In.
  - intros Hx. exists x. split; [by apply list_elem_of_In|by apply bool_decide_eq_true].
Qed.

(** ** storage.Remove *)

Section service.
Context {T : Type} (Apply : string → string → T → T * bool).
(** [ApplyBulk] of deletions: the rows whose deletion failed, and whether the
    call as a whole succeeded. *)
Context (ApplyBulk : list string → T → T * list string * bool).
Context (ReadRows : T → option (list (string * option string))).

(** The failed rows are logged. *)
Definition Remove (rowKeys : list string) (t : T) : T * bool :=
  let '(t, errs, ok) := ApplyBulk rowKeys t in (t, ok).

(** ** The service *)

Context (marshal_payload : PersistPayload → string).
Context (unmarshal_payload : string → option PersistPayload).
Context (unmarshal_intake : string → DataDogIntakePayload * bool).
Context (unmarshal_gohai : string → option Gohai).
Context (unmarshal_keys : string → option (list string)).
Context {N : Type} (Push : list MetricData → N → N * bool).
Context (interval maxBufferSize : Z).
(** The order the range over the map of metrics takes at a time. *)
Context (range : Z → list (string * list MetricData) → list (string * list MetricData)).

(** [New], after [storage_New]; [ParseURL] of the gateway's address. *)
Definition persister_New (ParseURL : string → option string) (addr : string) (t : T) :
    option (string * Persister T) :=
  u ← ParseURL addr; Some (u, mkPersister false ∅ t).

(** [pushing]: the goroutine of [Push] has loaded and is at its ticker. *)
Record service := mkService { sv_p : Persister T; sv_net : N; pushing : bool }.

(** The start of [Push]: [None] where [load] waits for ever. *)
Definition start_service (p : Persister T) (n : N) : option service :=
  '(p, ok) ← load ReadRows unmarshal_payload unmarshal_intake unmarshal_gohai p;
  Some (mkService p n ok).

Inductive svc_event :=
| EPersist (body : option (option string))
| ERemove (body : option (option string))
| EIndex
| ETick (now : Z).

(** [None]: the goroutine of the event waits for ever. A tick without a ticker
    does nothing; the error of [Send] is logged. *)
Definition svc_step (e : svc_event) (s : service) : option service :=
  match e with
  | EPersist body =>
      '(p, _) ← PersistHandler Apply marshal_payload unmarshal_payload unmarshal_intake unmarshal_gohai
                  body (sv_p s);
      Some (mkService p (sv_net s) (pushing s))
  | ERemove body =>
      '(p, _) ← RemoveRowsHandler Remove unmarshal_keys body (sv_p s);
      Some (mkService p (sv_net s) (pushing s))
  | EIndex => _ ← IndexHandler (sv_p s); Some s
  | ETick now =>
      if pushing s then
        '(p, n, _) ← Send Push interval maxBufferSize now (range now (map_to_list (metrics (sv_p s))))
                       (sv_p s) (sv_net s);
        Some (mkService p n true)
      else Some s
  end.

Fixpoint svc_run (es : list svc_event) (s : service) : option service :=
  match es with [] => Some s | e :: es' => s' ← svc_step e s; svc_run es' s' end.
End service.

(** ** The process of cmd/persister-gw

    Its routes; and how [main] ends, or what it serves: a configuration file
    that cannot be read and a failed [New] are fatal, while the error of
    [ListenAndServe] is dropped. *)

Inductive persister_route := RText (b : string) | REvent (e : option (option string) → svc_event) | RScrape.

Definition persister_routes (path : string) : option persister_route :=
  if bool_decide (path = "/") then Some (RText "ok")
  else if bool_decide (path = "/persist") then Some (REvent EPersist)
  else if bool_decide (path = "/remove") then Some (REvent ERemove)
  else if bool_decide (path = "/index") then Some (REvent (λ _, EIndex))
  else if bool_decide (path = "/metrics") then Some RScrape
  else None.

Inductive process (A : Type) := Serves (a : A) | Exit (code : Z).
Arguments Serves {A}.
Arguments Exit {A}.

Definition persister_main {A} (config_ok showVersion listen_ok : bool) (New : option A) : process A :=
  if negb config_ok then Exit 1
  else if showVersion then Exit 0
  else match New with
       | None => Exit 1
       | Some p => if listen_ok then Serves p else Exit 0
       end.

(** A service whose address is taken exits as if all had gone well. *)
Lemma taken_address_is_no_error {A} (p : A) : persister_main true false false (Some p) = Exit 0.
Proof. done. Qed.

(** ** Properties of [New] *)

(** [storage.New] leaves a table a payload can be stored in: when it succeeds the
    table exists and has the payloads' column family; other tables are as they
    were; and on a table that is ready it changes nothing, so a restart is
    harmless. *)
Theorem storage_New_readies_the_table {T} `{!BigtableAdmin T} tables `{!BigtableAdminLaws T tables}
    admin_ok client_ok cfg (t t' : T) :
  storage_New admin_ok client_ok cfg t = (t', Ok tt) →
  (∃ fams, tables t' !! c_TableName cfg = Some fams ∧ bigtableFamily ∈ fams) ∧
  (∀ name, name ≠ c_TableName cfg → tables t' !! name = tables t !! name) ∧
  (∀ fams, tables t !! c_TableName cfg = Some fams → bigtableFamily ∈ fams → t' = t).
Proof.
  unfold storage_New. destruct admin_ok; [|done]. cbn [negb].
  destruct (admin_Tables t) as [ts|] eqn:Et; [|done].
  destruct (ensure_table cfg ts t) as [t1 []] eqn:E1; [|done]. cbn [negb].
  destruct (admin_Families (c_TableName cfg) t1) as [fs|] eqn:Ef; [|done].
  destruct (ensure_family cfg fs t1) as [t2 []] eqn:E2; [|done]. cbn [negb].
  destruct client_ok; [|done]. intros [= <-]. apply Families_lists in Ef.
  assert (H1 : (t1 = t ∨ tables t1 = <[c_TableName cfg := []]> (tables t) ∧
                tables t !! c_TableName cfg = None)).
  { revert E1. unfold ensure_table. destruct (sliceContains ts (c_TableName cfg)) eqn:Es.
    - intros [= <-]. by left.
    - intros Ec. right. split; [by apply CreateTable_creates|]. apply eq_None_not_Some.
      rewrite <- (Tables_lists t ts (c_TableName cfg) Et), <- sliceContains_elem. by rewrite Es. }
  assert (H2 : (t2 = t1 ∧ bigtableFamily ∈ fs ∨
    tables t2 = alter (λ l, l ++ [bigtableFamily]) (c_TableName cfg) (tables t1) ∧ bigtableFamily ∉ fs)).
  { revert E2. unfold ensure_family. destruct (sliceContains fs bigtableFamily) eqn:Es.
    - intros [= <-]. left. split; [done|]. by apply sliceContains_elem.
    - intros Ec. right. split; [by apply CreateColumnFamily_creates|].
      rewrite <- sliceContains_elem. by rewrite Es. }
  split_and!.
  - destruct H2 as [[-> Hin]|[-> _]]; [by exists fs|].
    exists (fs ++ [bigtableFamily]). rewrite lookup_alter_eq, Ef. split; [done|].
    apply elem_of_app. right. left.
  - intros name Hne. transitivity (tables t1 !! name).
    + destruct H2 as [[-> _]|[-> _]]; [done|]. by rewrite lookup_alter_ne.
    + destruct H1 as [->|[-> _]]; [done|]. by rewrite lookup_insert_ne.
  - intros fams Hf Hin. destruct H1 as [->|[_ Hn]]; [|congruence].
    rewrite Ef in Hf. injection Hf as <-. by destruct H2 as [[-> _]|[_ ?]].
Qed.

(** ** Properties of the service *)

Section spec.
Context {T : Type} (Apply : string → string → T → T * bool).
Context (ApplyBulk : list string → T → T * list string * bool).
Context (ReadRows : T → option (list (string * option string))).
Context (marshal_payload : PersistPayload → string).
Context (unmarshal_payload : string → option PersistPayload).
Context (unmarshal_intake : string → DataDogIntakePayload * bool).
Context (unmarshal_gohai : string → option Gohai).
Context (unmarshal_keys : string → option (list string)).
Context {N : Type} (Push : list MetricData → N → N * bool) (log_push : list (list MetricData) → N).
Context (interval maxBufferSize : Z).
Context (range : Z → list (string * list MetricData) → list (string * list MetricData)).

Abbreviation svc_step := (svc_step Apply ApplyBulk marshal_payload unmarshal_payload unmarshal_intake
  unmarshal_gohai unmarshal_keys Push interval maxBufferSize range).
Abbreviation svc_run := (svc_run Apply ApplyBulk marshal_payload unmarshal_payload unmarshal_intake
  unmarshal_gohai unmarshal_keys Push interval maxBufferSize range).
Abbreviation generated := (GeneratePersistentMetrics unmarshal_gohai).
Abbreviation service := (service (T:=T) (N:=N)).
Implicit Types s : service.

(** The request writes or removes the row [k]. *)
Definition touches (k : string) (e : svc_event) : Prop :=
  match e with
  | EPersist (Some (Some data)) =>
      match unmarshal_payload data with
      | Some payload => row_key (pp_OrgID payload) (pp_Hostname payload) = k
      | None => False
      end
  | ERemove (Some (Some data)) =>
      match unmarshal_keys data with Some keys => k ∈ keys | None => False end
  | _ => False
  end.

(** The service holds the metrics [row] in the row [k], up to their stamps. *)
Record holds (k : string) (row : list MetricData) s : Prop := {
  h_unlocked : locked (sv_p s) = false;
  h_pushing : pushing s = true;
  h_net : ∃ log, sv_net s = log_push log;
  h_row : ∃ row', metrics (sv_p s) !! k = Some row' ∧
    ∀ now, stamp interval now <$> row' = stamp interval now <$> row }.

Lemma foldl_delete_other {A} (keys : list string) (m : gmap string A) k :
  k ∉ keys → foldl (λ m r, delete r m) m keys !! k = m !! k.
Proof.
  revert m. induction keys as [|r keys IH]; intros m Hk; [done|].
  apply not_elem_of_cons in Hk as [Hr Hk]. cbn [foldl]. rewrite IH by done. by rewrite lookup_delete_ne.
Qed.

(** The metrics after a persist request that ends. *)
Lemma PersistHandler_metrics body (p : Persister T) :
  locked p = false →
  ∃ p' st, PersistHandler Apply marshal_payload unmarshal_payload unmarshal_intake unmarshal_gohai body p
             = Some (p', st) ∧ locked p' = false ∧
    ∀ k, ¬ touches k (EPersist body) → metrics p' !! k = metrics p !! k.
Proof.
  intros Hl. unfold PersistHandler. destruct body as [[data|]|]; [|by eauto|by eauto].
  cbn [touches]. destruct (unmarshal_payload data) as [payload|]; [|by eauto].
  destruct (Store _ _ _ _ _) as [t []]; cbn [negb]; [|by eauto].
  destruct (unmarshal_intake (pp_Raw payload)) as [info []]; [|by eauto].
  unfold Persist. cbn [locked set_store]. rewrite Hl. cbn. eexists _, _. split; [done|].
  split; [done|]. intros k Hk. cbn. by rewrite lookup_insert_ne.
Qed.

Lemma RemoveRowsHandler_metrics body (p : Persister T) :
  locked p = false →
  ∃ p' st, RemoveRowsHandler (Remove ApplyBulk) unmarshal_keys body p = Some (p', st) ∧
    locked p' = false ∧
    ∀ k, ¬ touches k (ERemove body) → metrics p' !! k = metrics p !! k.
Proof.
  intros Hl. unfold RemoveRowsHandler. destruct body as [[data|]|]; [|by eauto|by eauto].
  cbn [touches]. destruct (unmarshal_keys data) as [keys|]; [|by eauto].
  destruct (Remove ApplyBulk keys (store p)) as [t []]; cbn [negb]; [|by eauto].
  cbn [locked set_store]. rewrite Hl. eexists _, _. split; [done|]. split; [done|].
  intros k Hk. cbn. by apply foldl_delete_other.
Qed.

Context (Haccept : accepting Push log_push) (Hmax : (1 ≤ maxBufferSize)%Z).
Context (Hrange : ∀ now l, range now l ≡ₚ l).

Lemma stamp_stamp now now' m : stamp interval now (stamp interval now' m) = stamp interval now m.
Proof. done. Qed.

(** A tick pushes the row and keeps it. *)
Lemma tick_pushes k row s now :
  holds k row s → ∃ s' log new, svc_step (ETick now) s = Some s' ∧ holds k row s' ∧
    sv_net s = log_push log ∧ sv_net s' = log_push (log ++ new) ∧
    ∀ m, m ∈ row → stamp interval now m ∈ concat new.
Proof.
  intros [Hl Hp [log Hn] (row' & Hr & Hst)]. cbn [PersisterSvc.svc_step]. rewrite Hp, Hn.
  destruct (Send_accepted Push interval maxBufferSize log_push now
    (range now (map_to_list (metrics (sv_p s)))) (sv_p s) log Haccept Hmax Hl (Hrange _ _))
    as (new & p' & -> & Hc & _ & Hl' & _ & Hm). cbn.
  eexists _, log, new. split; [done|]. split_and!; try done.
  - split; try done.
    + by eexists.
    + cbn. rewrite Hm, lookup_fmap, Hr. cbn. eexists. split; [done|]. intros now'.
      rewrite <- Hst. rewrite <- list_fmap_compose. by apply list_fmap_ext.
  - intros m Hin. rewrite Hc. unfold stamped.
    assert (Hs : stamp interval now m ∈ stamp interval now <$> row').
    { rewrite Hst. by apply list_elem_of_fmap_2. }
    apply list_elem_of_fmap in Hs as (m' & -> & Hm'). apply list_elem_of_fmap_2.
    apply list_elem_of_In, in_concat. exists row'. split; [|by apply list_elem_of_In].
    apply list_elem_of_In, list_elem_of_fmap. exists (k, row'). split; [done|].
    rewrite Hrange. by apply elem_of_map_to_list.
Qed.

Lemma step_holds k row e s :
  holds k row s → ¬ touches k e → ∃ s', svc_step e s = Some s' ∧ holds k row s'.
Proof.
  intros Hh Ht. destruct e as [body|body| |now].
  - destruct Hh as [Hl Hp Hn (row' & Hr & Hst)]. cbn [PersisterSvc.svc_step].
    destruct (PersistHandler_metrics body (sv_p s) Hl) as (p' & st & -> & Hl' & Hm). cbn.
    eexists. split; [done|]. split; try done. cbn. rewrite Hm by done. by exists row'.
  - destruct Hh as [Hl Hp Hn (row' & Hr & Hst)]. cbn [PersisterSvc.svc_step].
    destruct (RemoveRowsHandler_metrics body (sv_p s) Hl) as (p' & st & -> & Hl' & Hm). cbn.
    eexists. split; [done|]. split; try done. cbn. rewrite Hm by done. by exists row'.
  - cbn [PersisterSvc.svc_step]. unfold IndexHandler. rewrite (h_unlocked _ _ _ Hh). cbn. by exists s.
  - destruct (tick_pushes k row s now Hh) as (s' & _ & _ & E & Hh' & _). by exists s'.
Qed.

Lemma run_holds k row es s :
  holds k row s → Forall (λ e, ¬ touches k e) es → ∃ s', svc_run es s = Some s' ∧ holds k row s'.
Proof.
  intros Hh Hes. revert s Hh. induction Hes as [|e es He _ IH]; intros s Hh; cbn [PersisterSvc.svc_run].
  - by exists s.
  - destruct (step_holds k row e s Hh He) as (s1 & -> & H1). cbn. by apply IH.
Qed.

(** C36. An accepted payload keeps its agent's metrics alive: while the gateway takes
    every batch, after a payload is answered with 200 no request and no tick
    waits for ever, and every later tick sends all metrics of the payload,
    stamped with the tick's time, until a request for the same agent replaces
    them or removes them. *)
Theorem accepted_payload_is_sent_at_every_tick data payload info es now (p : Persister T) log0 :
  let k := row_key (pp_OrgID payload) (pp_Hostname payload) in
  let s := mkService p (log_push log0) true in
  locked p = false → unmarshal_payload data = Some payload →
  (Apply k (marshal_payload payload) (store p)).2 = true →
  unmarshal_intake (pp_Raw payload) = (info, true) →
  Forall (λ e, ¬ touches k e) es →
  ∃ s1 s2 log new,
    svc_run (EPersist (Some (Some data)) :: es) s = Some s1 ∧ svc_step (ETick now) s1 = Some s2 ∧
    sv_net s1 = log_push log ∧ sv_net s2 = log_push (log ++ new) ∧
    ∀ m, m ∈ generated (with_OrgID (pp_OrgID payload) info) → stamp interval now m ∈ concat new.
Proof.
  intros k s Hl Hd Ha Hi Hes. cbn [PersisterSvc.svc_run PersisterSvc.svc_step].
  unfold PersistHandler, Store. cbn [sv_p s]. rewrite Hd. fold k.
  destruct (Apply k (marshal_payload payload) (store p)) as [t ok]. simpl in Ha. subst ok. cbn [negb].
  rewrite Hi. unfold Persist. cbn [locked set_store]. rewrite Hl. cbn [mbind option_bind].
  set (s0 := mkService _ _ _). assert (Hh : holds k (generated (with_OrgID (pp_OrgID payload) info)) s0).
  { split; try done; [by exists log0|]. cbn. rewrite lookup_insert_eq. by eexists. }
  destruct (run_holds k _ es s0 Hh Hes) as (s1 & -> & H1).
  destruct (tick_pushes k _ s1 now H1) as (s2 & log & new & H2 & _ & Hn1 & Hn2 & Hm).
  by exists s1, s2, log, new.
Qed.

(** Without its ticker the service sends nothing. *)
Lemma step_idle e s s1 :
  pushing s = false → svc_step e s = Some s1 → sv_net s1 = sv_net s ∧ pushing s1 = false.
Proof.
  intros Hp. destruct e as [body|body| |now]; cbn [PersisterSvc.svc_step].
  - destruct (PersistHandler _ _ _ _ _ _ _) as [[p' st]|]; cbn; [by intros [= <-]|done].
  - destruct (RemoveRowsHandler _ _ _ _) as [[p' st]|]; cbn; [by intros [= <-]|done].
  - destruct (IndexHandler _); cbn; [by intros [= <-]|done].
  - rewrite Hp. by intros [= <-].
Qed.

(** A persister that cannot read its rows when it starts never sends: [Push]
    returns at the error of [load], without a message, and the service goes on
    accepting payloads. *)
Theorem failed_load_sends_nothing es (p : Persister T) n s s' :
  ReadRows (store p) = None →
  start_service ReadRows unmarshal_payload unmarshal_intake unmarshal_gohai p n = Some s →
  svc_run es s = Some s' → sv_net s' = n ∧ pushing s' = false.
Proof.
  intros Hr Hs. unfold start_service, load, Retrieve in Hs. rewrite Hr in Hs. injection Hs as <-.
  clear Hr. cut (∀ s, sv_net s = n → pushing s = false → svc_run es s = Some s' →
    sv_net s' = n ∧ pushing s' = false); [intros H; by apply H|].
  induction es as [|e es IH]; intros s Hn Hp; cbn [PersisterSvc.svc_run]; [by intros [= <-]|].
  destruct (svc_step e s) as [s1|] eqn:Es; cbn [mbind option_bind]; [|done].
  apply step_idle in Es as [Hn1 Hp1]; [|done]. apply IH; [by rewrite Hn1|done].
Qed.
End spec.

(** ** Witnesses *)

(** A table that creates what it is asked to. *)
#[export] Instance map_admin : BigtableAdmin (gmap string (list string)) := {
  admin_Tables t := Some (map_to_list t).*1;
  admin_CreateTable name t := (<[name := []]> t, true);
  admin_Families name t := t !! name;
  admin_CreateColumnFamily name fam t := (alter (λ l, l ++ [fam]) name t, true) }.

#[export] Instance map_admin_laws : BigtableAdminLaws (gmap string (list string)) id.
Proof.
  split.
  - intros t l x [= <-]. rewrite list_elem_of_fmap. split.
    + intros ([k v] & -> & H). apply elem_of_map_to_list in H. by eexists.
    + intros [v H]. exists (x, v). split; [done|]. by apply elem_of_map_to_list.
  - by intros name t t' [= <-].
  - by intros name t l H.
  - by intros name fam t t' [= <-].
Qed.

Definition ex_storage_cfg : storage_cfg := mkStorageCfg "metrics" "".

Lemma storage_New_readies_the_table_witness :
  let t' := (storage_New (T:=gmap string (list string)) true true ex_storage_cfg {["other" := ["x"]]}).1 in
  t' !! "metrics" = Some [bigtableFamily] ∧ t' !! "other" = Some ["x"].
Proof.
  cbv zeta.
  destruct (storage_New (T:=gmap string (list string)) true true ex_storage_cfg {["other" := ["x"]]})
    as [t' r] eqn:E.
  assert (Hr : r = Ok tt) by (change r with (t', r).2; rewrite <- E; vm_compute; reflexivity).
  subst r. destruct (storage_New_readies_the_table id true true ex_storage_cfg _ _ E)
    as [(fams & Hf & _) [Ho _]]. cbn [fst]. split.
  - change (t' !! "metrics") with ((t', Ok (E:=storage_error) tt).1 !! "metrics"). rewrite <- E.
    vm_compute. reflexivity.
  - etransitivity; [apply (Ho "other"); discriminate|]. vm_compute. reflexivity.
Defined.

(** Payloads and keys that are their own encodings. *)
Definition ex_svc_payload (d : string) : option PersistPayload :=
  if bool_decide (d = "bad") then None else Some (mkPersist 7 "web1" d).
Definition ex_svc_intake (raw : string) : DataDogIntakePayload * bool :=
  (mkIntake "6" "linux" "web1" "" "" "" "" "web1" "" [] [] "" 0, true).
Definition ex_svc_push (b : list MetricData) (log : list (list MetricData)) : list (list MetricData) * bool :=
  (log ++ [b], true).
Definition ex_svc_events : list svc_event := [EIndex; ETick 60; ERemove (Some (Some "other"))].

Lemma accepted_payload_is_sent_at_every_tick_witness :
  ∃ s1 s2 log new,
    svc_run table_Apply (λ ks t, (t, ks, true)) (λ p, pp_Raw p) ex_svc_payload ex_svc_intake (λ _, None)
      (λ d, Some [d]) ex_svc_push 60 1000 (λ _ l, l) (EPersist (Some (Some "d")) :: ex_svc_events)
      (mkService (mkPersister false ∅ ∅) [] true) = Some s1 ∧
    svc_step table_Apply (λ ks t, (t, ks, true)) (λ p, pp_Raw p) ex_svc_payload ex_svc_intake (λ _, None)
      (λ d, Some [d]) ex_svc_push 60 1000 (λ _ l, l) (ETick 120) s1 = Some s2 ∧
    sv_net s1 = log ∧ sv_net s2 = log ++ new ∧
    ∀ m, m ∈ GeneratePersistentMetrics (λ _, None) (with_OrgID 7 (ex_svc_intake "").1) →
      stamp 60 120 m ∈ concat new.
Proof.
  apply (accepted_payload_is_sent_at_every_tick table_Apply (λ ks t, (t, ks, true)) (λ p, pp_Raw p)
    ex_svc_payload ex_svc_intake (λ _, None) (λ d, Some [d]) ex_svc_push (λ log, log) 60 1000 (λ _ l, l)
    ltac:(done) ltac:(lia) ltac:(done) "d" (mkPersist 7 "web1" "d") (ex_svc_intake "").1 ex_svc_events 120
    (mkPersister false ∅ ∅) []); try reflexivity.
  repeat constructor; try (intros H; exact H).
  intros H. apply list_elem_of_singleton in H. vm_compute in H. discriminate H.
Defined.

Lemma failed_load_sends_nothing_witness :
  match start_service (N:=nat) (λ _ : gmap string string, None) ex_svc_payload ex_svc_intake (λ _, None)
          (mkPersister false ∅ ∅) 0 with
  | Some s => match svc_run table_Apply (λ ks t, (t, ks, true)) (λ p, pp_Raw p) ex_svc_payload ex_svc_intake
                (λ _, None) (λ d, Some [d]) (λ b n, (S n, true)) 60 1000 (λ _ l, l)
                [EPersist (Some (Some "d")); ETick 60; ETick 120] s with
      | Some s' => size (metrics (sv_p s')) = 1 ∧ sv_net s' = 0
      | None => False
      end
  | None => False
  end.
Proof.
  destruct (start_service (N:=nat) (λ _ : gmap string string, None) ex_svc_payload ex_svc_intake (λ _, None)
    (mkPersister false ∅ ∅) 0) as [s|] eqn:Es; [|discriminate Es].
  assert (H : match svc_run table_Apply (λ ks t, (t, ks, true)) (λ p, pp_Raw p) ex_svc_payload ex_svc_intake
      (λ _, None) (λ d, Some [d]) (λ b n, (S n, true)) 60 1000 (λ _ l, l)
      [EPersist (Some (Some "d")); ETick 60; ETick 120] s with
    | Some s' => size (metrics (sv_p s')) = 1 | None => False end).
  { vm_compute in Es. injection Es as <-. vm_compute. reflexivity. }
  destruct (svc_run _ _ _ _ _ _ _ _ _ _ _ _ s) as [s'|] eqn:Er; [|exact H].
  split; [exact H|].
  exact (proj1 (failed_load_sends_nothing table_Apply (λ ks t, (t, ks, true)) (λ _, None) (λ p, pp_Raw p)
    ex_svc_payload ex_svc_intake (λ _, None) (λ d, Some [d]) (λ b n, (S n, true)) 60 1000 (λ _ l, l)
    [EPersist (Some (Some "d")); ETick 60; ETick 120] (mkPersister false ∅ ∅) 0 s s' eq_refl Es Er)).
Defined.

(** Bigtable reports the rows it could not delete; [Remove] logs them and takes
    the call as a success. The row is gone from the index, the answer is 200,
    and a restart sends its metrics again. *)
Definition flaky_ApplyBulk (failing : list string) (ks : list string) (t : gmap string string) :
    gmap string string * list string * bool :=
  (foldl (λ t k, delete k t) t (filter (λ k, k ∉ failing) ks), filter (λ k, k ∈ failing) ks, true).

Lemma partial_removal_comes_back :
  let p := mkPersister false {["7:web1" := []]} {["7:web1" := "d"]} in
  match RemoveRowsHandler (Remove (flaky_ApplyBulk ["7:web1"])) (λ d, Some [d]) (Some (Some "7:web1")) p with
  | Some (p', st) => st = 200%Z ∧ size (metrics p') = 0 ∧
      match start_service table_ReadRows ex_svc_payload ex_svc_intake (λ _, None)
              (mkPersister false ∅ (store p')) 0 with
      | Some s => size (metrics (sv_p s)) = 1
      | None => False
      end
  | None => False
  end.
Proof. vm_compute. by split_and!. Qed.
