(* ===== verification/Router.v ===== *)
(** * The router

    tree.go and router.go of the vendored macaron: the tree of segments a
    pattern is added to, the match of an escaped path against it, and the fast
    match of static routes. The patterns of the gateway are static or end in "*";
    a pattern with a ":" (a regular expression) or an optional segment is none of
    them, and [checkPattern] does not classify it. *)

From S2P Require Import Prelude GoStrings Strconv.
From Stdlib Require Import Ascii.

(** [url.PathUnescape]. [None]: an invalid escape. *)
Fixpoint PathUnescape (s : string) : option string :=
  match s with
  | "" => Some ""
  | String "%" (String a (String b s')) =>
      x ← hex_val a; y ← hex_val b; t ← PathUnescape s'; Some (String (byte_of (16 * x + y)) t)
  | String "%" _ => None
  | String c s' => t ← PathUnescape s'; Some (String c t)
  end.

(** ** The tree *)

(** In the order of their constants. *)
Inductive patternType := STATIC | PATH_EXT | MATCH_ALL.

#[export] Instance patternType_eq_dec : EqDecision patternType.
Proof. solve_decision. Defined.

Definition type_number (t : patternType) : Z :=
  match t with STATIC => 0 | PATH_EXT => 2 | MATCH_ALL => 4 end.

Definition checkPattern (pattern : string) : option patternType :=
  if has_byte ":" pattern || HasPrefix pattern "?" then None
  else if bool_decide (pattern = "*") then Some MATCH_ALL
  else if bool_decide (pattern = "*.*") then Some PATH_EXT
  else Some STATIC.

Abbreviation Params := (gmap string string).

Section tree.
(** What is registered. *)
Context {H : Type}.

Record Leaf := mkLeaf { l_typ : patternType; l_pattern : string; l_handle : H }.

Inductive Tree := mkTree (typ : patternType) (pattern : string) (subtrees : list Tree) (leaves : list Leaf).

Definition t_typ (t : Tree) : patternType := let '(mkTree ty _ _ _) := t in ty.
Definition t_pattern (t : Tree) : string := let '(mkTree _ p _ _) := t in p.
Definition subtrees (t : Tree) : list Tree := let '(mkTree _ _ s _) := t in s.
Definition leaves (t : Tree) : list Leaf := let '(mkTree _ _ _ l) := t in l.

Definition NewTree : Tree := mkTree STATIC "" [] [].

(** Before the first of a later type. *)
Fixpoint insert_by {A} (typ : A → patternType) (x : A) (l : list A) : list A :=
  match l with
  | [] => [x]
  | y :: l' => if bool_decide (type_number (typ x) < type_number (typ y))%Z then x :: y :: l' else y :: insert_by typ x l'
  end.

(** The leaf with this pattern, if there is one; a new one otherwise. *)
Definition addLeaf (pattern : string) (handle : H) (t : Tree) : option (Tree * H) :=
  let '(mkTree ty p subs ls) := t in
  match List.find (λ l, bool_decide (l_pattern l = pattern)) ls with
  | Some l => Some (t, l_handle l)
  | None =>
      typ ← checkPattern pattern;
      Some (mkTree ty p subs (insert_by l_typ (mkLeaf typ pattern handle) ls), handle)
  end.

(** The first element that satisfies [f] is replaced. [None]: there is none. *)
Fixpoint update_first {A B} (f : A → bool) (g : A → option (A * B)) (l : list A) : option (option (list A * B)) :=
  match l with
  | [] => None
  | x :: l' =>
      if f x then Some ('(x', b) ← g x; Some (x' :: l', b))
      else match update_first f g l' with
           | Some r => Some ('(l'', b) ← r; Some (x :: l'', b))
           | None => None
           end
  end.

(** A round takes a segment and its slash, so the length is enough fuel. *)
Fixpoint addNextSegment (fuel : nat) (pattern : string) (handle : H) (t : Tree) : option (Tree * H) :=
  match fuel with
  | O => None
  | S fuel' =>
      let pattern := TrimPrefix pattern "/" in
      match IndexByte "/" pattern with
      | None => addLeaf pattern handle t
      | Some i =>
          let segment := take_str i pattern in
          let rest := drop_str (S i) pattern in
          let '(mkTree ty p subs ls) := t in
          match update_first (λ s, bool_decide (t_pattern s = segment)) (addNextSegment fuel' rest handle) subs with
          | Some r => '(subs', h) ← r; Some (mkTree ty p subs' ls, h)
          | None =>
              typ ← checkPattern segment;
              '(sub, h) ← addNextSegment fuel' rest handle (mkTree typ segment [] []);
              Some (mkTree ty p (insert_by t_typ sub subs) ls, h)
          end
      end
  end.

Definition Add (pattern : string) (handle : H) (t : Tree) : option (Tree * H) :=
  let pattern := TrimSuffix pattern "/" in addNextSegment (S (strlen pattern)) pattern handle t.

(** ** The match *)

(** [params["*"]] and the one of the level. *)
Definition glob (globLevel : nat) : string := "*" +:+ Itoa (Z.of_nat globLevel).
Definition set_globs (globLevel : nat) (v : string) (ps : Params) : Params := <[glob globLevel := v]> (<["*" := v]> ps).
(** [":path"] and [":ext"]: cut at the last dot. *)
Definition set_ext (v : string) (ps : Params) : Params :=
  match reverse (Split "." v) with
  | ext :: rest =>
      if bool_decide (rest = []) then <[":path" := v]> ps
      else <[":ext" := ext]> (<[":path" := Join "." (reverse rest)]> ps)
  | [] => ps
  end.

Fixpoint match_leaves (globLevel : nat) (url : string) (ls : list Leaf) (ps : Params) : option (H * Params) :=
  match ls with
  | [] => None
  | l :: ls' =>
      match l_typ l with
      | STATIC => if bool_decide (l_pattern l = url) then Some (l_handle l, ps) else match_leaves globLevel url ls' ps
      | PATH_EXT => Some (l_handle l, set_ext url ps)
      | MATCH_ALL => Some (l_handle l, set_globs globLevel url ps)
      end
  end.

Definition matchLeaf (globLevel : nat) (url : string) (ls : list Leaf) (ps : Params) : option (H * Params) :=
  url ← PathUnescape url; match_leaves globLevel url ls ps.

(** The last leaf takes what no subtree did. *)
Definition match_rest (globLevel : nat) (url : string) (ls : list Leaf) (ps : Params) : option (H * Params) :=
  match last ls with
  | None => None
  | Some leaf =>
      url ← PathUnescape url;
      match l_typ leaf with
      | STATIC => None
      | PATH_EXT => Some (l_handle leaf, set_ext url ps)
      | MATCH_ALL => Some (l_handle leaf, set_globs globLevel url ps)
      end
  end.

(** The subtrees in order, and then the last leaf; [next] matches the path below
    a subtree, at a level. *)
Definition match_subtrees (next : Tree → nat → option (H * Params)) (globLevel : nat) (unescaped : string)
    (rest : option (H * Params)) : list Tree → option (H * Params) :=
  fix go (subs : list Tree) :=
    match subs with
    | [] => rest
    | s :: subs' =>
        match t_typ s with
        | STATIC =>
            if bool_decide (t_pattern s = unescaped) then
              match next s globLevel with Some r => Some r | None => go subs' end
            else go subs'
        | PATH_EXT => go subs'
        | MATCH_ALL =>
            match next s (S globLevel) with
            | Some (h, ps') => Some (h, <[glob globLevel := unescaped]> ps')
            | None => go subs'
            end
        end
    end.

Definition matchSubtree (next : Tree → nat → option (H * Params)) (subs : list Tree) (ls : list Leaf)
    (globLevel : nat) (segment url : string) (ps : Params) : option (H * Params) :=
  unescaped ← PathUnescape segment;
  match_subtrees next globLevel unescaped (match_rest globLevel (segment +:+ "/" +:+ url) ls ps) subs.

Fixpoint matchNextSegment (t : Tree) (globLevel : nat) (url : string) (ps : Params) : option (H * Params) :=
  let '(mkTree _ _ subs ls) := t in
  match IndexByte "/" url with
  | None => matchLeaf globLevel url ls ps
  | Some i =>
      matchSubtree (λ s level, matchNextSegment s level (drop_str (S i) url) ps) subs ls
        globLevel (take_str i url) (drop_str (S i) url) ps
  end.

Definition Match (url : string) (t : Tree) : option (H * Params) :=
  matchNextSegment t 0 (TrimSuffix (TrimPrefix url "/") "/") ∅.

(** ** The router *)

Definition HTTP_METHODS : list string := ["GET"; "POST"; "PUT"; "DELETE"; "PATCH"; "OPTIONS"; "HEAD"].

Record Router := mkRouter { routers : gmap string Tree; routes : gmap (string * string) H }.
Definition NewRouter : Router := mkRouter ∅ ∅.

(** One method of [handle]: to its tree and to the map of patterns. *)
Definition handle_method (pattern : string) (h : H) (r : Router) (method : string) : option Router :=
  '(t, leaf) ← Add pattern h (default NewTree (routers r !! method));
  Some (mkRouter (<[method := t]> (routers r)) (<[(method, pattern) := leaf]> (routes r))).

(** [handle], of a method in upper case. An unknown method panics; "*" stands for
    all. *)
Definition handle (method pattern : string) (h : H) (r : Router) : outcome unit (option Router) :=
  if bool_decide (is_Some (routes r !! (method, pattern))) then Ok (Some r)
  else if bool_decide (method = "*")
  then Ok (foldl (λ r m, r' ← r; handle_method pattern h r' m) (Some r) HTTP_METHODS)
  else if bool_decide (method ∈ HTTP_METHODS) then Ok (handle_method pattern h r method)
  else Panic.

(** The calls of [Get], [Post] and [Any] in their order, with the method, the
    pattern and what is registered. *)
Definition register (table : list (string * string * H)) : outcome unit (option Router) :=
  foldl (λ r e, r ← r; match r with Some r => handle e.1.1 e.1.2 e.2 r | None => Ok None end)
    (Ok (Some NewRouter)) table.

(** [ServeHTTP] for a request with this [URL.Path] and [EscapedPath]. [None]: 404. *)
Definition ServeHTTP (method path escaped : string) (r : Router) : option (H * Params) :=
  t ← routers r !! method;
  match routes r !! (method, path) with
  | Some h => Some (h, ∅)
  | None =>
      '(h, ps) ← Match escaped t;
      Some (h, match ps !! glob 0 with Some splat => <["*" := splat]> ps | None => ps end)
  end.
End tree.
Arguments Leaf : clear implicits.
Arguments Tree : clear implicits.
Arguments Router : clear implicits.
