(* ===== verification/RouterSpec.v ===== *)
(** * What the router promises

    The tree of segments against a table: adding a pattern adds one entry, and a
    match is a look-up of the path's segments, the longest pattern first. *)

From S2P Require Import Prelude GoStrings Strconv Router.
From Stdlib Require Import Ascii.

(** ** Segments *)

Definition join_path (l : list string) : string := Join "/" l.
Definition no_slash (s : string) : Prop := has_byte "/" s = false.

(** The first segment of a path. *)
Lemma cut_segment x l :
  no_slash x → l ≠ [] →
  let p := join_path (x :: l) in
  IndexByte "/" p = Some (strlen x) ∧ take_str (strlen x) p = x ∧ drop_str (S (strlen x)) p = join_path l.
Proof.
  intros Hx Hl. cbv zeta. unfold join_path. rewrite Join_cons by done.
  change ("/" +:+ Join "/" l) with (String "/" (Join "/" l)).
  by rewrite (IndexByte_app "/" x), take_str_app, drop_str_S_app.
Qed.

Lemma TrimPrefix_no_slash x l :
  no_slash x → x ≠ "" → TrimPrefix (join_path (x :: l)) "/" = join_path (x :: l).
Proof.
  intros Hx Hn. destruct x as [|c x]; [done|]. apply orb_false_iff in Hx as [Hc _].
  apply bool_decide_eq_false in Hc. unfold TrimPrefix, join_path.
  replace (HasPrefix _ "/") with false; [done|]. symmetry. apply not_true_iff_false.
  intros [t Ht]%HasPrefix_spec. change ("/" +:+ t) with (String "/" t) in Ht.
  destruct l as [|y l]; [by injection Ht|]. rewrite Join_cons in Ht by done. by injection Ht.
Qed.

(** ** Escapes *)

Lemma PathUnescape_cons c s :
  c ≠ "%"%char → PathUnescape (String c s) = (t ← PathUnescape s; Some (String c t)).
Proof. destruct c as [[] [] [] [] [] [] [] []]; done. Qed.

Lemma PathUnescape_escape s :
  PathUnescape (String "%" s) =
    match s with
    | String a (String b s') =>
        x ← hex_val a; y ← hex_val b; t ← PathUnescape s'; Some (String (byte_of (16 * x + y)) t)
    | _ => None
    end.
Proof. by destruct s as [|a [|b s]]. Qed.

(** A slash ends an escape. *)
Lemma PathUnescape_slash a b :
  PathUnescape (a +:+ "/" +:+ b) = (x ← PathUnescape a; y ← PathUnescape b; Some (x +:+ "/" +:+ y)).
Proof.
  remember (strlen a) as n eqn:Hn. revert a Hn.
  induction n as [n IH] using lt_wf_ind. intros [|c a] ->.
  { change (PathUnescape ("" +:+ "/" +:+ b)) with (PathUnescape (String "/" b)).
    by rewrite PathUnescape_cons. }
  rewrite str_app_cons. destruct (decide (c = "%"%char)) as [-> |Hc].
  - rewrite !PathUnescape_escape. destruct a as [|d [|e a]].
    + by destruct b.
    + cbn [strlen]. change (String d "" +:+ "/" +:+ b) with (String d (String "/" b)). cbn.
      by destruct (hex_val d).
    + rewrite !str_app_cons. destruct (hex_val d) as [x|]; [|done]. destruct (hex_val e) as [y|]; [|done].
      cbn [mbind option_bind]. rewrite (IH (strlen a)) by (cbn; lia || done).
      destruct (PathUnescape a); [|done]. by destruct (PathUnescape b).
  - rewrite !PathUnescape_cons by done. rewrite (IH (strlen a)) by (cbn; lia || done).
    destruct (PathUnescape a); [|done]. by destruct (PathUnescape b).
Qed.

Lemma PathUnescape_join l : l ≠ [] → PathUnescape (join_path l) = join_path <$> mapM PathUnescape l.
Proof.
  induction l as [|x l IH]; [done|]. intros _. destruct l as [|y l].
  - change (join_path [x]) with x. cbn. by destruct (PathUnescape x).
  - unfold join_path at 1. rewrite Join_cons, PathUnescape_slash by done. fold (join_path (y :: l)).
    rewrite IH by done. change (mapM PathUnescape (x :: y :: l)) with
      (x' ← PathUnescape x; l' ← mapM PathUnescape (y :: l); Some (x' :: l')).
    destruct (PathUnescape x) as [x'|]; [|done]. cbn [mbind option_bind].
    destruct (mapM PathUnescape (y :: l)) as [l'|] eqn:E; [|done]. cbn [fmap option_fmap option_map mbind option_bind].
    apply mapM_Some_1 in E. apply Forall2_length in E. destruct l' as [|y' l']; [done|].
    unfold join_path. by rewrite (Join_cons _ x').
Qed.

(** ** Lists that are searched *)

Section lists.
Context {A B : Type} (f : A → bool).

Lemma find_app (l1 l2 : list A) :
  List.find f (l1 ++ l2) = match List.find f l1 with Some x => Some x | None => List.find f l2 end.
Proof. induction l1 as [|x l1 IH]; [done|]. cbn. by destruct (f x). Qed.

Lemma find_split (l : list A) x :
  List.find f l = Some x → ∃ l1 l2, l = l1 ++ x :: l2 ∧ f x = true ∧ List.find f l1 = None.
Proof.
  induction l as [|y l IH]; [done|]. cbn. destruct (f y) eqn:E.
  - intros [= ->]. by exists [], l.
  - intros (l1 & l2 & -> & H1 & H2)%IH. exists (y :: l1), l2. cbn. by rewrite E.
Qed.

Lemma find_none_Forall (l : list A) : List.find f l = None ↔ Forall (λ x, f x = false) l.
Proof.
  induction l as [|y l IH]; [done|]. cbn. destruct (f y) eqn:E; rewrite Forall_cons, E; naive_solver.
Qed.

Lemma find_restrict (p : A → bool) (l : list A) :
  (∀ x, f x = true → p x = true) → List.find f l = List.find f (List.filter p l).
Proof.
  intros Hp. induction l as [|y l IH]; [done|]. cbn. destruct (f y) eqn:E.
  - rewrite (Hp y E). cbn. by rewrite E.
  - rewrite IH. destruct (p y); [|done]. cbn. by rewrite E.
Qed.

Lemma update_first_none (g : A → option (A * B)) l :
  List.find f l = None → update_first f g l = None.
Proof.
  induction l as [|y l IH]; [done|]. cbn. destruct (f y); [done|]. intros H. by rewrite IH.
Qed.

Lemma update_first_some (g : A → option (A * B)) l1 x l2 x' b :
  List.find f l1 = None → f x = true → g x = Some (x', b) →
  update_first f g (l1 ++ x :: l2) = Some (Some (l1 ++ x' :: l2, b)).
Proof.
  intros H1 Hx Hg. induction l1 as [|y l1 IH]; cbn in *; [by rewrite Hx, Hg|].
  destruct (f y); [done|]. by rewrite IH.
Qed.
End lists.

(** Static nodes are kept in the order of registration, before those that match
    all. *)
Lemma insert_by_static {A} (typ : A → patternType) x l1 l2 :
  typ x = STATIC → Forall (λ y, typ y = STATIC) l1 → Forall (λ y, typ y = MATCH_ALL) l2 →
  insert_by typ x (l1 ++ l2) = l1 ++ x :: l2.
Proof.
  intros Hx H1 H2. induction H1 as [|y l1 Hy _ IH]; cbn.
  - destruct H2 as [|z l2 Hz _]; [done|]. cbn. by rewrite Hx, Hz.
  - rewrite Hx, Hy. cbn. by rewrite IH.
Qed.

Lemma insert_by_all {A} (typ : A → patternType) x l :
  typ x = MATCH_ALL → Forall (λ y, typ y = STATIC ∨ typ y = MATCH_ALL) l → insert_by typ x l = l ++ [x].
Proof.
  intros Hx H. induction H as [|y l Hy _ IH]; [done|]. cbn. rewrite Hx, IH.
  by destruct Hy as [-> | ->].
Qed.

(** ** A tree as a table *)

(** A static segment, and the pattern of a route: static segments, of which the
    last may be "*". *)
Definition static_seg (x : string) : Prop := no_slash x ∧ checkPattern x = Some STATIC.
Fixpoint simple (segs : list string) : Prop :=
  match segs with
  | [] => False
  | [x] => static_seg x ∨ x = "*"
  | x :: segs' => x ≠ "" ∧ static_seg x ∧ simple segs'
  end.

Section tree.
Context {H : Type}.
Implicit Types (t : Tree H) (h : H).

(** What is registered at a list of segments. *)
Fixpoint registered_at (t : Tree H) (segs : list string) : option H :=
  match segs with
  | [] => None
  | [x] => l_handle <$> List.find (λ l, bool_decide (l_pattern l = x)) (leaves t)
  | x :: segs' => s ← List.find (λ s, bool_decide (t_pattern s = x)) (subtrees t); registered_at s segs'
  end.

Definition static_leaf (l : Leaf H) : Prop := l_typ l = STATIC ∧ l_pattern l ≠ "*".
Definition star_leaf (l : Leaf H) : Prop := l_typ l = MATCH_ALL ∧ l_pattern l = "*".

(** The trees of such patterns: static subtrees, all different; different static
    leaves, and then at most one leaf that matches all. *)
Inductive plain : Tree H → Prop :=
| plain_tree ty p subs ss ws :
    Forall (λ s, t_typ s = STATIC) subs → NoDup (t_pattern <$> subs) → Forall plain subs →
    Forall static_leaf ss → Forall star_leaf ws → length ws ≤ 1 →
    plain (mkTree ty p subs (ss ++ ws)).

Lemma plain_New ty p : plain (mkTree ty p [] []).
Proof. apply (plain_tree ty p [] [] []); try done; [apply NoDup_nil_2|cbn; lia]. Qed.

Lemma registered_New ty p segs : registered_at (mkTree ty p [] []) segs = None.
Proof. by destruct segs as [|x [|y segs]]. Qed.

Lemma registered_cons t x segs :
  segs ≠ [] →
  registered_at t (x :: segs) =
    (s ← List.find (λ s, bool_decide (t_pattern s = x)) (subtrees t); registered_at s segs).
Proof. by destruct segs. Qed.

Definition put (t : Tree H) (segs : list string) h (t' : Tree H) : Prop :=
  plain t' ∧ t_typ t' = t_typ t ∧ t_pattern t' = t_pattern t ∧
  ∀ q, registered_at t' q = if decide (q = segs) then Some (default h (registered_at t segs)) else registered_at t q.

Lemma checkPattern_star : checkPattern "*" = Some MATCH_ALL.
Proof. done. Qed.

Lemma static_leaf_check x : static_seg x → x ≠ "*".
Proof. by intros [_ Hc] ->. Qed.

Lemma addLeaf_spec t x h :
  plain t → static_seg x ∨ x = "*" →
  ∃ t', addLeaf x h t = Some (t', default h (registered_at t [x])) ∧ put t [x] h t'.
Proof.
  intros Ht Hx. destruct Ht as [ty p subs ss ws H1 H2 H3 H4 H5 H6]. cbn [addLeaf registered_at leaves].
  destruct (List.find _ (ss ++ ws)) as [l|] eqn:Ef.
  { eexists. split; [done|]. split; [by apply plain_tree|]. split_and!; [done..|].
    intros q. case_decide as Hq; [subst q|done]. cbn. by rewrite Ef. }
  assert (Hfresh : ∀ l1 l2 l', l1 ++ l2 = ss ++ ws → l_pattern l' = x → l_handle l' = h →
    ∀ q, registered_at (mkTree ty p subs (l1 ++ l' :: l2)) q =
      if decide (q = [x]) then Some h else registered_at (mkTree ty p subs (ss ++ ws)) q).
  { intros l1 l2 l' E Hl Hh [|y [|z q]]; [done| |by rewrite decide_False].
    rewrite <- E in *. cbn [registered_at leaves]. rewrite !find_app in *. cbn [List.find]. rewrite Hl.
    case_decide as Hd.
    - injection Hd as ->. rewrite bool_decide_eq_true_2 by done.
      destruct (List.find _ l1); [done|]. cbn. by rewrite Hh.
    - rewrite bool_decide_eq_false_2 by congruence. by destruct (List.find _ l1). }
  destruct Hx as [Hs| ->].
  - destruct Hs as [Hns Hc]. rewrite Hc. cbn.
    rewrite insert_by_static; [|done|by eapply Forall_impl; [exact H4|intros l []]|by eapply Forall_impl; [exact H5|intros l []]].
    eexists. split; [done|]. split_and!; [|done..|].
    + change (ss ++ mkLeaf STATIC x h :: ws) with (ss ++ [mkLeaf STATIC x h] ++ ws). rewrite app_assoc.
      apply plain_tree; try done. apply Forall_app. split; [done|]. apply Forall_singleton.
      split; [done|]. by apply static_leaf_check.
    + intros q. cbn [registered_at leaves]. rewrite Ef. by apply Hfresh.
  - rewrite checkPattern_star. cbn. destruct ws as [|w ws].
    + rewrite app_nil_r in *. rewrite insert_by_all; [|done|by eapply Forall_impl; [exact H4|intros l []; auto]].
      eexists. split; [done|]. split_and!; [|done..|].
      * apply plain_tree; try done. by apply Forall_singleton.
      * intros q. cbn [registered_at leaves]. rewrite Ef.
        apply (Hfresh ss [] (mkLeaf MATCH_ALL "*" h)); [by rewrite !app_nil_r|done..].
    + rewrite find_app in Ef. apply Forall_cons in H5 as [[_ Hw] _].
      destruct (List.find _ ss); [done|]. cbn in Ef. by rewrite bool_decide_eq_true_2 in Ef.
Qed.

(** The subtree [s] of a segment, which is there or is a new one, is replaced. *)
Lemma put_subtree ty p l1 o l2 ls x segs h s s' :
  plain (mkTree ty p (l1 ++ o ++ l2) ls) → segs ≠ [] → put s segs h s' →
  List.find (λ s, bool_decide (t_pattern s = x)) l1 = None → t_pattern s = x → t_typ s = STATIC →
  (o = [s] ∨ o = [] ∧ s = mkTree STATIC x [] [] ∧ List.find (λ s, bool_decide (t_pattern s = x)) l2 = None) →
  put (mkTree ty p (l1 ++ o ++ l2) ls) (x :: segs) h (mkTree ty p (l1 ++ s' :: l2) ls).
Proof.
  intros Ht Hsegs (P1 & P2 & P3 & P4) F1 Hx Hty Ho.
  assert (Hs : registered_at (mkTree ty p (l1 ++ o ++ l2) ls) (x :: segs) = registered_at s segs).
  { rewrite registered_cons by done. cbn [subtrees]. rewrite !find_app, F1.
    destruct Ho as [-> |(-> & -> & ->)]; cbn; [by rewrite bool_decide_eq_true_2|by rewrite registered_New]. }
  inversion Ht as [ty' p' subs ss ws H1 H2 H3 H4 H5 H6 E]; subst. split_and!; [|done..|].
  - apply plain_tree; try done.
    + apply Forall_app in H1 as [H1 [_ H1']%Forall_app]. apply Forall_app; split; [done|].
      apply Forall_cons; split; [congruence|done].
    + destruct Ho as [-> |(-> & _ & F2)]; rewrite !fmap_app in *; cbn in *; rewrite P3; [done|].
      apply NoDup_app in H2 as (N1 & N2 & N3). apply NoDup_app. split; [done|].
      assert (Hfresh : ∀ l : list (Tree H), List.find (λ s0, bool_decide (t_pattern s0 = t_pattern s)) l = None →
        t_pattern s ∉ t_pattern <$> l).
      { intros l Hl%find_none_Forall Hin. apply list_elem_of_fmap in Hin as (z & Hz & Hin).
        rewrite Forall_forall in Hl. apply Hl in Hin. by apply bool_decide_eq_false in Hin. }
      split; [|apply NoDup_cons; split; [by apply Hfresh|done]].
      intros z Hz [-> |Hz']%elem_of_cons; [by apply (Hfresh l1)|by apply (N2 z)].
    + apply Forall_app in H3 as [H3 [_ H3']%Forall_app]. apply Forall_app; split; [done|].
      by apply Forall_cons.
  - intros [|y q]; [done|]. rewrite Hs. destruct (decide (q = [])) as [-> |Hq].
    { cbn. by rewrite decide_False by (intros [= _ E]; by subst segs). }
    rewrite !registered_cons by done. cbn [subtrees]. rewrite !find_app. cbn [List.find].
    destruct (decide (y = t_pattern s)) as [-> |Hy].
    + rewrite F1, bool_decide_eq_true_2 by done. cbn. rewrite P4.
      destruct Ho as [-> |(-> & Es & F2)]; cbn.
      * rewrite bool_decide_eq_true_2 by done. cbn. repeat case_decide; congruence.
      * rewrite F2, Es. cbn. rewrite !registered_New. repeat case_decide; congruence.
    + rewrite (decide_False (P := y :: q = _)) by congruence.
      rewrite bool_decide_eq_false_2 by congruence.
      destruct Ho as [-> |(-> & _ & _)]; cbn; [|done]. by rewrite bool_decide_eq_false_2.
Qed.

Lemma simple_cons x y l : simple (x :: y :: l) → x ≠ "" ∧ static_seg x ∧ simple (y :: l).
Proof. done. Qed.

Lemma TrimPrefix_simple l : simple l → TrimPrefix (join_path l) "/" = join_path l.
Proof.
  destruct l as [|x [|y l]]; [done|..].
  - intros [[Hx _]| ->]; [|done]. destruct (decide (x = "")) as [-> |]; [done|]. by apply TrimPrefix_no_slash.
  - intros (H1 & [H2 _] & _)%simple_cons. by apply TrimPrefix_no_slash.
Qed.

Lemma addNextSegment_spec segs : ∀ fuel p t h,
  plain t → simple segs → length segs ≤ fuel → TrimPrefix p "/" = join_path segs →
  ∃ t', addNextSegment fuel p h t = Some (t', default h (registered_at t segs)) ∧ put t segs h t'.
Proof.
  induction segs as [|x [|y l] IH]; intros fuel p t h Ht Hs Hf Hp; [done|..].
  - destruct fuel as [|fuel]; [cbn in Hf; lia|]. cbn [addNextSegment]. rewrite Hp.
    change (join_path [x]) with x. rewrite IndexByte_none; [by apply addLeaf_spec|].
    by destruct Hs as [[Hs _]| ->].
  - destruct fuel as [|fuel]; [cbn in Hf; lia|]. cbn [addNextSegment]. rewrite Hp.
    apply simple_cons in Hs as (Hn & [Hx Hc] & Hs).
    destruct (cut_segment x (y :: l) Hx) as (C1 & C2 & C3); [done|]. rewrite C1, C2, C3.
    set (segs := y :: l) in *. assert (Hsegs : segs ≠ []) by done.
    destruct t as [ty p0 subs ls]. assert (Hf' : length segs ≤ fuel) by (cbn in *; lia).
    inversion Ht as [ty' p' subs' ss ws H1 H2 H3 H4 H5 H6 E]; subst.
    rewrite registered_cons by done. cbn [subtrees].
    destruct (List.find (λ s, bool_decide (t_pattern s = x)) subs) as [s|] eqn:Ef.
    + apply find_split in Ef as (l1 & l2 & -> & Hsx & F1). apply bool_decide_eq_true in Hsx.
      assert (Hps : plain s ∧ t_typ s = STATIC).
      { rewrite Forall_forall in H1, H3. split; [apply H3|apply H1]; apply elem_of_app; right; left. }
      destruct (IH fuel (join_path segs) s h (proj1 Hps) Hs Hf' (TrimPrefix_simple _ Hs)) as (s' & Ha & Hput).
      rewrite (update_first_some _ _ l1 s l2 s' _ F1) by (done || by apply bool_decide_eq_true_2).
      cbn. eexists. split; [done|].
      apply (put_subtree ty p0 l1 [s] l2 _ x segs h s s'); try done; [apply Hps|by left].
    + rewrite update_first_none, Hc by done. cbn [mbind option_bind].
      destruct (IH fuel (join_path segs) (mkTree STATIC x [] []) h (plain_New _ _) Hs Hf'
        (TrimPrefix_simple _ Hs)) as (s' & Ha & Hput).
      rewrite Ha, registered_New. cbn.
      pose proof (insert_by_static t_typ s' subs []) as Hi. rewrite app_nil_r in Hi.
      rewrite Hi; [|by destruct Hput as (_ & ? & _)|done|apply Forall_nil_2].
      eexists. split; [done|].
      pose proof (put_subtree ty p0 subs [] [] (ss ++ ws) x segs h (mkTree STATIC x [] []) s') as Hps.
      cbn [app] in Hps.
      rewrite app_nil_r in Hps. apply Hps; try done. by right.
Qed.

(** ** The match as a look-up *)

(** The patterns that fit the unescaped segments, with what their "*" stands for:
    the segments themselves, unless the last is a literal "*", and then the
    prefixes, the longest first. *)
Definition candidates (xs : list string) : list (list string * option string) :=
  (if bool_decide (last xs = Some "*") then [] else [(xs, None)]) ++
  ((λ k, (take k xs ++ ["*"], Some (join_path (drop k xs)))) <$> reverse (seq 0 (length xs))).

(** The first of them that is in the table. *)
Fixpoint choose (table : list string → option H) (l : list (list string * option string)) : option (H * option string) :=
  match l with
  | [] => None
  | (q, splat) :: l' => match table q with Some h => Some (h, splat) | None => choose table l' end
  end.

Definition splat_params (globLevel : nat) (ps : Params) (r : H * option string) : H * Params :=
  (r.1, match r.2 with Some v => set_globs globLevel v ps | None => ps end).

Lemma choose_app table l1 l2 :
  choose table (l1 ++ l2) = match choose table l1 with Some r => Some r | None => choose table l2 end.
Proof. induction l1 as [|[q v] l1 IH]; [done|]. cbn. by destruct (table q). Qed.

Lemma choose_ext (f g : list string → option H) l :
  Forall (λ c, f c.1 = g c.1) l → choose f l = choose g l.
Proof. induction 1 as [|[q v] l Hq _ IH]; [done|]. cbn in *. by rewrite Hq, IH. Qed.

Lemma candidates_cons x xs :
  xs ≠ [] →
  candidates (x :: xs) = (prod_map (cons x) id <$> candidates xs) ++ [(["*"], Some (join_path (x :: xs)))].
Proof.
  intros Hx. unfold candidates. rewrite fmap_app, <- app_assoc. f_equal.
  - destruct xs as [|y xs]; [done|]. rewrite last_cons_cons. by case_bool_decide.
  - cbn [length]. rewrite <- cons_seq, <- fmap_S_seq. rewrite reverse_cons, !fmap_app. cbn. f_equal.
    rewrite <- fmap_reverse, <- !list_fmap_compose. by apply list_fmap_ext.
Qed.

(** What is at "*", in the leaves. *)
Lemma registered_star ty p subs ss ws :
  Forall static_leaf ss → Forall star_leaf ws →
  registered_at (mkTree ty p subs (ss ++ ws)) ["*"] = l_handle <$> head ws.
Proof.
  intros H1 H2. cbn [registered_at leaves]. rewrite find_app.
  rewrite (proj2 (find_none_Forall _ ss)); [|eapply Forall_impl; [exact H1|intros l [_ ?]; by apply bool_decide_eq_false_2]].
  destruct H2 as [|w ws [_ Hw] _]; [done|]. cbn. by rewrite bool_decide_eq_true_2.
Qed.

Lemma match_leaves_spec g x ps ty p subs ss ws :
  Forall static_leaf ss → Forall star_leaf ws →
  match_leaves g x (ss ++ ws) ps =
    splat_params g ps <$> choose (registered_at (mkTree ty p subs (ss ++ ws))) (candidates [x]).
Proof.
  intros H1 H2. unfold candidates. cbn [last length seq]. rewrite choose_app.
  change (choose _ ((λ k, _) <$> reverse [0])) with
    (match registered_at (mkTree ty p subs (ss ++ ws)) ["*"] with Some h => Some (h, Some x) | None => None end).
  rewrite (registered_star _ _ _ _ _ H1 H2).
  assert (Hws : match_leaves g x ws ps = splat_params g ps <$> match l_handle <$> head ws with
    Some h => Some (h, Some x) | None => None end).
  { destruct H2 as [|w ws [Hw _] _]; [done|]. cbn. by rewrite Hw. }
  case_bool_decide as Hx; cbn [choose].
  - injection Hx as ->. rewrite <- Hws. clear Hws. induction H1 as [|l ss [Hl Hn] _ IH]; [done|].
    cbn. by rewrite Hl, bool_decide_eq_false_2.
  - cbn [registered_at leaves]. rewrite find_app. assert (Hx' : x ≠ "*") by congruence.
    replace (List.find (λ l, bool_decide (l_pattern l = x)) ws) with (@None (Leaf H)).
    2:{ symmetry. apply find_none_Forall. eapply Forall_impl; [exact H2|]. intros l [_ Hl].
        apply bool_decide_eq_false_2. congruence. }
    induction H1 as [|l ss [Hl _] _ IH]; [exact Hws|]. cbn [app match_leaves List.find]. rewrite Hl.
    by destruct (bool_decide (l_pattern l = x)).
Qed.

Lemma match_rest_spec g url ps ty p subs ss ws :
  Forall static_leaf ss → Forall star_leaf ws → length ws ≤ 1 →
  match_rest g url (ss ++ ws) ps =
    (v ← PathUnescape url;
     splat_params g ps <$> choose (registered_at (mkTree ty p subs (ss ++ ws))) [(["*"], Some v)]).
Proof.
  intros H1 H2 H3. cbn [choose]. rewrite (registered_star _ _ _ _ _ H1 H2). unfold match_rest.
  destruct H2 as [|w ws [Hw _] H2].
  - rewrite app_nil_r. cbn. destruct (last ss) as [l|] eqn:El; [|by destruct (PathUnescape url)].
    apply last_Some_elem_of in El. rewrite Forall_forall in H1. destruct (H1 l El) as [-> _]. done.
  - destruct ws; [|cbn in H3; lia]. rewrite last_snoc. cbn. rewrite Hw. by destruct (PathUnescape url).
Qed.

Lemma match_subtrees_spec next g x rest (subs : list (Tree H)) :
  Forall (λ s, t_typ s = STATIC) subs → NoDup (t_pattern <$> subs) →
  match_subtrees next g x rest subs =
    match List.find (λ s, bool_decide (t_pattern s = x)) subs with
    | Some s => match next s g with Some r => Some r | None => rest end
    | None => rest
    end.
Proof.
  intros H1. induction H1 as [|s subs Hs _ IH]; cbn; [done|]. intros [Hn Hd]%NoDup_cons.
  rewrite Hs. case_bool_decide as Hx; [|by apply IH].
  destruct (next s g); [done|]. rewrite IH by done.
  rewrite (proj2 (find_none_Forall _ subs)); [done|]. apply Forall_forall. intros s' Hin.
  apply bool_decide_eq_false_2. intros Hs'. apply Hn. rewrite Hx, <- Hs'. by apply list_elem_of_fmap_2.
Qed.

Lemma candidates_nonempty xs : xs ≠ [] → Forall (λ c, c.1 ≠ []) (candidates xs).
Proof.
  intros Hx. unfold candidates. apply Forall_app. split.
  - case_bool_decide; [apply Forall_nil_2|]. by apply Forall_singleton.
  - apply Forall_forall. intros c (k & -> & _)%list_elem_of_fmap. cbn. by destruct (take k xs).
Qed.

(** The match of a path below a segment. *)
Lemma choose_below ty p subs ls x l :
  Forall (λ c, c.1 ≠ []) l →
  choose (registered_at (mkTree ty p subs ls)) (prod_map (cons x) id <$> l) =
    (s ← List.find (λ s, bool_decide (t_pattern s = x)) subs; choose (registered_at s) l).
Proof.
  intros Hl. induction Hl as [|[q v] l Hq _ IH]; [by destruct (List.find _ subs)|].
  change (prod_map (cons x) id <$> (q, v) :: l) with ((x :: q, v) :: (prod_map (cons x) id <$> l)).
  cbn [choose]. rewrite registered_cons by done. cbn [subtrees].
  rewrite IH. by destruct (List.find _ subs).
Qed.

Lemma matchNextSegment_spec us : ∀ t g ps,
  plain t → us ≠ [] → Forall no_slash us →
  matchNextSegment t g (join_path us) ps =
    splat_params g ps <$> (xs ← mapM PathUnescape us; choose (registered_at t) (candidates xs)).
Proof.
  induction us as [|u us IH]; [done|]. intros t g ps Ht _ [Hu Hus]%Forall_cons.
  destruct Ht as [ty p subs ss ws H1 H2 H3 H4 H5 H6]. cbn [matchNextSegment].
  destruct us as [|v us].
  { change (join_path [u]) with u. rewrite IndexByte_none by done. unfold matchLeaf. cbn.
    destruct (PathUnescape u) as [x|]; [|done]. cbn [mbind option_bind].
    rewrite (match_leaves_spec _ _ _ ty p subs) by done. done. }
  destruct (cut_segment u (v :: us) Hu) as (C1 & C2 & C3); [done|]. rewrite C1, C2, C3. clear C1 C2 C3.
  set (us' := v :: us) in *. assert (Hn : us' ≠ []) by done.
  unfold matchSubtree. change (mapM PathUnescape (u :: us')) with
    (x ← PathUnescape u; xs ← mapM PathUnescape us'; Some (x :: xs)).
  destruct (PathUnescape u) as [x|] eqn:Eu; [|done]. cbn [mbind option_bind].
  rewrite match_subtrees_spec, (match_rest_spec _ _ _ ty p subs) by done.
  change (u +:+ "/" +:+ join_path us') with (join_path (u :: us')).
  rewrite PathUnescape_join by done. change (mapM PathUnescape (u :: us')) with
    (x ← PathUnescape u; xs ← mapM PathUnescape us'; Some (x :: xs)). rewrite Eu. cbn [mbind option_bind].
  assert (Hnext : ∀ s, s ∈ subs → matchNextSegment s g (join_path us') ps =
    splat_params g ps <$> (xs ← mapM PathUnescape us'; choose (registered_at s) (candidates xs))).
  { intros s Hs. rewrite Forall_forall in H3. by apply IH; [apply H3| |]. }
  destruct (mapM PathUnescape us') as [xs|] eqn:Em; cbn [mbind option_bind fmap option_fmap option_map].
  - assert (Hxs : xs ≠ []) by (apply mapM_Some_1, Forall2_length in Em; by destruct xs).
    rewrite candidates_cons, choose_app, choose_below by auto using candidates_nonempty.
    destruct (List.find _ subs) as [s|] eqn:Ef; cbn [mbind option_bind]; [|done].
    rewrite Hnext by (apply List.find_some in Ef as [Hin _]; by apply list_elem_of_In).
    cbn [mbind option_bind]. by destruct (choose (registered_at s) (candidates xs)).
  - destruct (List.find _ subs) as [s|] eqn:Ef; [|done].
    by rewrite Hnext by (apply List.find_some in Ef as [Hin _]; by apply list_elem_of_In).
Qed.

(** ** Patterns and paths *)

Definition pattern_segs (pattern : string) : list string := Split "/" (TrimPrefix (TrimSuffix pattern "/") "/").
Definition url_segs (url : string) : list string := Split "/" (TrimSuffix (TrimPrefix url "/") "/").

Lemma Split_slash_ne p : Split "/" p ≠ [].
Proof. by destruct (Split_cons "/" p) as (x & xs & ->). Qed.

Lemma strlen_TrimPrefix s p : strlen (TrimPrefix s p) ≤ strlen s.
Proof. unfold TrimPrefix. destruct (HasPrefix s p); [rewrite strlen_drop; lia|done]. Qed.

Lemma Add_spec p t h :
  plain t → simple (pattern_segs p) →
  ∃ t', Add p h t = Some (t', default h (registered_at t (pattern_segs p))) ∧ put t (pattern_segs p) h t'.
Proof.
  intros Ht Hs. unfold Add. apply addNextSegment_spec; [done..| |].
  - unfold pattern_segs. etrans; [apply length_Split|]. pose proof (strlen_TrimPrefix (TrimSuffix p "/") "/"). lia.
  - symmetry. apply (Join_Split "/").
Qed.

Lemma Match_spec url t :
  plain t →
  Match url t = splat_params 0 ∅ <$> (xs ← mapM PathUnescape (url_segs url); choose (registered_at t) (candidates xs)).
Proof.
  intros Ht. unfold Match. rewrite <- (Join_Split "/" (TrimSuffix _ "/")).
  apply matchNextSegment_spec; [done|apply Split_slash_ne|apply Split_no_sep].
Qed.

(** ** The router as a table *)

Abbreviation entry := (string * string * H)%type.

Definition for_method (m : string) (e : entry) : bool :=
  if bool_decide (e.1.1 = "*") then bool_decide (m ∈ HTTP_METHODS) else bool_decide (e.1.1 = m).

(** What was registered first for these segments; and whether this very pattern was. *)
Definition table_at (T : list entry) (m : string) (q : list string) : option H :=
  snd <$> List.find (λ e, for_method m e && bool_decide (pattern_segs e.1.2 = q)) T.
Definition literal (T : list entry) (m path : string) : bool :=
  existsb (λ e, for_method m e && bool_decide (e.1.2 = path)) T.

(** The answer of the table to a request. *)
Definition serve_table (T : list entry) (m path escaped : string) : option (H * Params) :=
  if literal T m path then (λ h, (h, ∅)) <$> table_at T m (pattern_segs path)
  else xs ← mapM PathUnescape (url_segs escaped);
       splat_params 0 ∅ <$> choose (table_at T m) (candidates xs).

Definition good_entry (e : entry) : Prop :=
  (e.1.1 = "*" ∨ e.1.1 ∈ HTTP_METHODS) ∧ simple (pattern_segs e.1.2).

Record agrees (T : list entry) (r : Router H) (m : string) : Prop := {
  ag_none : routers r !! m = None → ∀ q, table_at T m q = None;
  ag_tree t : routers r !! m = Some t → plain t ∧ ∀ q, registered_at t q = table_at T m q;
  ag_routes p : routes r !! (m, p) = if literal T m p then table_at T m (pattern_segs p) else None }.

Lemma table_at_snoc T e m q :
  table_at (T ++ [e]) m q =
    match table_at T m q with
    | Some h => Some h
    | None => if for_method m e && bool_decide (pattern_segs e.1.2 = q) then Some e.2 else None
    end.
Proof.
  unfold table_at. rewrite find_app. destruct (List.find _ T); [done|]. cbn.
  by destruct (for_method m e && _).
Qed.

Lemma literal_snoc T e m p :
  literal (T ++ [e]) m p = literal T m p || (for_method m e && bool_decide (e.1.2 = p)).
Proof. unfold literal. rewrite existsb_app. cbn. by rewrite orb_false_r. Qed.

Lemma literal_table T m p : literal T m p = true → is_Some (table_at T m (pattern_segs p)).
Proof.
  intros (e & Hin & [Hm Hp%bool_decide_eq_true]%andb_true_iff)%existsb_exists. unfold table_at.
  destruct (List.find _ T) as [e'|] eqn:Ef; [by eexists|].
  rewrite find_none_Forall, Forall_forall in Ef. specialize (Ef e). rewrite list_elem_of_In in Ef.
  specialize (Ef Hin). by rewrite Hm, Hp, bool_decide_eq_true_2 in Ef.
Qed.

Lemma agrees_New m : agrees [] NewRouter m.
Proof. split; [done|by intros t|done]. Qed.

(** A method that an entry is not for. *)
Lemma agrees_other T r r' e m :
  for_method m e = false → routers r' !! m = routers r !! m → (∀ p, routes r' !! (m, p) = routes r !! (m, p)) →
  agrees T r m → agrees (T ++ [e]) r' m.
Proof.
  intros Hf H1 H2 [A B C].
  assert (Ht : ∀ q, table_at (T ++ [e]) m q = table_at T m q).
  { intros q. rewrite table_at_snoc, Hf. by destruct (table_at T m q). }
  split.
  - rewrite H1. intros Hn q. rewrite Ht. by apply A.
  - rewrite H1. intros t Hr. destruct (B t Hr) as [B1 B2]. split; [done|]. intros q. by rewrite Ht.
  - intros p. by rewrite H2, C, literal_snoc, Hf, orb_false_r, Ht.
Qed.

Lemma handle_method_spec T r e m :
  for_method m e = true → simple (pattern_segs e.1.2) → agrees T r m →
  ∃ r', handle_method e.1.2 e.2 r m = Some r' ∧ agrees (T ++ [e]) r' m ∧
    ∀ m', m' ≠ m → routers r' !! m' = routers r !! m' ∧ ∀ p, routes r' !! (m', p) = routes r !! (m', p).
Proof.
  intros Hf Hs [A B C]. unfold handle_method.
  assert (Ht : plain (default NewTree (routers r !! m)) ∧
    ∀ q, registered_at (default NewTree (routers r !! m)) q = table_at T m q).
  { destruct (routers r !! m) as [t|] eqn:Er; [by apply B|]. split; [apply plain_New|].
    intros q. rewrite A by done. apply registered_New. }
  destruct Ht as [Hp Hq]. destruct (Add_spec e.1.2 _ e.2 Hp Hs) as (t' & -> & P1 & _ & _ & P2).
  cbn [mbind option_bind]. eexists. split; [done|]. rewrite Hq in *.
  assert (Ht : ∀ q, registered_at t' q = table_at (T ++ [e]) m q).
  { intros q. rewrite P2, Hq, table_at_snoc, Hf. cbn [andb]. destruct (decide (q = pattern_segs e.1.2)) as [-> |Hn].
    - rewrite bool_decide_eq_true_2 by done. by destruct (table_at T m _).
    - rewrite bool_decide_eq_false_2 by done. by destruct (table_at T m q). }
  split.
  - split; cbn [routers routes].
    + by rewrite lookup_insert_eq.
    + intros t. rewrite lookup_insert_eq. by intros [= <-].
    + intros p. rewrite literal_snoc, Hf. cbn [andb]. destruct (decide (e.1.2 = p)) as [<- |Hn].
      * rewrite lookup_insert_eq, (bool_decide_eq_true_2 (e.1.2 = e.1.2)), orb_true_r by done.
        rewrite table_at_snoc, Hf, bool_decide_eq_true_2 by done. by destruct (table_at T m _).
      * rewrite lookup_insert_ne, C by congruence. rewrite (bool_decide_eq_false_2 (e.1.2 = p)), orb_false_r by done.
        destruct (literal T m p) eqn:El; [|done]. apply literal_table in El as [h' Hh].
        by rewrite table_at_snoc, Hh.
  - intros m' Hm. cbn [routers routes]. split; [by rewrite lookup_insert_ne|].
    intros p. rewrite lookup_insert_ne; congruence.
Qed.

(** A pattern that is there already. *)
Lemma agrees_again T r e m :
  for_method m e = true → literal T m e.1.2 = true → agrees T r m → agrees (T ++ [e]) r m.
Proof.
  intros Hf Hl [A B C].
  assert (Ht : ∀ q, table_at (T ++ [e]) m q = table_at T m q).
  { intros q. rewrite table_at_snoc, Hf. destruct (table_at T m q) eqn:E; [done|]. cbn.
    case_bool_decide as Hq; [|done]. subst q. apply literal_table in Hl. rewrite E in Hl. by destruct Hl. }
  split.
  - intros Hn q. rewrite Ht. by apply A.
  - intros t Hr. destruct (B t Hr) as [B1 B2]. split; [done|]. intros q. by rewrite Ht.
  - intros p. rewrite C, literal_snoc, Hf, Ht. cbn. destruct (literal T m p) eqn:El; [done|].
    case_bool_decide as Hp; [by subst; congruence|done].
Qed.

Lemma handle_methods_spec T e ms : ∀ r,
  Forall (λ m, for_method m e = true) ms → NoDup ms → simple (pattern_segs e.1.2) → (∀ m, m ∈ ms → agrees T r m) →
  ∃ r', foldl (λ r m, r' ← r; handle_method e.1.2 e.2 r' m) (Some r) ms = Some r' ∧
    (∀ m, m ∈ ms → agrees (T ++ [e]) r' m) ∧
    ∀ m, m ∉ ms → routers r' !! m = routers r !! m ∧ ∀ p, routes r' !! (m, p) = routes r !! (m, p).
Proof.
  induction ms as [|m ms IH]; intros r Hf Hd Hs Hag.
  - exists r. split; [done|]. split; [by intros m ?%elem_of_nil|done].
  - apply Forall_cons in Hf as [Hm Hf]. apply NoDup_cons in Hd as [Hn Hd].
    destruct (handle_method_spec T r e m Hm Hs) as (r1 & H1 & A1 & O1); [apply Hag; left|].
    cbn [foldl mbind option_bind]. rewrite H1.
    destruct (IH r1 Hf Hd Hs) as (r' & E & A' & O').
    { intros m' Hin. destruct (O1 m') as [Oa Ob]; [congruence|]. destruct (Hag m') as [A B C]; [by right|].
      split; [rewrite Oa; exact A|intros t; rewrite Oa; apply B|intros p; rewrite Ob; apply C]. }
    exists r'. split; [done|]. split.
    + intros m' [-> |Hin]%elem_of_cons; [|by apply A'].
      destruct (O' m Hn) as [Oa Ob]. destruct A1 as [A B C].
      split; [rewrite Oa; exact A|intros t; rewrite Oa; apply B|intros p; rewrite Ob; apply C].
    + intros m' [Hne Hni]%not_elem_of_cons. destruct (O' m' Hni) as [Oa Ob], (O1 m' Hne) as [Oc Od].
      split; [congruence|]. intros p. by rewrite Ob, Od.
Qed.

Lemma for_method_star (e : entry) : for_method "*" e = false.
Proof. unfold for_method. by case_bool_decide. Qed.

Lemma for_method_own (e : entry) m : e.1.1 ≠ "*" → for_method m e = bool_decide (e.1.1 = m).
Proof. intros He. unfold for_method. by rewrite bool_decide_eq_false_2. Qed.

Lemma handle_spec T r e :
  good_entry e → (∀ m, agrees T r m) →
  ∃ r', handle e.1.1 e.1.2 e.2 r = Ok (Some r') ∧ ∀ m, agrees (T ++ [e]) r' m.
Proof.
  intros [Hm Hs] Hag. unfold handle. case_bool_decide as Hdup.
  - exists r. split; [done|]. rewrite (ag_routes _ _ _ (Hag e.1.1)) in Hdup.
    destruct (literal T e.1.1 e.1.2) eqn:El; [|by destruct Hdup].
    assert (Hstar : e.1.1 ≠ "*").
    { intros E. rewrite E in El. apply existsb_exists in El as (e' & _ & He').
      by rewrite for_method_star in He'. }
    intros m. destruct (decide (e.1.1 = m)) as [<- |Hne].
    + apply agrees_again; [by rewrite for_method_own, bool_decide_eq_true_2|done|done].
    + apply (agrees_other T r r); [by rewrite for_method_own, bool_decide_eq_false_2|done..].
  - case_bool_decide as Hstar.
    + assert (Hall : ∀ m, for_method m e = bool_decide (m ∈ HTTP_METHODS)).
      { intros m. unfold for_method. by rewrite bool_decide_eq_true_2. }
      destruct (handle_methods_spec T e HTTP_METHODS r) as (r' & -> & A & O); [| |done|done|].
      * apply Forall_forall. intros m Hin. rewrite Hall. by apply bool_decide_eq_true_2.
      * by apply (bool_decide_unpack _).
      * exists r'. split; [done|]. intros m. destruct (decide (m ∈ HTTP_METHODS)) as [Hin|Hin]; [by apply A|].
        destruct (O m Hin) as [Oa Ob].
        apply (agrees_other T r r'); [by rewrite Hall, bool_decide_eq_false_2|done..].
    + destruct Hm as [Hm|Hm]; [done|]. rewrite bool_decide_eq_true_2 by done.
      destruct (handle_method_spec T r e e.1.1) as (r' & -> & A & O); [|done|done|].
      { by rewrite for_method_own, bool_decide_eq_true_2. }
      exists r'. split; [done|]. intros m. destruct (decide (e.1.1 = m)) as [<- |Hne]; [done|].
      destruct (O m) as [Oa Ob]; [congruence|].
      apply (agrees_other T r r'); [by rewrite for_method_own, bool_decide_eq_false_2|done..].
Qed.

Lemma register_spec T :
  Forall good_entry T → ∃ r, register T = Ok (Some r) ∧ ∀ m, agrees T r m.
Proof.
  induction T as [|e T IH] using rev_ind; intros Hg.
  - exists NewRouter. split; [done|]. apply agrees_New.
  - apply Forall_app in Hg as [Hg He]. apply Forall_cons in He as [He _]. destruct (IH Hg) as (r & Hr & Hag).
    destruct (handle_spec T r e He Hag) as (r' & Hh & Hag'). exists r'. split; [|done].
    unfold register in *. rewrite foldl_snoc, Hr. exact Hh.
Qed.

Lemma splat_again v : <["*" := v]> (set_globs 0 v ∅) = set_globs 0 v ∅.
Proof.
  unfold set_globs. change (glob 0) with "*0". rewrite insert_insert_ne by done. by rewrite insert_insert_eq.
Qed.

Lemma ServeHTTP_agrees T r m path escaped :
  agrees T r m → ServeHTTP m path escaped r = serve_table T m path escaped.
Proof.
  intros [A B C]. unfold ServeHTTP, serve_table. rewrite C. destruct (routers r !! m) as [t|] eqn:Er.
  - destruct (B t eq_refl) as [Hp Hq]. cbn [mbind option_bind].
    destruct (literal T m path) eqn:El; [|clear El].
    { apply literal_table in El as [h ->]. done. }
    rewrite Match_spec by done.
    destruct (mapM PathUnescape (url_segs escaped)) as [xs|]; [|done]. cbn [mbind option_bind].
    rewrite (choose_ext (registered_at t) (table_at T m)) by (apply Forall_true; intros c; apply Hq).
    destruct (choose (table_at T m) (candidates xs)) as [[h [v|]]|]; [|done..].
    unfold splat_params. cbn [fmap option_fmap option_map fst snd mbind option_bind].
    unfold set_globs at 1. rewrite lookup_insert_eq. by rewrite splat_again.
  - cbn. assert (Hnone : ∀ q, table_at T m q = None) by by apply A. rewrite Hnone.
    destruct (literal T m path); [done|]. destruct (mapM PathUnescape (url_segs escaped)) as [xs|]; [|done].
    cbn. induction (candidates xs) as [|[q v] l IH]; [done|]. cbn. by rewrite Hnone.
Qed.
End tree.

(** ** Properties *)

(** C10. The router is its table. Whatever patterns are registered (static
    segments, "*" only at the end), with whatever methods and in whatever order:
    the registrations succeed, and a request is served by what was registered
    first under its path, literally; else, if its escapes are valid, under its
    unescaped segments; else under the longest of their prefixes that is
    followed by "*", which stands for the unescaped rest. So a wildcard never
    shadows a pattern below it, registered later or not. *)
Theorem router_is_its_table {H} (T : list (string * string * H)) :
  Forall good_entry T →
  ∃ r, register T = Ok (Some r) ∧
    ∀ m path escaped, ServeHTTP m path escaped r = serve_table T m path escaped.
Proof.
  intros Hg. destruct (register_spec T Hg) as (r & Hr & Hag). exists r. split; [done|].
  intros m path escaped. by apply ServeHTTP_agrees.
Qed.

(** [simple] and [good_entry], decided. *)
Definition static_segb (x : string) : bool :=
  negb (has_byte "/" x) && bool_decide (checkPattern x = Some STATIC).
Fixpoint simpleb (segs : list string) : bool :=
  match segs with
  | [] => false
  | x :: segs' =>
      match segs' with
      | [] => static_segb x || bool_decide (x = "*")
      | _ => negb (bool_decide (x = "")) && static_segb x && simpleb segs'
      end
  end.
Definition good_entryb {H} (e : string * string * H) : bool :=
  (bool_decide (e.1.1 = "*") || bool_decide (e.1.1 ∈ HTTP_METHODS)) && simpleb (pattern_segs e.1.2).

Lemma static_segb_ok x : static_segb x = true → static_seg x.
Proof. intros [H1%negb_true_iff H2%bool_decide_eq_true]%andb_true_iff. done. Qed.

Lemma simpleb_ok segs : simpleb segs = true → simple segs.
Proof.
  induction segs as [|x [|y segs] IH]; [done|..].
  - intros [H|H%bool_decide_eq_true]%orb_true_iff; [left; by apply static_segb_ok|by right].
  - intros [[H1%negb_true_iff%bool_decide_eq_false H2]%andb_true_iff H3]%andb_true_iff.
    split; [done|]. split; [by apply static_segb_ok|]. by apply IH.
Qed.

Lemma good_entries_ok {H} (T : list (string * string * H)) :
  forallb good_entryb T = true → Forall good_entry T.
Proof.
  rewrite forallb_forall, Forall_forall. intros Hb e He%list_elem_of_In. apply Hb in He.
  apply andb_true_iff in He as [Hm Hs]. split; [|by apply simpleb_ok].
  apply orb_true_iff in Hm as [Hm%bool_decide_eq_true|Hm%bool_decide_eq_true]; auto.
Qed.

(** A wildcard registered before a static pattern below it. *)
Definition ex_table : list (string * string * nat) :=
  [("*", "/prometheus/*", 0); ("POST", "/prometheus/write", 1); ("GET", "/prometheus/api/v1", 2)].
Lemma router_is_its_table_witness :
  ∃ r, register ex_table = Ok (Some r) ∧
    ServeHTTP "POST" "/prometheus/write/" "/prometheus/write/" r = Some (1, ∅) ∧
    (λ x, (x.1, x.2 !! "*")) <$> ServeHTTP "GET" "/prometheus/api/v2" "/prometheus/api/v2" r = Some (0, Some "api/v2").
Proof.
  destruct (router_is_its_table ex_table) as (r & Hr & Hs).
  { apply good_entries_ok. vm_compute. reflexivity. }
  exists r. split; [exact Hr|]. rewrite !Hs. split; vm_compute; reflexivity.
Defined.
