(* ===== verification/Cmd.v ===== *)
(** * cmd/tsdb-gw, api/api.go and the plugins' life

    The table of routes, with the chain of handlers [GenerateHandlers] puts in
    front of each endpoint, and the caches the authentication plugins start and
    stop. The endpoints are a parameter: the theorems hold whatever they do. *)

From S2P Require Import Prelude GoStrings Strconv Http AuthPlugins Ingest Api ApiSpec.
From Stdlib Require Import Ascii.

(** ** initRoutes *)

Inductive endpoint :=
| MetrictankProxy (path : string) | PrometheusProxy | GraphiteProxy (checked : bool)
| Metrics | DataDogSeries | OpenTSDBWrite | PrometheusMTWrite | MtBulkImporter.

Section routes.
Context {L X P : Type} (Allow : L → L * bool) `{!AuthPlugin P} (authPlugin : P).
(** The handlers of an endpoint; with a time range limit, graphite's are
    CaptureBody, the binding with its check, PromStats and the proxy. *)
Context (serve : endpoint → list (handler (L:=L) (X:=X))).

(** The method "" stands for any. *)
Record route := mkRoute {
  r_method : string; r_pattern : string; r_kind : string; r_datadog : bool;
  r_chain : list (handler (L:=L) (X:=X)) }.

Definition new_route (enforceRoles use_limits : bool) (method pattern kind : string)
    (datadog rateLimit : bool) (e : endpoint) : route :=
  mkRoute method pattern kind datadog
    (GenerateHandlers Allow authPlugin kind enforceRoles datadog use_limits rateLimit (serve e)).

Definition initRoutes (enforceRoles use_limits : bool) (timerangeLimit importerURL : string) : list route :=
  let add := new_route enforceRoles use_limits in
  [add "GET" "/metrics/index.json" "read" false false (MetrictankProxy "/metrics/index.json");
   add "GET" "/graphite/metrics/index.json" "read" false false (MetrictankProxy "/metrics/index.json");
   add "" "/prometheus/*" "read" false false PrometheusProxy;
   add "" "/graphite/*" "read" false false (GraphiteProxy (bool_decide (0 < strlen timerangeLimit)));
   add "POST" "/metrics" "write" false true Metrics;
   add "POST" "/datadog/api/v1/series" "write" true false DataDogSeries;
   add "POST" "/opentsdb/api/put" "write" false false OpenTSDBWrite;
   add "" "/prometheus/write" "write" false false PrometheusMTWrite;
   add "POST" "/metrics/delete" "write" false false (MetrictankProxy "/metrics/delete");
   add "POST" "/tags/delSeries" "write" false false (MetrictankProxy "/tags/delSeries")] ++
  (if bool_decide (0 < strlen importerURL)
   then [add "POST" "/metrics/import" "write" false false MtBulkImporter] else []).

Lemma initRoutes_endpoints enforce ul tr imp r :
  r ∈ initRoutes enforce ul tr imp →
  ∃ rl e, r_chain r = GenerateHandlers Allow authPlugin (r_kind r) enforce (r_datadog r) ul rl (serve e) ∧
    (e = Metrics → r_method r = "POST" ∧ r_pattern r = "/metrics").
Proof.
  unfold initRoutes. intros Hin. repeat (apply elem_of_cons in Hin as [->|Hin]; [by eexists _, _|]).
  cbn [app] in Hin. case_bool_decide; [|by apply elem_of_nil in Hin].
  apply list_elem_of_singleton in Hin as ->. by eexists _, _.
Qed.

Lemma initRoutes_chains enforce ul tr imp r :
  r ∈ initRoutes enforce ul tr imp →
  ∃ rl e, r_chain r = GenerateHandlers Allow authPlugin (r_kind r) enforce (r_datadog r) ul rl (serve e).
Proof. intros (rl & e & H & _)%initRoutes_endpoints. by exists rl, e. Qed.

Lemma auth_with_rest c rq (s : hstate (L:=L) (X:=X)) :
  h_rest (auth_with authPlugin c rq s) = h_rest s ∧ h_limits (auth_with authPlugin c rq s) = h_limits s.
Proof.
  unfold auth_with. destruct c as [u k]. case_bool_decide; [done|].
  by destruct (plugin_Auth authPlugin u k (rq_now rq) (h_auth s)) as [a [l|e|]].
Qed.

(** The chain of a route whose credentials are not admitted. *)
Lemma chain_refuses kind enforce datadog ul rl hs rq (s : hstate (L:=L) (X:=X)) :
  h_replies s = [] → (∀ l, ¬ admitted authPlugin kind datadog rq s l) →
  let s' := run_chain (GenerateHandlers Allow authPlugin kind enforce datadog ul rl hs) rq s in
  (∃ x, h_replies s' = [x] ∧ (status x = 401%Z ∨ status x = 500%Z)) ∧
  h_rest s' = h_rest s ∧ h_limits s' = h_limits s.
Proof.
  intros Hs Hn. cbv zeta.
  pose proof (auth_with_cases authPlugin (creds kind datadog rq) rq s Hs) as Hc.
  rewrite GenerateHandlers_eq, run_chain_cons, first_auth_eq.
  pose proof (auth_with_rest (creds kind datadog rq) rq s) as Hr.
  unfold admitted in Hn. destruct (creds kind datadog rq) as [u k].
  destruct Hc as [(x & Hx & Hst)|(Hk & _ & a & l & Hp & _)].
  - rewrite (written_cons _ _ _ Hx). split; [by exists x|done].
  - destruct (Hn l). split; [done|]. by exists a.
Qed.

(** Every data route of the gateway is behind the authentication: whatever
    the endpoint does, a request whose credentials the plugin does not admit (of
    the Datadog route, those of the Dd-Api-Key header) is answered once with 401
    or 500, and neither the publisher, nor a backend, nor a rate limit is
    touched. *)
Theorem routes_authenticate enforce ul tr imp r rq (s : hstate) :
  r ∈ initRoutes enforce ul tr imp →
  h_replies s = [] → (∀ l, ¬ admitted authPlugin (r_kind r) (r_datadog r) rq s l) →
  let s' := run_chain (r_chain r) rq s in
  (∃ x, h_replies s' = [x] ∧ (status x = 401%Z ∨ status x = 500%Z)) ∧
  h_rest s' = h_rest s ∧ h_limits s' = h_limits s.
Proof.
  intros Hin Hs Hn. destruct (initRoutes_chains _ _ _ _ _ Hin) as (rl & e & ->). by apply chain_refuses.
Qed.
End routes.

Lemma routes_authenticate_witness :
  Forall (λ r, h_rest (run_chain (r_chain r) (ex_rq "wrong" "") ex_state) = 0)
    (initRoutes (AuthPlugin0 := ex_plugin) ex_allow ex_file (λ _, [count_call]) true true "30d" "http://importer").
Proof.
  apply Forall_forall. intros r Hr.
  apply (routes_authenticate (AuthPlugin0 := ex_plugin) ex_allow ex_file (λ _, [count_call]) true true
    "30d" "http://importer" r (ex_rq "wrong" "") ex_state Hr eq_refl).
  intros l H. unfold admitted, creds in H.
  destruct (bool_decide (r_kind r = "write") && r_datadog r).
  - vm_compute in H. destruct H as [H _]. by apply H.
  - vm_compute in H. destruct H as [_ [a H]]. discriminate H.
Defined.

(** ** The caches of the plugins

    A cache exists once a plugin that needs it was made; its channel [stop] is
    open until it is closed. *)

Inductive stop_chan := Open | Closed.

Record caches := mkCaches { tokens : option stop_chan; instances : option stop_chan }.

Definition no_caches : caches := mkCaches None None.

Definition init_cache (c : option stop_chan) : option stop_chan :=
  match c with None => Some Open | c => c end.
(** Closing the channel of a nil cache, or a closed channel, panics. *)
Definition stop_cache (c : option stop_chan) : outcome unit (option stop_chan) :=
  match c with Some Open => Ok (Some Closed) | _ => Panic end.

Definition InitTokenCache (c : caches) : caches := mkCaches (init_cache (tokens c)) (instances c).
Definition InitInstanceCache (c : caches) : caches := mkCaches (tokens c) (init_cache (instances c)).
Definition StopTokenCache (c : caches) : outcome unit caches :=
  t ← stop_cache (tokens c); mret (mkCaches t (instances c)).
Definition StopInstanceCache (c : caches) : outcome unit caches :=
  i ← stop_cache (instances c); mret (mkCaches (tokens c) i).

(** What making and stopping a plugin does to the caches. *)
Definition new_plugin (k : plugin_kind) (c : caches) : caches :=
  match k with
  | KGrafana => InitTokenCache c
  | KGrafanaInstance => InitInstanceCache (InitTokenCache c)
  | KFile => c
  end.
Definition stop_plugin (k : plugin_kind) (c : caches) : outcome unit caches :=
  match k with
  | KGrafana | KGrafanaInstance => c ← StopTokenCache c; StopInstanceCache c
  | KFile => Ok c
  end.

(** The plugins of a process: that of the API, then that of the carbon input if
    it is enabled; [Api.Stop] stops the first. *)
Definition lifetime (api : plugin_kind) (carbon : option plugin_kind) : outcome unit caches :=
  let c := new_plugin api no_caches in
  let c := match carbon with Some k => new_plugin k c | None => c end in
  stop_plugin api c.

(** The plugin "grafana" starts the token cache and stops both caches, so
    stopping a gateway that uses it (the default) panics, unless the carbon
    input happens to use "grafana-instance"; the other plugins stop cleanly. *)
Theorem stopping_the_grafana_plugin_panics api carbon :
  lifetime api carbon = Panic ↔ api = KGrafana ∧ carbon ≠ Some KGrafanaInstance.
Proof. destruct api, carbon as [[]|]; cbn; naive_solver. Qed.
