(* ===== verification/Gateway.v ===== *)
(** * The gateway: the routes with their endpoints

    Cmd.v has the routes with the endpoints as a parameter. Here each endpoint is
    the handler of its component (Ingest.v, Write.v, Datadog.v, Query.v), run on
    the state the handlers share: the publisher, the pool of metrics, the rate
    limits, and what the backends were sent. A request comes with a method and a
    URL; the router (Router.v) chooses its route. *)

From S2P Require Import Prelude GoStrings Strconv Schema Publish Http AuthPlugins Ingest Api Write Datadog Query Router Cmd.
From Stdlib Require Import Ascii.

(** What the endpoints read of a request, headers of the authentication apart:
    the request itself, the body as the writers read it, with its encoding, and
    whether it can be captured. *)
Record payload := mkPayload {
  p_http : http_req;
  p_metrics : metrics_req;
  p_body : option (option string); p_gzip : bool;
  p_dd_body : option (string * bool); p_deflate : bool;
  p_capture : string * bool }.

(** The rest of the gateway: the publisher's state, the pool, and the requests
    the backends were sent, the latest last. *)
Record world (S : Type) := mkWorld {
  w_pub : pstate S; w_heap : heap; w_sent : list http_req }.
Arguments mkWorld {S}.
Arguments w_pub {S}.
Arguments w_heap {S}.
Arguments w_sent {S}.

Section gateway.
Context {L S E : Type}.
(** golang.org/x/time/rate. *)
Context (Burst : L → Z) (WaitN : L → Z → L * bool).
Context (publisher : Publisher S E).
(** The pool's choices and the growth of slices. *)
Context (spare pick : nat → nat).
(** The decoders. *)
Context (unmarshal_json : string → option (list (option MetricData)))
  (unsnappy : option string → option string)
  (decode_msg : string → option (list (option MetricData))).
Context (snappy_Decode : string → option string) (proto_Unmarshal : string → option (list timeseries)).
Context (gunzip : option string → option (option string))
  (tsdb_Unmarshal : string → option (list OpenTSDBMetric)).
Context (zlib : string * bool → option (string * bool)) (int64_of_float : Z → Z)
  (unmarshal_series : string → option (list dd_series)).
(** The binding of the form of a query, or the status of its failure; the dates. *)
Context (bind : http_req → FromTo + Z) (ParseDateTime : string → Z → option Z).
(** The configuration: the backends and the limit. *)
Context (metrictank graphite importer : URL) (timerangeLimit : Z) (clientIP : string).
(** The reply of a backend, and the text of a response. *)
Context (answer : http_req → reply string) (encode : jbody → string).

Abbreviation H := (hstate (L:=L) (X:=world S)).

Definition set_rest (w : world S) (s : H) : H :=
  mkH (h_auth s) (h_user s) (h_replies s) (h_limits s) w.
Definition set_limits (lim : gmap Z L) (s : H) : H :=
  mkH (h_auth s) (h_user s) (h_replies s) lim (h_rest s).
Definition write_replies (rs : list (reply string)) (s : H) : H :=
  mkH (h_auth s) (h_user s) (h_replies s ++ rs) (h_limits s) (h_rest s).

(** ingest.Metrics; a panic is answered by the recovery middleware. *)
Definition serve_Metrics (x : payload) : handler (L:=L) (X:=world S) := λ _ s,
  let w := h_rest s in
  match Ingest.Metrics Burst WaitN publisher unmarshal_json unsnappy decode_msg
          (ctx_user s) (p_metrics x) (mkGw (w_pub w) (h_limits s)) with
  | Ok (g, r) =>
      write_replies [mkReply (status r) (encode (body r))]
        (set_limits (g_limits g) (set_rest (mkWorld (g_pub g) (w_heap w) (w_sent w)) s))
  | _ => JSON 500 "panic" s
  end.

(** A writer on the pool. *)
Definition serve_writer (write : User → heap → pstate S → result S) : handler (L:=L) (X:=world S) := λ _ s,
  let w := h_rest s in
  let r := write (ctx_user s) (w_heap w) (w_pub w) in
  write_replies (r_replies r) (set_rest (mkWorld (r_pub r) (r_heap r) (w_sent w)) s).

(** A proxy. *)
Definition serve_proxy (proxy : User → http_req) : handler (L:=L) (X:=world S) := λ _ s,
  let w := h_rest s in
  let up := proxy (ctx_user s) in
  write_replies [answer up] (set_rest (mkWorld (w_pub w) (w_heap w) (w_sent w ++ [up])) s).

(** [binding.Bind(graphite.FromTo{})] *)
Definition serve_bind (x : payload) : handler (L:=L) (X:=world S) := λ rq s,
  match bind (p_http x) with
  | inr code => JSON code "bind error" s
  | inl ft =>
      match Validate ParseDateTime timerangeLimit (Path (url (p_http x))) (rq_now rq) ft [] with
      | [] => s
      | _ => JSON 422 "bind error" s
      end
  end.

(** [star] is [ctx.Params("*")]. *)
Definition serve (x : payload) (star : string) (e : endpoint) : list (handler (L:=L) (X:=world S)) :=
  match e with
  | Cmd.MetrictankProxy path =>
      [serve_proxy (λ u, Query.MetrictankProxy clientIP metrictank path u (p_http x))]
  | Cmd.PrometheusProxy => [serve_proxy (λ u, Query.PrometheusProxy clientIP metrictank star u (p_http x))]
  | Cmd.GraphiteProxy checked =>
      let proxy captured :=
        serve_proxy (λ u, Query.GraphiteProxy clientIP graphite captured u star (p_http x)) in
      if checked : bool
      then [(λ _ s, (CaptureBody (p_capture x).1 (p_capture x).2 s).1); serve_bind x; proxy (Some (p_capture x).1)]
      else [proxy None]
  | Cmd.Metrics => [serve_Metrics x]
  | Cmd.DataDogSeries =>
      [serve_writer (λ u, Datadog.DataDogSeries spare pick publisher zlib int64_of_float unmarshal_series u (p_deflate x) (p_dd_body x))]
  | Cmd.OpenTSDBWrite =>
      [serve_writer (λ u, Write.OpenTSDBWrite spare pick publisher gunzip tsdb_Unmarshal u (p_gzip x) (p_body x))]
  | Cmd.PrometheusMTWrite =>
      [serve_writer (λ u, Write.PrometheusMTWrite spare pick publisher snappy_Decode proto_Unmarshal u (p_body x))]
  | Cmd.MtBulkImporter => [serve_proxy (λ u, Query.MtBulkImporter clientIP importer u (p_http x))]
  end.

(** *** A request on a route

    [GetContextHandler] gives the request a zero user and no reply. *)
Context (Allow : L → L * bool) {P : Type} `{!AuthPlugin P} (authPlugin : P).
Context (enforceRoles use_limits : bool) (limitStr importerURL : string).

Definition routes (x : payload) (star : string) : list (route (L:=L) (X:=world S)) :=
  initRoutes Allow authPlugin (serve x star) enforceRoles use_limits limitStr importerURL.

(** What [New] and [initRoutes] register: the index, and the number of a route. *)
Definition route_table : list (string * string * option nat) :=
  ("GET", "/", None) ::
  imap (λ i r, (if bool_decide (r_method r = "") then "*" else r_method r, r_pattern r, Some i))
    (initRoutes (L:=L) (X:=world S) Allow authPlugin (λ _, []) enforceRoles use_limits limitStr importerURL).

(** A request: its method and [URL.EscapedPath]; [URL.Path] is in the payload. *)
Record incoming := mkIncoming {
  in_method : string; in_escaped : string; in_rq : request; in_payload : payload }.

Definition resolve (i : incoming) : option (option nat * Params) :=
  match register route_table with
  | Ok (Some r) => ServeHTTP (in_method i) (Path (url (p_http (in_payload i)))) (in_escaped i) r
  | _ => None
  end.

Definition no_replies (s : H) : H := mkH (h_auth s) (h_user s) [] (h_limits s) (h_rest s).

(** [index] of api.go. *)
Definition index (s : H) : H := JSON 200 "ok" s.

Definition handle (i : incoming) (s : H) : H :=
  let s := GetContextHandler (in_rq i) (no_replies s) in
  match resolve i with
  | Some (Some n, ps) =>
      match routes (in_payload i) (default "" (ps !! "*")) !! n with
      | Some r => run_chain (r_chain r) (in_rq i) s
      | None => s
      end
  | Some (None, _) => index s
  | None => JSON 404 "404 page not found" s
  end.

Definition handle_all (l : list incoming) (s : H) : H := foldl (λ s i, handle i s) s l.
End gateway.
