(* ===== verification/GatewaySpec.v ===== *)
(** * What the gateway promises as a whole

    The components composed: whatever requests arrive on the routes, each batch
    the publisher is handed and each request a backend is sent belongs to the
    org of the user one of the requests was authenticated as. *)

From S2P Require Import Prelude GoStrings Strconv Schema Publish Http Gcom AuthPlugins Ingest IngestSpec Api ApiSpec Write WriteSpec Datadog DatadogSpec Query QuerySpec Router RouterSpec Cmd Gateway.
From Stdlib Require Import Ascii.

(** ** A publisher that remembers its batches *)

Definition recorded {S E} (p : Publisher S E) : Publisher (S * list (list MetricData)) E :=
  mkPublisherI _ _ (λ ms s,
    let '(s', ms', e) := PublishFn p ms s.1 in ((s', s.2 ++ [ms]), ms', e)) (TypeFn p).

Lemma Publish_recorded {S E} (p : Publisher S E) ms st :
  (pub (Publish (recorded p) ms st).1.1).2 = (pub st).2 ++ (if decide (ms = []) then [] else [ms]).
Proof.
  unfold Publish.Publish. case_bool_decide as H0.
  - apply nil_length_inv in H0 as ->. by rewrite decide_True, app_nil_r.
  - rewrite decide_False by (by intros ->). cbn.
    by destruct (PublishFn p ms (pub st).1) as [[s' ms'] [e|]].
Qed.

Section spec.
Context {L S E : Type}.
Context (Burst : L → Z) (WaitN : L → Z → L * bool) (publisher0 : Publisher S E).
Context (spare pick : nat → nat).
Context (unmarshal_json : string → option (list (option MetricData)))
  (unsnappy : option string → option string)
  (decode_msg : string → option (list (option MetricData))).
Context (snappy_Decode : string → option string) (proto_Unmarshal : string → option (list timeseries)).
Context (gunzip : option string → option (option string))
  (tsdb_Unmarshal : string → option (list OpenTSDBMetric)).
Context (zlib : string * bool → option (string * bool)) (int64_of_float : Z → Z)
  (unmarshal_series : string → option (list dd_series)).
Context (bind : http_req → FromTo + Z) (ParseDateTime : string → Z → option Z).
Context (metrictank graphite importer : URL) (timerangeLimit : Z) (clientIP : string).
Context (answer : http_req → reply string) (encode : jbody → string).
Context (Allow : L → L * bool) {P : Type} `{!AuthPlugin P} (authPlugin : P).
Context (enforceRoles use_limits : bool) (limitStr importerURL : string).

Abbreviation W := (world (S * list (list MetricData))).
Abbreviation H := (hstate (L:=L) (X:=W)).
Abbreviation publisher := (recorded publisher0).
Abbreviation serve := (serve Burst WaitN publisher spare pick unmarshal_json unsnappy decode_msg
  snappy_Decode proto_Unmarshal gunzip tsdb_Unmarshal zlib int64_of_float unmarshal_series bind
  ParseDateTime metrictank graphite importer timerangeLimit clientIP answer encode).
Abbreviation routes := (routes Burst WaitN publisher spare pick unmarshal_json unsnappy decode_msg
  snappy_Decode proto_Unmarshal gunzip tsdb_Unmarshal zlib int64_of_float unmarshal_series bind
  ParseDateTime metrictank graphite importer timerangeLimit clientIP answer encode
  Allow authPlugin enforceRoles use_limits limitStr importerURL).
Abbreviation resolve := (resolve (S:=S * list (list MetricData)) Allow authPlugin enforceRoles use_limits limitStr importerURL).
Abbreviation handle := (handle Burst WaitN publisher spare pick unmarshal_json unsnappy decode_msg
  snappy_Decode proto_Unmarshal gunzip tsdb_Unmarshal zlib int64_of_float unmarshal_series bind
  ParseDateTime metrictank graphite importer timerangeLimit clientIP answer encode
  Allow authPlugin enforceRoles use_limits limitStr importerURL).
Abbreviation handle_all := (handle_all Burst WaitN publisher spare pick unmarshal_json unsnappy decode_msg
  snappy_Decode proto_Unmarshal gunzip tsdb_Unmarshal zlib int64_of_float unmarshal_series bind
  ParseDateTime metrictank graphite importer timerangeLimit clientIP answer encode
  Allow authPlugin enforceRoles use_limits limitStr importerURL).

(** ** Effects *)

Definition batches (w : W) : list (list MetricData) := (pub (w_pub w)).2.

(** A metric the user may publish on the route of this pattern. *)
Definition in_org (pat : string) (u : User) (m : MetricData) : Prop :=
  OrgId m = ID u ∨ pat = "/metrics" ∧ IsAdmin u = true.

(** What a request of the user [u] on the route may add to the world. *)

Record effect (pat : string) (u : User) (client : http_req) (w w' : W) : Prop := {
  e_wf : wf (w_heap w) → wf (w_heap w');
  e_batches : wf (w_heap w) → ∃ bs, batches w' = batches w ++ bs ∧ Forall (Forall (in_org pat u)) bs;
  e_sent : ∃ ups, w_sent w' = w_sent w ++ ups ∧ Forall (org_sent (ID u) client) ups }.

Lemma effect_refl pat u client w : effect pat u client w w.
Proof.
  split; [done|intros _|]; exists []; rewrite app_nil_r; (split; [done|apply Forall_nil_2]).
Qed.

Lemma effect_trans pat u client w1 w2 w3 :
  effect pat u client w1 w2 → effect pat u client w2 w3 → effect pat u client w1 w3.
Proof.
  intros [A1 B1 (ups1 & C1 & D1)] [A2 B2 (ups2 & C2 & D2)]. split; [auto| |].
  - intros Hw. destruct (B1 Hw) as (bs1 & E1 & F1), (B2 (A1 Hw)) as (bs2 & E2 & F2).
    exists (bs1 ++ bs2). rewrite E2, E1, app_assoc. split; [done|]. by apply Forall_app.
  - exists (ups1 ++ ups2). rewrite C2, C1, app_assoc. split; [done|]. by apply Forall_app.
Qed.

(** A batch handed to the publisher. *)
Lemma publish_effect pat u client w ms h' :
  (wf (w_heap w) → wf h') → (wf (w_heap w) → Forall (in_org pat u) ms) →
  effect pat u client w (mkWorld (Publish publisher ms (w_pub w)).1.1 h' (w_sent w)).
Proof.
  intros Hh Hms. split; [done| |].
  - intros Hw. unfold batches. cbn [w_pub]. rewrite Publish_recorded. eexists. split; [done|].
    case_decide; [apply Forall_nil_2|]. apply Forall_singleton. auto.
  - exists []. rewrite app_nil_r. split; [done|apply Forall_nil_2].
Qed.

(** The world without a publication. *)
Lemma quiet_effect pat u client w h' :
  (wf (w_heap w) → wf h') → effect pat u client w (mkWorld (w_pub w) h' (w_sent w)).
Proof.
  intros Hh. split; [done|intros _|]; exists []; rewrite app_nil_r; (split; [done|apply Forall_nil_2]).
Qed.

(** ** The endpoints

    A handler that acts only for the user of its context. *)
Definition good (pat : string) (client : http_req) (h : handler (L:=L) (X:=W)) : Prop :=
  ∀ rq s, h_auth (h rq s) = h_auth s ∧ h_user (h rq s) = h_user s ∧
    effect pat (ctx_user s) client (h_rest s) (h_rest (h rq s)).

Lemma good_chain pat client hs :
  Forall (good pat client) hs → good pat client (run_chain hs).
Proof.
  induction 1 as [|h hs Hh _ IH]; intros rq s; cbn [run_chain].
  - split_and!; try done. apply effect_refl.
  - destruct (Hh rq s) as (A & U & F). destruct (written (h rq s)); [by split_and!|].
    destruct (IH rq (h rq s)) as (A2 & U2 & F2). split_and!; try congruence.
    eapply effect_trans; [exact F|]. unfold ctx_user in *. by rewrite <- A, <- U.
Qed.

Lemma good_quiet pat client (h : handler (L:=L) (X:=W)) :
  (∀ rq s, h_auth (h rq s) = h_auth s ∧ h_user (h rq s) = h_user s ∧ h_rest (h rq s) = h_rest s) →
  good pat client h.
Proof. intros Hh rq s. destruct (Hh rq s) as (A & U & ->). split_and!; try done. apply effect_refl. Qed.

Lemma good_RequirePublisher pat client : good pat client RequirePublisher.
Proof. apply good_quiet. intros rq s. unfold RequirePublisher. by destruct (IsPublisher _). Qed.

Lemma good_IngestRateLimiter pat client : good pat client (IngestRateLimiter Allow).
Proof.
  apply good_quiet. intros rq s. unfold IngestRateLimiter.
  by destruct (IsRateBudgetAvailable Allow _ _) as [lim []].
Qed.

(** *** /metrics *)

Lemma Metrics_published user rq g g' r :
  Ingest.Metrics Burst WaitN publisher unmarshal_json unsnappy decode_msg user rq g = Ok (g', r) →
  g_pub g' = g_pub g ∨
  ∃ ms, g_pub g' = (Publish publisher (omap (accepted user) ms) (g_pub g)).1.1.
Proof.
  intros Hm. pose proof (metrics_ok Burst WaitN publisher unmarshal_json unsnappy decode_msg user rq g) as H.
  rewrite Hm in H. unfold reply_ok, reply_for in H.
  destruct (content_of _ _ _ rq) as [| | | |l]; try (destruct H as [_ ->]; by left).
  destruct H as (ms & _ & _ & H). destruct (refusal _ _ _ _ _ _); [left; apply H|].
  destruct (done_publish (rq_done rq)); [left; apply H|]. right. exists ms. apply H.
Qed.

Lemma good_Metrics x :
  good "/metrics" (p_http x) (serve_Metrics Burst WaitN publisher unmarshal_json unsnappy decode_msg encode x).
Proof.
  intros rq s. unfold serve_Metrics.
  destruct (Ingest.Metrics _ _ _ _ _ _ _ _ _) as [[g r]|e|] eqn:Em; (split; [done|split; [done|]]);
    [|apply effect_refl..]. cbn.
  apply Metrics_published in Em as [Hg|(ms & Hg)]; cbn in Hg; rewrite Hg.
  - by apply quiet_effect.
  - apply publish_effect; [done|]. intros _. destruct (prepareIngest_inv (ctx_user s) ms) as (p & Hp & Hinv).
    rewrite <- (pi_pub _ _ _ Hinv). apply prepared_orgs in Hp.
    eapply Forall_impl; [exact Hp|]. intros m [?|?]; [by right|by left].
Qed.

(** *** The writers *)

(** A writer publishes only metrics of its user, and keeps the pool's store. *)
Record writer_ok (pat : string) (u : User) (h : heap) (p : pstate (S * list (list MetricData)))
    (r : result (S * list (list MetricData))) : Prop := {
  wo_wf : wf h → wf (r_heap r);
  wo_pub : (r_pub r = p ∨ ∃ b, r_pub r = (Publish publisher b p).1.1 ∧
                               (wf h → Forall (in_org pat u) b)) }.

Lemma good_writer pat client write :
  (∀ u h p, writer_ok pat u h p (write u h p)) → good pat client (serve_writer write).
Proof.
  intros Hw rq s. unfold serve_writer. split; [done|split; [done|]]. cbn.
  destruct (Hw (ctx_user s) (w_heap (h_rest s)) (w_pub (h_rest s))) as [A [->|(b & -> & Hb)]].
  - by apply quiet_effect.
  - by apply publish_effect.
Qed.

Lemma reply_only_ok pat u code b h p h' :
  (wf h → wf h') → writer_ok pat u h p (reply_only code b h' p).
Proof. intros Hh. split; [done|by left]. Qed.

Lemma finish_ok pat u release buf h h' p :
  (wf h → wf (release buf h')) → (wf h → Forall (in_org pat u) (deref h' <$> buf)) →
  writer_ok pat u h p (finish publisher release buf [] h' p).
Proof.
  intros Hw Hb. destruct (finish_spec publisher release buf h' p) as (_ & B2 & B3 & _).
  split; [by rewrite B2|]. right. eexists. by rewrite B3.
Qed.

Lemma org_metrics pat u (ms : list MetricData) :
  Forall (λ m, OrgId m = ID u) ms → Forall (in_org pat u) ms.
Proof. intros Hm. eapply Forall_impl; [exact Hm|]. by left. Qed.

Lemma live_nil h : live h [].
Proof. split_and!; [apply NoDup_nil_2|apply Forall_nil_2|by intros l ?%elem_of_nil]. Qed.

Lemma prom_orgs org l : Forall (λ m, OrgId m = org) (l ≫= prom_metrics org).
Proof.
  apply Forall_forall. intros m (ts & Hm & _)%list_elem_of_bind. unfold prom_metrics in Hm.
  destruct (split_labels (Labels ts)) as [name labels]. by apply list_elem_of_fmap in Hm as (s & -> & _).
Qed.

Lemma prometheus_ok pat u body h p :
  writer_ok pat u h p
    (Write.PrometheusMTWrite spare pick publisher snappy_Decode proto_Unmarshal u body h p).
Proof.
  unfold Write.PrometheusMTWrite. destruct body as [[compressed|]|]; try by apply reply_only_ok.
  destruct (snappy_Decode compressed) as [text|]; [|by apply reply_only_ok].
  destruct (proto_Unmarshal text) as [series|]; [|by apply reply_only_ok].
  pose proof (λ Hw, prom_series_spec spare pick (ID u) series [] h Hw (live_nil h)) as Hs.
  destruct (prom_series spare pick (ID u) series [] h) as [h1 [buf|]].
  - apply finish_ok; intros Hw; destruct (Hs Hw) as (_ & W1 & L1 & D); [by apply put_all_wf|].
    rewrite D. apply org_metrics, prom_orgs.
  - apply reply_only_ok. intros Hw. apply (Hs Hw).
Qed.

Lemma opentsdb_ok pat u gz body h p :
  writer_ok pat u h p (Write.OpenTSDBWrite spare pick publisher gunzip tsdb_Unmarshal u gz body h p).
Proof.
  unfold Write.OpenTSDBWrite. destruct body as [raw|]; [|by apply reply_only_ok].
  destruct (if gz then gunzip raw else Some raw) as [[text|]|]; try by apply reply_only_ok.
  destruct (tsdb_Unmarshal text) as [req|]; [|by apply reply_only_ok].
  destruct (tsdb_metrics spare pick (ID u) req [] h) as [h1 buf] eqn:Et.
  assert (Hs : wf h → wf h1 ∧ live h1 buf ∧ Forall (λ m, OrgId m = ID u) (deref h1 <$> buf)).
  { intros Hw. eapply tsdb_metrics_live; [exact Hw|apply live_nil|exact Et|apply Forall_nil_2]. }
  apply finish_ok; intros Hw; destruct (Hs Hw) as (W1 & L1 & O); [by apply put_all_emptied_wf|].
  by apply org_metrics.
Qed.

Lemma datadog_ok pat u deflate body h p :
  writer_ok pat u h p
    (Datadog.DataDogSeries spare pick publisher zlib int64_of_float unmarshal_series u deflate body h p).
Proof.
  unfold Datadog.DataDogSeries. destruct body as [body|]; [|by apply reply_only_ok].
  destruct (decodeJSON zlib deflate body) as [data []]; [|by apply reply_only_ok].
  destruct (unmarshal_series data) as [series|]; [|by apply reply_only_ok].
  destruct (dd_metrics spare pick int64_of_float (ID u) series [] h) as [h1 buf] eqn:Ed.
  assert (Hs : wf h → wf h1 ∧ deref h1 <$> buf = series ≫= series_metrics int64_of_float (ID u)).
  { intros Hw. apply dd_metrics_spec in Ed as (W1 & _ & _ & D); [|done|apply live_nil].
    split; [exact W1|exact D]. }
  apply finish_ok; intros Hw; destruct (Hs Hw) as [W1 D]; [done|].
  rewrite D. apply org_metrics.
  apply Forall_forall. intros m (ts & Hm & _)%list_elem_of_bind.
  by apply list_elem_of_fmap in Hm as (pt & -> & _).
Qed.

(** *** The proxies *)

Lemma good_proxy pat client proxy :
  (∀ u, org_sent (ID u) client (proxy u)) → good pat client (serve_proxy answer proxy).
Proof.
  intros Hp rq s. unfold serve_proxy. split; [done|split; [done|]]. cbn. split; [done| |].
  - intros _. exists []. by rewrite app_nil_r.
  - eexists. split; [done|]. by apply Forall_singleton.
Qed.

Lemma good_bind pat x : good pat (p_http x) (serve_bind bind ParseDateTime timerangeLimit x).
Proof.
  apply good_quiet. intros rq s. unfold serve_bind. destruct (bind (p_http x)); [|done].
  by destruct (Validate _ _ _ _ _ _).
Qed.

Lemma good_capture pat x :
  good pat (p_http x) (λ _ s, (CaptureBody (p_capture x).1 (p_capture x).2 s).1).
Proof. apply good_quiet. intros rq s. unfold CaptureBody. by destruct (p_capture x).2. Qed.

(** The proxies send the org of their user. *)
Lemma good_proxies pat x star :
  (∀ path, good pat (p_http x) (serve_proxy answer (λ u, Query.MetrictankProxy clientIP metrictank path u (p_http x)))) ∧
  good pat (p_http x) (serve_proxy answer (λ u, Query.PrometheusProxy clientIP metrictank star u (p_http x))) ∧
  (∀ captured, good pat (p_http x)
     (serve_proxy answer (λ u, Query.GraphiteProxy clientIP graphite captured u star (p_http x)))) ∧
  good pat (p_http x) (serve_proxy answer (λ u, Query.MtBulkImporter clientIP importer u (p_http x))).
Proof.
  split_and!; try intros y; apply good_proxy; intros u; apply set_org_sent; try done.
  by destruct y.
Qed.

Lemma serve_good pat x star e :
  (e = Cmd.Metrics → pat = "/metrics") → Forall (good pat (p_http x)) (serve x star e).
Proof.
  intros He. destruct (good_proxies pat x star) as (H1 & H2 & H3 & H4).
  destruct e as [path| |[]| | | | |]; cbn [Gateway.serve]; repeat (apply Forall_cons; split);
    try apply Forall_nil_2; auto using good_capture, good_bind;
    [by rewrite He; [apply good_Metrics|]|..].
  - apply good_writer. intros u h p. apply datadog_ok.
  - apply good_writer. intros u h p. apply opentsdb_ok.
  - apply good_writer. intros u h p. apply prometheus_ok.
Qed.

(** ** A request *)

(** The state in which the request's chain of handlers starts. *)
Definition entered (i : incoming) (s : H) : H := GetContextHandler (in_rq i) (no_replies s).

(** The request [i], arriving in the state [s], is on the route [r] and
    authenticated as [u]: its URL is that of the route, the plugin admits the
    credentials the route looks at, and [u] is the user it returned, in the org
    an admin asked to act for. *)
Definition authenticated_on (i : incoming) (s : H) (r : route) (u : User) : Prop :=
  ∃ n ps l, resolve i = Some (Some n, ps) ∧
    routes (in_payload i) (default "" (ps !! "*")) !! n = Some r ∧
    admitted authPlugin (r_kind r) (r_datadog r) (in_rq i) (entered i s) l ∧
    u = ctx_user (auth_with authPlugin (creds (r_kind r) (r_datadog r) (in_rq i)) (in_rq i) (entered i s)).
Definition authenticated_as (i : incoming) (s : H) (u : User) : Prop := ∃ r, authenticated_on i s r u.

Lemma entered_rest i s : h_rest (entered i s) = h_rest s ∧ h_replies (entered i s) = [].
Proof. done. Qed.

Lemma handle_effect i s :
  h_rest (handle i s) = h_rest s ∨
  ∃ r u, authenticated_on i s r u ∧ effect (r_pattern r) u (p_http (in_payload i)) (h_rest s) (h_rest (handle i s)).
Proof.
  unfold Gateway.handle. fold (entered i s).
  destruct (resolve i) as [[[n|] ps]|] eqn:En; [|by left..].
  set (star := default "" (ps !! "*")).
  destruct (routes (in_payload i) star !! n) as [r|] eqn:Er; [|by left].
  destruct (initRoutes_endpoints Allow authPlugin (serve (in_payload i) star) enforceRoles use_limits limitStr
    importerURL r) as (rl & e & Hc & He); [by eapply list_elem_of_lookup_2|]. rewrite Hc.
  rewrite GenerateHandlers_eq, run_chain_cons, first_auth_eq.
  set (c := creds (r_kind r) (r_datadog r) (in_rq i)).
  pose proof (auth_with_rest authPlugin c (in_rq i) (entered i s)) as [Hrest _].
  pose proof (auth_with_cases authPlugin c (in_rq i) (entered i s) eq_refl) as Ha.
  set (s1 := auth_with authPlugin c (in_rq i) (entered i s)) in *.
  destruct c as [username key] eqn:Ec. destruct Ha as [(x & Hx & _)|(Hk & Hn & a & l & Hp & _)].
  - left. rewrite (written_cons _ _ _ Hx). by rewrite Hrest.
  - right. exists r, (ctx_user s1). split.
    + exists n, ps, l. split; [done|]. split; [done|]. fold c. rewrite Ec. split; [|done]. unfold admitted. fold c.
      rewrite Ec. split; [done|]. by exists a.
    + rewrite (written_nil _ Hn). rewrite <- (proj1 (entered_rest i s)), <- Hrest.
      apply (good_chain (r_pattern r) (p_http (in_payload i))). apply Forall_app. split; [|apply Forall_app; split].
      * destruct enforceRoles; [apply Forall_singleton, good_RequirePublisher|apply Forall_nil_2].
      * destruct (use_limits && rl); [apply Forall_singleton, good_IngestRateLimiter|apply Forall_nil_2].
      * apply serve_good. intros Hm. by apply He.
Qed.

(** ** Properties *)

(** The batch [b], or the request [up] to a backend, comes of one of the
    requests, which in the state the ones before it left was authenticated as a
    user, and belongs to the org of that user. *)
Definition batch_of (l : list incoming) (s : H) (b : list MetricData) : Prop :=
  ∃ l1 i l2 r u, l = l1 ++ i :: l2 ∧ authenticated_on i (handle_all l1 s) r u ∧ Forall (in_org (r_pattern r) u) b.
Definition sent_of (l : list incoming) (s : H) (up : http_req) : Prop :=
  ∃ l1 i l2 r u, l = l1 ++ i :: l2 ∧ authenticated_on i (handle_all l1 s) r u ∧
    org_sent (ID u) (p_http (in_payload i)) up.

Lemma batch_of_snoc l i s b : batch_of l s b → batch_of (l ++ [i]) s b.
Proof.
  intros (l1 & j & l2 & r & u & -> & R). exists l1, j, (l2 ++ [i]), r, u. by rewrite <- app_assoc.
Qed.
Lemma sent_of_snoc l i s up : sent_of l s up → sent_of (l ++ [i]) s up.
Proof.
  intros (l1 & j & l2 & r & u & -> & R). exists l1, j, (l2 ++ [i]), r, u. by rewrite <- app_assoc.
Qed.

Lemma handle_all_inv l s :
  wf (w_heap (h_rest s)) →
  wf (w_heap (h_rest (handle_all l s))) ∧
  (∃ bs, batches (h_rest (handle_all l s)) = batches (h_rest s) ++ bs ∧ Forall (batch_of l s) bs) ∧
  (∃ ups, w_sent (h_rest (handle_all l s)) = w_sent (h_rest s) ++ ups ∧ Forall (sent_of l s) ups).
Proof.
  intros Hw. induction l as [|i l IH] using rev_ind.
  { split_and!; [done|..]; exists []; (split; [by rewrite app_nil_r|apply Forall_nil_2]). }
  unfold Gateway.handle_all at 1 2 3. rewrite foldl_snoc. destruct IH as (W1 & (bs & B1 & F1) & (ups & U1 & G1)).
  change (foldl (λ s i, handle i s) s l) with (handle_all l s).
  apply (Forall_impl _ (batch_of (l ++ [i]) s)) in F1; [|by intros b; apply batch_of_snoc].
  apply (Forall_impl _ (sent_of (l ++ [i]) s)) in G1; [|by intros b; apply sent_of_snoc].
  destruct (handle_effect i (handle_all l s)) as [->|(r & u & Ha & [A B C])];
    [split_and!; [done|by exists bs|by exists ups]|].
  split_and!; [by apply A| |].
  - destruct (B W1) as (bs' & E1 & F'). exists (bs ++ bs'). rewrite E1, B1, app_assoc. split; [done|].
    apply Forall_app. split; [done|]. eapply Forall_impl; [exact F'|]. intros b Hm. by exists l, i, [], r, u.
  - destruct C as (ups' & E1 & F'). exists (ups ++ ups'). rewrite E1, U1, app_assoc. split; [done|].
    apply Forall_app. split; [done|]. eapply Forall_impl; [exact F'|]. intros b Hm. by exists l, i, [], r, u.
Qed.

(** C1. Isolation, end to end. Whatever requests arrive, with whatever methods, URLs,
    bodies, headers and credentials: each batch handed to the publisher comes of
    a request on a route whose credentials the plugin admitted, and all its
    metrics are in the org of that user; only a batch that comes of the route
    /metrics may hold others, if the user is an admin. Each request sent to a
    backend comes of an admitted request and carries the org of its user, or none
    where the client lists the header in Connection. *)
Theorem requests_stay_in_their_org l s :
  wf (w_heap (h_rest s)) →
  (∃ bs, batches (h_rest (handle_all l s)) = batches (h_rest s) ++ bs ∧ Forall (batch_of l s) bs) ∧
  (∃ ups, w_sent (h_rest (handle_all l s)) = w_sent (h_rest s) ++ ups ∧ Forall (sent_of l s) ups).
Proof. intros Hw. by apply handle_all_inv. Qed.

(** The pool's invariant. Whatever requests arrive, the store of pooled metrics
    stays well-formed: no metric is in the pool twice, and the tags of every
    metric are a slice of an array that exists and is long enough. *)
Theorem pool_stays_well_formed l s :
  wf (w_heap (h_rest s)) → wf (w_heap (h_rest (handle_all l s))).
Proof. intros Hw. by apply handle_all_inv. Qed.
End spec.

(** ** Witnesses *)

(** The file plugin with the key "k" of org 7; a JSON batch that claims to be
    of org 9, a point for OpenTSDB, a query, and a request with a wrong key. *)
Definition ex_http (path : string) : http_req := mkHttp (mkURL "" "" path) {["X-Org-Id" := ["9"]]} None.
Definition ex_payload (path : string) : payload :=
  mkPayload (ex_http path) (ex_req "x") (Some (Some "")) false (Some ("", true)) false ("", true).
Definition ex_in (method path key : string) : incoming :=
  mkIncoming method path (ex_rq key "") (ex_payload path).
Definition ex_traffic : list incoming :=
  [ex_in "POST" "/metrics" "k"; ex_in "POST" "/opentsdb/api/put" "k"; ex_in "GET" "/metrics/index.json" "k";
   ex_in "POST" "/metrics" "wrong"].

Definition ex_world : world (unit * list (list MetricData)) :=
  mkWorld (mkPState (tt, []) ∅) empty_heap [].
Definition ex_gateway : hstate (L:=Z) (X:=world (unit * list (list MetricData))) :=
  mkH (mkAstate [AdminUser; mkUser 7 false ROLE_EDITOR] (mkGcom (TTL.new 3600) (TTL.new 3600) [])) 0 [] ∅
    ex_world.

Abbreviation ex_handle_all := (handle_all (P:=FileAuth) (AuthPlugin0:=ex_plugin) (λ l, l)
  (λ l n, (l, true)) (recorded (nullPublisher (E:=unit))) ex_spare ex_pick ex_decode id ex_decode Some
  (λ _, Some ex_series) Some (λ _, Some [ex_point "eu"]) Some (λ v, v) (λ _, None)
  (λ _, inr 400%Z) (λ _ _, None) (mkURL "http" "mt" "/") (mkURL "http" "gr" "/") (mkURL "http" "imp" "/")
  0 "10.0.0.1" (λ _, mkReply 200 "ok") (λ _, "") ex_allow ex_file false false "" "").

Lemma requests_stay_in_their_org_witness :
  let w := h_rest (ex_handle_all ex_traffic ex_gateway) in
  length (batches w) = 2 ∧ length (w_sent w) = 1 ∧
  Forall (λ b, ∃ pat u, Forall (in_org pat u) b) (batches w).
Proof.
  cbv zeta. split; [vm_compute; reflexivity|]. split; [vm_compute; reflexivity|].
  destruct (requests_stay_in_their_org (P:=FileAuth) (AuthPlugin0:=ex_plugin) (λ l, l)
    (λ l n, (l, true)) (nullPublisher (E:=unit)) ex_spare ex_pick ex_decode id ex_decode Some
    (λ _, Some ex_series) Some (λ _, Some [ex_point "eu"]) Some (λ v, v) (λ _, None)
    (λ _, inr 400%Z) (λ _ _, None) (mkURL "http" "mt" "/") (mkURL "http" "gr" "/") (mkURL "http" "imp" "/")
    0 "10.0.0.1" (λ _, mkReply 200 "ok") (λ _, "") ex_allow ex_file false false "" ""
    ex_traffic ex_gateway empty_wf) as [(bs & Hb & Hf) _].
  rewrite Hb. cbn [app]. eapply Forall_impl; [exact Hf|]. intros b (l1 & i & l2 & r & u & _ & _ & H). by exists (r_pattern r), u.
Defined.

Lemma pool_stays_well_formed_witness :
  let h := w_heap (h_rest (ex_handle_all ex_traffic ex_gateway)) in
  length (pool h) = 1 ∧ wf h.
Proof.
  cbv zeta. split; [vm_compute; reflexivity|].
  exact (pool_stays_well_formed (P:=FileAuth) (AuthPlugin0:=ex_plugin) (λ l, l)
    (λ l n, (l, true)) (nullPublisher (E:=unit)) ex_spare ex_pick ex_decode id ex_decode Some
    (λ _, Some ex_series) Some (λ _, Some [ex_point "eu"]) Some (λ v, v) (λ _, None)
    (λ _, inr 400%Z) (λ _ _, None) (mkURL "http" "mt" "/") (mkURL "http" "gr" "/") (mkURL "http" "imp" "/")
    0 "10.0.0.1" (λ _, mkReply 200 "ok") (λ _, "") ex_allow ex_file false false "" ""
    ex_traffic ex_gateway empty_wf).
Defined.
