(* ===== verification/GatewayUrls.v ===== *)
(** * The URLs of the gateway

    The router (RouterSpec.v) with the table of cmd/tsdb-gw: what each URL is
    served by, and what a request nobody authenticated may reach. *)

From S2P Require Import Prelude GoStrings Strconv Schema Publish Http Gcom AuthPlugins Ingest IngestSpec Api ApiSpec Write WriteSpec Datadog DatadogSpec Query QuerySpec Router RouterSpec Cmd Gateway GatewaySpec.
From Stdlib Require Import Ascii.

(** ** Wildcards below one segment *)

Section shallow.
Context {H : Type} (table : list string → option H).

Lemma choose_skips (xs : list string) (ks : list nat) :
  Forall (λ k, table (take k xs ++ ["*"]) = None) ks →
  choose table ((λ k, (take k xs ++ ["*"], Some (join_path (drop k xs)))) <$> ks) = None.
Proof. induction 1 as [|k ks Hk _ IH]; [done|]. cbn. by rewrite Hk. Qed.

(** Where each "*" is the second segment, the path itself or its first segment
    decides. *)
Lemma choose_shallow (xs : list string) :
  (∀ l, is_Some (table (l ++ ["*"])) → length l = 1) →
  choose table (candidates xs) =
    match (if bool_decide (last xs = Some "*") then None else table xs) with
    | Some h => Some (h, None)
    | None =>
        match xs with
        | a :: (b :: rest) as tail => (λ h, (h, Some (join_path tail))) <$> table [a; "*"]
        | _ => None
        end
    end.
Proof.
  intros Hl.
  assert (Hno : ∀ l, length l ≠ 1 → table (l ++ ["*"]) = None).
  { intros l Hn. destruct (table (l ++ ["*"])) eqn:E; [|done]. destruct Hn. apply Hl. by rewrite E. }
  unfold candidates. rewrite choose_app.
  assert (He : choose table (if bool_decide (last xs = Some "*") then [] else [(xs, None)]) =
    (λ h, (h, None)) <$> (if bool_decide (last xs = Some "*") then None else table xs)).
  { destruct (bool_decide _); [done|]. cbn. by destruct (table xs). }
  rewrite He. clear He. destruct (if bool_decide _ then None else table xs) as [h|]; [done|]. cbn [fmap option_fmap option_map].
  destruct xs as [|a [|b rest]].
  - done.
  - apply choose_skips. apply Forall_singleton. by apply Hno.
  - cbn [length]. rewrite <- !cons_seq, !reverse_cons, !fmap_app, !choose_app.
    rewrite choose_skips; cbn [fmap list_fmap choose take drop app].
    + change (table ["*"]) with (table ([] ++ ["*"])). rewrite (Hno []) by done.
      by destruct (table [a; "*"]).
    + apply Forall_forall. intros k Hk%elem_of_reverse%elem_of_seq. apply Hno.
      rewrite length_take. cbn. lia.
Qed.
End shallow.

(** ** The table *)

Definition gateway_table (importing : bool) : list (string * string * option nat) :=
  [("GET", "/", None); ("GET", "/metrics/index.json", Some 0); ("GET", "/graphite/metrics/index.json", Some 1);
   ("*", "/prometheus/*", Some 2); ("*", "/graphite/*", Some 3); ("POST", "/metrics", Some 4);
   ("POST", "/datadog/api/v1/series", Some 5); ("POST", "/opentsdb/api/put", Some 6);
   ("*", "/prometheus/write", Some 7); ("POST", "/metrics/delete", Some 8); ("POST", "/tags/delSeries", Some 9)] ++
  (if importing then [("POST", "/metrics/import", Some 10)] else []).

Lemma gateway_table_good importing : Forall good_entry (gateway_table importing).
Proof. apply good_entries_ok. by destruct importing; vm_compute. Qed.

(** What a path of unescaped segments is served by. *)
Definition static_url (importing : bool) (m : string) (xs : list string) : option (option nat) :=
  table_at (gateway_table importing) m xs.
Definition star_url (m first : string) : option (option nat) :=
  if bool_decide (m ∈ HTTP_METHODS) then
    if bool_decide (first = "prometheus") then Some (Some 2)
    else if bool_decide (first = "graphite") then Some (Some 3) else None
  else None.

Lemma table_star importing m l :
  table_at (gateway_table importing) m (l ++ ["*"]) =
    match l with [first] => star_url m first | _ => None end.
Proof.
  unfold table_at. rewrite (find_restrict _ (λ e, bool_decide (last (pattern_segs e.1.2) = Some "*"))).
  2:{ intros e [_ He%bool_decide_eq_true]%andb_true_iff. by rewrite He, last_snoc, bool_decide_eq_true_2. }
  replace (List.filter _ (gateway_table importing)) with
    [("*", "/prometheus/*", Some 2); ("*", "/graphite/*", Some 3)] by (destruct importing; vm_compute; reflexivity).
  cbn [List.find]. change (pattern_segs ("*", "/prometheus/*", Some 2).1.2) with ["prometheus"; "*"].
  change (pattern_segs ("*", "/graphite/*", Some 3).1.2) with ["graphite"; "*"].
  unfold for_method, star_url. cbn [fst snd]. rewrite bool_decide_eq_true_2 by done.
  destruct (bool_decide (m ∈ HTTP_METHODS)); cbn [andb]; [|by destruct l as [|a []]].
  destruct l as [|a [|b l]]; cbn [app].
  - by rewrite !bool_decide_eq_false_2.
  - repeat case_bool_decide; naive_solver.
  - rewrite !bool_decide_eq_false_2; [done|..]; intros E; injection E as _ _ E; by destruct l.
Qed.

Section urls.
Context {L S : Type} (Allow : L → L * bool) {P : Type} `{!AuthPlugin P} (authPlugin : P).
Context (enforceRoles use_limits : bool) (limitStr importerURL : string).

Abbreviation route_table := (route_table (S:=S) Allow authPlugin enforceRoles use_limits limitStr importerURL).
Abbreviation resolve := (resolve (S:=S) Allow authPlugin enforceRoles use_limits limitStr importerURL).
Abbreviation importing := (bool_decide (0 < strlen importerURL)).
Abbreviation url_path i := (Path (url (p_http (in_payload i)))).

Lemma route_table_eq : route_table = gateway_table importing.
Proof. unfold Gateway.route_table, initRoutes. by destruct importing. Qed.

(** The number of a route is one of the table's. *)
Lemma static_url_in m q n : static_url importing m q = Some (Some n) → n < if importing then 11 else 10.
Proof.
  unfold static_url, table_at. intros ([[me p] h] & [Hin _]%List.find_some & Hn)%fmap_Some. cbn in Hn. subst h.
  destruct importing; cbn in Hin; intuition (simplify_eq; lia).
Qed.

Lemma star_url_in m a n : star_url m a = Some n → n = Some 2 ∨ n = Some 3.
Proof. unfold star_url. repeat case_bool_decide; naive_solver. Qed.

Lemma length_initRoutes (serve : endpoint → list (handler (L:=L) (X:=world S))) :
  length (initRoutes Allow authPlugin serve enforceRoles use_limits limitStr importerURL) = if importing then 11 else 10.
Proof. unfold initRoutes. by destruct importing. Qed.

(** Only the root is the index's. *)
Lemma static_url_index m q : static_url importing m q = Some None → m = "GET" ∧ q = [""].
Proof.
  unfold static_url, table_at. intros ([[me p] h] & [Hin Hf]%List.find_some & Hn)%fmap_Some. cbn in Hn. subst h.
  apply andb_true_iff in Hf as [Hm Hq%bool_decide_eq_true].
  destruct importing; cbn in Hin; destruct Hin as [E|Hin]; try (intuition discriminate);
    injection E as <- <-; (split; [by apply bool_decide_eq_true in Hm|done]).
Qed.

Lemma literal_root m p : literal (gateway_table importing) m p = true → pattern_segs p = [""] → p = "/".
Proof.
  intros (e & Hin & [_ Hp%bool_decide_eq_true]%andb_true_iff)%existsb_exists Hs. subst p.
  destruct importing; cbn in Hin;
    repeat (destruct Hin as [<-|Hin]; [first [done|vm_compute in Hs; discriminate]|]); done.
Qed.

(** The URLs of the gateway: a request is served by what is registered
    under its path, literally, or else, its escapes being valid, under its
    unescaped segments; any other path below /prometheus or /graphite goes to
    the proxy, with the rest of the path; and all else is not found. *)
Lemma resolve_eq i :
  resolve i =
    if literal (gateway_table importing) (in_method i) (url_path i)
    then (λ n, (n, ∅)) <$> static_url importing (in_method i) (pattern_segs (url_path i))
    else
      xs ← mapM PathUnescape (url_segs (in_escaped i));
      match (if bool_decide (last xs = Some "*") then None else static_url importing (in_method i) xs) with
      | Some n => Some (n, ∅)
      | None =>
          match xs with
          | first :: (_ :: _) as rest =>
              (λ n, (n, set_globs 0 (join_path rest) ∅)) <$> star_url (in_method i) first
          | _ => None
          end
      end.
Proof.
  unfold Gateway.resolve. rewrite route_table_eq.
  destruct (register_spec _ (gateway_table_good importing)) as (r & -> & Hag).
  rewrite (ServeHTTP_agrees _ r _ _ _ (Hag _)).
  unfold serve_table. case_match; [done|].
  destruct (mapM PathUnescape _) as [xs|]; [|done]. cbn [mbind option_bind].
  rewrite choose_shallow.
  - fold (static_url importing (in_method i) xs).
    destruct (if bool_decide _ then None else _); [done|]. destruct xs as [|a [|b rest]]; [done..|].
    change [a; "*"] with ([a] ++ ["*"]). rewrite table_star. by destruct (star_url _ a).
  - intros l. rewrite table_star. destruct l as [|a []]; [by intros []|done|by intros []].
Qed.

Lemma resolve_cases i n ps :
  resolve i = Some (n, ps) →
  match n with
  | Some n => n < if importing then 11 else 10
  | None => in_method i = "GET" ∧
      (url_path i = "/" ∨ mapM PathUnescape (url_segs (in_escaped i)) = Some [""])
  end.
Proof.
  rewrite resolve_eq. destruct (literal _ _ _) eqn:El.
  { intros (n' & Hn & [= <- _])%fmap_Some. destruct n as [n|]; [by eapply static_url_in|].
    apply static_url_index in Hn as [Hm Hs]. split; [done|]. left. by eapply literal_root. }
  destruct (mapM PathUnescape _) as [xs|]; [|done]. cbn [mbind option_bind].
  destruct (if bool_decide _ then None else _) as [n'|] eqn:E.
  - intros [= -> _]. destruct (bool_decide (last xs = Some "*")); [done|].
    destruct n as [n|]; [by eapply static_url_in|]. apply static_url_index in E as [-> ->]. auto.
  - destruct xs as [|a [|b rest]]; [done..|]. intros (n' & Hn & [= <- _])%fmap_Some.
    apply star_url_in in Hn as [-> | ->]; destruct importing; lia.
Qed.
End urls.

(** ** What is open to everybody *)

Section open.
Context {L S E : Type}.
Context (Burst : L → Z) (WaitN : L → Z → L * bool) (publisher0 : Publisher S E).
Context (spare pick : nat → nat).
Context (unmarshal_json : string → option (list (option MetricData)))
  (unsnappy : option string → option string)
  (decode_msg : string → option (list (option MetricData))).
Context (snappy_Decode : string → option string) (proto_Unmarshal : string → option (list timeseries)).
Context (gunzip : option string → option (option string))
  (tsdb_Unmarshal : string → option (list OpenTSDBMetric)).
Context (zlib : string * bool → option (string * bool)) (int64_of_float : Z → Z)
  (unmarshal_series : string → option (list dd_series)).
Context (bind : http_req → FromTo + Z) (ParseDateTime : string → Z → option Z).
Context (metrictank graphite importer : URL) (timerangeLimit : Z) (clientIP : string).
Context (answer : http_req → reply string) (encode : jbody → string).
Context (Allow : L → L * bool) {P : Type} `{!AuthPlugin P} (authPlugin : P).
Context (enforceRoles use_limits : bool) (limitStr importerURL : string).

Abbreviation W := (world (S * list (list MetricData))).
Abbreviation H := (hstate (L:=L) (X:=W)).
Abbreviation publisher := (recorded publisher0).
Abbreviation serve := (serve Burst WaitN publisher spare pick unmarshal_json unsnappy decode_msg
  snappy_Decode proto_Unmarshal gunzip tsdb_Unmarshal zlib int64_of_float unmarshal_series bind
  ParseDateTime metrictank graphite importer timerangeLimit clientIP answer encode).
Abbreviation routes := (routes Burst WaitN publisher spare pick unmarshal_json unsnappy decode_msg
  snappy_Decode proto_Unmarshal gunzip tsdb_Unmarshal zlib int64_of_float unmarshal_series bind
  ParseDateTime metrictank graphite importer timerangeLimit clientIP answer encode
  Allow authPlugin enforceRoles use_limits limitStr importerURL).
Abbreviation resolve := (resolve (S:=S * list (list MetricData)) Allow authPlugin enforceRoles use_limits limitStr importerURL).
Abbreviation handle := (handle Burst WaitN publisher spare pick unmarshal_json unsnappy decode_msg
  snappy_Decode proto_Unmarshal gunzip tsdb_Unmarshal zlib int64_of_float unmarshal_series bind
  ParseDateTime metrictank graphite importer timerangeLimit clientIP answer encode
  Allow authPlugin enforceRoles use_limits limitStr importerURL).
Abbreviation importing := (bool_decide (0 < strlen importerURL)).
Abbreviation url_path i := (Path (url (p_http (in_payload i)))).
Abbreviation authenticated_as := (authenticated_as Burst WaitN publisher0 spare pick unmarshal_json unsnappy decode_msg
  snappy_Decode proto_Unmarshal gunzip tsdb_Unmarshal zlib int64_of_float unmarshal_series bind
  ParseDateTime metrictank graphite importer timerangeLimit clientIP answer encode
  Allow authPlugin enforceRoles use_limits limitStr importerURL).

(** C9. Whatever URL a request comes with: when no user is authenticated for
    it, it is answered once, with the 404 of a URL that is none of the table's,
    with the "ok" of the index, which only a GET of the root gets, or, on every
    other URL, with 401 or 500; and neither the publisher, nor the pool, nor a
    backend, nor a rate limit is touched. *)
Theorem only_the_index_is_open i s :
  (∀ u, ¬ authenticated_as i s u) →
  let s' := handle i s in
  h_rest s' = h_rest s ∧ h_limits s' = h_limits s ∧
  ∃ x, h_replies s' = [x] ∧
    match resolve i with
    | None => status x = 404%Z
    | Some (None, _) => status x = 200%Z ∧ body x = "ok" ∧ in_method i = "GET" ∧
        (url_path i = "/" ∨ mapM PathUnescape (url_segs (in_escaped i)) = Some [""])
    | Some (Some _, _) => status x = 401%Z ∨ status x = 500%Z
    end.
Proof.
  intros Hn. cbv zeta. unfold Gateway.handle. destruct (resolve i) as [[[n|] ps]|] eqn:Er.
  - pose proof (resolve_cases _ _ _ _ _ _ _ _ _ Er) as Hlt. cbn in Hlt.
    set (star := default "" (ps !! "*")).
    destruct (routes (in_payload i) star !! n) as [r|] eqn:En.
    2:{ apply lookup_ge_None in En. unfold Gateway.routes in En. rewrite length_initRoutes in En. lia. }
    destruct (initRoutes_chains Allow authPlugin (serve (in_payload i) star) enforceRoles use_limits limitStr
      importerURL r) as (rl & e & Hc); [by eapply list_elem_of_lookup_2|]. rewrite Hc.
    destruct (chain_refuses Allow authPlugin (r_kind r) enforceRoles (r_datadog r) use_limits rl
      (serve (in_payload i) star e) (in_rq i) (entered i s)) as ((x & Hx & Hst) & H1 & H2); [done| |].
    + intros l Hl. eapply Hn. exists r. by exists n, ps, l.
    + split; [exact H1|]. split; [exact H2|]. by exists x.
  - pose proof (resolve_cases _ _ _ _ _ _ _ _ _ Er) as [Hm Hu]. split_and!; [done..|]. by eexists.
  - split_and!; [done..|]. by eexists.
Qed.
End open.

(** A wrong key, on a route, at the root and elsewhere. *)
Definition ex_strangers : list incoming :=
  [ex_in "DELETE" "/graphite/metrics/find" "wrong"; ex_in "GET" "/" "wrong"; ex_in "GET" "/metrics" "wrong"].
Abbreviation ex_handle i s := (ex_handle_all [i] s).

Lemma only_the_index_is_open_witness :
  Forall (λ i, h_rest (ex_handle i ex_gateway) = ex_world) ex_strangers ∧
  (status <$> (ex_strangers ≫= λ i, h_replies (ex_handle i ex_gateway))) = [401; 200; 404]%Z.
Proof.
  split; [|vm_compute; reflexivity].
  apply Forall_forall. intros i Hi.
  refine (proj1 (only_the_index_is_open (P:=FileAuth) (AuthPlugin0:=ex_plugin) (λ l, l)
    (λ l n, (l, true)) (nullPublisher (E:=unit)) ex_spare ex_pick ex_decode id ex_decode Some
    (λ _, Some ex_series) Some (λ _, Some [ex_point "eu"]) Some (λ v, v) (λ _, None)
    (λ _, inr 400%Z) (λ _ _, None) (mkURL "http" "mt" "/") (mkURL "http" "gr" "/") (mkURL "http" "imp" "/")
    0 "10.0.0.1" (λ _, mkReply 200 "ok") (λ _, "") ex_allow ex_file false false "" "" i ex_gateway _)).
  intros u (r & n & ps & l & _ & _ & Ha & _).
  assert (Hrq : in_rq i = ex_rq "wrong" "").
  { unfold ex_strangers in Hi. repeat (apply elem_of_cons in Hi as [->|Hi]; [done|]). by apply elem_of_nil in Hi. }
  rewrite Hrq in Ha. unfold admitted, creds in Ha.
  destruct (bool_decide (r_kind r = "write") && r_datadog r).
  - vm_compute in Ha. destruct Ha as [Ha _]. by apply Ha.
  - unfold entered in Ha. rewrite Hrq in Ha. vm_compute in Ha. destruct Ha as [_ [a Ha]]. discriminate Ha.
Defined.

(** An encoded slash is part of a segment for the tree, and of the path for the
    map; a slash at the end is ignored; the exact pattern is tried first, and
    graphite's find goes to the proxy, with the rest of the path. *)
Definition ex_resolve (method path escaped : string) : option (option nat * option string) :=
  (λ x, (x.1, x.2 !! "*")) <$>
  resolve (L:=Z) (S:=unit) (AuthPlugin0:=ex_plugin) ex_allow ex_file false false "" ""
    (mkIncoming method escaped (ex_rq "" "") (ex_payload path)).

Example ex_urls :
  ex_resolve "POST" "/metrics/" "/metrics/" = Some (Some 4, None) ∧
  ex_resolve "POST" "/metrics/delete" "/metrics%2Fdelete" = Some (Some 8, None) ∧
  ex_resolve "GET" "/graphite/metrics/find" "/graphite/metrics/find" = Some (Some 3, Some "metrics/find") ∧
  ex_resolve "HEAD" "/graphite/metrics/index.json" "/graphite/metrics/index.json"
    = Some (Some 3, Some "metrics/index.json") ∧
  ex_resolve "POST" "/prometheus/write" "/prometheus/write" = Some (Some 7, None) ∧
  ex_resolve "GET" "/prometheus" "/prometheus" = None ∧
  ex_resolve "GET" "/prometheus/%zz" "/prometheus/%zz" = None ∧
  ex_resolve "GET" "//" "//" = Some (None, None).
Proof. vm_compute. done. Qed.
