(* ===== verification/Shutdown.v ===== *)
(** * Shutting the gateway down

    [handleShutdown] of cmd/tsdb-gw/main.go with the three [Stop]s it runs in
    goroutines of their own: [Api.Stop] (api.go), [Carbon.Stop] (carbon.go) and
    [metricsServer.Stop] (metrics_server.go), and the goroutines those wait for.
    A step is what one goroutine does between two points at which it may wait.
    Whether the listener of the carbon input returns is a parameter: its shutdown
    closes the sockets it started with, not one it has opened again since.
    What is left for the flushers is the number [pending] of CarbonConc.v
    (ProcessSpec.v proves so), and whether the plugin stops cleanly is [lifetime] of Cmd.v. *)

From S2P Require Import Prelude AuthPlugins Cmd.

(** [Api.Stop]: the listener is closed, [a.done] is awaited, the plugin stopped. *)
Inductive api_phase := AIdle | AClose | AAwait | APlugin | AStopped.
(** [Carbon.Stop]: the listener is stopped, the channel closed, the flushers awaited. *)
Inductive carbon_phase := CIdle | CListener | CChan | CAwait | CStopped.
Inductive ms_phase := MIdle | MClose | MStopped.
(** [handleShutdown]: it waits for the signal, then for the end of the stops. *)
Inductive handler_phase := HInterrupt | HSelect | HDone.

(** How the process ends: [main] returns, [log.Fatalf], a panic. *)
Inductive exit := Returned | Fatal | Panicked.

#[export] Instance api_phase_eq_dec : EqDecision api_phase.
Proof. solve_decision. Defined.
#[export] Instance carbon_phase_eq_dec : EqDecision carbon_phase.
Proof. solve_decision. Defined.
#[export] Instance ms_phase_eq_dec : EqDecision ms_phase.
Proof. solve_decision. Defined.
#[export] Instance handler_phase_eq_dec : EqDecision handler_phase.
Proof. solve_decision. Defined.
#[export] Instance exit_eq_dec : EqDecision exit.
Proof. solve_decision. Defined.

(** [accepting]: the listener of the API is open; [served]: its [srv.Serve] has
    returned and [a.done] is closed; [left]: the receives the flushers have
    left; [complete]: the channel of that name is closed. *)
Record proc := mkProc {
  signalled : bool; handler : handler_phase; timer : bool; complete : bool;
  api : api_phase; served : bool; carbon : carbon_phase; left : nat;
  ms : ms_phase; exited : option exit }.

Section shutdown.
(** Is the carbon input enabled; do the plugins stop without a panic; does the
    [Stop] of the carbon listener return. It waits for the goroutines of the
    listener, and one that reads from a socket it has opened again does not end
    ([hung] of CarbonStop.v). *)
Context (carbon_enabled plugin_ok listener_returns : bool).

Inductive act :=
| Interrupt | Spawn | Timer | Complete | Select | MainReturns
| ApiClose | ServeReturns | ApiDone | ApiPlugin
| CarbonListener | CarbonClose | FlusherReceives | CarbonDone
| MsClose | MsServeReturns.

Definition start (n : nat) : proc :=
  mkProc false HInterrupt false false AIdle false CIdle n MIdle None.

Definition with_exit (x : exit) (p : proc) : proc :=
  mkProc (signalled p) (handler p) (timer p) (complete p) (api p) (served p) (carbon p) (left p) (ms p) (Some x).
Definition with_handler (h : handler_phase) (p : proc) : proc :=
  mkProc (signalled p) h (timer p) (complete p) (api p) (served p) (carbon p) (left p) (ms p) (exited p).
Definition with_api (a : api_phase) (p : proc) : proc :=
  mkProc (signalled p) (handler p) (timer p) (complete p) a (served p) (carbon p) (left p) (ms p) (exited p).
Definition with_carbon (c : carbon_phase) (p : proc) : proc :=
  mkProc (signalled p) (handler p) (timer p) (complete p) (api p) (served p) c (left p) (ms p) (exited p).
Definition with_ms (m : ms_phase) (p : proc) : proc :=
  mkProc (signalled p) (handler p) (timer p) (complete p) (api p) (served p) (carbon p) (left p) m (exited p).

(** [go func(plugin) { plugin.Stop(); wg.Done() }] for the three inputs. A
    disabled carbon input stops at once. *)
Definition spawn (p : proc) : proc :=
  with_ms MClose (with_carbon (if carbon_enabled then CListener else CStopped)
    (with_api AClose (with_handler HSelect p))).

Definition all_stopped (p : proc) : bool :=
  bool_decide (api p = AStopped) && bool_decide (carbon p = CStopped) && bool_decide (ms p = MStopped).

Definition guard (b : bool) (p : proc) : option proc := if b then Some p else None.

Definition act_step (a : act) (p : proc) : option proc :=
  match exited p with
  | Some _ => None
  | None =>
      match a with
      | Interrupt => guard (negb (signalled p))
          (mkProc true (handler p) (timer p) (complete p) (api p) (served p) (carbon p) (left p) (ms p) None)
      | Spawn => guard (signalled p && bool_decide (handler p = HInterrupt)) (spawn p)
      | Timer => guard (bool_decide (handler p = HSelect) && negb (timer p))
          (mkProc (signalled p) (handler p) true (complete p) (api p) (served p) (carbon p) (left p) (ms p) None)
      | Complete => guard (all_stopped p && negb (complete p))
          (mkProc (signalled p) (handler p) (timer p) true (api p) (served p) (carbon p) (left p) (ms p) None)
      | Select => guard (bool_decide (handler p = HSelect) && (timer p || complete p)) (with_handler HDone p)
      | MainReturns => guard (bool_decide (handler p = HDone)) (with_exit Returned p)
      | ApiClose => guard (bool_decide (api p = AClose)) (with_api AAwait p)
      | ServeReturns =>
          guard (negb (served p) && bool_decide (api p = AAwait))
            (mkProc (signalled p) (handler p) (timer p) (complete p) (api p) true (carbon p) (left p) (ms p) None)
      | ApiDone => guard (bool_decide (api p = AAwait) && served p) (with_api APlugin p)
      | ApiPlugin => guard (bool_decide (api p = APlugin))
          (if plugin_ok then with_api AStopped p else with_exit Panicked p)
      | CarbonListener => guard (bool_decide (carbon p = CListener) && listener_returns) (with_carbon CChan p)
      | CarbonClose => guard (bool_decide (carbon p = CChan)) (with_carbon CAwait p)
      | FlusherReceives => guard (bool_decide (carbon p = CAwait) && bool_decide (0 < left p))
          (mkProc (signalled p) (handler p) (timer p) (complete p) (api p) (served p) (carbon p)
             (Nat.pred (left p)) (ms p) None)
      | CarbonDone => guard (bool_decide (carbon p = CAwait) && bool_decide (left p = 0)) (with_carbon CStopped p)
      | MsClose => guard (bool_decide (ms p = MClose)) (with_ms MStopped p)
      (* [ListenAndServe] returns [ErrServerClosed]: log.Fatalf *)
      | MsServeReturns => guard (bool_decide (ms p = MStopped)) (with_exit Fatal p)
      end
  end.

Fixpoint act_run (l : list act) (p : proc) : option proc :=
  match l with [] => Some p | a :: l' => p' ← act_step a p; act_run l' p' end.

(** The states a gateway with [n] receives to go can reach. *)
Definition reachable (n : nat) (p : proc) : Prop := ∃ l, act_run l (start n) = Some p.
End shutdown.

(** What stops the process of a gateway with these plugins. *)
Definition plugins_ok (k : plugin_kind) (c : option plugin_kind) : bool :=
  match lifetime k c with Ok _ => true | _ => false end.

(** ** The invariant *)

Section spec.
Context (carbon_enabled plugin_ok listener_returns : bool).
Abbreviation act_step := (act_step carbon_enabled plugin_ok listener_returns).
Abbreviation act_run := (act_run carbon_enabled plugin_ok listener_returns).
Abbreviation reachable := (reachable carbon_enabled plugin_ok listener_returns).

Lemma guard_Some b (p p' : proc) : guard b p = Some p' ↔ b = true ∧ p = p'.
Proof. unfold guard. destruct b; naive_solver. Qed.

Ltac bools :=
  repeat match goal with
  | Hg : _ && _ = true |- _ => apply andb_prop in Hg as [? ?]
  | Hg : _ || _ = true |- _ => apply orb_prop in Hg
  | Hg : bool_decide _ = true |- _ => apply bool_decide_eq_true in Hg
  | Hg : negb _ = true |- _ => apply negb_true_iff in Hg
  end.

(** The cases of a step, with what its guard says. *)
Ltac step_cases H :=
  unfold Shutdown.act_step in H; case_hyp H; [done|];
  match type of H with context [match ?a with _ => _ end] => destruct a end;
  apply guard_Some in H as [?Hg <-]; unfold all_stopped in *; bools.

Record inv (p : proc) : Prop := {
  i_idle : handler p = HInterrupt →
    api p = AIdle ∧ carbon p = CIdle ∧ ms p = MIdle ∧ complete p = false ∧ timer p = false;
  i_spawned : handler p ≠ HInterrupt →
    signalled p = true ∧ api p ≠ AIdle ∧ carbon p ≠ CIdle ∧ ms p ≠ MIdle;
  i_complete : complete p = true → api p = AStopped ∧ carbon p = CStopped ∧ ms p = MStopped;
  i_served : api p = APlugin ∨ api p = AStopped → served p = true;
  i_plugin : api p = AStopped → plugin_ok = true;
  i_enabled : carbon p = CListener → carbon_enabled = true;
  i_drained : carbon p = CStopped → carbon_enabled = true → left p = 0;
  i_done : handler p = HDone → timer p = true ∨ complete p = true;
  i_exit : match exited p with
           | Some Returned => handler p = HDone
           | Some Fatal => ms p = MStopped
           | Some Panicked => plugin_ok = false
           | None => True
           end }.

Lemma inv_start n : inv (start n).
Proof. split; cbn; naive_solver. Qed.

Lemma inv_step a p p' : act_step a p = Some p' → inv p → inv p'.
Proof.
  intros H []. destruct p as [sg h t c ap sv cb lf m ex]. step_cases H; cbn in *; simplify_eq;
    try (destruct carbon_enabled eqn:?); try (destruct plugin_ok eqn:?);
    split; cbn; intros; destruct_and?; simplify_eq; intuition (congruence || lia).
Qed.

Lemma inv_run l p p' : act_run l p = Some p' → inv p → inv p'.
Proof.
  revert p. induction l as [|a l IH]; intros p; cbn; [by intros [= <-]|].
  destruct (act_step a p) as [p1|] eqn:Es; cbn; [|done]. intros H Hp. apply (IH p1 H).
  by eapply inv_step.
Qed.

Lemma reachable_inv n p : reachable n p → inv p.
Proof. intros [l Hl]. eapply inv_run; [exact Hl|apply inv_start]. Qed.

(** The steps left to each goroutine. *)
Definition api_left (p : proc) : nat :=
  match api p with AIdle => 4 | AClose => 3 | AAwait => 2 | APlugin => 1 | AStopped => 0 end +
  if served p then 0 else 1.
Definition carbon_left (p : proc) : nat :=
  match carbon p with CIdle => 4 | CListener => 3 | CChan => 2 | CAwait => 1 | CStopped => 0 end + left p.
Definition ms_left (p : proc) : nat := match ms p with MIdle => 2 | MClose => 1 | MStopped => 0 end.
Definition handler_left (p : proc) : nat :=
  match handler p with HInterrupt => 2 | HSelect => 1 | HDone => 0 end +
  (if signalled p then 0 else 1) + (if timer p then 0 else 1) + (if complete p then 0 else 1) +
  match exited p with Some _ => 0 | None => 1 end.
Definition steps_left (p : proc) : nat := api_left p + carbon_left p + ms_left p + handler_left p.

(** Every step is one of finitely many. *)
Lemma act_step_left a p p' : inv p → act_step a p = Some p' → steps_left p' < steps_left p.
Proof.
  intros [Hi _ _ _ _ _ _ _ _] H. destruct p as [sg h t c ap sv cb lf m ex].
  step_cases H; cbn in *; simplify_eq; try (destruct (Hi eq_refl) as (? & ? & ? & ? & ?); subst);
    unfold steps_left, api_left, carbon_left, ms_left, handler_left; cbn; try (destruct carbon_enabled);
    try (destruct plugin_ok); cbn; lia.
Qed.

Lemma act_run_left l p p' : inv p → act_run l p = Some p' → length l + steps_left p' ≤ steps_left p.
Proof.
  revert p. induction l as [|a l IH]; intros p Hp; cbn; [intros [= <-]; done|].
  destruct (act_step a p) as [p1|] eqn:Es; cbn; [|done]. intros H.
  apply IH in H; [|by eapply inv_step]. apply act_step_left in Es; [lia|done].
Qed.

(** Nobody but the timer can go on: the [Stop] of the carbon listener waits for
    ever, and everything else has been done. *)
Definition waits_for_the_timer (p : proc) : Prop :=
  carbon_enabled = true ∧ listener_returns = false ∧ carbon p = CListener ∧
  handler p = HSelect ∧ timer p = false ∧ api p = AStopped ∧ ms p = MStopped.

(** Somebody can go on, without the timer and without the exit of the metrics
    server. *)
Lemma act_progress p :
  inv p → signalled p = true → exited p = None → (carbon p = CListener → carbon_enabled = true) →
  (∃ a, a ≠ Timer ∧ a ≠ MsServeReturns ∧ is_Some (act_step a p)) ∨ waits_for_the_timer p.
Proof.
  intros [_ Hs _ _ _ _ _ _ _] Hsig Hex Hen. destruct p as [sg h t c ap sv cb lf m ex]. cbn in *. subst sg ex.
  destruct h.
  - left. exists Spawn. by split_and!.
  - destruct (Hs ltac:(done)) as (_ & Ha & Hc & Hm).
    destruct ap; [done|left; exists ApiClose; by split_and!| |left; exists ApiPlugin; by split_and!|].
    { left. destruct sv; [exists ApiDone|exists ServeReturns]; by split_and!. }
    destruct m; [done|left; exists MsClose; by split_and!|].
    destruct cb; [done| |left; exists CarbonClose; by split_and!| |].
    { destruct t; [left; exists Select; by split_and!|].
      destruct listener_returns eqn:El; [|right; by split_and!; [apply Hen| | | | | |]].
      left. exists CarbonListener. split_and!; [done|done|]. unfold Shutdown.act_step. cbn. by eexists. }
    { left. destruct lf; [exists CarbonDone|exists FlusherReceives]; by split_and!. }
    left. destruct c; [exists Select|exists Complete]; (split_and!; [done|done|]);
      unfold Shutdown.act_step; cbn; rewrite ?orb_true_r; by eexists.
  - left. exists MainReturns. by split_and!.
Qed.

(** ** Properties *)

(** C37. The shutdown ends. Whatever the order in which the goroutines run, a gateway
    with [n] receives left to its flushers takes at most 17 + [n] steps. Until the
    process has ended some goroutine can go on without the two-minute timer, so no
    [Stop] waits for another one; but for one state: the carbon listener has
    opened a socket again, which its shutdown does not close, so its [Stop] does
    not return. Then all other [Stop]s get to their ends, and the timer, which has
    not fired, can. *)
Theorem shutdown_terminates n l p :
  act_run l (start n) = Some p →
  length l ≤ 17 + n ∧
  (signalled p = true → exited p = None →
   (∃ a, a ≠ Timer ∧ a ≠ MsServeReturns ∧ is_Some (act_step a p)) ∨
   waits_for_the_timer p ∧ is_Some (act_step Timer p)).
Proof.
  intros H. assert (Hi : inv p) by (eapply inv_run; [exact H|apply inv_start]). split.
  - apply act_run_left in H; [|apply inv_start]. unfold steps_left at 2 in H. cbn in H.
    unfold carbon_left in H. cbn in H. lia.
  - intros Hs Hx. destruct (act_progress p Hi Hs Hx (i_enabled _ Hi)) as [Ha|Hw]; [by left|right].
    split; [done|]. destruct Hw as (_ & _ & _ & Hh & Ht & _). unfold Shutdown.act_step. by rewrite Hx, Hh, Ht.
Qed.

(** A return of [main] means what it says: the three inputs have stopped (the
    API's plugin with it, and the carbon channel drained), or the timer fired. So
    with a plugin whose [Stop] panics, [main] only returns by the timer. *)
Theorem return_means_stopped n p :
  reachable n p → exited p = Some Returned →
  timer p = true ∨
  api p = AStopped ∧ carbon p = CStopped ∧ (carbon_enabled = true → left p = 0) ∧ ms p = MStopped ∧
  plugin_ok = true.
Proof.
  intros [? ? Hc ? Hp _ Hd Hdone He]%reachable_inv Hx. rewrite Hx in He.
  destruct (Hdone He) as [?|Hcc]; [by left|right]. destruct (Hc Hcc) as (Ha & Hb & Hm).
  split_and!; auto.
Qed.

(** Closing the metrics server kills the shutdown it is part of: its goroutine
    treats the [ErrServerClosed] of a closed server as a failed start and calls
    log.Fatalf. From the moment [metricsServer.Stop] has closed the server the
    process can exit with status 1 at any time; in particular before the carbon
    input has stopped listening, with all of its lines lost, and before the API
    has closed its listener. *)
Theorem closing_the_metrics_server_is_fatal n :
  (∀ p, reachable n p → ms p = MStopped → exited p = None →
     act_step MsServeReturns p = Some (with_exit Fatal p)) ∧
  ∃ p, reachable n p ∧ exited p = Some Fatal ∧ api p = AClose ∧ left p = n ∧
    (carbon_enabled = true → carbon p = CListener).
Proof.
  split.
  - intros p _ Hm He. unfold Shutdown.act_step. by rewrite He, Hm.
  - eexists. split; [by exists [Interrupt; Spawn; MsClose; MsServeReturns]|].
    cbn. split_and!; try done. by intros ->.
Qed.
End spec.

(** ** Witnesses *)

(** The carbon input has two receives left; the file plugin. *)
Definition ex_orderly : list act :=
  [Interrupt; Spawn; CarbonListener; ApiClose; CarbonClose; ServeReturns; FlusherReceives; ApiDone;
   FlusherReceives; ApiPlugin; CarbonDone; MsClose; Complete; Select; MainReturns].

Lemma shutdown_terminates_witness :
  match act_run true true true ex_orderly (start 2) with
  | Some p => exited p = Some Returned ∧ length ex_orderly ≤ 17 + 2
  | None => False
  end.
Proof.
  destruct (act_run true true true ex_orderly (start 2)) as [p|] eqn:E.
  - split; [|exact (proj1 (shutdown_terminates true true true 2 ex_orderly p E))].
    vm_compute in E. injection E as <-. reflexivity.
  - vm_compute in E. discriminate E.
Defined.

Lemma return_means_stopped_witness :
  match act_run true true true ex_orderly (start 2) with
  | Some p => timer p = true ∨
      api p = AStopped ∧ carbon p = CStopped ∧ (true = true → left p = 0) ∧ ms p = MStopped ∧ true = true
  | None => False
  end.
Proof.
  destruct (act_run true true true ex_orderly (start 2)) as [p|] eqn:E.
  - apply (return_means_stopped true true true 2 p (ex_intro _ ex_orderly E)).
    vm_compute in E. injection E as <-. reflexivity.
  - vm_compute in E. discriminate E.
Defined.

(** The listener has opened a socket again: nothing is left but the timer. *)
Lemma a_hung_listener_waits :
  match act_run true true false [Interrupt; Spawn; ApiClose; ServeReturns; MsClose; ApiDone; ApiPlugin] (start 2) with
  | Some p => waits_for_the_timer true false p | None => False
  end.
Proof. by vm_compute. Qed.

(** The default configuration, "grafana" without the carbon input, is one whose
    plugin does not stop cleanly; the file plugin does. *)
Lemma default_plugin_panics : plugins_ok KGrafana None = false ∧ plugins_ok KFile (Some KFile) = true.
Proof. done. Qed.
