(* ===== verification/Process.v ===== *)
(** * The gateway as one process

    [handleShutdown] of Shutdown.v over the carbon input of CarbonListener.v and
    the connections of the API. Shutdown.v counts the receives the flushers have
    left and lets the listener stop in one step, or never; here the listener, its
    connections, the channel and the flushers run in between, and the HTTP
    server keeps the connections it has accepted: [Api.Stop] closes the listener
    and waits for [srv.Serve], which does not wait for them. *)

From S2P Require Import Prelude GoStrings Strconv Schema Publish Http Carbon CarbonSpec CarbonConc CarbonListener CarbonStop Shutdown.
From Stdlib Require Import Ascii.

Section process.
Context (ParseFloat : string → option Z).
Context {S E : Type} (publisher : Publisher S E).
Context (ValidatePacket : string → bool) (authenticate : string → option User).
Context (requirePublisher nonBlockingBuffer : bool) (bufferSize : nat).
(** Does the API's plugin stop without a panic. *)
Context (plugin_ok : bool).

#[local] Abbreviation lstep :=
  (lstep ParseFloat publisher ValidatePacket authenticate requirePublisher nonBlockingBuffer bufferSize).
(** Whether the carbon listener's [Stop] returns is not a parameter here: its
    steps are those of the listener itself. *)
#[local] Abbreviation act_step := (act_step true plugin_ok true).

(** [shut]: the goroutines of the shutdown; the one in [Carbon.Stop] is at
    [carbon shut], and its [left] is not used. [requests]: the connections of the
    API, each with whether a request of it is being handled. *)
Record process := mkProcess { shut : proc; input : listening S; requests : list bool }.

Definition launch (concurrency : nat) (p : pstate S) : process :=
  mkProcess (start 0) (Start concurrency p) [].

Definition with_shut (q : proc) (d : process) : process := mkProcess q (input d) (requests d).
Definition with_requests (r : list bool) (d : process) : process := mkProcess (shut d) (input d) r.

Inductive pevent :=
| PAct (a : act)          (* the handler, the API, the metrics server *)
| PCarbon (e : levent)    (* the carbon input *)
| PFlushed                (* [c.flushWg.Wait()] returns *)
| PConnect | PRequest (i : nat) | PReply (i : nat).

(** The steps that stand for those of the carbon input. *)
Definition carbon_act (a : act) : bool :=
  match a with CarbonListener | CarbonClose | FlusherReceives | CarbonDone => true | _ => false end.

(** The listener of the API is open. *)
Definition listens (q : proc) : bool := match api q with AIdle | AClose => true | _ => false end.

Definition carried (q : proc) (d : process) (r : outcome unit (option (listening S))) : outcome unit (option process) :=
  match r with
  | Ok (Some l) => Ok (Some (mkProcess q l (requests d))) | Ok None => Ok None | Err e => Err e | Panic => Panic
  end.

(** [None]: the goroutine of the event waits, or the process has ended. *)
Definition pstep (e : pevent) (d : process) : outcome unit (option process) :=
  let q := shut d in
  match exited q with
  | Some _ => Ok None
  | None =>
      match e with
      | PAct a =>
          if carbon_act a then Ok None else
          Ok ((λ q', with_shut q' d) <$> act_step a q)
      | PCarbon LStop =>
          if bool_decide (carbon q = CListener ∧ stop (input d) = Serving)
          then carried q d (lstep LStop (input d)) else Ok None
      | PCarbon LClose =>
          if bool_decide (carbon q = CListener)
          then carried (with_carbon CAwait q) d (lstep LClose (input d)) else Ok None
      | PCarbon e => carried q d (lstep e (input d))
      | PFlushed =>
          if bool_decide (carbon q = CAwait) && forallb f_done (c_flushers (behind (input d)))
          then Ok (Some (with_shut (with_carbon CStopped q) d)) else Ok None
      | PConnect => if listens q then Ok (Some (with_requests (requests d ++ [false]) d)) else Ok None
      | PRequest i =>
          if bool_decide (requests d !! i = Some false)
          then Ok (Some (with_requests (<[i := true]> (requests d)) d)) else Ok None
      | PReply i =>
          if bool_decide (requests d !! i = Some true)
          then Ok (Some (with_requests (<[i := false]> (requests d)) d)) else Ok None
      end
  end.

Fixpoint prun (es : list pevent) (d : process) : outcome unit (option process) :=
  match es with
  | [] => Ok (Some d)
  | e :: es' => match pstep e d with Ok (Some d') => prun es' d' | r => r end
  end.
End process.
Arguments process : clear implicits.
