(* ===== verification/ProcessSpec.v ===== *)
(** * The gateway as one process: properties

    The process refines the shutdown of Shutdown.v: the receives that are
    [left] there are those [pending] at the flushers here. With that and the
    invariants of the carbon input: what has become of every carbon line when
    [main] returns, when it can return, and that a listener which has opened a
    socket again makes it wait for the timer. *)

From S2P Require Import Prelude GoStrings Strconv Schema Publish Http Carbon CarbonSpec CarbonConc CarbonListener CarbonStop Shutdown Process.
From Stdlib Require Import Ascii.

(** ** Lemmas of the shutdown *)

Section shut.
Context (plugin_ok : bool).
#[local] Abbreviation act_step := (act_step true plugin_ok true).
#[local] Abbreviation act_run := (act_run true plugin_ok true).
#[local] Abbreviation reachable := (reachable true plugin_ok true).

Definition with_left (m : nat) (p : proc) : proc :=
  mkProc (signalled p) (handler p) (timer p) (complete p) (api p) (served p) (carbon p) m (ms p) (exited p).

Lemma act_step_with_left a m p :
  carbon_act a = false → act_step a (with_left m p) = with_left m <$> act_step a p.
Proof.
  intros Ha. unfold Shutdown.act_step. cbn [exited with_left]. destruct (exited p); [done|].
  destruct a; try done; unfold all_stopped; cbn; unfold guard; try case_match; try done.
  by destruct plugin_ok.
Qed.

Lemma act_run_snoc l a p p1 p2 : act_run l p = Some p1 → act_step a p1 = Some p2 → act_run (l ++ [a]) p = Some p2.
Proof.
  revert p. induction l as [|b l IH]; intros p; cbn; [intros [= ->] ->; done|].
  destruct (act_step b p) as [p'|]; cbn; [apply IH|done].
Qed.

Lemma reachable_step a n p p' : reachable n p → act_step a p = Some p' → reachable n p'.
Proof. intros [l Hl] Ha. exists (l ++ [a]). by eapply act_run_snoc. Qed.

(** Where an act of the handler, the API or the metrics server leaves [Carbon.Stop]. *)
Lemma act_step_carbon a p p' :
  carbon_act a = false → inv true plugin_ok p → act_step a p = Some p' →
  left p' = left p ∧ (carbon p' = carbon p ∨ carbon p = CIdle ∧ carbon p' = CListener).
Proof.
  intros Ha [Hi _ _ _ _ _ _ _ _] H. unfold Shutdown.act_step in H. destruct (exited p); [done|].
  destruct a; try done; apply guard_Some in H as [Hg <-]; try (split; [done|by left]).
  - cbn. split; [done|]. right. apply andb_prop in Hg as [_ Hg]. apply bool_decide_eq_true in Hg. by apply Hi in Hg as (_ & ? & _).
  - destruct plugin_ok; split; try done; by left.
Qed.
End shut.

(** ** The invariant *)

Section spec.
Context (ParseFloat : string → option Z).
Context {S E : Type} (publisher : Publisher S E).
Context (ValidatePacket : string → bool) (authenticate : string → option User).
Context (requirePublisher nonBlockingBuffer : bool) (bufferSize : nat).
Context (plugin_ok : bool).

#[local] Abbreviation cstep :=
  (cstep ParseFloat publisher ValidatePacket authenticate requirePublisher nonBlockingBuffer bufferSize).
#[local] Abbreviation step_case :=
  (step_case ParseFloat publisher ValidatePacket authenticate requirePublisher nonBlockingBuffer bufferSize).
#[local] Abbreviation lstep :=
  (lstep ParseFloat publisher ValidatePacket authenticate requirePublisher nonBlockingBuffer bufferSize).
#[local] Abbreviation pstep :=
  (pstep ParseFloat publisher ValidatePacket authenticate requirePublisher nonBlockingBuffer bufferSize plugin_ok).
#[local] Abbreviation prun :=
  (prun ParseFloat publisher ValidatePacket authenticate requirePublisher nonBlockingBuffer bufferSize plugin_ok).
#[local] Abbreviation act_step := (act_step true plugin_ok true).
#[local] Abbreviation reachable := (reachable true plugin_ok true).
Implicit Types (c : config S) (l : listening S) (d : process S).

(** What a step of the listener does to the flushers: nothing, or a step of theirs. *)
Inductive behind_case l l' (e : levent) : Prop :=
| behind_same : behind l' = behind l → e ≠ LClose → behind_case l l' e
| behind_step ce : cstep ce (behind l) = Ok (Some (behind l')) →
    (ce = CStop ↔ e = LClose) → behind_case l l' e.

Lemma lstep_behind e l l' : lstep e l = Ok (Some l') → behind_case l l' e.
Proof.
  intros H. destruct e as [|i b|i|i|b| | | | | | | |[i|i|b|]| |]; cbn [CarbonListener.lstep] in H;
    try (apply when_Ok in H as [_ ->]); repeat case_match; simplify_eq; try (by apply behind_same);
    apply through_Ok in H as (c & Hc & ->); by eapply behind_step.
Qed.

Lemma lstep_stop e l l' :
  lstep e l = Ok (Some l') →
  match e with
  | LStop => stop l = Serving ∧ stop l' = Waiting
  | LClose => stop l = Waiting ∧ stop l' = Stopped
  | _ => stop l' = stop l
  end.
Proof.
  intros H. destruct e as [|i b|i|i|b| | | | | | | |[i|i|b|]| |]; cbn [CarbonListener.lstep] in H;
    try (apply when_Ok in H as [_ ->]); repeat case_match; simplify_eq; try done;
    try (apply through_Ok in H as (c & Hc & ->); try done).
  split; [|done]. by case_bool_decide.
Qed.

(** *** The flushers *)

(** A flusher returns from the closed and empty channel. *)
Definition done_empty c : Prop :=
  ∀ i b, c_flushers c !! i = Some (mkFlusher b true) → c_chan c = [] ∧ c_closed c = true.

Lemma done_empty_step e c c' : step_case c e c' → done_empty c → done_empty c'.
Proof.
  intros Hs Hd j b' Hj. destruct Hs as [i b Hi|i b x rest s Hi Hx Ho|i b Hi Hx Hc|x s Hx|Hn]; cbn in *.
  - destruct (tick_shared publisher (view b c)) as [-> ->]. cbn.
    apply list_lookup_insert_Some in Hj as [(_ & [=] & _)|[_ Hj]]. by eapply Hd.
  - apply list_lookup_insert_Some in Hj as [(_ & [=] & _)|[_ Hj]]. apply Hd in Hj as [Hj _]. congruence.
  - by split.
  - apply Dispatch_effect in Hx as (_ & _ & Hcl & _ & Hsame & _). apply Hd in Hj as [H1 H2].
    cbn in *. rewrite (Hsame H2). by split.
  - apply Hd in Hj as [_ Hj]. congruence.
Qed.

Lemma flushers_length e c c' : step_case c e c' → length (c_flushers c') = length (c_flushers c).
Proof. destruct 1; cbn; rewrite ?length_insert; done. Qed.

Lemma returned_stays e c c' : step_case c e c' → all_returned c → all_returned c'.
Proof.
  unfold all_returned. intros Hs Ha.
  destruct Hs as [i b Hi|i b x rest s Hi Hx Ho|i b Hi Hx Hc|x s Hx|Hn]; cbn; try done;
    by eapply Forall_lookup_1 in Ha; [|exact Hi].
Qed.

(** Once all have returned nothing is left. *)
Lemma returned_pending c : c_flushers c ≠ [] → done_empty c → all_returned c → pending c = 0.
Proof.
  intros Hn Hd Ha. unfold pending. rewrite (proj2 (running_returned c) Ha).
  destruct (c_flushers c) as [|[b d] fs] eqn:Ef; [done|].
  unfold all_returned in Ha. rewrite Ef in Ha. apply Forall_cons in Ha as [Hb _]. cbn in Hb. subst d.
  destruct (Hd 0 b) as [-> _]; [by rewrite Ef|done].
Qed.

(** *** The process *)

(** Where the listener is when [Carbon.Stop] is here. *)
Definition phase_ok (p : carbon_phase) l : Prop :=
  match p with
  | CIdle => stop l = Serving
  | CListener => stop l ≠ Stopped
  | CChan => False
  | CAwait => stop l = Stopped
  | CStopped => stop l = Stopped ∧ all_returned (behind l)
  end ∧ c_closed (behind l) = bool_decide (p = CAwait ∨ p = CStopped).

(** The states of Shutdown.v this one stands for. While the channel is open the
    receives that will be left are not known, and any number does. *)
Definition refines d : Prop :=
  if c_closed (behind (input d))
  then ∃ m, reachable m (with_left (pending (behind (input d))) (shut d))
  else ∀ m, reachable m (with_left m (shut d)).

Record pinv d : Prop := {
  p_linv : linv (input d);
  p_phase : phase_ok (carbon (shut d)) (input d);
  p_done : done_empty (behind (input d));
  p_some : c_flushers (behind (input d)) ≠ [];
  p_refines : refines d }.

Lemma refines_reachable d : refines d → ∃ m k, reachable m (with_left k (shut d)).
Proof. unfold refines. destruct (c_closed _); [intros [m H]; by eexists _, _|intros H; by eexists 0, _]. Qed.

Lemma pinv_launch n p : 0 < n → pinv (launch n p).
Proof.
  intros Hn. split; [by split|done| | |].
  - intros i b Hi. cbn in Hi. apply lookup_replicate in Hi as [[=] _].
  - by destruct n; [lia|].
  - intros m. by exists [].
Qed.

(** A step of the handler, the API or the metrics server. *)
Lemma pinv_act a d q :
  carbon_act a = false → act_step a (shut d) = Some q → pinv d → pinv (with_shut q d).
Proof.
  intros Ha Hs [Hl Hp Hd Hn Hr].
  assert (Hr' : refines (with_shut q d)).
  { unfold refines in *. cbn [input with_shut shut].
    assert (Hk : ∀ m k, reachable m (with_left k (shut d)) → reachable m (with_left k q)).
    { intros m k Hm. eapply reachable_step; [exact Hm|]. rewrite act_step_with_left by done. by rewrite Hs. }
    destruct (c_closed _); [destruct Hr as [m Hr]; exists m|intros m]; apply Hk, Hr || by apply Hk. }
  split; try done. cbn [shut with_shut input].
  apply refines_reachable in Hr as (m & k & Hm). apply reachable_inv in Hm.
  assert (Hs' : act_step a (with_left k (shut d)) = Some (with_left k q))
    by (rewrite act_step_with_left by done; by rewrite Hs).
  apply act_step_carbon in Hs' as [_ Hc]; [|done|done]. cbn in Hc.
  destruct Hc as [->|[H1 ->]]; [done|]. rewrite H1 in Hp. destruct Hp as [Hp1 Hp2]. split; [|done]. by rewrite Hp1.
Qed.
(** A step of the carbon input that neither stops the listener nor closes the channel. *)
Lemma pinv_listen e d l' :
  e ≠ LStop → e ≠ LClose → lstep e (input d) = Ok (Some l') → exited (shut d) = None →
  pinv d → pinv (mkProcess (shut d) l' (requests d)).
Proof.
  intros He1 He2 Hs Hx [Hl Hp Hd Hn Hr].
  assert (Hl' : linv l') by (eapply linv_step; [exact Hs|exact Hl]).
  pose proof (lstep_stop _ _ _ Hs) as Hst.
  assert (Hst' : stop l' = stop (input d)) by (by destruct e). clear Hst.
  apply lstep_behind in Hs as [Hb _|ce Hb Hce].
  { split; cbn [input shut].
    - done.
    - unfold phase_ok in *. by rewrite Hb, Hst'.
    - by rewrite Hb.
    - by rewrite Hb.
    - unfold refines in *. cbn [input shut]. by rewrite Hb. }
  assert (Hne : ce ≠ CStop) by (intros ->; apply He2; by apply Hce).
  pose proof Hb as Hcl. apply cstep_closed in Hcl.
  assert (Hcl' : c_closed (behind l') = c_closed (behind (input d))) by (by destruct ce). clear Hcl.
  apply cstep_case in Hb. split; cbn [input shut].
  - done.
  - unfold phase_ok in *. rewrite Hcl', Hst'. destruct Hp as [Hp1 Hp2]. split; [|done].
    destruct (carbon (shut d)); try done. destruct Hp1. split; [done|]. by eapply returned_stays.
  - by eapply done_empty_step.
  - intros H0. apply Hn. apply flushers_length in Hb. rewrite H0 in Hb. by apply nil_length_inv.
  - unfold refines in *. cbn [input shut]. rewrite Hcl'.
    destruct (c_closed (behind (input d))) eqn:Ec; [|done]. destruct Hr as [m Hr].
    pose proof Ec as Hk. eapply step_pending in Hk as [_ Hk]; [|exact Hb].
    destruct (is_receive ce) as [|k] eqn:Ek; [exists m; cbn in Hk; by rewrite Hk|].
    assert (k = 0) as -> by (destruct ce; cbn in Ek; lia).
    assert (Hca : carbon (shut d) = CAwait).
    { destruct Hp as [Hp1 Hp2]. rewrite Ec in Hp2. symmetry in Hp2.
      apply bool_decide_eq_true in Hp2 as [?|Hca]; [done|]. rewrite Hca in Hp1.
      destruct Hp1 as [_ Hp1]. apply returned_pending in Hp1; [lia|done|done]. }
    exists m. eapply (reachable_step _ FlusherReceives); [exact Hr|].
    unfold Shutdown.act_step, with_left. cbn [exited carbon left]. rewrite Hx, Hca, <- Hk. cbn iota.
    rewrite (bool_decide_eq_true_2 (0 < _)) by lia. done.
Qed.

Lemma pinv_close d l' :
  carbon (shut d) = CListener → lstep LClose (input d) = Ok (Some l') → exited (shut d) = None →
  pinv d → pinv (mkProcess (with_carbon CAwait (shut d)) l' (requests d)).
Proof.
  intros Hc Hs Hx [Hl Hp Hd Hn Hr].
  assert (Hl' : linv l') by (eapply linv_step; [exact Hs|exact Hl]).
  pose proof (lstep_stop _ _ _ Hs) as [_ Hst].
  rewrite Hc in Hp. destruct Hp as [_ Hp]. rewrite bool_decide_eq_false_2 in Hp by naive_solver.
  apply lstep_behind in Hs as [Hb H0|ce Hb Hce]; [done|].
  assert (ce = CStop) as -> by (by apply Hce). pose proof Hb as Hcl. apply cstep_closed in Hcl.
  apply cstep_case in Hb. split; cbn [input shut].
  - done.
  - split; [done|]. by rewrite Hcl.
  - by eapply done_empty_step.
  - intros H0. apply Hn. apply flushers_length in Hb. rewrite H0 in Hb. by apply nil_length_inv.
  - unfold refines in *. cbn [input shut]. rewrite Hcl. rewrite Hp in Hr.
    set (m := pending (behind l')). exists m.
    apply (reachable_step _ CarbonClose _ (with_left m (with_carbon CChan (shut d)))).
    + apply (reachable_step _ CarbonListener _ (with_left m (shut d))); [apply Hr|].
      unfold Shutdown.act_step. cbn [exited with_left carbon]. by rewrite Hx, Hc.
    + unfold Shutdown.act_step. cbn [exited with_left with_carbon carbon]. by rewrite Hx.
Qed.
Lemma pinv_requests r d : pinv d → pinv (with_requests r d).
Proof. by intros []. Qed.

Lemma carried_Ok q d r d' :
  carried q d r = Ok (Some d') ↔ ∃ l, r = Ok (Some l) ∧ d' = mkProcess q l (requests d).
Proof. destruct r as [[l|]| |]; cbn; naive_solver. Qed.

Lemma pinv_flushed d :
  carbon (shut d) = CAwait → all_returned (behind (input d)) → exited (shut d) = None →
  pinv d → pinv (with_shut (with_carbon CStopped (shut d)) d).
Proof.
  intros Hc Ha Hx [Hl Hp Hd Hn Hr]. rewrite Hc in Hp. destruct Hp as [Hp1 Hp2].
  rewrite bool_decide_eq_true_2 in Hp2 by naive_solver. split; cbn [input shut with_shut]; try done.
  unfold refines in *. cbn [input shut with_shut]. rewrite Hp2 in *. destruct Hr as [m Hr]. exists m.
  rewrite (returned_pending _ Hn Hd Ha) in *. eapply (reachable_step _ CarbonDone); [exact Hr|].
  unfold Shutdown.act_step, with_left, with_carbon. cbn [exited carbon left signalled handler timer complete api served ms].
  by rewrite Hx, Hc.
Qed.

(** What a step of the process is. *)
Inductive pstep_case d : process S → Prop :=
| case_act a q : carbon_act a = false → act_step a (shut d) = Some q → pstep_case d (with_shut q d)
| case_listener_stop l' : carbon (shut d) = CListener → stop (input d) = Serving →
    lstep LStop (input d) = Ok (Some l') → pstep_case d (mkProcess (shut d) l' (requests d))
| case_close l' : carbon (shut d) = CListener → lstep LClose (input d) = Ok (Some l') →
    pstep_case d (mkProcess (with_carbon CAwait (shut d)) l' (requests d))
| case_listen e l' : e ≠ LStop → e ≠ LClose → lstep e (input d) = Ok (Some l') →
    pstep_case d (mkProcess (shut d) l' (requests d))
| case_flushed : carbon (shut d) = CAwait → all_returned (behind (input d)) →
    pstep_case d (with_shut (with_carbon CStopped (shut d)) d)
| case_requests r : pstep_case d (with_requests r d).

Lemma pstep_cases e d d' : pstep e d = Ok (Some d') → exited (shut d) = None ∧ pstep_case d d'.
Proof.
  unfold Process.pstep. intros H. destruct (exited (shut d)); [done|]. split; [done|].
  destruct e as [a|e| | |i|i].
  - destruct (carbon_act a) eqn:Ea; [done|]. injection H as H.
    apply fmap_Some in H as (q & Hq & ->). by eapply case_act.
  - destruct e; try (apply carried_Ok in H as (l & Hl & ->); eapply case_listen; [| |exact Hl]; done);
      case_bool_decide as Hb; try done; apply carried_Ok in H as (l & Hl & ->).
    + destruct Hb. by apply case_listener_stop.
    + by apply case_close.
  - destruct (bool_decide _ && _) eqn:Eb; [|done]. apply andb_prop in Eb as [H1 H2].
    injection H as <-. apply case_flushed; [by apply bool_decide_eq_true in H1|].
    apply Is_true_true, forallb_True in H2. eapply Forall_impl; [exact H2|]. intros f. apply Is_true_true.
  - destruct (listens (shut d)); [|done]. injection H as <-. apply case_requests.
  - destruct (bool_decide _); [|done]. injection H as <-. apply case_requests.
  - destruct (bool_decide _); [|done]. injection H as <-. apply case_requests.
Qed.

Lemma pinv_step e d d' : pstep e d = Ok (Some d') → pinv d → pinv d'.
Proof.
  intros H I. apply pstep_cases in H as [Hx H].
  destruct H as [a q Ha Hq|l' Hc Hs Hl|l' Hc Hl|e' l' H1 H2 Hl|Hc Ha|r].
  - by eapply pinv_act.
  - destruct I as [Hv Hp Hd Hn Hr]. pose proof (lstep_stop _ _ _ Hl) as [_ Hst].
    assert (Hv' : linv l') by (eapply linv_step; [exact Hl|exact Hv]).
    assert (Hb : behind l' = behind (input d)) by (cbn in Hl; rewrite Hs in Hl; by injection Hl as <-).
    split; cbn [input shut]; try (by rewrite Hb).
    + done.
    + rewrite Hc in *. destruct Hp as [_ Hp]. split; [by rewrite Hst|by rewrite Hb].
    + unfold refines in *. cbn [input shut]. by rewrite Hb.
  - by apply pinv_close.
  - by eapply pinv_listen.
  - by apply pinv_flushed.
  - by apply pinv_requests.
Qed.

Lemma prun_inv (I : process S → Prop) es d d' :
  (∀ e d d', pstep e d = Ok (Some d') → I d → I d') → I d → prun es d = Ok (Some d') → I d'.
Proof.
  intros Hstep. revert d. induction es as [|e es IH]; intros d Hd; [by intros [= <-]|]. cbn.
  destruct (pstep e d) as [[d1|]| |] eqn:E1; try done. by apply IH, (Hstep e d).
Qed.

(** No line is lost sight of by any step. *)
Lemma pstep_lines e d d' :
  keeps_length publisher → pstep e d = Ok (Some d') → lines (behind (input d')) = lines (behind (input d)).
Proof.
  intros Hk H. apply pstep_cases in H as [_ H].
  assert (Hl : ∀ e l, lstep e (input d) = Ok (Some l) → lines (behind l) = lines (behind (input d))).
  { intros e0 l Hl. apply lstep_behind in Hl as [-> _|ce Hc _]; [done|].
    by eapply step_lines, cstep_case. }
  destruct H; cbn; eauto.
Qed.

(** ** Going on *)

#[local] Abbreviation lrun :=
  (lrun ParseFloat publisher ValidatePacket authenticate requirePublisher nonBlockingBuffer bufferSize).

Definition rank (s : stop_phase) : nat := match s with Serving => 0 | Waiting => 1 | Stopped => 2 end.

Lemma lrun_rank es l l' : lrun es l = Ok (Some l') → rank (stop l) ≤ rank (stop l').
Proof.
  revert l. induction es as [|e es IH]; intros l; [by intros [= <-]|]. cbn [CarbonListener.lrun].
  destruct (lstep e l) as [[l1|]| |] eqn:E1; try done. intros H%IH. apply lstep_stop in E1.
  destruct e; try (by rewrite <- E1); destruct E1 as [E1 E2]; rewrite E2 in H; rewrite E1; cbn in *; lia.
Qed.

(** A schedule after which [Stop] is where it was is one of the process. *)
Lemma prun_listen es d l' :
  exited (shut d) = None → lrun es (input d) = Ok (Some l') → stop l' = stop (input d) →
  prun (PCarbon <$> es) d = Ok (Some (mkProcess (shut d) l' (requests d))).
Proof.
  intros Hx. destruct d as [q l r]. cbn in *. revert l. induction es as [|e es IH]; intros l; [by intros [= <-]|].
  cbn [CarbonListener.lrun]. destruct (lstep e l) as [[l1|]| |] eqn:E1; try done. intros H Hs.
  pose proof (lrun_rank _ _ _ H) as Hr. pose proof (lstep_stop _ _ _ E1) as Hst.
  assert (He : e ≠ LStop ∧ e ≠ LClose ∧ stop l1 = stop l).
  { destruct e; try done; destruct Hst as [H1 H2]; rewrite H1 in Hs; rewrite Hs, H2 in Hr; cbn in Hr; lia. }
  destruct He as (H1 & H2 & H3). cbn [fmap list_fmap Process.prun].
  assert (Es : pstep (PCarbon e) (mkProcess q l r) = Ok (Some (mkProcess q l1 r))).
  { unfold Process.pstep. cbn [shut input]. rewrite Hx. destruct e; try done; by rewrite E1. }
  rewrite Es. apply IH; [done|by rewrite Hs, H3].
Qed.

Lemma prun_app es1 es2 d d1 : prun es1 d = Ok (Some d1) → prun (es1 ++ es2) d = prun es2 d1.
Proof.
  revert d. induction es1 as [|e es1 IH]; intros d; [by intros [= ->]|]. cbn.
  destruct (pstep e d) as [[d'|]| |]; [apply IH|done..].
Qed.

Lemma prun_snoc es e d d1 d2 : prun es d = Ok (Some d1) → pstep e d1 = Ok (Some d2) → prun (es ++ [e]) d = Ok (Some d2).
Proof. intros H1 H2. rewrite (prun_app _ _ _ _ H1). cbn. by rewrite H2. Qed.

Section live.
Context (no_panic : ∀ b s, ∃ s', on_packet (S:=S) ParseFloat ValidatePacket authenticate requirePublisher b s = Ok s').
Context (room : 0 < bufferSize).

(** Unless it is past its end, the carbon listener reads from its first sockets. *)
Definition calm d : Prop := carbon (shut d) ≠ CAwait → carbon (shut d) ≠ CStopped → undisturbed (input d).

(** [c.listener.Stop()] returns and the channel is closed. *)
Lemma listener_stops d :
  pinv d → calm d → flushing (behind (input d)) → carbon (shut d) = CListener → exited (shut d) = None →
  ∃ es l', prun es d = Ok (Some (mkProcess (with_carbon CAwait (shut d)) l' (requests d))).
Proof.
  intros [Hl Hp Hd Hn _] Hu Hf Hc Hx. unfold calm in Hu. rewrite Hc in Hp, Hu. destruct Hp as [Hs Hcl].
  specialize (Hu ltac:(done) ltac:(done)).
  rewrite bool_decide_eq_false_2 in Hcl by naive_solver.
  assert (Hw : ∃ es l1, prun es d = Ok (Some (mkProcess (shut d) l1 (requests d))) ∧ stopping l1).
  { destruct (stop (input d)) eqn:Es; [| |done].
    2: { exists [], (input d). split; [by destruct d|]. split; [exact Hu|]. split; [exact Es|]. split; [exact Hcl|by apply Hf]. }
    eexists [PCarbon LStop], _. split.
    - cbn [Process.prun]. unfold Process.pstep. rewrite Hx, bool_decide_eq_true_2 by done.
      cbn [CarbonListener.lstep]. rewrite Es. done.
    - split; [exact Hu|]. split; [done|]. split; [exact Hcl|by apply Hf]. }
  destruct Hw as (es1 & l1 & R1 & S1).
  destruct (all_gone ParseFloat publisher ValidatePacket authenticate requirePublisher nonBlockingBuffer bufferSize
    no_panic room l1 S1) as (es2 & l2 & R2 & S2 & W2).
  destruct (close_ok ParseFloat publisher ValidatePacket authenticate requirePublisher nonBlockingBuffer bufferSize
    l2 S2 W2) as (l3 & R3 & _).
  exists (es1 ++ (PCarbon <$> es2) ++ [PCarbon LClose]), l3. rewrite (prun_app _ _ _ _ R1).
  eapply prun_snoc.
  - apply prun_listen; [done|exact R2|]. etransitivity; [apply S2|symmetry; apply S1].
  - unfold Process.pstep. cbn [shut input requests]. rewrite Hx, bool_decide_eq_true_2 by done. by rewrite R3.
Qed.

(** [c.flushWg.Wait()] returns. *)
Lemma flushers_end d :
  pinv d → carbon (shut d) = CAwait → exited (shut d) = None →
  ∃ es l', prun es d = Ok (Some (mkProcess (with_carbon CStopped (shut d)) l' (requests d))).
Proof.
  intros [Hl Hp Hd Hn _] Hc Hx. rewrite Hc in Hp. destruct Hp as [Hs Hcl].
  rewrite bool_decide_eq_true_2 in Hcl by naive_solver.
  destruct (stop_returns ParseFloat publisher ValidatePacket authenticate requirePublisher nonBlockingBuffer bufferSize
    no_panic room (input d) Hcl) as (es & l' & R & S' & A).
  exists ((PCarbon <$> es) ++ [PFlushed]), l'. eapply prun_snoc; [by apply prun_listen|].
  unfold Process.pstep. cbn [shut input requests]. rewrite Hx, bool_decide_eq_true_2 by done.
  assert (forallb f_done (c_flushers (behind l')) = true) as ->; [|done].
  apply Is_true_true, forallb_True. eapply Forall_impl; [exact A|]. intros f. apply Is_true_true.
Qed.

Lemma flushing_pstep e d d' :
  pstep e d = Ok (Some d') → flushing (behind (input d)) → flushing (behind (input d')).
Proof.
  intros H Hf. apply pstep_cases in H as [_ H].
  destruct H; cbn; try done; by eapply flushing_lstep.
Qed.

(** One goroutine of the shutdown goes on, without the timer. *)
Lemma shutdown_goes_on d :
  plugin_ok = true → pinv d → calm d → flushing (behind (input d)) → signalled (shut d) = true → exited (shut d) = None →
  ∃ es q l, prun es d = Ok (Some (mkProcess q l (requests d))) ∧ signalled q = true ∧ timer q = timer (shut d) ∧
    (exited q = None ∨ exited q = Some Returned) ∧ calm (mkProcess q l (requests d)) ∧
    steps_left (with_left 0 q) < steps_left (with_left 0 (shut d)).
Proof.
  intros Hok I Hu Hf Hsig Hx. pose proof (p_refines _ I) as (m & k & Hr)%refines_reachable.
  apply reachable_inv in Hr as [i1 i2 i3 i4 i5 _ _ i7 i8].
  assert (I0 : inv true plugin_ok (with_left 0 (shut d))) by (by split).
  destruct (act_progress true plugin_ok true _ I0 Hsig Hx ltac:(done)) as [(a & Ht & Hm & q0 & Ha)|Hw];
    [|by destruct Hw as (_ & ? & _)].
  destruct (carbon_act a) eqn:Ec.
  - assert (Hcase : carbon (shut d) = CListener ∨ carbon (shut d) = CAwait).
    { pose proof (p_phase _ I) as [Hp _]. unfold Shutdown.act_step in Ha. cbn in Ha. rewrite Hx in Ha.
      destruct a; try done; apply guard_Some in Ha as [Hg _]; repeat (apply andb_prop in Hg as [Hg ?]);
        apply bool_decide_eq_true in Hg; auto. by rewrite Hg in Hp. }
    destruct Hcase as [Hc|Hc].
    + destruct (listener_stops d I Hu Hf Hc Hx) as (es & l & H).
      exists es, (with_carbon CAwait (shut d)), l. split_and!; try done; [by left|].
      unfold steps_left, api_left, carbon_left, ms_left, handler_left. cbn. rewrite Hc. lia.
    + destruct (flushers_end d I Hc Hx) as (es & l & H).
      exists es, (with_carbon CStopped (shut d)), l. split_and!; try done; [by left|].
      unfold steps_left, api_left, carbon_left, ms_left, handler_left. cbn. rewrite Hc. lia.
  - rewrite act_step_with_left in Ha by done. apply fmap_Some in Ha as (q & Hq & ->).
    assert (Hkeeps : signalled q = true ∧ timer q = timer (shut d) ∧ (exited q = None ∨ exited q = Some Returned)).
    { unfold Shutdown.act_step in Hq. rewrite Hx in Hq.
      destruct a; try done; apply guard_Some in Hq as [_ <-]; rewrite ?Hok; cbn; auto. }
    destruct Hkeeps as (H1 & H2 & H3). exists [PAct a], q, (input d). split_and!; try done.
    + cbn [Process.prun]. unfold Process.pstep. rewrite Hx, Ec, Hq. done.
    + assert (Hq0 : act_step a (with_left 0 (shut d)) = Some (with_left 0 q)) by (by rewrite act_step_with_left, Hq).
      apply act_step_carbon in Hq0 as [_ Hc]; [|done|done]. cbn in Hc. unfold calm in *. cbn [shut input].
      destruct Hc as [->|[Hc ->]]; [done|]. intros _ _. by apply Hu; rewrite Hc.
    + apply (act_step_left true plugin_ok true a); [done|]. rewrite act_step_with_left by done. by rewrite Hq.
Qed.

Lemma shutdown_ends d :
  plugin_ok = true → pinv d → calm d → flushing (behind (input d)) → signalled (shut d) = true → exited (shut d) = None →
  ∃ es d', prun es d = Ok (Some d') ∧ exited (shut d') = Some Returned ∧ timer (shut d') = timer (shut d) ∧
    requests d' = requests d.
Proof.
  intros Hok. remember (steps_left (with_left 0 (shut d))) as n eqn:En.
  revert d En. induction n as [n IH] using lt_wf_ind. intros d -> I Hu Hf Hsig Hx.
  destruct (shutdown_goes_on d Hok I Hu Hf Hsig Hx) as (es & q & l & H & Hsig' & Ht & He & Hu' & Hlt).
  destruct He as [He|He]; [|by exists es, (mkProcess q l (requests d))].
  assert (I' : pinv (mkProcess q l (requests d))) by (eapply (prun_inv pinv); [apply pinv_step|exact I|exact H]).
  assert (Hf' : flushing (behind l)).
  { apply (prun_inv (λ d, flushing (behind (input d)))) in H; [done|apply flushing_pstep|done]. }
  destruct (IH _ Hlt (mkProcess q l (requests d)) eq_refl I' Hu' Hf' Hsig' He) as (es' & d' & H' & H1 & H2 & H3).
  exists (es ++ es'), d'. split_and!; [by rewrite (prun_app _ _ _ _ H)|done|by rewrite H2|done].
Qed.
End live.

(** A listener that hangs keeps [Carbon.Stop] from its end. *)
Definition breaks (e : pevent) : bool := match e with PCarbon e => fails e | _ => false end.

Lemma hung_pstep e d d' :
  breaks e = false → pstep e d = Ok (Some d') → hung (input d) ∧ stop (input d) ≠ Stopped →
  hung (input d') ∧ stop (input d') ≠ Stopped.
Proof.
  intros Hb H [Hh Hs]. unfold Process.pstep in H. destruct (exited (shut d)); [done|].
  assert (Hl : ∀ e0 l, fails e0 = false → lstep e0 (input d) = Ok (Some l) → hung l ∧ stop l ≠ Stopped).
  { intros e0 l H1 H2. split.
    - by eapply hung_step.
    - eapply (hung_never_stops _ _ _ _ _ _ _ [e0]); [cbn; by rewrite H1|cbn; by rewrite H2|done|done]. }
  destruct e as [a|e| | |i|i]; [| |by repeat case_match; simplify_eq..].
  - destruct (carbon_act a); [done|]. injection H as H. by apply fmap_Some in H as (q & _ & ->).
  - destruct e; cbn iota in H; try case_bool_decide; try done; apply carried_Ok in H as (l & H & ->); exact (Hl _ _ Hb H).
Qed.

Lemma hung_prun es d d' :
  forallb (λ e, negb (breaks e)) es = true → prun es d = Ok (Some d') →
  hung (input d) ∧ stop (input d) ≠ Stopped → hung (input d') ∧ stop (input d') ≠ Stopped.
Proof.
  revert d. induction es as [|e es IH]; intros d; [by intros _ [= <-]|]. cbn.
  intros [He Hes]%andb_prop. apply negb_true_iff in He.
  destruct (pstep e d) as [[d1|]| |] eqn:E1; try done. intros H Hd. eapply IH; [done..|]. by eapply hung_pstep.
Qed.

(** ** Properties *)

(** C15. The process refines the shutdown of Shutdown.v. Whatever the carbon
    connections, the flushers and the requests do, the goroutines of the shutdown
    are in a state that is reachable there; and from the close of the channel on,
    the receives left to the flushers there are those that are pending here, a
    line of the channel or a flusher's return each. *)
Theorem process_refines_shutdown n p es d :
  0 < n → prun es (launch n p) = Ok (Some d) →
  ∃ m k, reachable m (with_left k (shut d)) ∧
    (c_closed (behind (input d)) = true → k = pending (behind (input d))).
Proof.
  intros Hn H. apply (prun_inv pinv) in H as [_ _ _ _ Hr]; [|by apply pinv_step|by apply pinv_launch].
  unfold refines in Hr. destruct (c_closed _); [destruct Hr as [m Hr]; by eexists m, _|by exists 0, 0].
Qed.

(** C14. What an orderly return of [main] means for the carbon lines. Unless the timer
    fired, the connections are gone, the channel is empty and all flushers have
    returned, and each line that was ever received was published, rejected,
    dropped for the full channel or for its key, or is in the slice of a flusher,
    from where nobody publishes it any more: those of the last flush interval
    and of the flushes that failed. *)
Theorem orderly_return_accounts_for_every_line n p es d :
  0 < n → keeps_length publisher → prun es (launch n p) = Ok (Some d) → exited (shut d) = Some Returned →
  timer (shut d) = true ∨
  let c := behind (input d) in
  wg (input d) = 0 ∧ c_chan c = [] ∧ all_returned c ∧
  (received (c_cnt c) = Z.of_nat (buffered c) + valid (c_cnt c) + rejected (c_cnt c)
     + droppedFull (c_cnt c) + droppedAuth (c_cnt c))%Z.
Proof.
  intros Hn Hk H Hx. pose proof H as Hi.
  apply (prun_inv pinv) in Hi as [Hl Hp Hd Hf Hr]; [|by apply pinv_step|by apply pinv_launch].
  assert (Hb : lines (behind (input d)) = 0%Z).
  { apply (prun_inv (λ d', lines (behind (input d')) = 0%Z)) in H; [done| |].
    - intros e d1 d2 H1 H2. by rewrite (pstep_lines _ _ _ Hk H1).
    - unfold lines, buffered. cbn. clear. induction n; [done|exact IHn]. }
  apply refines_reachable in Hr as (m & k & Hr). apply reachable_inv in Hr as [_ _ Hc _ _ _ _ Hdone He].
  cbn in Hc, Hdone, He. rewrite Hx in He. destruct (Hdone He) as [?|Hcc]; [by left|right].
  apply Hc in Hcc as (_ & Hca & _). rewrite Hca in Hp. destruct Hp as [[Hs Ha] _].
  pose proof (returned_pending _ Hf Hd Ha) as Hq.
  assert (Hch : c_chan (behind (input d)) = []).
  { unfold pending in Hq. destruct (c_chan _); [done|cbn in Hq; lia]. }
  cbv zeta. split_and!; [by apply Hl|done|done|].
  unfold lines, balance in Hb. cbn in Hb. rewrite Hch in Hb. cbn in Hb. lia.
Qed.

(** C16. When [main] can return. With a plugin that stops cleanly, no line that
    makes the parser panic, a flusher and room for a line: from every state of a
    shutdown in which the carbon listener still reads from the sockets it started
    with, the goroutines can go on until [main] returns, without the timer, even
    with every carbon connection stuck in [Dispatch]; and without any request of
    the API that is being handled then being answered. But when an error made the
    listener open a socket again, the shutdown does not close that one: whatever
    the goroutines do, unless a socket of the listener fails once more, [main]
    does not return before the two-minute timer has fired. *)
Theorem main_can_return_and_cuts_requests_off n p es d :
  (∀ b s, ∃ s', on_packet (S:=S) ParseFloat ValidatePacket authenticate requirePublisher b s = Ok s') →
  0 < bufferSize → 0 < n → plugin_ok = true →
  prun es (launch n p) = Ok (Some d) → signalled (shut d) = true → exited (shut d) = None →
  (undisturbed (input d) →
   ∃ es' d', prun es' d = Ok (Some d') ∧ exited (shut d') = Some Returned ∧ timer (shut d') = timer (shut d) ∧
     requests d' = requests d) ∧
  (hung (input d) →
   ∀ es' d', prun es' d = Ok (Some d') → forallb (λ e, negb (breaks e)) es' = true →
     exited (shut d') = Some Returned → timer (shut d') = true).
Proof.
  intros Hpan Hroom Hn Hok H Hsig Hx.
  assert (I : pinv d) by (eapply (prun_inv pinv); [apply pinv_step|by apply pinv_launch|exact H]). split.
  - intros Hu. apply shutdown_ends; try done; [by intros _ _|].
    apply (prun_inv (λ d, flushing (behind (input d)))) in H; [done| |by apply (Start_flushing bufferSize)].
    intros e d1 d2. apply flushing_pstep.
  - intros Hh es' d' H' Hes Hret. assert (I' : pinv d') by (by eapply (prun_inv pinv); [apply pinv_step|exact I|]).
    assert (Hs : stop (input d) ≠ Stopped) by (intros Hs; by apply (li_stopped _ (p_linv _ I)), hung_wg in Hs).
    destruct (hung_prun _ _ _ Hes H' (conj Hh Hs)) as [_ Hs'].
    pose proof (p_refines _ I') as (m & k & Hr)%refines_reachable.
    apply reachable_inv in Hr as [_ _ Hc _ _ _ _ Hdone He]. cbn in Hc, Hdone, He. rewrite Hret in He.
    destruct (Hdone He) as [?|Hcc]; [done|]. apply Hc in Hcc as (_ & Hca & _).
    pose proof (p_phase _ I') as [Hp _]. rewrite Hca in Hp. destruct Hp as [Hp _]. by destruct (Hs' Hp).
Qed.
End spec.

(** ** Witnesses

    A request is being handled and two lines have been accepted when the
    interrupt comes; [main] returns in order. *)
Definition ex_until_interrupt : list pevent :=
  [PConnect; PRequest 0; PCarbon LAccept; PCarbon (LLine 0 ex_line); PCarbon (LSend 0);
   PCarbon (LFlush (CReceive 0)); PCarbon (LLine 0 ex_line); PCarbon (LSend 0); PAct Interrupt].
Definition ex_orderly_end : list pevent :=
  [PAct Spawn; PCarbon LStop; PCarbon LTcpEnds; PCarbon LUdpEnds; PCarbon (LHangup 0); PCarbon LClose;
   PCarbon (LFlush (CReceive 0)); PAct ApiClose; PCarbon (LFlush (CReceive 0)); PAct ServeReturns; PFlushed;
   PAct ApiDone; PAct ApiPlugin; PAct MsClose; PAct Complete; PAct Select; PAct MainReturns].

#[local] Abbreviation ex_prun es := (prun ex_ParseFloat ex_publisher dotted ex_auth true false 10 true es
  (launch 1 (Publish.mkPState 0 ∅))).

Lemma process_refines_shutdown_witness :
  match ex_prun (ex_until_interrupt ++ take 6 ex_orderly_end) with
  | Ok (Some d) => pending (behind (input d)) = 2 ∧ ∃ m, reachable true true true m (with_left 2 (shut d))
  | _ => False
  end.
Proof.
  assert (H : match ex_prun (ex_until_interrupt ++ take 6 ex_orderly_end) with
    | Ok (Some d) => c_closed (behind (input d)) = true ∧ pending (behind (input d)) = 2
    | _ => False end) by (vm_compute; by split).
  destruct (ex_prun (ex_until_interrupt ++ take 6 ex_orderly_end)) as [[d|]| |] eqn:E; [|done..].
  destruct H as [Hc Hp]. split; [exact Hp|].
  destruct (process_refines_shutdown ex_ParseFloat ex_publisher dotted ex_auth true false 10 true 1
    (Publish.mkPState 0 ∅) _ d (le_n 1) E) as (m & k & H1 & H2).
  exists m. rewrite <- Hp, <- (H2 Hc). exact H1.
Defined.

Lemma orderly_return_accounts_for_every_line_witness :
  match ex_prun (ex_until_interrupt ++ ex_orderly_end) with
  | Ok (Some d) => timer (shut d) = false ∧ requests d = [true] ∧
      let c := behind (input d) in
      c_chan c = [] ∧ all_returned c ∧ buffered c = 2 ∧ received (c_cnt c) = 2%Z
  | _ => False
  end.
Proof.
  assert (H : match ex_prun (ex_until_interrupt ++ ex_orderly_end) with
    | Ok (Some d) => exited (shut d) = Some Returned ∧ timer (shut d) = false ∧ requests d = [true] ∧
        buffered (behind (input d)) = 2 ∧ received (c_cnt (behind (input d))) = 2%Z
    | _ => False end) by (vm_compute; split_and!; reflexivity).
  destruct (ex_prun (ex_until_interrupt ++ ex_orderly_end)) as [[d|]| |] eqn:E; [|done..].
  destruct H as (H1 & H2 & H3 & H4 & H5). split; [exact H2|]. split; [exact H3|].
  destruct (orderly_return_accounts_for_every_line ex_ParseFloat ex_publisher dotted ex_auth true false 10 true 1
    (Publish.mkPState 0 ∅) _ d (le_n 1) ex_keeps_length E H1) as [H|(_ & Hc & Ha & _)].
  - rewrite H2 in H. discriminate H.
  - cbv zeta. split; [exact Hc|]. split; [exact Ha|]. split; [exact H4|exact H5].
Defined.

(** The same with a listener whose [AcceptTCP] failed and which has opened a
    socket again when the interrupt comes. *)
Definition ex_reopened : list pevent := PCarbon LTcpFails :: PCarbon LTcpReopens :: ex_until_interrupt.

Lemma main_can_return_and_cuts_requests_off_witness :
  match ex_prun ex_until_interrupt with
  | Ok (Some d) => requests d = [true] ∧
      ∃ es' d', prun ex_ParseFloat ex_publisher dotted ex_auth true false 10 true es' d = Ok (Some d') ∧
        exited (shut d') = Some Returned ∧ timer (shut d') = timer (shut d) ∧ requests d' = requests d
  | _ => False
  end ∧
  match ex_prun ex_reopened with
  | Ok (Some d) =>
      ∀ es' d', prun ex_ParseFloat ex_publisher dotted ex_auth true false 10 true es' d = Ok (Some d') →
        forallb (λ e, negb (breaks e)) es' = true → exited (shut d') = Some Returned → timer (shut d') = true
  | _ => False
  end.
Proof.
  assert (H : match ex_prun ex_until_interrupt with
    | Ok (Some d) => requests d = [true] ∧ signalled (shut d) = true ∧ exited (shut d) = None ∧ undisturbed (input d)
    | _ => False end) by (vm_compute; repeat split; reflexivity).
  assert (H' : match ex_prun ex_reopened with
    | Ok (Some d) => signalled (shut d) = true ∧ exited (shut d) = None ∧ hung (input d)
    | _ => False end) by (vm_compute; repeat split; left; split; reflexivity).
  split.
  - destruct (ex_prun ex_until_interrupt) as [[d|]| |] eqn:E; [|done..].
    destruct H as (H1 & H2 & H3 & H4). split; [exact H1|].
    exact (proj1 (main_can_return_and_cuts_requests_off ex_ParseFloat ex_publisher dotted ex_auth true false 10 true 1
      (Publish.mkPState 0 ∅) ex_until_interrupt d (dotted_no_panic ex_ParseFloat ex_auth true)
      (le_n_S 0 9 (le_0_n 9)) (le_n 1) eq_refl E H2 H3) H4).
  - clear H. destruct (ex_prun ex_reopened) as [[d|]| |] eqn:E; [|done..]. destruct H' as (H2 & H3 & H4).
    exact (proj2 (main_can_return_and_cuts_requests_off ex_ParseFloat ex_publisher dotted ex_auth true false 10 true 1
      (Publish.mkPState 0 ∅) ex_reopened d (dotted_no_panic ex_ParseFloat ex_auth true)
      (le_n_S 0 9 (le_0_n 9)) (le_n 1) eq_refl E H2 H3) H4).
Defined.
