(* ===== verification/Startup.v ===== *)
(** * Starting the gateway

    [main] of cmd/tsdb-gw/main.go up to the point where the gateway serves, with
    [api.New] (api.go) and the part of [InitCarbon] that can fail. A
    [log.Fatal] is an [Err] of its reason. Parsing of flags and files, URLs and
    durations, the tracer and the sockets are parameters. *)

From S2P Require Import Prelude GoStrings Strconv KeyCache Kafka KafkaSpec Http Gcom AuthPlugins Ingest IngestSpec Api ApiSpec Query Cmd.
From Stdlib Require Import Ascii.

Inductive startup_error :=
| BadConfigFile | NoTracer | KafkaFatal (e : fatal) | BadURL (u : string) | BadLimits (e : config_error)
| SslWithoutFiles | BadKeyPair | BadAuthPlugin (name : string) | NoListener | NoCarbonListener.

(** The flags, with those of the packages. *)
Record main_flags := mkMainFlags {
  m_showVersion : bool; m_authPlugin : string; m_enforceRoles : bool; m_brokers : string;
  m_graphiteURL : string; m_metrictankURL : string; m_importerURL : string;
  m_timerangeLimit : string; m_rateLimits : string;
  m_ssl : bool; m_certFile : string; m_keyFile : string;
  m_carbon : bool; m_carbonAuthPlugin : string; m_kafka : kafka_flags }.

(** What the process finds: the configuration file, the tracer, Kafka's world,
    whether the key pair can be loaded, and whether the two sockets can be
    opened. *)
Record main_env := mkMainEnv {
  x_config_ok : bool; x_tracer_ok : bool; x_kafka : kafka_env; x_keypair_ok : bool;
  x_listen_ok : bool; x_carbon_listen_ok : bool }.

Section startup.
Context {L X P : Type} (Allow : L → L * bool) `{!AuthPlugin P}.
Context (NewLimiter : Z → Z → L).
(** [url.Parse]; [dur.MustParseNDuration], which panics. *)
Context (ParseURL : string → option URL) (ParseNDuration : string → option Z).

(** The gateway that serves; [g_kafka] is [None] with the null publisher. *)
Record gateway := mkGateway {
  g_kafka : option (mtPublisher * option KeyCache);
  g_timerange : Z; g_graphite : URL; g_metrictank : URL; g_importer : option URL;
  g_limits : gmap Z L; g_plugin : plugin_kind; g_carbon : option plugin_kind }.

Definition need (b : bool) (e : startup_error) : outcome startup_error unit := if b then Ok tt else Err e.

(** [util.New(kafka)]: the null publisher for a nil one. *)
Definition start_kafka (f : main_flags) (x : main_env) :
    outcome startup_error (option (mtPublisher * option KeyCache)) :=
  match New (m_kafka f) (x_kafka x) (Split "," (m_brokers f)) true with
  | Ok p => Ok p | Err e => Err (KafkaFatal e) | Panic => Panic
  end.

Definition start_timerange (f : main_flags) : outcome startup_error Z :=
  if bool_decide (0 < strlen (m_timerangeLimit f))
  then match ParseNDuration (m_timerangeLimit f) with Some n => Ok n | None => Panic end
  else Ok 0%Z.

Definition start_importer (f : main_flags) : outcome startup_error (option URL) :=
  if bool_decide (0 < strlen (m_importerURL f))
  then u ← or_err (ParseURL (m_importerURL f)) (BadURL (m_importerURL f)); mret (Some u)
  else Ok None.

Definition start_limits (f : main_flags) : outcome startup_error (gmap Z L) :=
  match ConfigureRateLimits NewLimiter (m_rateLimits f) ∅ with
  | (m, None) => Ok m
  | (_, Some e) => Err (BadLimits e)
  end.

Definition start_plugin (name : string) : outcome startup_error plugin_kind :=
  match GetAuthPlugin name with Ok k => Ok k | _ => Err (BadAuthPlugin name) end.

(** [api.New] *)
Definition NewApi (f : main_flags) (x : main_env) : outcome startup_error plugin_kind :=
  _ ← need (negb (m_ssl f && (bool_decide (m_certFile f = "") || bool_decide (m_keyFile f = ""))))
        SslWithoutFiles;
  k ← start_plugin (m_authPlugin f);
  _ ← need (x_listen_ok x) NoListener;
  mret k.

(** [Api.Start]. The key pair is loaded by the goroutine that serves, which ends
    the process when it cannot be. *)
Definition StartApi (f : main_flags) (x : main_env) : outcome startup_error unit :=
  need (negb (m_ssl f) || x_keypair_ok x) BadKeyPair.

(** [carbon.InitCarbon] *)
Definition start_carbon (f : main_flags) (x : main_env) : outcome startup_error (option plugin_kind) :=
  if negb (m_carbon f) then Ok None else
  k ← start_plugin (m_carbonAuthPlugin f);
  _ ← need (x_carbon_listen_ok x) NoCarbonListener;
  mret (Some k).

(** [Ok None]: the version was asked for. *)
Definition main (f : main_flags) (x : main_env) : outcome startup_error (option gateway) :=
  _ ← need (x_config_ok x) BadConfigFile;
  if m_showVersion f then Ok None else
  _ ← need (x_tracer_ok x) NoTracer;
  kafka ← start_kafka f x;
  limit ← start_timerange f;
  graphite ← or_err (ParseURL (m_graphiteURL f)) (BadURL (m_graphiteURL f));
  metrictank ← or_err (ParseURL (m_metrictankURL f)) (BadURL (m_metrictankURL f));
  importer ← start_importer f;
  limits ← start_limits f;
  plugin ← NewApi f x;
  _ ← StartApi f x;
  carbon ← start_carbon f x;
  mret (Some (mkGateway kafka limit graphite metrictank importer limits plugin carbon)).

(** The routes of the gateway, with a plugin of its kind. *)
Definition gateway_routes (f : main_flags) (g : gateway) (authPlugin : P)
    (serve : endpoint → list (handler (L:=L) (X:=X))) : list (route (L:=L) (X:=X)) :=
  initRoutes Allow authPlugin serve (m_enforceRoles f) (UseRateLimit (g_limits g))
    (m_timerangeLimit f) (m_importerURL f).
End startup.

(** ** What a started gateway has *)

Section spec.
Context {L X P : Type} (Allow : L → L * bool) `{!AuthPlugin P}.
Context (NewLimiter : Z → Z → L).
Context (ParseURL : string → option URL) (ParseNDuration : string → option Z).

Lemma configure_limits_nonempty l (m m' : gmap Z L) :
  configure_limits NewLimiter l m = (m', None) → size m ≤ size m' ∧ (l ≠ [] → 0 < size m').
Proof.
  revert m. induction l as [|s l IH]; intros m; cbn; [by intros [= <-]|].
  destruct (parse_limit s) as [[o r]|e|] eqn:Ep; [|done|].
  - intros [H1 _]%IH. assert (size m ≤ size (<[o := NewLimiter r r]> m) ∧
      0 < size (<[o := NewLimiter r r]> m)).
    { rewrite map_size_insert. destruct (m !! o) eqn:Eo; cbn; [|lia]. split; [lia|].
      assert (size m ≠ 0); [|lia]. apply map_size_ne_0_lookup. eauto. }
    split; lia.
  - exfalso. revert Ep. unfold parse_limit. destruct (SplitN2 ":" s) as [|a [|b [|]]]; try done.
    by destruct (ParseInt a 32), (ParseInt b 32).
Qed.

Lemma start_limits_used f (m : gmap Z L) :
  start_limits NewLimiter f = Ok m → UseRateLimit m = bool_decide (m_rateLimits f ≠ "").
Proof.
  unfold start_limits, ConfigureRateLimits, UseRateLimit. case_bool_decide as H0.
  - intros [= <-]. apply strlen_0 in H0. rewrite H0. by rewrite map_size_empty.
  - destruct (configure_limits _ _ _) as [m1 [e|]] eqn:Ec; [done|]. intros [= <-].
    apply configure_limits_nonempty in Ec as [_ Hs].
    rewrite !bool_decide_eq_true_2; [done| |].
    + intros E. apply H0. by apply strlen_0.
    + apply Hs. destruct (Split_cons ";" (m_rateLimits f)) as (x & xs & ->). done.
Qed.

Ltac bind_inv H x Hx :=
  match type of H with
  | mbind _ ?m = Ok _ => destruct m as [x|?|] eqn:Hx; cbn [mbind outcome_bind] in H; [|done|done]
  end.

(** C35. A gateway that starts is the one its flags describe (dur.ParseNDuration
    gives no duration of zero): POST /metrics is rate limited exactly if limits
    are given; graphite queries are checked exactly if a time range is given, and
    then against a limit that is not zero; imports are routed, to an importer,
    exactly if one is given; with TLS the certificate and the key are named and
    their files are good; the carbon input runs exactly if it is enabled, and the
    Kafka publisher exactly if publishing is. *)
Theorem started_gateway_follows_its_flags f x g authPlugin (serve : endpoint → list (handler (L:=L) (X:=X))) :
  (∀ s n, ParseNDuration s = Some n → n ≠ 0%Z) →
  main NewLimiter ParseURL ParseNDuration f x = Ok (Some g) →
  let routes := gateway_routes (P:=P) Allow f g authPlugin serve in
  let auth := first_auth authPlugin in
  let roles := if m_enforceRoles f then [RequirePublisher] else [] in
  let limiter := if bool_decide (m_rateLimits f ≠ "") then [IngestRateLimiter Allow] else [] in
  let checked := bool_decide (m_timerangeLimit f ≠ "") in
  (∃ r, r ∈ routes ∧ r_method r = "POST" ∧ r_pattern r = "/metrics" ∧
     r_chain r = auth "write" false :: roles ++ limiter ++ serve Metrics) ∧
  (∃ r, r ∈ routes ∧ r_pattern r = "/graphite/*" ∧
     r_chain r = auth "read" false :: roles ++ serve (GraphiteProxy checked)) ∧
  checked = bool_decide (g_timerange g ≠ 0%Z) ∧
  (Exists (λ r, r_pattern r = "/metrics/import") routes ↔ m_importerURL f ≠ "") ∧
  (is_Some (g_importer g) ↔ m_importerURL f ≠ "") ∧
  (m_ssl f = true → m_certFile f ≠ "" ∧ m_keyFile f ≠ "" ∧ x_keypair_ok x = true) ∧
  (is_Some (g_carbon g) ↔ m_carbon f = true) ∧
  (is_Some (g_kafka g) ↔ f_enabled (m_kafka f) = true).
Proof.
  intros Hn H. unfold main in H. bind_inv H y Hy. destruct (m_showVersion f); [done|].
  bind_inv H y0 Hy0. bind_inv H kafka Hk. bind_inv H limit Hl. bind_inv H graphite Hg.
  bind_inv H metrictank Hm. bind_inv H importer Hi. bind_inv H limits Hlim. bind_inv H plugin Hp.
  bind_inv H started Hst.   bind_inv H carbon Hc. injection H as <-. cbn zeta. cbn [g_timerange g_importer g_carbon g_kafka].
  apply start_limits_used in Hlim.
  assert (Hs : ∀ s, bool_decide (0 < strlen s) = bool_decide (s ≠ "")).
  { intros s. apply bool_decide_ext. rewrite <- strlen_0. lia. }
  split_and!.
  - eexists. split; [apply list_elem_of_lookup; by exists 4|]. split_and!; [done|done|].
    cbn. rewrite GenerateHandlers_eq, Hlim, andb_true_r. done.
  - eexists. split; [apply list_elem_of_lookup; by exists 3|]. split; [done|].
    cbn. rewrite GenerateHandlers_eq, andb_false_r, Hs. done.
  - revert Hl. unfold start_timerange. rewrite Hs. destruct (bool_decide (m_timerangeLimit f ≠ "")).
    + destruct (ParseNDuration (m_timerangeLimit f)) eqn:En; [|done]. intros [= <-].
      apply Hn in En. by rewrite bool_decide_eq_true_2.
    + intros [= <-]. done.
  - unfold gateway_routes, initRoutes. rewrite (Hs (m_importerURL f)). rewrite Exists_app.
    destruct (bool_decide (m_importerURL f ≠ "")) eqn:E;
      [apply bool_decide_eq_true in E|apply bool_decide_eq_false in E].
    + split; [done|]. intros _. right. apply Exists_cons. by left.
    + split; [|done]. intros [Hx|Hx]; [|by apply Exists_nil in Hx].
      exfalso. revert Hx. rewrite !Exists_cons, Exists_nil. cbn. naive_solver.
  - revert Hi. unfold start_importer. rewrite Hs. destruct (bool_decide (m_importerURL f ≠ "")) eqn:E;
      [apply bool_decide_eq_true in E|apply bool_decide_eq_false in E].
    + destruct (ParseURL (m_importerURL f)); [|done]. intros [= <-]. split; [done|]. by eexists.
    + intros [= <-]. split; [by intros []|done].
  - intros Hssl. revert Hp. unfold NewApi, need. rewrite Hssl. cbn [andb].
    revert Hst. unfold StartApi, need. rewrite Hssl. destruct (x_keypair_ok x); [|done]. intros _.
    repeat case_bool_decide; cbn; done.
  - revert Hc. unfold start_carbon. destruct (m_carbon f); cbn [negb].
    + intros Hc. bind_inv Hc k Ek. bind_inv Hc u Eu. injection Hc as <-. split; [done|]. by eexists.
    + intros [= <-]. split; [by intros []|done].
  - revert Hk. unfold start_kafka. destruct (f_enabled (m_kafka f)) eqn:Ef.
    + destruct (New _ _ _ _) as [p|e|] eqn:En; [|done|done]. intros [= <-].
      split; [done|]. intros _. revert En. unfold New. rewrite Ef. cbn [negb].
      intros En. repeat (let z := fresh in let Ez := fresh in bind_inv En z Ez).
      injection En as <-. by eexists.
    + unfold New. rewrite Ef. cbn. intros [= <-]. split; [by intros []|done].
Qed.
End spec.

(** ** Witness *)

Definition ex_kafka_flags : kafka_flags :=
  mkFlags "mdm" "" [] "" "snappy" false false false "bySeries" 50 5000 true 3600 "0.10.0.0".
Definition ex_kafka_env : kafka_env := mkEnv true true true (λ _, true) true true (λ _, Some [0%Z]).
Definition ex_main_flags : main_flags :=
  mkMainFlags false "file" true "localhost:9092" "http://graphite" "http://mt" "" "30d" "22:1000"
    false "" "" true "file" ex_kafka_flags.
Definition ex_main_env : main_env := mkMainEnv true true ex_kafka_env true true true.
Definition ex_ParseURL (s : string) : option URL := Some (mkURL "http" s "/").
Definition ex_ParseN (s : string) : option Z := if bool_decide (s = "30d") then Some 2592000%Z else None.

Lemma started_gateway_follows_its_flags_witness :
  match main (λ r _, r) ex_ParseURL ex_ParseN ex_main_flags ex_main_env with
  | Ok (Some g) => g_timerange g = 2592000%Z ∧
      ∃ r, r ∈ gateway_routes (P:=FileAuth) (AuthPlugin0:=ex_plugin) ex_allow ex_main_flags g ex_file
                 (λ _, [count_call]) ∧
        r_chain r = [Auth (AuthPlugin0:=ex_plugin) ex_file; RequirePublisher; IngestRateLimiter ex_allow;
                     count_call]
  | _ => False
  end.
Proof.
  assert (Hr : match main (λ r _, r) ex_ParseURL ex_ParseN ex_main_flags ex_main_env with
    | Ok (Some g) => g_timerange g = 2592000%Z | _ => False end) by (vm_compute; reflexivity).
  destruct (main (λ r _, r) ex_ParseURL ex_ParseN ex_main_flags ex_main_env) as [[g|]| |] eqn:E;
    [|destruct Hr..].
  split; [exact Hr|].
  assert (Hn : ∀ s n, ex_ParseN s = Some n → n ≠ 0%Z).
  { intros s n. unfold ex_ParseN. case_bool_decide; [|discriminate]. by intros [= <-]. }
  destruct (started_gateway_follows_its_flags (P:=FileAuth) (AuthPlugin0:=ex_plugin) ex_allow
    (λ r _, r) ex_ParseURL ex_ParseN ex_main_flags ex_main_env g ex_file (λ _, [count_call]) Hn E)
    as [(r & H1 & _ & _ & H2) _].
  exists r. split; [exact H1|]. rewrite H2. reflexivity.
Defined.
