(* ===== verification/Flags.v ===== *)
(** * The flags of both commands

    The [flag] package of the standard library as the commands use it, and the
    vendored globalconf on top: a flag is set from the command line, else from
    the environment, else from the configuration file, else it keeps its
    default. Then the flags that the packages register, with their defaults, and
    the settings of Startup.v and Gcom.v read from them. The ini parser and
    [time.ParseDuration] are parameters. *)

From S2P Require Import Prelude GoStrings Strconv Util Schema KeyCache Kafka Http Gcom AuthPlugins Ingest Api ApiSpec Query Cmd Startup.
From Stdlib Require Import Ascii.

(** ** Values *)

(** A value of a flag by its type; a duration in nanoseconds. *)
Inductive flag_value :=
| VString (s : string) | VBool (b : bool) | VInt (z : Z) | VDuration (ns : Z) | VOrgIds (l : list Z).

#[export] Instance flag_value_eq_dec : EqDecision flag_value.
Proof. solve_decision. Defined.

Definition ParseBool (s : string) : option bool :=
  if bool_decide (s ∈ ["1"; "t"; "T"; "true"; "TRUE"; "True"]) then Some true
  else if bool_decide (s ∈ ["0"; "f"; "F"; "false"; "FALSE"; "False"]) then Some false
  else None.

(** [strconv.ParseInt(s, 0, 64)]: the base is that of the prefix. *)
Definition base_digit (base : Z) (c : ascii) : option Z :=
  let v := byte_val c in
  (let d := if decide (48 ≤ v ≤ 57) then v - 48
            else if decide (97 ≤ v ≤ 122) then v - 97 + 10
            else if decide (65 ≤ v ≤ 90) then v - 65 + 10 else base in
   if decide (d < base) then Some d else None)%Z.

Fixpoint base_digits (base acc : Z) (s : string) : option Z :=
  match s with
  | "" => Some acc
  | String c s' => d ← base_digit base c; base_digits base (acc * base + d)%Z s'
  end.

Definition unsigned0 (s : string) : option Z :=
  match s with
  | "" => None
  | String "0" (String "x" s') | String "0" (String "X" s') =>
      if bool_decide (s' = "") then None else base_digits 16 0 s'
  | String "0" s' => base_digits 8 0 s'
  | _ => base_digits 10 0 s
  end.

Definition ParseInt0 (s : string) : option Z :=
  match s with
  | String "-" s' => n ← unsigned0 s'; if decide (n ≤ 2 ^ 63)%Z then Some (- n)%Z else None
  | String "+" s' => n ← unsigned0 s'; if decide (n < 2 ^ 63)%Z then Some n else None
  | _ => n ← unsigned0 s; if decide (n < 2 ^ 63)%Z then Some n else None
  end.

(** The flags by name, each with whether it was set. *)
Abbreviation flagset := (gmap string (flag_value * bool)).

Section flags.
Context (ParseDuration : string → option Z).

(** [Value.Set] *)
Definition set_value (s : string) (v : flag_value) : option flag_value :=
  match v with
  | VString _ => Some (VString s)
  | VBool _ => VBool <$> ParseBool s
  | VInt _ => VInt <$> ParseInt0 s
  | VDuration _ => VDuration <$> ParseDuration s
  | VOrgIds l => match FlagSet l s with (l', None) => Some (VOrgIds l') | _ => None end
  end.

(** ** The command line

    Every error ends the process with status 2. *)

Inductive flag_error := BadSyntax | Help | NotDefined (name : string) | NeedsArgument (name : string)
  | InvalidValue (name : string).

Definition register (l : list (string * flag_value)) : flagset :=
  list_to_map ((λ '(n, v), (n, (v, false))) <$> l).

Definition Set_ (name value : string) (fs : flagset) : outcome flag_error flagset :=
  match fs !! name with
  | None => Err (NotDefined name)
  | Some (v, _) =>
      match set_value value v with
      | Some v' => Ok (<[name := (v', true)]> fs)
      | None => Err (InvalidValue name)
      end
  end.

(** [name=value], cut at the first [=] after the first byte. *)
Definition cut_name (name : string) : string * option string :=
  match name with
  | "" => ("", None)
  | String c s =>
      match IndexByte "=" s with
      | None => (name, None)
      | Some i => (String c (take_str i s), Some (drop_str (S i) s))
      end
  end.

(** The name after the minuses; [None]: this argument is no flag. *)
Definition flag_text (s : string) : option string :=
  match s with
  | String a (String b name) =>
      if bool_decide (a ≠ "-"%char) then None
      else if bool_decide (b = "-"%char) then Some name else Some (String b name)
  | _ => None
  end.

Definition bad_name (name : string) : bool :=
  match name with "" => true | String c _ => bool_decide (c = "-"%char ∨ c = "="%char) end.

(** [flag.Parse]: up to the first argument that is no flag, or "--". *)
Fixpoint parse_args (args : list string) (fs : flagset) : outcome flag_error flagset :=
  match args with
  | [] => Ok fs
  | s :: rest =>
      if bool_decide (s = "--") then Ok fs else
      match flag_text s with
      | None => Ok fs
      | Some text =>
          if bad_name text then Err BadSyntax else
          let '(name, value) := cut_name text in
          match fs !! name with
          | None => if bool_decide (name = "help" ∨ name = "h") then Err Help else Err (NotDefined name)
          | Some (v, _) =>
              match v, value with
              | VBool _, None => fs' ← Set_ name "true" fs; parse_args rest fs'
              | _, Some x => fs' ← Set_ name x fs; parse_args rest fs'
              | _, None =>
                  match rest with
                  | [] => Err (NeedsArgument name)
                  | x :: rest' => fs' ← Set_ name x fs; parse_args rest' fs'
                  end
              end
          end
      end
  end.

(** ** globalconf *)

Fixpoint ToUpper (s : string) : string :=
  match s with "" => "" | String c s' => String (upper c) (ToUpper s') end.

Definition env_key (prefix flagName : string) : string :=
  ToUpper (prefix +:+ Replace (Replace flagName "." "_") "-" "_").

Definition getEnv (env : gmap string string) (prefix flagName : string) : option string :=
  if bool_decide (prefix = "") then None else env !! env_key prefix flagName.

(** What the environment, else the file, has for a flag. *)
Definition from_outside (env file : gmap string string) (name : string) : option string :=
  match getEnv env "GW_" name with Some v => Some v | None => file !! name end.

(** [Parse]. A value that cannot be set ends the process; the order of [VisitAll]
    only says which of several is complained of. *)
Definition parse_conf (env file : gmap string string) (fs : flagset) : outcome flag_error flagset :=
  foldr (λ '(name, (v, set)) r,
      fs' ← r;
      if set : bool then mret fs' else
      match from_outside env file name with
      | None => mret fs'
      | Some s => Set_ name s fs'
      end) (Ok fs) (map_to_list fs).

(** [os.Stat] and [ini.Load] of a path. *)
Inductive conf_file := Missing | Broken | Conf (d : gmap string string).

Definition get_string (name : string) (fs : flagset) : string :=
  match fs !! name with Some (VString s, _) => s | _ => "" end.
Definition get_bool (name : string) (fs : flagset) : bool :=
  match fs !! name with Some (VBool b, _) => b | _ => false end.
Definition get_int (name : string) (fs : flagset) : Z :=
  match fs !! name with Some (VInt z, _) => z | Some (VDuration z, _) => z | _ => 0%Z end.
Definition get_orgs (name : string) (fs : flagset) : list Z :=
  match fs !! name with Some (VOrgIds l, _) => l | _ => [] end.

(** The start of both [main]s: the path of the file is read before the
    environment and the file are. [None]: the file is there and wrong. *)
Definition read_flags (registered : list (string * flag_value)) (args : list string)
    (env : gmap string string) (load : string → conf_file) : outcome (option flag_error) flagset :=
  match parse_args args (register registered) with
  | Ok fs =>
      match load (get_string "config" fs) with
      | Broken => Err None
      | Missing => match parse_conf env ∅ fs with Ok fs' => Ok fs' | Err e => Err (Some e) | Panic => Panic end
      | Conf d => match parse_conf env d fs with Ok fs' => Ok fs' | Err e => Err (Some e) | Panic => Panic end
      end
  | Err e => Err (Some e)
  | Panic => Panic
  end.
End flags.

(** ** What the packages register *)

Definition ms (n : Z) : flag_value := VDuration (n * 1000000).
Definition sec (n : Z) : flag_value := ms (n * 1000).

Definition log_flags : list (string * flag_value) := [("log-level", VInt 2)].
Definition auth_flags : list (string * flag_value) :=
  [("admin-key", VString "not_very_secret_key"); ("auth-file-path", VString "/etc/gw/auth.ini")].
Definition gcom_registered : list (string * flag_value) :=
  [("auth-endpoint", VString "https://grafana.com"); ("auth-cache-ttl", sec 3600);
   ("auth-valid-org-id", VOrgIds []); ("auth-valid-instance-type", VString "");
   ("auth-valid-cluster-id", VInt 0); ("auth-validation-dry-run", VBool true)].
Definition kafka_registered : list (string * flag_value) :=
  [("metrics-topic", VString "mdm"); ("rewrite-org-id", VString ""); ("only-org-id", VOrgIds []);
   ("discard-prefixes", VString ""); ("metrics-kafka-comp", VString "snappy"); ("metrics-publish", VBool false);
   ("metrics-partition-scheme", VString "bySeries"); ("metrics-flush-freq", ms 50);
   ("metrics-max-messages", VInt 5000); ("schemas-file", VString "/etc/gw/storage-schemas.conf");
   ("v2", VBool true); ("v2-org", VBool true); ("kafka-ssl", VBool false); ("kafka-ssl-skipverify", VBool false);
   ("kafka-ssl-clientcrt", VString ""); ("kafka-ssl-clientkey", VString ""); ("v2-clear-interval", sec 3600);
   ("kafka-version", VString "0.10.0.0")].
Definition api_registered : list (string * flag_value) :=
  [("addr", VString ":80"); ("ssl", VBool false); ("cert-file", VString ""); ("key-file", VString "")].
Definition carbon_registered : list (string * flag_value) :=
  [("carbon-enabled", VBool false); ("carbon-addr", VString "0.0.0.0:2003"); ("carbon-auth-plugin", VString "file");
   ("carbon-flush-interval", sec 1); ("carbon-concurrency", VInt 1); ("carbon-buffer-size", VInt 100000);
   ("carbon-non-blocking-buffer", VBool false)].
Definition main_registered : list (string * flag_value) :=
  [("version", VBool false); ("api-auth-plugin", VString "grafana"); ("enforce-roles", VBool false);
   ("config", VString "/etc/gw/tsdb-gw.ini"); ("kafka-tcp-addr", VString "localhost:9092");
   ("graphite-url", VString "http://localhost:8080"); ("metrictank-url", VString "http://localhost:6060");
   ("importer-url", VString ""); ("stats-enabled", VBool false);
   ("stats-prefix", VString "tsdb-gw.stats.default.$hostname"); ("stats-addr", VString "localhost:2003");
   ("stats-interval", VInt 10); ("stats-buffer-size", VInt 20000); ("stats-timeout", sec 10);
   ("tracing-enabled", VBool false); ("tracing-addr", VString "localhost:6831"); ("timerange-limit", VString "");
   ("rate-limits", VString ""); ("metrics-addr", VString ":8001")].

(** tsdb-gw *)
Definition gateway_flags : list (string * flag_value) :=
  main_registered ++ log_flags ++ auth_flags ++ gcom_registered ++ kafka_registered ++ api_registered ++ carbon_registered.

Definition client_registered : list (string * flag_value) :=
  [("gateway-addr", VString "localhost:80/metrics"); ("gateway-key", VString "not_very_secret_key")].
Definition storage_registered : list (string * flag_value) :=
  [("bigtable-project", VString "persister"); ("bigtable-instance", VString "persister");
   ("bigtable-tablename", VString "persister"); ("bigtable-prefix", VString "")].
Definition persister_registered : list (string * flag_value) :=
  [("persister-interval", VInt 60); ("persister-buffer-size", VInt 1000)] ++ client_registered ++ storage_registered.

(** persister-gw *)
Definition persister_flags : list (string * flag_value) :=
  [("version", VBool false); ("config", VString "/etc/gw/persister-gw.ini"); ("addr", VString "0.0.0.0:80")] ++
  log_flags ++ persister_registered.

(** ** The settings of the components *)

(** Durations are passed on as they are. *)
Definition kafka_settings (fs : flagset) : kafka_flags :=
  mkFlags (get_string "metrics-topic" fs) (get_string "rewrite-org-id" fs) (get_orgs "only-org-id" fs)
    (get_string "discard-prefixes" fs) (get_string "metrics-kafka-comp" fs) (get_bool "metrics-publish" fs)
    (get_bool "kafka-ssl" fs) (get_bool "kafka-ssl-skipverify" fs) (get_string "metrics-partition-scheme" fs)
    (get_int "metrics-flush-freq" fs) (get_int "metrics-max-messages" fs) (get_bool "v2" fs)
    (get_int "v2-clear-interval" fs) (get_string "kafka-version" fs).

Definition main_settings (fs : flagset) : main_flags :=
  mkMainFlags (get_bool "version" fs) (get_string "api-auth-plugin" fs) (get_bool "enforce-roles" fs)
    (get_string "kafka-tcp-addr" fs) (get_string "graphite-url" fs) (get_string "metrictank-url" fs)
    (get_string "importer-url" fs) (get_string "timerange-limit" fs) (get_string "rate-limits" fs)
    (get_bool "ssl" fs) (get_string "cert-file" fs) (get_string "key-file" fs)
    (get_bool "carbon-enabled" fs) (get_string "carbon-auth-plugin" fs) (kafka_settings fs).

Definition gcom_settings (fs : flagset) : gcom_flags :=
  mkGcomFlags (get_orgs "auth-valid-org-id" fs) (get_string "auth-valid-instance-type" fs)
    (get_int "auth-valid-cluster-id" fs) (get_bool "auth-validation-dry-run" fs).

(** ** The address the persister pushes to

    [getscheme] of net/url, and the transport of net/http, which knows two
    schemes: for another it returns an error without a request. *)

Definition scheme_letter (c : ascii) : bool :=
  let v := byte_val c in bool_decide (97 ≤ v ≤ 122)%Z || bool_decide (65 ≤ v ≤ 90)%Z.
Definition scheme_other (c : ascii) : bool :=
  let v := byte_val c in bool_decide (48 ≤ v ≤ 57)%Z || bool_decide (c ∈ ["+"; "-"; "."]%char).

(** [None]: no scheme before the colon. *)
Fixpoint getscheme_go (i : nat) (read rawurl rest : string) : option (string * string) :=
  match rest with
  | "" => Some ("", rawurl)
  | String c rest' =>
      if scheme_letter c then getscheme_go (S i) (read +:+ String c "") rawurl rest'
      else if scheme_other c then
        if bool_decide (i = 0) then Some ("", rawurl) else getscheme_go (S i) (read +:+ String c "") rawurl rest'
      else if bool_decide (c = ":"%char) then if bool_decide (i = 0) then None else Some (read, rest')
      else Some ("", rawurl)
  end.
Definition getscheme (rawurl : string) : option (string * string) := getscheme_go 0 "" rawurl rawurl.

(** [client.Do] to an address, over the [network]. *)
Definition http_transport {R N} (addr : string) (network : R → N → N * option Z) (r : R) (n : N) : N * option Z :=
  match getscheme addr with
  | Some (s, _) => if bool_decide (lower_str s ∈ ["http"; "https"]) then network r n else (n, None)
  | None => (n, None)
  end.
