(* ===== verification/FlagsSpec.v ===== *)
(** * What a command makes of its flags

    Which source a flag's value comes from, that every flag can be set from the
    command line and by its own variable, and what the defaults amount to: the
    gateway that starts with no configuration at all, and the persister. *)

From S2P Require Import Prelude GoStrings Strconv Util Schema KeyCache Kafka KafkaSpec Http Gcom AuthPlugins Ingest IngestSpec Api ApiSpec Query Cmd Startup Datadog Persister Flags.
From Stdlib Require Import Ascii.

Section spec.
Context (ParseDuration : string → option Z).
#[local] Abbreviation set_value := (set_value ParseDuration).
#[local] Abbreviation Set_ := (Set_ ParseDuration).
#[local] Abbreviation parse_args := (parse_args ParseDuration).
#[local] Abbreviation parse_conf := (parse_conf ParseDuration).
#[local] Abbreviation read_flags := (read_flags ParseDuration).

(** ** Lemmas *)

Lemma Set_Ok name s fs fs' :
  Set_ name s fs = Ok fs' → ∃ v b v', fs !! name = Some (v, b) ∧ set_value s v = Some v' ∧ fs' = <[name := (v', true)]> fs.
Proof.
  unfold Flags.Set_. destruct (fs !! name) as [[v b]|]; [|done].
  destruct (set_value s v) as [v'|] eqn:E; [|done]. intros [= <-]. by exists v, b, v'.
Qed.

(** The value a flag has after the environment and the file were read. *)
Definition settled (env file : gmap string string) (name : string) (v : flag_value) (set : bool)
    (r : option (flag_value * bool)) : Prop :=
  if set then r = Some (v, true)
  else match from_outside env file name with
       | None => r = Some (v, false)
       | Some s => ∃ v', set_value s v = Some v' ∧ r = Some (v', true)
       end.

Lemma parse_conf_settled env file fs fs' name v set :
  parse_conf env file fs = Ok fs' → fs !! name = Some (v, set) → settled env file name v set (fs' !! name).
Proof.
  intros H Hn. unfold Flags.parse_conf in H.
  assert (Hin : (name, (v, set)) ∈ map_to_list fs) by (by apply elem_of_map_to_list). revert Hin.
  assert (Hall : ∀ n x, (n, x) ∈ map_to_list fs → fs !! n = Some x) by (intros n x; apply elem_of_map_to_list).
  pose proof (NoDup_fst_map_to_list fs) as Hnd. revert fs' H Hall Hnd.
  induction (map_to_list fs) as [|[n [v0 set0]] l IH]; intros fs' H Hall Hnd Hin; [by apply elem_of_nil in Hin|].
  cbn [foldr] in H. match type of H with (?m ≫= _) = _ => destruct m as [fs1|e|] eqn:E1 end; [|done|done].
  cbn [mbind outcome_bind] in H. cbn in Hnd. apply NoDup_cons in Hnd as [Hnew Hnd].
  assert (Hall' : ∀ n x, (n, x) ∈ l → fs !! n = Some x) by (intros; apply Hall; by right).
  assert (Hkeep : fs1 !! n = fs !! n).
  { clear -E1 Hnew. revert fs1 E1. induction l as [|[m [w b]] l IH]; intros fs1 E1; [by injection E1 as <-|].
    cbn [foldr] in E1. match type of E1 with (?k ≫= _) = _ => destruct k as [fs2|e|] eqn:E2 end; [|done|done].
    cbn [mbind outcome_bind] in E1. cbn in Hnew. apply not_elem_of_cons in Hnew as [Hne Hnew].
    specialize (IH Hnew fs2 eq_refl). destruct b; [by injection E1 as <-|].
    destruct (from_outside env file m); [|by injection E1 as <-].
    apply Set_Ok in E1 as (? & ? & ? & _ & _ & ->). by rewrite lookup_insert_ne. }
  destruct (decide (name = n)) as [->|Hne].
  - assert (v0 = v ∧ set0 = set) as [-> ->].
    { assert (E : fs !! n = Some (v0, set0)) by (apply Hall; left). rewrite Hn in E. by injection E as -> ->. }
    unfold settled. destruct set; [injection H as <-; by rewrite Hkeep|].
    destruct (from_outside env file n) as [s|]; [|injection H as <-; by rewrite Hkeep].
    apply Set_Ok in H as (v1 & b & v' & E & Es & ->). rewrite Hkeep, Hn in E. injection E as <- <-.
    exists v'. split; [done|]. by rewrite lookup_insert_eq.
  - apply elem_of_cons in Hin as [Hin|Hin]; [congruence|].
    specialize (IH fs1 eq_refl Hall' Hnd Hin). destruct set0; [by injection H as <-|].
    destruct (from_outside env file n); [|by injection H as <-].
    apply Set_Ok in H as (? & ? & ? & _ & _ & ->). by rewrite lookup_insert_ne.
Qed.

(** ** Properties *)

(** C34. Where a flag's value comes from. A flag given on the command line has that
    value, else it is set from its GW_ variable, else from the file, else it
    keeps its default; and the file that is read is the one the command line (or
    the default) names: neither the environment nor the file itself can name
    another. *)
Theorem flags_have_their_precedence registered args env load fs :
  read_flags registered args env load = Ok fs →
  ∃ given file, parse_args args (register registered) = Ok given ∧
    (load (get_string "config" given) = Conf file ∨ load (get_string "config" given) = Missing ∧ file = ∅) ∧
    ∀ name v set, given !! name = Some (v, set) → settled env file name v set (fs !! name).
Proof.
  unfold Flags.read_flags. destruct (parse_args args (register registered)) as [given|e|]; [|done|done].
  destruct (load (get_string "config" given)) as [| |file] eqn:El; [|done|].
  - destruct (parse_conf env ∅ given) as [fs1|e|] eqn:Ep; [|done|done]. intros [= <-].
    exists given, ∅. split_and!; [done|by right|]. intros. by eapply parse_conf_settled.
  - destruct (parse_conf env file given) as [fs1|e|] eqn:Ep; [|done|done]. intros [= <-].
    exists given, file. split_and!; [done|by left|]. intros. by eapply parse_conf_settled.
Qed.

(** A name that can be written on the command line. *)
Definition good_name (n : string) : Prop :=
  n ≠ "" ∧ has_byte "=" n = false ∧ HasPrefix n "-" = false.
Definition assignment (a : string * string) : string := "-" +:+ a.1 +:+ "=" +:+ a.2.

(** Setting in order, the last value of a flag stays. *)
Fixpoint set_all (l : list (string * string)) (fs : flagset) : outcome flag_error flagset :=
  match l with
  | [] => Ok fs
  | (n, s) :: l' => fs' ← Set_ n s fs; set_all l' fs'
  end.

Lemma cut_assignment n s : good_name n → cut_name (n +:+ "=" +:+ s) = (n, Some s).
Proof.
  intros (H0 & He & _). destruct n as [|c n]; [done|]. cbn [has_byte] in He. apply orb_false_iff in He as [_ He].
  change (String c n +:+ "=" +:+ s) with (String c (n +:+ String "=" s)). cbn [cut_name].
  rewrite IndexByte_app by done. rewrite take_str_app. f_equal. f_equal.
  change (String "=" s) with ("=" +:+ s). rewrite <- str_app_assoc.
  replace (S (strlen n)) with (strlen (n +:+ "=")) by (rewrite strlen_app; cbn; lia). apply drop_str_app.
Qed.

(** Every value can be given on the command line: assignments written as
    -name=value, whatever bytes the values hold, are read back as those
    assignments, in order, so that the last one of a flag stays. *)
Theorem assignments_are_read_back l fs :
  Forall (λ a, good_name a.1 ∧ is_Some (fs !! a.1)) l → parse_args (assignment <$> l) fs = set_all l fs.
Proof.
  revert fs. induction l as [|[n s] l IH]; intros fs H; [done|].
  apply Forall_cons in H as [[Hg [[v b] Hn]] H]. cbn [fst] in *.
  cbn [fmap list_fmap Flags.parse_args set_all].
  pose proof Hg as (H0 & He & Hp). destruct n as [|c n]; [done|].
  assert (Hc : c ≠ "-"%char ∧ c ≠ "="%char).
  { cbn [has_byte HasPrefix] in He, Hp. apply orb_false_iff in He as [He _]. apply bool_decide_eq_false in He.
    destruct n; apply andb_false_iff in Hp as [Hp|Hp]; try done; apply bool_decide_eq_false in Hp; split; congruence. }
  assert (Et : flag_text (assignment (String c n, s)) = Some (String c n +:+ "=" +:+ s)).
  { change (assignment (String c n, s)) with (String "-" (String c (n +:+ "=" +:+ s))). cbn [flag_text].
    rewrite bool_decide_eq_false_2 by (intros H'; by apply H'). by rewrite bool_decide_eq_false_2 by apply Hc. }
  rewrite Et. rewrite (bool_decide_eq_false_2 (_ = "--")); [|change (assignment (String c n, s)) with (String "-" (String c (n +:+ "=" +:+ s)));
    intros [= E' _]; by apply (proj1 Hc)].
  assert (Eb : bad_name (String c n +:+ "=" +:+ s) = false)
    by (change (bad_name (String c n +:+ "=" +:+ s)) with (bool_decide (c = "-"%char ∨ c = "="%char));
        apply bool_decide_eq_false; tauto).
  rewrite Eb, cut_assignment, Hn by done.
  transitivity (fs' ← Set_ (String c n) s fs; parse_args (assignment <$> l) fs'); [by destruct v|].
  destruct (Set_ (String c n) s fs) as [fs'|e|] eqn:Es; [|done|done]. cbn [mbind outcome_bind].
  apply IH. apply Set_Ok in Es as (? & ? & ? & _ & _ & ->). eapply Forall_impl; [exact H|].
  intros [m t] [Hm [y Hy]]. split; [done|]. cbn in *. destruct (decide (m = String c n)) as [->|].
  - rewrite lookup_insert_eq. by eexists.
  - rewrite lookup_insert_ne by done. by eexists.
Qed.
End spec.

(** Every flag of a command has a name of its own and a variable of its own: no
    variable sets two flags. *)
Lemma flags_have_their_own_variables l :
  l = gateway_flags ∨ l = persister_flags → NoDup l.*1 ∧ NoDup (env_key "GW_" <$> l.*1).
Proof. intros [-> | ->]; split; apply (bool_decide_unpack _); by vm_compute. Qed.

(** *** The defaults *)

Lemma parse_conf_nothing ParseDuration fs : parse_conf ParseDuration ∅ ∅ fs = Ok fs.
Proof.
  unfold parse_conf. induction (map_to_list fs) as [|[n [v set]] l IH]; [done|]. cbn [foldr]. rewrite IH.
  cbn [mbind outcome_bind]. unfold from_outside, getEnv. rewrite bool_decide_eq_false_2 by done.
  rewrite !lookup_empty. by destruct set.
Qed.

Lemma read_no_flags ParseDuration l load :
  load (get_string "config" (register l)) = Missing → read_flags ParseDuration l [] ∅ load = Ok (register l).
Proof. intros H. unfold read_flags. cbn [parse_args]. by rewrite H, parse_conf_nothing. Qed.

Section defaults.
Context {L X P : Type} (Allow : L → L * bool) `{!AuthPlugin P} (NewLimiter : Z → Z → L).
Context (ParseURL : string → option URL) (ParseNDuration ParseDuration : string → option Z).

(** The gateway nobody configured. Without arguments, variables and file it
    starts, with grafana.com's users, without the Kafka publisher and without a
    carbon input; on no route does a role or a rate limit stand between an
    authenticated user and the endpoint, whatever the role; and whoever has read
    the source may be the admin, whose key is the default. *)
Theorem the_gateway_nobody_configured load x u1 u2 authPlugin (serve : endpoint → list (handler (L:=L) (X:=X)))
    fl decode_user check_token now st :
  load "/etc/gw/tsdb-gw.ini" = Missing →
  x_config_ok x = true → x_tracer_ok x = true → x_listen_ok x = true →
  ParseURL "http://localhost:8080" = Some u1 → ParseURL "http://localhost:6060" = Some u2 →
  ∃ fs g, read_flags ParseDuration gateway_flags [] ∅ load = Ok fs ∧
    main NewLimiter ParseURL ParseNDuration (main_settings fs) x = Ok (Some g) ∧
    g = mkGateway None 0%Z u1 u2 None ∅ KGrafana None ∧
    (∀ r, r ∈ gateway_routes (P:=P) Allow (main_settings fs) g authPlugin serve →
       ∃ e, r_chain r = first_auth authPlugin (r_kind r) (r_datadog r) :: serve e) ∧
    Gcom.Auth fl decode_user check_token (get_string "admin-key" fs) "not_very_secret_key" now st =
      (st, Ok (admin_user "not_very_secret_key")).
Proof.
  intros Hload Hx1 Hx2 Hx3 Hu1 Hu2. exists (register gateway_flags).
  assert (Es : main_settings (register gateway_flags) =
    mkMainFlags false "grafana" false "localhost:9092" "http://localhost:8080" "http://localhost:6060" "" "" ""
      false "" "" false "file" (mkFlags "mdm" "" [] "" "snappy" false false false "bySeries"
        50000000 5000 true 3600000000000 "0.10.0.0")) by (vm_compute; reflexivity).
  eexists. split_and!; [apply read_no_flags; exact Hload| |reflexivity| |].
  - rewrite Es. unfold main, need. rewrite Hx1. cbn [mbind outcome_bind m_showVersion]. rewrite Hx2.
    cbn [mbind outcome_bind]. unfold start_kafka. cbn [m_kafka]. unfold New. cbn [f_enabled negb mbind outcome_bind mret outcome_ret].
    unfold start_timerange. cbn. rewrite Hu1. cbn. rewrite Hu2. cbn. rewrite Hx3. done.
  - rewrite Es. unfold gateway_routes. cbn [g_limits m_enforceRoles m_timerangeLimit m_importerURL].
    intros r Hr. apply initRoutes_chains in Hr as (rl & e & E). exists e. rewrite E, GenerateHandlers_eq. done.
  - unfold Gcom.Auth. by rewrite bool_decide_eq_true_2 by (vm_compute; reflexivity).
Qed.
End defaults.

(** The default address of the gateway, localhost:80/metrics, is none: url.Parse
    takes localhost for its scheme. A persister that is started without
    -gateway-addr fails to send every metric and every payload, before anything
    reaches the network. *)
Theorem the_default_gateway_addr_is_unusable {N} ParseDuration load
    (network : push_req → N → N * option Z) create_msg snappy key metrics (payload : string) (n : N) :
  load "/etc/gw/persister-gw.ini" = Missing →
  ∃ fs, read_flags ParseDuration persister_flags [] ∅ load = Ok fs ∧
    let client := http_transport (get_string "gateway-addr" fs) network in
    client_Push client create_msg snappy key metrics n = (n, false) ∧
    client_PushIntake client payload n = (n, Err NoResponse).
Proof.
  intros Hload. exists (register persister_flags). split; [by apply read_no_flags|].
  assert (E : ∀ r n, http_transport (get_string "gateway-addr" (register persister_flags)) network r n = (n, None))
    by (intros r n0; vm_compute; reflexivity).
  cbv zeta. split.
  - unfold client_Push, push. destruct metrics as [|m ms]; [done|]. destruct (create_msg (m :: ms)); [|done]. by rewrite E.
  - unfold client_PushIntake. by rewrite E.
Qed.

(** ** Witnesses *)

Definition ex_seconds (s : string) : option Z := if bool_decide (s = "2h") then Some 7200000000000%Z else None.
(** The enforcement of roles from the environment, the broker from the file, the
    topic from all three. *)
Definition ex_args : list string := ["-metrics-topic=mdm2"; "-only-org-id"; "33, 45"].
Definition ex_env : gmap string string :=
  <["GW_METRICS_TOPIC" := "mdm3"]> (<["GW_ENFORCE_ROLES" := "T"]> {["GW_CONFIG" := "/elsewhere.ini"]}).
Definition ex_file : gmap string string :=
  <["metrics-topic" := "mdm4"]> (<["enforce-roles" := "false"]> {["kafka-tcp-addr" := "broker:9092"]}).
Definition ex_load (path : string) : conf_file :=
  if bool_decide (path = "/etc/gw/tsdb-gw.ini") then Conf ex_file else Missing.
Definition ex_read : outcome (option flag_error) flagset := read_flags ex_seconds gateway_flags ex_args ex_env ex_load.

Lemma flags_have_their_precedence_witness :
  ∃ fs, ex_read = Ok fs ∧ get_string "metrics-topic" fs = "mdm2" ∧ get_bool "enforce-roles" fs = true ∧
    get_string "kafka-tcp-addr" fs = "broker:9092" ∧ get_orgs "only-org-id" fs = [33; 45]%Z ∧
    ∃ given file, parse_args ex_seconds ex_args (register gateway_flags) = Ok given ∧
      (ex_load (get_string "config" given) = Conf file ∨ ex_load (get_string "config" given) = Missing ∧ file = ∅).
Proof.
  assert (H : match ex_read with
    | Ok fs => bool_decide (get_string "metrics-topic" fs = "mdm2" ∧ get_bool "enforce-roles" fs = true ∧
        get_string "kafka-tcp-addr" fs = "broker:9092" ∧ get_orgs "only-org-id" fs = [33; 45]%Z)
    | _ => false end = true) by (vm_compute; reflexivity).
  destruct ex_read as [fs|e|] eqn:E; [|discriminate H|discriminate H].
  exists fs. apply bool_decide_eq_true in H as (H1 & H2 & H3 & H4).
  split_and!; [reflexivity|exact H1|exact H2|exact H3|exact H4|].
  destruct (flags_have_their_precedence ex_seconds gateway_flags ex_args ex_env ex_load fs E)
    as (given & file & G1 & G2 & _).
  exists given, file. split; [exact G1|exact G2].
Defined.

Definition ex_assignments : list (string * string) := [("addr", ":81"); ("graphite-url", "http://g?a=b"); ("addr", "=")].

Lemma assignments_are_read_back_witness :
  parse_args ex_seconds (assignment <$> ex_assignments) (register gateway_flags) =
    set_all ex_seconds ex_assignments (register gateway_flags).
Proof.
  apply (assignments_are_read_back ex_seconds ex_assignments (register gateway_flags)).
  repeat constructor; vm_compute; (discriminate || reflexivity || (eexists; reflexivity)).
Defined.

Definition ex_URL (s : string) : option URL := Some (mkURL "http" s "/").

Lemma the_gateway_nobody_configured_witness :
  ∃ fs g, read_flags ex_seconds gateway_flags [] ∅ (λ _, Missing) = Ok fs ∧
    main (λ r _, r) ex_URL ex_seconds (main_settings fs) ex_main_env = Ok (Some g) ∧ g_kafka g = None ∧
    g_carbon g = None.
Proof.
  destruct (the_gateway_nobody_configured (P:=FileAuth) (AuthPlugin0:=ex_plugin) ex_allow (λ r _, r) ex_URL ex_seconds
    ex_seconds (λ _, Missing) ex_main_env (mkURL "http" "http://localhost:8080" "/") (mkURL "http" "http://localhost:6060" "/")
    ApiSpec.ex_file (λ _, [count_call]) (mkGcomFlags [] "" 0 false) (λ _ u, Some u) (λ _, None) 0%Z
    (mkGcom (TTL.new 3600) (TTL.new 3600) []) eq_refl eq_refl eq_refl eq_refl eq_refl eq_refl)
    as (fs & g & H1 & H2 & H3 & _).
  exists fs, g. split_and!; [exact H1|exact H2|by rewrite H3|by rewrite H3].
Defined.

(** Over a network where everything is accepted. *)
Lemma the_default_gateway_addr_is_unusable_witness :
  ∃ fs, read_flags ex_seconds persister_flags [] ∅ (λ _, Missing) = Ok fs ∧
    client_Push (http_transport (get_string "gateway-addr" fs) (λ (_ : push_req) n, (S n, Some 200%Z)))
      (λ _, Some "") id "" [zero_metric] 0 = (0, false).
Proof.
  destruct (the_default_gateway_addr_is_unusable ex_seconds (λ _, Missing) (λ (_ : push_req) n, (S n, Some 200%Z))
    (λ _, Some "") id "" [zero_metric] "" 0 eq_refl) as (fs & H1 & H2 & _).
  exists fs. split; [exact H1|exact H2].
Defined.
